(** * Texture cache of the GLES backend: a model of GPU/GLES/TextureCache.cpp

    The development embeds the cache bookkeeping (decimation, invalidation,
    the lookup half of [SetTexture]), the two quick hashers, the CLUT4
    de-indexers, the DXT1 block decoder, the 8888 arm of
    [DecodeTextureLevel] and the alpha scan, and states the properties of
    the texture-cache specification over them.

    Conventions.  C integers are [Z]; where the source stores into a [u8],
    [u16], [u32] or [u64] the wrap-around is written out with [u8] .. [u64].
    Signed [int] arithmetic is left unwrapped (overflow is undefined in the
    source).  Memory is a set of byte-addressed blocks: the host view of
    guest memory, the three scratch buffers and the two palette buffers; a
    pointer is a block and a byte offset, and the [u16] and [u32] accesses
    are written out for a little-endian host. *)

From Stdlib Require Import ZArith List Bool Lia.
Import ListNotations.
Local Open Scope Z_scope.

(** ** Machine integers *)

Definition u8 (z : Z) : Z := z mod 256.
Definition u16 (z : Z) : Z := z mod 65536.
Definition u32 (z : Z) : Z := z mod 4294967296.
Definition u64 (z : Z) : Z := z mod 18446744073709551616.

(** ** Memory

    [HostMem] is the host address space that [Memory::GetPointer] points
    into, addressed by host address; every other block is one buffer owned
    by the cache, addressed from its start. *)

Inductive Block : Type :=
| HostMem
| TmpTexBuf32
| TmpTexBuf16
| TmpTexBufRearrange
| ClutBufRaw
| ClutBufConverted.

Definition Block_eqb (a b : Block) : bool :=
  match a, b with
  | HostMem, HostMem | TmpTexBuf32, TmpTexBuf32 | TmpTexBuf16, TmpTexBuf16
  | TmpTexBufRearrange, TmpTexBufRearrange | ClutBufRaw, ClutBufRaw
  | ClutBufConverted, ClutBufConverted => true
  | _, _ => false
  end.

Record Ptr : Type := mkPtr { blk : Block; ofs : Z }.

Definition Ptr_eqb (p q : Ptr) : bool :=
  Block_eqb (blk p) (blk q) && (ofs p =? ofs q).

(** [p + n] on a byte pointer. *)
Definition padd (p : Ptr) (n : Z) : Ptr := mkPtr (blk p) (ofs p + n).

(** A heap gives every byte of every block its value. *)
Definition Heap : Type := Block -> Z -> Z.

(** A load reads a byte, whatever the function behind the heap holds. *)
Definition load8 (m : Heap) (p : Ptr) : Z := u8 (m (blk p) (ofs p)).

Definition load16 (m : Heap) (p : Ptr) : Z :=
  load8 m p + 256 * load8 m (padd p 1).

Definition load32 (m : Heap) (p : Ptr) : Z :=
  load16 m p + 65536 * load16 m (padd p 2).

Definition store8 (m : Heap) (p : Ptr) (v : Z) : Heap :=
  fun b o => if Block_eqb b (blk p) && (o =? ofs p) then u8 v else m b o.

Definition store16 (m : Heap) (p : Ptr) (v : Z) : Heap :=
  store8 (store8 m p v) (padd p 1) (v / 256).

Definition store32 (m : Heap) (p : Ptr) (v : Z) : Heap :=
  store16 (store16 m p v) (padd p 2) (v / 65536).

(** [memmove(dst, src, n)]: the [n] bytes at [dst] become the bytes that
    were at [src] before the call, overlapping or not. *)
Definition memmove (m : Heap) (dst src : Ptr) (n : Z) : Heap :=
  fun b o =>
    if Block_eqb b (blk dst) && (ofs dst <=? o) && (o <? ofs dst + n)
    then m (blk src) (ofs src + (o - ofs dst))
    else m b o.

(** [memcpy] on the non-overlapping ranges the source passes it. *)
Definition memcpy (m : Heap) (dst src : Ptr) (n : Z) : Heap :=
  memmove m dst src n.

(** ** Constants of the file *)

Definition TEXTURE_KILL_AGE : Z := 200.
Definition TEXTURE_KILL_AGE_LOWMEM : Z := 60.
Definition TEXTURE_SECOND_KILL_AGE : Z := 100.
Definition TEXCACHE_DECIMATION_INTERVAL : Z := 13.

(** ** Declarations the file takes from headers that are not part of it

    [TexCacheEntry]'s status enumeration and [FRAMES_REGAIN_TRUST] are
    declared in GPU/GLES/TextureCache.h; their numeric values are taken as
    parameters.  A statement that depends on a property of the values names
    it as a hypothesis. *)

Class EntryConsts : Type := {
  STATUS_HASHING : Z;
  STATUS_RELIABLE : Z;
  STATUS_UNRELIABLE : Z;
  STATUS_MASK : Z;
  STATUS_ALPHA_UNKNOWN : Z;
  STATUS_ALPHA_FULL : Z;
  STATUS_ALPHA_SIMPLE : Z;
  STATUS_ALPHA_MASK : Z;
  FRAMES_REGAIN_TRUST : Z
}.

(** [enum GPUInvalidationType] is declared outside the file, which names
    only [GPU_INVALIDATE_ALL] and [GPU_INVALIDATE_SAFE]; the third
    constructor stands for every other value. *)
Inductive GPUInvalidationType : Type :=
| GPU_INVALIDATE_ALL
| GPU_INVALIDATE_HINT
| GPU_INVALIDATE_SAFE.

(** ** Cache entries

    The fields of [TexCacheEntry] that the file uses.  [lodBias] is a
    [float] that only ever holds the constant [0.0]; it is kept as the
    integer [0].  The record lives in a module so that a field can still be
    named where a local of the source shadows it ([Entry.addr e]). *)

Module Entry.

Record TexCacheEntry : Type := mkTexCacheEntry {
  status : Z;
  addr : Z;
  hash : Z;
  framebuffer : Z;
  sizeInRAM : Z;
  format : Z;
  dim : Z;
  bufw : Z;
  texture : Z;
  invalidHint : Z;
  fullhash : Z;
  cluthash : Z;
  maxLevel : Z;
  lodBias : Z;
  numFrames : Z;
  lastFrame : Z;
  numInvalidated : Z;
  framesUntilNextFullHash : Z;
  magFilt : Z;
  minFilt : Z;
  sClamp : bool;
  tClamp : bool
}.

Definition set_status (v : Z) (x : TexCacheEntry) : TexCacheEntry :=
  mkTexCacheEntry v (addr x) (hash x) (framebuffer x) (sizeInRAM x)
    (format x) (dim x) (bufw x) (texture x) (invalidHint x) (fullhash x)
    (cluthash x) (maxLevel x) (lodBias x) (numFrames x) (lastFrame x)
    (numInvalidated x) (framesUntilNextFullHash x) (magFilt x) (minFilt x)
    (sClamp x) (tClamp x).

Definition set_invalidHint (v : Z) (x : TexCacheEntry) : TexCacheEntry :=
  mkTexCacheEntry (status x) (addr x) (hash x) (framebuffer x) (sizeInRAM x)
    (format x) (dim x) (bufw x) (texture x) v (fullhash x) (cluthash x)
    (maxLevel x) (lodBias x) (numFrames x) (lastFrame x) (numInvalidated x)
    (framesUntilNextFullHash x) (magFilt x) (minFilt x) (sClamp x) (tClamp x).

Definition set_lodBias (v : Z) (x : TexCacheEntry) : TexCacheEntry :=
  mkTexCacheEntry (status x) (addr x) (hash x) (framebuffer x) (sizeInRAM x)
    (format x) (dim x) (bufw x) (texture x) (invalidHint x) (fullhash x)
    (cluthash x) (maxLevel x) v (numFrames x) (lastFrame x)
    (numInvalidated x) (framesUntilNextFullHash x) (magFilt x) (minFilt x)
    (sClamp x) (tClamp x).

Definition set_numFrames (v : Z) (x : TexCacheEntry) : TexCacheEntry :=
  mkTexCacheEntry (status x) (addr x) (hash x) (framebuffer x) (sizeInRAM x)
    (format x) (dim x) (bufw x) (texture x) (invalidHint x) (fullhash x)
    (cluthash x) (maxLevel x) (lodBias x) v (lastFrame x) (numInvalidated x)
    (framesUntilNextFullHash x) (magFilt x) (minFilt x) (sClamp x) (tClamp x).

Definition set_lastFrame (v : Z) (x : TexCacheEntry) : TexCacheEntry :=
  mkTexCacheEntry (status x) (addr x) (hash x) (framebuffer x) (sizeInRAM x)
    (format x) (dim x) (bufw x) (texture x) (invalidHint x) (fullhash x)
    (cluthash x) (maxLevel x) (lodBias x) (numFrames x) v (numInvalidated x)
    (framesUntilNextFullHash x) (magFilt x) (minFilt x) (sClamp x) (tClamp x).

Definition set_numInvalidated (v : Z) (x : TexCacheEntry) : TexCacheEntry :=
  mkTexCacheEntry (status x) (addr x) (hash x) (framebuffer x) (sizeInRAM x)
    (format x) (dim x) (bufw x) (texture x) (invalidHint x) (fullhash x)
    (cluthash x) (maxLevel x) (lodBias x) (numFrames x) (lastFrame x) v
    (framesUntilNextFullHash x) (magFilt x) (minFilt x) (sClamp x) (tClamp x).

Definition set_framesUntilNextFullHash (v : Z) (x : TexCacheEntry) : TexCacheEntry :=
  mkTexCacheEntry (status x) (addr x) (hash x) (framebuffer x) (sizeInRAM x)
    (format x) (dim x) (bufw x) (texture x) (invalidHint x) (fullhash x)
    (cluthash x) (maxLevel x) (lodBias x) (numFrames x) (lastFrame x)
    (numInvalidated x) v (magFilt x) (minFilt x) (sClamp x) (tClamp x).

Definition set_magFilt (v : Z) (x : TexCacheEntry) : TexCacheEntry :=
  mkTexCacheEntry (status x) (addr x) (hash x) (framebuffer x) (sizeInRAM x)
    (format x) (dim x) (bufw x) (texture x) (invalidHint x) (fullhash x)
    (cluthash x) (maxLevel x) (lodBias x) (numFrames x) (lastFrame x)
    (numInvalidated x) (framesUntilNextFullHash x) v (minFilt x) (sClamp x)
    (tClamp x).

Definition set_minFilt (v : Z) (x : TexCacheEntry) : TexCacheEntry :=
  mkTexCacheEntry (status x) (addr x) (hash x) (framebuffer x) (sizeInRAM x)
    (format x) (dim x) (bufw x) (texture x) (invalidHint x) (fullhash x)
    (cluthash x) (maxLevel x) (lodBias x) (numFrames x) (lastFrame x)
    (numInvalidated x) (framesUntilNextFullHash x) (magFilt x) v (sClamp x)
    (tClamp x).

Definition set_sClamp (v : bool) (x : TexCacheEntry) : TexCacheEntry :=
  mkTexCacheEntry (status x) (addr x) (hash x) (framebuffer x) (sizeInRAM x)
    (format x) (dim x) (bufw x) (texture x) (invalidHint x) (fullhash x)
    (cluthash x) (maxLevel x) (lodBias x) (numFrames x) (lastFrame x)
    (numInvalidated x) (framesUntilNextFullHash x) (magFilt x) (minFilt x) v
    (tClamp x).

Definition set_tClamp (v : bool) (x : TexCacheEntry) : TexCacheEntry :=
  mkTexCacheEntry (status x) (addr x) (hash x) (framebuffer x) (sizeInRAM x)
    (format x) (dim x) (bufw x) (texture x) (invalidHint x) (fullhash x)
    (cluthash x) (maxLevel x) (lodBias x) (numFrames x) (lastFrame x)
    (numInvalidated x) (framesUntilNextFullHash x) (magFilt x) (minFilt x)
    (sClamp x) v.

End Entry.
Import Entry.

(** [TexCacheEntry::Matches]. *)
Definition Matches (e : TexCacheEntry) (dim2 format2 maxLevel2 : Z) : bool :=
  (dim e =? dim2) && (format e =? format2) && (maxLevel e =? maxLevel2).

(** ** The two caches: [std::map<u64, TexCacheEntry>]

    A map is the list of its (key, entry) pairs in ascending key order, an
    iterator is a position in that list and [end()] is its length. *)

Definition TexCache : Type := list (Z * TexCacheEntry).

Fixpoint find (k : Z) (c : TexCache) : option TexCacheEntry :=
  match c with
  | [] => None
  | (k', e) :: c' => if k' =? k then Some e else find k c'
  end.

(** [c[k] = e]: replaces the entry at [k] or inserts it in key order. *)
Fixpoint assign (k : Z) (e : TexCacheEntry) (c : TexCache) : TexCache :=
  match c with
  | [] => [(k, e)]
  | (k', e') :: c' =>
      if k <? k' then (k, e) :: (k', e') :: c'
      else if k =? k' then (k, e) :: c'
      else (k', e') :: assign k e c'
  end.

(** Position of the first pair whose key is not less than [k]. *)
Fixpoint lower_bound (k : Z) (c : TexCache) : nat :=
  match c with
  | [] => O
  | (k', _) :: c' => if k' <? k then S (lower_bound k c') else O
  end.

(** Position of the first pair whose key is greater than [k]. *)
Fixpoint upper_bound (k : Z) (c : TexCache) : nat :=
  match c with
  | [] => O
  | (k', _) :: c' => if k' <=? k then S (upper_bound k c') else O
  end.

(** The keys of a map are strictly ascending. *)
Fixpoint sorted_keys (c : TexCache) : Prop :=
  match c with
  | [] => True
  | (k, _) :: c' =>
      match c' with
      | [] => True
      | (k', _) :: _ => k < k' /\ sorted_keys c'
      end
  end.

(** ** Calls into the host GPU API, recorded in call order *)

Inductive GLpname : Type :=
| GL_TEXTURE_LOD_BIAS
| GL_TEXTURE_MIN_FILTER
| GL_TEXTURE_MAG_FILTER
| GL_TEXTURE_WRAP_S
| GL_TEXTURE_WRAP_T.

Inductive GLvalue : Type :=
| GL_NEAREST
| GL_LINEAR
| GL_NEAREST_MIPMAP_NEAREST
| GL_LINEAR_MIPMAP_NEAREST
| GL_NEAREST_MIPMAP_LINEAR
| GL_LINEAR_MIPMAP_LINEAR
| GL_CLAMP_TO_EDGE
| GL_REPEAT.

(** The target of every call is [GL_TEXTURE_2D] and is left out. *)
Inductive GLCall : Type :=
| glBindTexture (texture : Z)
| glDeleteTextures (texture : Z)
| glTexParameteri (pname : GLpname) (param : GLvalue)
| glTexParameterf (pname : GLpname) (param : Z)
| fbo_bind_color_as_texture (fbo : Z) (color : Z).

(** ** Virtual framebuffers (GPU/GLES/Framebuffer.h)

    The fields this file reads or writes.  An entry's [framebuffer] is the
    address of such an object, [0] for the null pointer. *)

Module Framebuffer.

Record VirtualFramebuffer : Type := mkVirtualFramebuffer {
  fb_address : Z;
  fb_stride : Z;
  width : Z;
  height : Z;
  format : Z;
  last_frame_render : Z;
  last_frame_used : Z;
  usageFlags : Z;
  fbo : Z
}.

Definition set_last_frame_used (v : Z) (x : VirtualFramebuffer) : VirtualFramebuffer :=
  mkVirtualFramebuffer (fb_address x) (fb_stride x) (width x) (height x)
    (format x) (last_frame_render x) v (usageFlags x) (fbo x).

Definition set_usageFlags (v : Z) (x : VirtualFramebuffer) : VirtualFramebuffer :=
  mkVirtualFramebuffer (fb_address x) (fb_stride x) (width x) (height x)
    (format x) (last_frame_render x) (last_frame_used x) v (fbo x).

Definition set_fbo (v : Z) (x : VirtualFramebuffer) : VirtualFramebuffer :=
  mkVirtualFramebuffer (fb_address x) (fb_stride x) (width x) (height x)
    (format x) (last_frame_render x) (last_frame_used x) (usageFlags x) v.

End Framebuffer.

(** ** The cache object

    The two palette buffers are allocated once by the constructor; their
    addresses are the starts of their blocks.  [clutBuf_] points at one of
    them, or is null. *)

Definition clutBufConverted_ : Ptr := mkPtr ClutBufConverted 0.
Definition clutBufRaw_ : Ptr := mkPtr ClutBufRaw 0.

Record TextureCache : Type := mkTextureCache {
  cache : TexCache;
  secondCache : TexCache;
  fbCache_ : list Z;
  clearCacheNextFrame_ : bool;
  lowMemoryMode_ : bool;
  decimationCounter_ : Z;
  lastBoundTexture : Z;
  clutBuf_ : option Ptr;
  clutLastFormat_ : Z;
  clutTotalBytes_ : Z;
  clutHash_ : Z;
  clutAlphaLinear_ : bool;
  clutAlphaLinearColor_ : Z
}.

Definition set_cache (v : TexCache) (x : TextureCache) : TextureCache :=
  mkTextureCache v (secondCache x) (fbCache_ x) (clearCacheNextFrame_ x)
    (lowMemoryMode_ x) (decimationCounter_ x) (lastBoundTexture x)
    (clutBuf_ x) (clutLastFormat_ x) (clutTotalBytes_ x) (clutHash_ x)
    (clutAlphaLinear_ x) (clutAlphaLinearColor_ x).

Definition set_secondCache (v : TexCache) (x : TextureCache) : TextureCache :=
  mkTextureCache (cache x) v (fbCache_ x) (clearCacheNextFrame_ x)
    (lowMemoryMode_ x) (decimationCounter_ x) (lastBoundTexture x)
    (clutBuf_ x) (clutLastFormat_ x) (clutTotalBytes_ x) (clutHash_ x)
    (clutAlphaLinear_ x) (clutAlphaLinearColor_ x).

Definition set_clearCacheNextFrame_ (v : bool) (x : TextureCache) : TextureCache :=
  mkTextureCache (cache x) (secondCache x) (fbCache_ x) v (lowMemoryMode_ x)
    (decimationCounter_ x) (lastBoundTexture x) (clutBuf_ x)
    (clutLastFormat_ x) (clutTotalBytes_ x) (clutHash_ x)
    (clutAlphaLinear_ x) (clutAlphaLinearColor_ x).

Definition set_lowMemoryMode_ (v : bool) (x : TextureCache) : TextureCache :=
  mkTextureCache (cache x) (secondCache x) (fbCache_ x)
    (clearCacheNextFrame_ x) v (decimationCounter_ x) (lastBoundTexture x)
    (clutBuf_ x) (clutLastFormat_ x) (clutTotalBytes_ x) (clutHash_ x)
    (clutAlphaLinear_ x) (clutAlphaLinearColor_ x).

Definition set_decimationCounter_ (v : Z) (x : TextureCache) : TextureCache :=
  mkTextureCache (cache x) (secondCache x) (fbCache_ x)
    (clearCacheNextFrame_ x) (lowMemoryMode_ x) v (lastBoundTexture x)
    (clutBuf_ x) (clutLastFormat_ x) (clutTotalBytes_ x) (clutHash_ x)
    (clutAlphaLinear_ x) (clutAlphaLinearColor_ x).

Definition set_lastBoundTexture (v : Z) (x : TextureCache) : TextureCache :=
  mkTextureCache (cache x) (secondCache x) (fbCache_ x)
    (clearCacheNextFrame_ x) (lowMemoryMode_ x) (decimationCounter_ x) v
    (clutBuf_ x) (clutLastFormat_ x) (clutTotalBytes_ x) (clutHash_ x)
    (clutAlphaLinear_ x) (clutAlphaLinearColor_ x).

Definition set_clutBuf_ (v : option Ptr) (x : TextureCache) : TextureCache :=
  mkTextureCache (cache x) (secondCache x) (fbCache_ x)
    (clearCacheNextFrame_ x) (lowMemoryMode_ x) (decimationCounter_ x)
    (lastBoundTexture x) v (clutLastFormat_ x) (clutTotalBytes_ x)
    (clutHash_ x) (clutAlphaLinear_ x) (clutAlphaLinearColor_ x).

Definition set_clutLastFormat_ (v : Z) (x : TextureCache) : TextureCache :=
  mkTextureCache (cache x) (secondCache x) (fbCache_ x)
    (clearCacheNextFrame_ x) (lowMemoryMode_ x) (decimationCounter_ x)
    (lastBoundTexture x) (clutBuf_ x) v (clutTotalBytes_ x) (clutHash_ x)
    (clutAlphaLinear_ x) (clutAlphaLinearColor_ x).

Definition set_clutTotalBytes_ (v : Z) (x : TextureCache) : TextureCache :=
  mkTextureCache (cache x) (secondCache x) (fbCache_ x)
    (clearCacheNextFrame_ x) (lowMemoryMode_ x) (decimationCounter_ x)
    (lastBoundTexture x) (clutBuf_ x) (clutLastFormat_ x) v (clutHash_ x)
    (clutAlphaLinear_ x) (clutAlphaLinearColor_ x).

Definition set_clutHash_ (v : Z) (x : TextureCache) : TextureCache :=
  mkTextureCache (cache x) (secondCache x) (fbCache_ x)
    (clearCacheNextFrame_ x) (lowMemoryMode_ x) (decimationCounter_ x)
    (lastBoundTexture x) (clutBuf_ x) (clutLastFormat_ x) (clutTotalBytes_ x)
    v (clutAlphaLinear_ x) (clutAlphaLinearColor_ x).

Definition set_clutAlphaLinear_ (v : bool) (x : TextureCache) : TextureCache :=
  mkTextureCache (cache x) (secondCache x) (fbCache_ x)
    (clearCacheNextFrame_ x) (lowMemoryMode_ x) (decimationCounter_ x)
    (lastBoundTexture x) (clutBuf_ x) (clutLastFormat_ x) (clutTotalBytes_ x)
    (clutHash_ x) v (clutAlphaLinearColor_ x).

Definition set_clutAlphaLinearColor_ (v : Z) (x : TextureCache) : TextureCache :=
  mkTextureCache (cache x) (secondCache x) (fbCache_ x)
    (clearCacheNextFrame_ x) (lowMemoryMode_ x) (decimationCounter_ x)
    (lastBoundTexture x) (clutBuf_ x) (clutLastFormat_ x) (clutTotalBytes_ x)
    (clutHash_ x) (clutAlphaLinear_ x) v.

(** ** Globals the cache reads and writes: [gpuStats], [gstate_c], the
    framebuffer objects, memory and the GL call stream *)

Record GPUStatistics : Type := mkGPUStatistics {
  numFlips : Z;
  numTextureInvalidations : Z;
  numTexturesDecoded : Z
}.

Definition set_numTextureInvalidations (v : Z) (x : GPUStatistics) : GPUStatistics :=
  mkGPUStatistics (numFlips x) v (numTexturesDecoded x).

Definition set_numTexturesDecoded (v : Z) (x : GPUStatistics) : GPUStatistics :=
  mkGPUStatistics (numFlips x) (numTextureInvalidations x) v.

Record GPUStateCache : Type := mkGPUStateCache {
  flipTexture : bool;
  skipDrawReason : Z;
  textureFullAlpha : bool;
  curTextureWidth : Z;
  curTextureHeight : Z
}.

Definition set_flipTexture (v : bool) (x : GPUStateCache) : GPUStateCache :=
  mkGPUStateCache v (skipDrawReason x) (textureFullAlpha x)
    (curTextureWidth x) (curTextureHeight x).

Definition set_skipDrawReason (v : Z) (x : GPUStateCache) : GPUStateCache :=
  mkGPUStateCache (flipTexture x) v (textureFullAlpha x) (curTextureWidth x)
    (curTextureHeight x).

Definition set_textureFullAlpha (v : bool) (x : GPUStateCache) : GPUStateCache :=
  mkGPUStateCache (flipTexture x) (skipDrawReason x) v (curTextureWidth x)
    (curTextureHeight x).

Definition set_curTextureWidth (v : Z) (x : GPUStateCache) : GPUStateCache :=
  mkGPUStateCache (flipTexture x) (skipDrawReason x) (textureFullAlpha x) v
    (curTextureHeight x).

Definition set_curTextureHeight (v : Z) (x : GPUStateCache) : GPUStateCache :=
  mkGPUStateCache (flipTexture x) (skipDrawReason x) (textureFullAlpha x)
    (curTextureWidth x) v.

Record World : Type := mkWorld {
  tc : TextureCache;
  gpuStats : GPUStatistics;
  gstate_c : GPUStateCache;
  fbs : Z -> Framebuffer.VirtualFramebuffer;
  heap : Heap;
  gl : list GLCall
}.

Definition set_tc (v : TextureCache) (x : World) : World :=
  mkWorld v (gpuStats x) (gstate_c x) (fbs x) (heap x) (gl x).

Definition set_gpuStats (v : GPUStatistics) (x : World) : World :=
  mkWorld (tc x) v (gstate_c x) (fbs x) (heap x) (gl x).

Definition set_gstate_c (v : GPUStateCache) (x : World) : World :=
  mkWorld (tc x) (gpuStats x) v (fbs x) (heap x) (gl x).

Definition set_fbs (v : Z -> Framebuffer.VirtualFramebuffer) (x : World) : World :=
  mkWorld (tc x) (gpuStats x) (gstate_c x) v (heap x) (gl x).

Definition set_heap (v : Heap) (x : World) : World :=
  mkWorld (tc x) (gpuStats x) (gstate_c x) (fbs x) v (gl x).

Definition set_gl (v : list GLCall) (x : World) : World :=
  mkWorld (tc x) (gpuStats x) (gstate_c x) (fbs x) (heap x) v.
(** ** Guest GPU state, configuration and the other components

    [GPUgstate] (GPU/GPUState.h): the registers the file reads, and the
    results of the inline accessors it calls, whose bodies are not part of
    the file. *)

Inductive GEPaletteFormat : Type :=
| GE_CMODE_16BIT_BGR5650
| GE_CMODE_16BIT_ABGR5551
| GE_CMODE_16BIT_ABGR4444
| GE_CMODE_32BIT_ABGR8888.

Definition GEPaletteFormat_eqb (a b : GEPaletteFormat) : bool :=
  match a, b with
  | GE_CMODE_16BIT_BGR5650, GE_CMODE_16BIT_BGR5650
  | GE_CMODE_16BIT_ABGR5551, GE_CMODE_16BIT_ABGR5551
  | GE_CMODE_16BIT_ABGR4444, GE_CMODE_16BIT_ABGR4444
  | GE_CMODE_32BIT_ABGR8888, GE_CMODE_32BIT_ABGR8888 => true
  | _, _ => false
  end.

(** [GETextureFormat], numbered as the [bitsPerPixel] table lists it. *)
Definition GE_TFMT_5650 : Z := 0.
Definition GE_TFMT_5551 : Z := 1.
Definition GE_TFMT_4444 : Z := 2.
Definition GE_TFMT_8888 : Z := 3.
Definition GE_TFMT_CLUT4 : Z := 4.
Definition GE_TFMT_CLUT8 : Z := 5.
Definition GE_TFMT_CLUT16 : Z := 6.
Definition GE_TFMT_CLUT32 : Z := 7.
Definition GE_TFMT_DXT1 : Z := 8.
Definition GE_TFMT_DXT3 : Z := 9.
Definition GE_TFMT_DXT5 : Z := 10.

Module GState.

Record GPUgstate : Type := mkGPUgstate {
  texaddr : Z -> Z;
  texbufwidth : Z -> Z;
  texsize : Z -> Z;
  texmode : Z;
  texfilter : Z;
  texlevel : Z;
  clutformat : Z;
  getTextureWidth : Z -> Z;
  getTextureHeight : Z -> Z;
  getTextureFormat : Z;
  isTextureFormatIndexed : bool;
  isTextureSwizzled : bool;
  getClutPaletteFormat : GEPaletteFormat;
  getClutIndexStartPos : Z;
  isClutIndexSimple : bool;
  transformClutIndex : Z -> Z;
  isTexCoordClampedS : bool;
  isTexCoordClampedT : bool;
  isColorTestEnabled : bool
}.

End GState.
Import GState.

(** [g_Config] (Core/Config.h) and the enumerations it is compared with. *)

Inductive RenderingMode : Type :=
| FB_NON_BUFFERED_MODE
| FB_BUFFERED_MODE
| FB_OTHER_MODE.

Inductive TexFiltering : Type :=
| AUTO
| NEAREST
| LINEAR
| LINEARFMV.

Record Config : Type := mkConfig {
  iRenderingMode : RenderingMode;
  iTexFiltering : TexFiltering;
  bMipMap : bool;
  iAnisotropyLevel : Z;
  iTexScalingLevel : Z
}.

(** The globals a call reads and does not write. *)
Record Env : Type := mkEnv {
  gstate : GPUgstate;
  g_Config : Config;
  g_iNumVideos : Z
}.

(** The values [dstFmt] takes; [GL_0] is the initial [0]. *)
Inductive GLenum : Type :=
| GL_0
| GL_UNSIGNED_SHORT_4_4_4_4
| GL_UNSIGNED_SHORT_5_5_5_1
| GL_UNSIGNED_SHORT_5_6_5
| GL_UNSIGNED_BYTE.

(** Functions, constants and build flags defined outside the file. *)
Class Platform : Type := {
  (** [#ifdef _M_SSE], [#ifndef USING_GLES2] *)
  M_SSE : bool;
  USING_GLES2 : bool;
  (** [Memory::IsValidAddress]; [Memory::GetPointer], as a host address;
      [PSP_GetUserMemoryBase()] *)
  IsValidAddress : Z -> bool;
  GetPointer : Z -> Z;
  PSP_GetUserMemoryBase : Z;
  (** the integer value [(intptr_t)p] of a pointer *)
  intptr : Ptr -> Z;
  (** [XXH32(data, len, seed)] *)
  XXH32 : Heap -> Ptr -> Z -> Z -> Z;
  (** [Convert5To8], [Convert6To8] *)
  Convert5To8 : Z -> Z;
  Convert6To8 : Z -> Z;
  (** [SimpleBuf::resize] on one of the scratch buffers, as its effect on
      memory; [Memory::Memcpy(to, from_address, len)] *)
  resize : Block -> Z -> Heap -> Heap;
  Memory_Memcpy : Heap -> Ptr -> Z -> Z -> Heap;
  (** [TextureScaler::Scale], which may replace the data, its format and
      its size *)
  Scale : Heap -> Ptr -> GLenum -> Z -> Z -> Z -> Heap * Ptr * GLenum * Z * Z;
  (** framebuffer format, usage flag and skip-draw flag constants *)
  GE_FORMAT_565 : Z;
  FB_USAGE_TEXTURE : Z;
  SKIPDRAW_BAD_FB_TEXTURE : Z
}.

(** [Memory::GetPointer(addr)] as a pointer into [HostMem]. *)
Definition Memory_GetPointer `{Platform} (addr : Z) : Ptr :=
  mkPtr HostMem (GetPointer addr).

(** ** Hashers *)

Definition bitsPerPixel : list Z :=
  [16; 16; 16; 32; 4; 8; 16; 32; 4; 8; 8; 0; 0; 0; 0; 0].

Definition bitsPerPixel_at (format : Z) : Z :=
  nth (Z.to_nat format) bitsPerPixel 0.

Definition MiniHash (m : Heap) (ptr : Ptr) : Z := load32 m ptr.

(** *** SSE2 registers and the intrinsics the hashers use

    A [__m128i] is its four 32-bit lanes, lowest first; the intrinsics
    follow their Intel definitions. *)

Record m128i : Type := mk128 { lane0 : Z; lane1 : Z; lane2 : Z; lane3 : Z }.

Definition _mm_set1_epi32 (a : Z) : m128i :=
  mk128 (u32 a) (u32 a) (u32 a) (u32 a).

Definition _mm_load_si128 (m : Heap) (p : Ptr) : m128i :=
  mk128 (load32 m p) (load32 m (padd p 4))
        (load32 m (padd p 8)) (load32 m (padd p 12)).

Definition _mm_add_epi32 (a b : m128i) : m128i :=
  mk128 (u32 (lane0 a + lane0 b)) (u32 (lane1 a + lane1 b))
        (u32 (lane2 a + lane2 b)) (u32 (lane3 a + lane3 b)).

Definition _mm_xor_si128 (a b : m128i) : m128i :=
  mk128 (Z.lxor (lane0 a) (lane0 b)) (Z.lxor (lane1 a) (lane1 b))
        (Z.lxor (lane2 a) (lane2 b)) (Z.lxor (lane3 a) (lane3 b)).

(** Multiplies lanes 0 and 2 as unsigned 32-bit numbers into two 64-bit
    products, which fill lanes (0,1) and (2,3). *)
Definition _mm_mul_epu32 (a b : m128i) : m128i :=
  let p0 := lane0 a * lane0 b in
  let p2 := lane2 a * lane2 b in
  mk128 (u32 p0) (u32 (p0 / 4294967296)) (u32 p2) (u32 (p2 / 4294967296)).

(** Shifts the whole register right by 8, respectively 4, bytes. *)
Definition _mm_srli_si128_8 (a : m128i) : m128i :=
  mk128 (lane2 a) (lane3 a) 0 0.

Definition _mm_srli_si128_4 (a : m128i) : m128i :=
  mk128 (lane1 a) (lane2 a) (lane3 a) 0.

Definition _mm_cvtsi128_si32 (a : m128i) : Z := lane0 a.

(** *** [QuickClutHash] *)

Definition prime : Z := 2246822519.

(** [for (u32 i = 0; i < bytes / 16; ++i)], with [n] iterations left. *)
Fixpoint QuickClutHash_sse_loop (m : Heap) (p : Ptr) (n : nat) (i : Z)
    (cursor : m128i) : m128i :=
  match n with
  | O => cursor
  | S n' =>
      let mult := _mm_set1_epi32 prime in
      let cursor :=
        _mm_add_epi32 cursor
          (_mm_mul_epu32 (_mm_load_si128 m (padd p (16 * i))) mult) in
      QuickClutHash_sse_loop m p n' (i + 1) cursor
  end.

Definition QuickClutHash_sse (m : Heap) (clut : Ptr) (bytes : Z) : Z :=
  let cursor := _mm_set1_epi32 0 in
  let cursor :=
    QuickClutHash_sse_loop m clut (Z.to_nat (bytes / 16)) 0 cursor in
  let cursor := _mm_add_epi32 cursor (_mm_srli_si128_8 cursor) in
  let cursor := _mm_add_epi32 cursor (_mm_srli_si128_4 cursor) in
  _mm_cvtsi128_si32 cursor.

(** [for (p = clut; p < end; ) hash += *p++ * prime;], [p] a [u32] pointer
    and [n] iterations left. *)
Fixpoint QuickClutHash_scalar_loop (m : Heap) (p : Ptr) (n : nat) (hash : Z) : Z :=
  match n with
  | O => hash
  | S n' =>
      QuickClutHash_scalar_loop m (padd p 4) n'
        (u32 (hash + u32 (load32 m p * prime)))
  end.

(** The loop runs while [p < clut + bytes], that is [ceil(bytes / 4)]
    times. *)
Definition QuickClutHash_scalar (m : Heap) (clut : Ptr) (bytes : Z) : Z :=
  QuickClutHash_scalar_loop m clut (Z.to_nat ((bytes + 3) / 4)) 0.

Definition QuickClutHash `{Platform} (m : Heap) (clut : Ptr) (bytes : Z) : Z :=
  if M_SSE && (Z.land (u32 (intptr clut)) 0xf =? 0)
  then QuickClutHash_sse m clut bytes
  else QuickClutHash_scalar m clut bytes.

(** *** [QuickTexHash] *)

(** [for (u32 i = 0; i < sizeInRAM / 16; i += 2)], with [n] iterations
    left. *)
Fixpoint QuickTexHash_sse_loop (m : Heap) (p : Ptr) (n : nat) (i : Z)
    (cursor : m128i) : m128i :=
  match n with
  | O => cursor
  | S n' =>
      let cursor := _mm_add_epi32 cursor (_mm_load_si128 m (padd p (16 * i))) in
      let cursor :=
        _mm_xor_si128 cursor (_mm_load_si128 m (padd p (16 * (i + 1)))) in
      QuickTexHash_sse_loop m p n' (i + 2) cursor
  end.

Definition QuickTexHash_sse (m : Heap) (checkp : Ptr) (sizeInRAM : Z) : Z :=
  let cursor := _mm_set1_epi32 0 in
  let cursor :=
    QuickTexHash_sse_loop m checkp (Z.to_nat ((sizeInRAM / 16 + 1) / 2)) 0
      cursor in
  let cursor := _mm_add_epi32 cursor (_mm_srli_si128_8 cursor) in
  let cursor := _mm_add_epi32 cursor (_mm_srli_si128_4 cursor) in
  _mm_cvtsi128_si32 cursor.

(** [for (u32 i = 0; i < sizeInRAM / 8; ++i) { check += *checkp++;
    check ^= *checkp++; }], with [n] iterations left. *)
Fixpoint QuickTexHash_scalar_loop (m : Heap) (checkp : Ptr) (n : nat)
    (check : Z) : Z :=
  match n with
  | O => check
  | S n' =>
      let check := u32 (check + load32 m checkp) in
      let check := Z.lxor check (load32 m (padd checkp 4)) in
      QuickTexHash_scalar_loop m (padd checkp 8) n' check
  end.

Definition QuickTexHash_scalar (m : Heap) (checkp : Ptr) (sizeInRAM : Z) : Z :=
  QuickTexHash_scalar_loop m checkp (Z.to_nat (sizeInRAM / 8)) 0.

Definition QuickTexHash `{Platform} (m : Heap) (addr bufw w h format : Z) : Z :=
  let sizeInRAM := u32 (Z.quot (bitsPerPixel_at format * bufw * h) 8) in
  let checkp := Memory_GetPointer addr in
  if M_SSE && (Z.land (Z.lor (u32 (intptr checkp)) sizeInRAM) 0x1f =? 0)
  then QuickTexHash_sse m checkp sizeInRAM
  else QuickTexHash_scalar m checkp sizeInRAM.

(** ** Colour conversion and the palette *)

Definition getClutDestFormat (format : GEPaletteFormat) : GLenum :=
  match format with
  | GE_CMODE_16BIT_ABGR4444 => GL_UNSIGNED_SHORT_4_4_4_4
  | GE_CMODE_16BIT_ABGR5551 => GL_UNSIGNED_SHORT_5_5_5_1
  | GE_CMODE_16BIT_BGR5650 => GL_UNSIGNED_SHORT_5_6_5
  | GE_CMODE_32BIT_ABGR8888 => GL_UNSIGNED_BYTE
  end.

(** The three per-word rotations of [ConvertColors]; [c] is a [u32]. *)
Definition convert4444 (c : Z) : Z :=
  Z.lor (Z.lor (Z.lor
    (Z.land (Z.shiftr c 12) 0x000F000F)
    (Z.land (Z.shiftr c 4) 0x00F000F0))
    (Z.land (Z.shiftl c 4) 0x0F000F00))
    (Z.land (Z.shiftl c 12) 0xF000F000).

Definition convert5551 (c : Z) : Z :=
  Z.lor (Z.lor (Z.lor
    (Z.land (Z.shiftr c 15) 0x00010001)
    (Z.land (Z.shiftr c 9) 0x003E003E))
    (Z.land (Z.shiftl c 1) 0x07C007C0))
    (Z.land (Z.shiftl c 11) 0xF800F800).

Definition convert565 (c : Z) : Z :=
  Z.lor (Z.lor
    (Z.land (Z.shiftr c 11) 0x001F001F)
    (Z.land (Z.shiftr c 0) 0x07E007E0))
    (Z.land (Z.shiftl c 11) 0xF800F800).

(** [for (int i = 0; i < (numPixels + 1) / 2; i++) dst[i] = f(src[i]);]
    with [n] iterations left. *)
Fixpoint ConvertColors_loop (f : Z -> Z) (m : Heap) (dst src : Ptr)
    (n : nat) (i : Z) : Heap :=
  match n with
  | O => m
  | S n' =>
      let c := load32 m (padd src (4 * i)) in
      let m := store32 m (padd dst (4 * i)) (f c) in
      ConvertColors_loop f m dst src n' (i + 1)
  end.

Definition ConvertColors (m : Heap) (dstBuf srcBuf : Ptr) (dstFmt : GLenum)
    (numPixels : Z) : Heap :=
  let n := Z.to_nat (Z.quot (numPixels + 1) 2) in
  match dstFmt with
  | GL_UNSIGNED_SHORT_4_4_4_4 => ConvertColors_loop convert4444 m dstBuf srcBuf n 0
  | GL_UNSIGNED_SHORT_5_5_5_1 => ConvertColors_loop convert5551 m dstBuf srcBuf n 0
  | GL_UNSIGNED_SHORT_5_6_5 => ConvertColors_loop convert565 m dstBuf srcBuf n 0
  | _ =>
      if negb (Ptr_eqb dstBuf srcBuf)
      then memcpy m dstBuf srcBuf (numPixels * 4)
      else m
  end.

(** The scan of [UpdateCurrentClut] over [clut[0..15]], from index [i] with
    [n] entries left: [false] as soon as an entry's low nibble is not its
    index or, for [i != 0], its upper twelve bits are not [color]. *)
Fixpoint clutAlphaLinear_scan (m : Heap) (clut : Ptr) (color : Z) (n : nat)
    (i : Z) : bool :=
  match n with
  | O => true
  | S n' =>
      let clut_i := load16 m (padd clut (2 * i)) in
      if negb (Z.land clut_i 0xf =? i) then false
      else if negb (i =? 0) && negb (Z.land clut_i 0xFFF0 =? color) then false
      else clutAlphaLinear_scan m clut color n' (i + 1)
  end.

Definition UpdateCurrentClut `{Platform} (E : Env) (w : World) : World :=
  let g := gstate E in
  let t := tc w in
  let clutFormat := getClutPaletteFormat g in
  let is32 := GEPaletteFormat_eqb clutFormat GE_CMODE_32BIT_ABGR8888 in
  let clutBase := getClutIndexStartPos g in
  let clutBaseBytes := u32 (clutBase * (if is32 then 4 else 2)) in
  let clutExtendedBytes := u32 (clutTotalBytes_ t + clutBaseBytes) in
  let t := set_clutHash_
             (u32 (XXH32 (heap w) clutBufRaw_ clutExtendedBytes 0xC0108888)) t in
  let m :=
    if negb is32
    then ConvertColors (heap w) clutBufConverted_ clutBufRaw_
           (getClutDestFormat clutFormat) (clutExtendedBytes / 2)
    else heap w in
  let buf := if negb is32 then clutBufConverted_ else clutBufRaw_ in
  let t := set_clutBuf_ (Some buf) t in
  let t := set_clutAlphaLinearColor_ 0 (set_clutAlphaLinear_ false t) in
  let t :=
    if GEPaletteFormat_eqb (getClutPaletteFormat g) GE_CMODE_16BIT_ABGR4444
       && isClutIndexSimple g
    then
      let clut := buf in
      let color := Z.land (load16 m (padd clut (2 * 15))) 0xFFF0 in
      set_clutAlphaLinear_ (clutAlphaLinear_scan m clut color 16 0)
        (set_clutAlphaLinearColor_ color t)
    else t in
  let t := set_clutLastFormat_ (clutformat g) t in
  set_heap m (set_tc t w).

(** ** CLUT4 de-indexing

    [ClutT] is the palette colour type the templates are instantiated at. *)

Inductive ClutT : Type :=
| ClutT_u16
| ClutT_u32.

Definition sizeofT (T : ClutT) : Z :=
  match T with ClutT_u16 => 2 | ClutT_u32 => 4 end.

Definition loadT (T : ClutT) (m : Heap) (p : Ptr) : Z :=
  match T with ClutT_u16 => load16 m p | ClutT_u32 => load32 m p end.

Definition storeT (T : ClutT) (m : Heap) (p : Ptr) (v : Z) : Heap :=
  match T with ClutT_u16 => store16 m p v | ClutT_u32 => store32 m p v end.

(** [p[i]] for a pointer to [T]. *)
Definition atT (T : ClutT) (p : Ptr) (i : Z) : Ptr := padd p (sizeofT T * i).

(** [for (int i = 0; i < length; i += 2)] of [DeIndexTexture4], with [n]
    iterations left; [f] is the identity on the naked path and
    [gstate.transformClutIndex] on the other. *)
Fixpoint DeIndexTexture4_loop (T : ClutT) (f : Z -> Z) (m : Heap)
    (dest indexed clut : Ptr) (n : nat) (i : Z) : Heap :=
  match n with
  | O => m
  | S n' =>
      let index := load8 m indexed in
      let m := storeT T m (atT T dest (i + 0))
                 (loadT T m (atT T clut (f (Z.land (Z.shiftr index 0) 0xf)))) in
      let m := storeT T m (atT T dest (i + 1))
                 (loadT T m (atT T clut (f (Z.land (Z.shiftr index 4) 0xf)))) in
      DeIndexTexture4_loop T f m dest (padd indexed 1) clut n' (i + 2)
  end.

(** The number of [i] in 0, 2, 4, ... below [bound]. *)
Definition steps2 (bound : Z) : nat := Z.to_nat ((bound + 1) / 2).

Definition DeIndexTexture4 (T : ClutT) (g : GPUgstate) (m : Heap)
    (dest indexed : Ptr) (length : Z) (clut : Ptr) : Heap :=
  let nakedIndex := isClutIndexSimple g in
  if nakedIndex
  then DeIndexTexture4_loop T (fun index => index) m dest indexed clut
         (steps2 length) 0
  else DeIndexTexture4_loop T (transformClutIndex g) m dest indexed clut
         (steps2 length) 0.

(** The primary template of [DeIndexTexture4Optimal]. *)
Fixpoint DeIndexTexture4Optimal_loop (T : ClutT) (m : Heap)
    (dest indexed : Ptr) (color : Z) (n : nat) (i : Z) : Heap :=
  match n with
  | O => m
  | S n' =>
      let index := load8 m indexed in
      let m := storeT T m (atT T dest (i + 0))
                 (Z.lor color (Z.land (Z.shiftr index 0) 0xf)) in
      let m := storeT T m (atT T dest (i + 1))
                 (Z.lor color (Z.land (Z.shiftr index 4) 0xf)) in
      DeIndexTexture4Optimal_loop T m dest (padd indexed 1) color n' (i + 2)
  end.

(** The [u16] specialisation: [dest] is written through [u32 *dest32] and
    [indexed] read through [const u16 *indexed16]; the bound of the loop is
    [length / 2]. *)
Fixpoint DeIndexTexture4Optimal_u16_loop (m : Heap) (dest32 indexed16 : Ptr)
    (color32 : Z) (n : nat) (i : Z) : Heap :=
  match n with
  | O => m
  | S n' =>
      let index := load16 m indexed16 in
      let m := store32 m (padd dest32 (4 * (i + 0)))
                 (Z.lor (Z.lor color32
                    (Z.shiftl (Z.land index 0x00f0) 12))
                    (Z.shiftr (Z.land index 0x000f) 0)) in
      let m := store32 m (padd dest32 (4 * (i + 1)))
                 (Z.lor (Z.lor color32
                    (Z.shiftl (Z.land index 0xf000) 4))
                    (Z.shiftr (Z.land index 0x0f00) 8)) in
      DeIndexTexture4Optimal_u16_loop m dest32 (padd indexed16 2) color32 n'
        (i + 2)
  end.

Definition DeIndexTexture4Optimal (T : ClutT) (m : Heap) (dest indexed : Ptr)
    (length : Z) (color : Z) : Heap :=
  match T with
  | ClutT_u16 =>
      let color := u16 color in
      let color32 := u32 (Z.lor (Z.shiftl color 16) color) in
      DeIndexTexture4Optimal_u16_loop m dest indexed color32
        (steps2 (Z.quot length 2)) 0
  | ClutT_u32 =>
      DeIndexTexture4Optimal_loop T m dest indexed color (steps2 length) 0
  end.

(** ** DXT1 blocks

    [struct DXT1Block { u8 lines[4]; u16 color1; u16 color2; }]: the four
    index bytes at offsets 0..3, [color1] at offset 4, [color2] at 6. *)

Definition DXT1Block_lines (src : Ptr) (y : Z) : Ptr := padd src y.
Definition DXT1Block_color1 (src : Ptr) : Ptr := padd src 4.
Definition DXT1Block_color2 (src : Ptr) : Ptr := padd src 6.

(** [makecol], on [int] arguments, returning a [u32]. *)
Definition makecol (r g b a : Z) : Z :=
  u32 (Z.lor (Z.lor (Z.lor (Z.shiftl a 24) (Z.shiftl r 16)) (Z.shiftl g 8)) b).

(** The four entries of [colors[]].  [>>] on a negative [int] is the
    arithmetic shift. *)
Definition decodeDXT1Block_colors `{Platform} (c1 c2 : Z)
    (ignore1bitAlpha : bool) : list Z :=
  let red1 := Convert5To8 (Z.land c1 0x1F) in
  let red2 := Convert5To8 (Z.land c2 0x1F) in
  let green1 := Convert6To8 (Z.land (Z.shiftr c1 5) 0x3F) in
  let green2 := Convert6To8 (Z.land (Z.shiftr c2 5) 0x3F) in
  let blue1 := Convert5To8 (Z.land (Z.shiftr c1 11) 0x1F) in
  let blue2 := Convert5To8 (Z.land (Z.shiftr c2 11) 0x1F) in
  let colors0 := makecol red1 green1 blue1 255 in
  let colors1 := makecol red2 green2 blue2 255 in
  if (c2 <? c1) || ignore1bitAlpha then
    let blue3 := Z.shiftr (blue2 - blue1) 1 - Z.shiftr (blue2 - blue1) 3 in
    let green3 := Z.shiftr (green2 - green1) 1 - Z.shiftr (green2 - green1) 3 in
    let red3 := Z.shiftr (red2 - red1) 1 - Z.shiftr (red2 - red1) 3 in
    [colors0; colors1;
     makecol (red1 + red3) (green1 + green3) (blue1 + blue3) 255;
     makecol (red2 - red3) (green2 - green3) (blue2 - blue3) 255]
  else
    [colors0; colors1;
     makecol (Z.quot (red1 + red2 + 1) 2) (Z.quot (green1 + green2 + 1) 2)
             (Z.quot (blue1 + blue2 + 1) 2) 255;
     makecol red2 green2 blue2 0].

(** [for (int x = 0; x < 4; x++) { dst[x] = colors[val & 3]; val >>= 2; }]
    with [n] iterations left. *)
Fixpoint decodeDXT1Block_row (colors : list Z) (m : Heap) (dst : Ptr)
    (val : Z) (n : nat) (x : Z) : Heap :=
  match n with
  | O => m
  | S n' =>
      let m := store32 m (padd dst (4 * x))
                 (nth (Z.to_nat (Z.land val 3)) colors 0) in
      decodeDXT1Block_row colors m dst (Z.shiftr val 2) n' (x + 1)
  end.

(** [for (int y = 0; y < 4; y++) { val = src->lines[y]; ...; dst += pitch; }]
    with [n] iterations left. *)
Fixpoint decodeDXT1Block_rows (colors : list Z) (m : Heap) (dst src : Ptr)
    (pitch : Z) (n : nat) (y : Z) : Heap :=
  match n with
  | O => m
  | S n' =>
      let val := load8 m (DXT1Block_lines src y) in
      let m := decodeDXT1Block_row colors m dst val 4 0 in
      decodeDXT1Block_rows colors m (padd dst (4 * pitch)) src pitch n' (y + 1)
  end.

Definition decodeDXT1Block `{Platform} (m : Heap) (dst src : Ptr) (pitch : Z)
    (ignore1bitAlpha : bool) : Heap :=
  let c1 := load16 m (DXT1Block_color1 src) in
  let c2 := load16 m (DXT1Block_color2 src) in
  let colors := decodeDXT1Block_colors c1 c2 ignore1bitAlpha in
  decodeDXT1Block_rows colors m dst src pitch 4 0.

(** ** Unswizzling and the 8888 arm of [DecodeTextureLevel] *)

Definition tmpTexBuf32_data : Ptr := mkPtr TmpTexBuf32 0.
Definition tmpTexBuf16_data : Ptr := mkPtr TmpTexBuf16 0.
Definition tmpTexBufRearrange_data : Ptr := mkPtr TmpTexBufRearrange 0.

(** [(gstate.texaddr[level] & 0xFFFFF0)
     | ((gstate.texbufwidth[level] << 8) & 0x0F000000)] *)
Definition level_texaddr (g : GPUgstate) (level : Z) : Z :=
  Z.lor (Z.land (texaddr g level) 0xFFFFF0)
        (Z.land (Z.shiftl (texbufwidth g level) 8) 0x0F000000).

Definition GetLevelBufw `{Platform} (g : GPUgstate) (level texaddr : Z) : Z :=
  if texaddr <? PSP_GetUserMemoryBase
  then Z.land (texbufwidth g level) 0x1FFF
  else Z.land (texbufwidth g level) 0x7FF.

(** The three nested loops of the [rowWidth >= 16] branch; each returns
    the memory and the advanced [src]. *)
Fixpoint Unswizzle16_n (m : Heap) (dest src : Ptr) (pitch : Z) (n : nat)
  : Heap * Ptr :=
  match n with
  | O => (m, src)
  | S n' =>
      let m := memcpy m dest src 16 in
      Unswizzle16_n m (padd dest (4 * pitch)) (padd src (4 * 4)) pitch n'
  end.

Fixpoint Unswizzle16_bx (m : Heap) (xdest src : Ptr) (pitch : Z) (n : nat)
  : Heap * Ptr :=
  match n with
  | O => (m, src)
  | S n' =>
      let (m, src) := Unswizzle16_n m xdest src pitch 8 in
      Unswizzle16_bx m (padd xdest (4 * 4)) src pitch n'
  end.

Fixpoint Unswizzle16_by (m : Heap) (ydestp src : Ptr) (rowWidth pitch : Z)
    (bxc : nat) (n : nat) : Heap :=
  match n with
  | O => m
  | S n' =>
      let (m, src) := Unswizzle16_bx m ydestp src pitch bxc in
      Unswizzle16_by m (padd ydestp (4 * (rowWidth * 8 / 4))) src rowWidth
        pitch bxc n'
  end.

(** The [rowWidth == 8], [4], [2] and [1] branches share their shape: [by]
    counts blocks, the inner loop runs [per] times and each round stores one
    or two words at [tmpTexBuf32[ydest]]. *)
Fixpoint Unswizzle8_n (m : Heap) (src : Ptr) (ydest : Z) (n : nat)
  : Heap * Ptr * Z :=
  match n with
  | O => (m, src, ydest)
  | S n' =>
      let m := store32 m (padd tmpTexBuf32_data (4 * (ydest + 0)))
                 (load32 m src) in
      let m := store32 m (padd tmpTexBuf32_data (4 * (ydest + 1)))
                 (load32 m (padd src 4)) in
      Unswizzle8_n m (padd src (4 * 4)) (ydest + 2) n'
  end.

Fixpoint Unswizzle4_n (m : Heap) (src : Ptr) (ydest : Z) (n : nat)
  : Heap * Ptr * Z :=
  match n with
  | O => (m, src, ydest)
  | S n' =>
      let m := store32 m (padd tmpTexBuf32_data (4 * ydest)) (load32 m src) in
      Unswizzle4_n m (padd src (4 * 4)) (ydest + 1) n'
  end.

Fixpoint Unswizzle2_n (m : Heap) (src : Ptr) (ydest : Z) (n : nat)
  : Heap * Ptr * Z :=
  match n with
  | O => (m, src, ydest)
  | S n' =>
      let n1 := load16 m src in
      let n2 := load16 m (padd src (2 * 8)) in
      let m := store32 m (padd tmpTexBuf32_data (4 * ydest))
                 (Z.lor n1 (Z.shiftl n2 16)) in
      Unswizzle2_n m (padd src (2 * 16)) (ydest + 1) n'
  end.

Fixpoint Unswizzle1_n (m : Heap) (src : Ptr) (ydest : Z) (n : nat)
  : Heap * Ptr * Z :=
  match n with
  | O => (m, src, ydest)
  | S n' =>
      let n1 := load8 m src in
      let n2 := load8 m (padd src 16) in
      let n3 := load8 m (padd src 32) in
      let n4 := load8 m (padd src 48) in
      let m := store32 m (padd tmpTexBuf32_data (4 * ydest))
                 (Z.lor (Z.lor (Z.lor n1 (Z.shiftl n2 8)) (Z.shiftl n3 16))
                        (Z.shiftl n4 24)) in
      Unswizzle1_n m (padd src 64) (ydest + 1) n'
  end.

Fixpoint Unswizzle_by (inner : Heap -> Ptr -> Z -> nat -> Heap * Ptr * Z)
    (per : nat) (m : Heap) (src : Ptr) (ydest : Z) (n : nat) : Heap :=
  match n with
  | O => m
  | S n' =>
      let '(m, src, ydest) := inner m src ydest per in
      Unswizzle_by inner per m src ydest n'
  end.

Definition UnswizzleFromMem `{Platform} (g : GPUgstate) (m : Heap)
    (texaddr bufw bytesPerPixel level : Z) : Heap * Ptr :=
  let rowWidth :=
    if 0 <? bytesPerPixel then u32 (bufw * bytesPerPixel) else bufw / 2 in
  let pitch := rowWidth / 4 in
  let bxc := rowWidth / 16 in
  let byc := Z.quot (getTextureHeight g level + 7) 8 in
  let byc := if byc =? 0 then 1 else byc in
  let ydest := 0 in
  let src := Memory_GetPointer texaddr in
  let m :=
    if 16 <=? rowWidth then
      Unswizzle16_by m tmpTexBuf32_data src rowWidth pitch (Z.to_nat bxc)
        (Z.to_nat byc)
    else if rowWidth =? 8 then
      Unswizzle_by Unswizzle8_n 8 m src ydest (Z.to_nat byc)
    else if rowWidth =? 4 then
      Unswizzle_by Unswizzle4_n 8 m src ydest (Z.to_nat byc)
    else if rowWidth =? 2 then
      Unswizzle_by Unswizzle2_n 4 m src ydest (Z.to_nat byc)
    else if rowWidth =? 1 then
      Unswizzle_by Unswizzle1_n 2 m src ydest (Z.to_nat byc)
    else m in
  (m, tmpTexBuf32_data).

(** The code of [DecodeTextureLevel] after the switch: when [w != bufw]
    the rows are packed to [w] pixels, in place or into the rearrange
    buffer. *)
Fixpoint rearrange_rows (m : Heap) (write read : Ptr)
    (inRowBytes outRowBytes : Z) (n : nat) : Heap :=
  match n with
  | O => m
  | S n' =>
      let m := memmove m write read outRowBytes in
      rearrange_rows m (padd write outRowBytes) (padd read inRowBytes)
        inRowBytes outRowBytes n'
  end.

Definition DecodeTextureLevel_tail (m : Heap) (finalBuf : Ptr)
    (dstFmt : GLenum) (w bufw h : Z) : Heap * Ptr :=
  if negb (w =? bufw) then
    let pixelSize :=
      match dstFmt with
      | GL_UNSIGNED_SHORT_4_4_4_4
      | GL_UNSIGNED_SHORT_5_5_5_1
      | GL_UNSIGNED_SHORT_5_6_5 => 2
      | _ => 4
      end in
    let inRowBytes := bufw * pixelSize in
    let outRowBytes := w * pixelSize in
    let read := finalBuf in
    let (write, finalBuf) :=
      if bufw <? w then (tmpTexBufRearrange_data, tmpTexBufRearrange_data)
      else (finalBuf, finalBuf) in
    (rearrange_rows m write read inRowBytes outRowBytes (Z.to_nat h), finalBuf)
  else (m, finalBuf).

(** [DecodeTextureLevel] for [format == GE_TFMT_8888]: the preamble, the
    [case GE_TFMT_8888] arm and the code after the switch.  The result is
    the memory, [finalBuf] and [dstFmt]; the arm leaves [texByteAlign] as
    the caller set it. *)
Definition DecodeTextureLevel_8888 `{Platform} (g : GPUgstate) (m : Heap)
    (level : Z) : Heap * Ptr * GLenum :=
  let texaddr := level_texaddr g level in
  let bufw := GetLevelBufw g level texaddr in
  let w := getTextureWidth g level in
  let h := getTextureHeight g level in
  let bufw := if bufw <? 4 then 4 else bufw in
  let dstFmt := GL_UNSIGNED_BYTE in
  let (m, finalBuf) :=
    if negb (isTextureSwizzled g) then
      if w =? bufw then (m, Memory_GetPointer texaddr)
      else
        let len := bufw * h in
        let m := resize TmpTexBuf32 (Z.max bufw w * h) m in
        let m := resize TmpTexBufRearrange (Z.max bufw w * h) m in
        let m := Memory_Memcpy m tmpTexBuf32_data texaddr (len * 4) in
        (m, tmpTexBuf32_data)
    else
      let m := resize TmpTexBuf32 (Z.max bufw w * h) m in
      UnswizzleFromMem g m texaddr bufw 4 level in
  let m := ConvertColors m finalBuf finalBuf dstFmt (bufw * h) in
  let (m, finalBuf) := DecodeTextureLevel_tail m finalBuf dstFmt w bufw h in
  (m, finalBuf, dstFmt).

(** ** The alpha scan *)

(** The scanning loops, from word [i] with [n] words left, on the pair
    ([hitZeroAlpha], [hitSomeAlpha]).  The 4444 and 8888 loops leave at the
    first word with a partial alpha. *)
Fixpoint CheckAlpha_4444 (m : Heap) (p : Ptr) (n : nat) (i : Z)
    (hitZeroAlpha : Z) : Z * Z :=
  match n with
  | O => (hitZeroAlpha, 0)
  | S n' =>
      let a := Z.land (load32 m (padd p (4 * i))) 0x000F000F in
      let hitZeroAlpha := Z.lor hitZeroAlpha (Z.lxor a 0x000F000F) in
      if negb (a =? 0x000F000F) && negb (a =? 0x0000000F)
         && negb (a =? 0x000F0000) && negb (a =? 0)
      then (hitZeroAlpha, 1)
      else CheckAlpha_4444 m p n' (i + 1) hitZeroAlpha
  end.

Fixpoint CheckAlpha_5551 (m : Heap) (p : Ptr) (n : nat) (i : Z)
    (hitZeroAlpha : Z) : Z * Z :=
  match n with
  | O => (hitZeroAlpha, 0)
  | S n' =>
      let a := Z.land (load32 m (padd p (4 * i))) 0x00010001 in
      CheckAlpha_5551 m p n' (i + 1) (Z.lor hitZeroAlpha (Z.lxor a 0x00010001))
  end.

Fixpoint CheckAlpha_8888 (m : Heap) (p : Ptr) (n : nat) (i : Z)
    (hitZeroAlpha : Z) : Z * Z :=
  match n with
  | O => (hitZeroAlpha, 0)
  | S n' =>
      let a := Z.land (load32 m (padd p (4 * i))) 0xFF000000 in
      let hitZeroAlpha := Z.lor hitZeroAlpha (Z.lxor a 0xFF000000) in
      if negb (a =? 0xFF000000) && negb (a =? 0)
      then (hitZeroAlpha, 1)
      else CheckAlpha_8888 m p n' (i + 1) hitZeroAlpha
  end.

Definition CheckAlpha `{EntryConsts} (entry : TexCacheEntry) (m : Heap)
    (pixelData : Ptr) (dstFmt : GLenum) (w h : Z) : TexCacheEntry :=
  let '(hitZeroAlpha, hitSomeAlpha) :=
    match dstFmt with
    | GL_UNSIGNED_SHORT_4_4_4_4 =>
        CheckAlpha_4444 m pixelData (Z.to_nat (Z.quot (w * h + 1) 2)) 0 0
    | GL_UNSIGNED_SHORT_5_5_5_1 =>
        CheckAlpha_5551 m pixelData (Z.to_nat (Z.quot (w * h + 1) 2)) 0 0
    | GL_UNSIGNED_SHORT_5_6_5 => (0, 0)
    | _ => CheckAlpha_8888 m pixelData (Z.to_nat (w * h)) 0 0
    end in
  if negb (hitSomeAlpha =? 0)
  then set_status (Z.lor (status entry) STATUS_ALPHA_UNKNOWN) entry
  else if negb (hitZeroAlpha =? 0)
  then set_status (Z.lor (status entry) STATUS_ALPHA_SIMPLE) entry
  else set_status (Z.lor (status entry) STATUS_ALPHA_FULL) entry.

(** [LoadTextureLevel] between the decode and the upload: the optional
    scaling, then the alpha scan.  [finalBuf], [dstFmt], [w] and [h] are
    what [DecodeTextureLevel] and the size accessors returned. *)
Definition LoadTextureLevel_scale `{Platform} (E : Env) (entry : TexCacheEntry)
    (m : Heap) (finalBuf : Ptr) (dstFmt : GLenum) (w h : Z)
  : Heap * Ptr * GLenum * Z * Z :=
  let scaleFactor := iTexScalingLevel (g_Config E) in
  let scaleFactor :=
    if (0x05000000 <? Entry.addr entry) && (Entry.addr entry <? 0x08800000)
    then 1 else scaleFactor in
  let pixelData := finalBuf in
  if (1 <? scaleFactor) && (numInvalidated entry =? 0)
  then Scale m pixelData dstFmt w h scaleFactor
  else (m, pixelData, dstFmt, w, h).

Definition LoadTextureLevel_alpha `{EntryConsts} (entry : TexCacheEntry)
    (m : Heap) (pixelData : Ptr) (dstFmt : GLenum) (w h : Z) : TexCacheEntry :=
  if numInvalidated entry =? 0
  then CheckAlpha entry m pixelData dstFmt w h
  else set_status (Z.lor (status entry) STATUS_ALPHA_UNKNOWN) entry.

(** The scaling step followed by the scan, as [LoadTextureLevel] runs
    them: the scan sees the buffer, the format and the size that the
    scaling step left. *)
Definition LoadTextureLevel_scan `{EntryConsts} `{Platform} (E : Env)
    (entry : TexCacheEntry) (m : Heap) (finalBuf : Ptr) (dstFmt : GLenum)
    (w h : Z) : TexCacheEntry :=
  let '(m, pixelData, dstFmt, w, h) :=
    LoadTextureLevel_scale E entry m finalBuf dstFmt w h in
  LoadTextureLevel_alpha entry m pixelData dstFmt w h.

(** The two statements of [SetTexture] around the decode that concern the
    alpha field: [entry->status &= ~STATUS_ALPHA_MASK] before it, and the
    value given to [gstate_c.textureFullAlpha] after it. *)
Definition SetTexture_clearAlpha `{EntryConsts} (entry : TexCacheEntry)
  : TexCacheEntry :=
  set_status (Z.land (status entry) (Z.lnot STATUS_ALPHA_MASK)) entry.

Definition textureFullAlpha_of `{EntryConsts} (entry : TexCacheEntry) : bool :=
  Z.land (status entry) STATUS_ALPHA_MASK =? STATUS_ALPHA_FULL.

(** ** [TextureCache::Decimate]

    [lastFrame], [numFlips] and the counter are [int]s.  The sums and the
    decrement below are the source's as long as they stay within [int]:
    the statements about the age test assume
    [lastFrame + TEXTURE_KILL_AGE <= INT_MAX] for the entries tested, beyond
    which the source's addition overflows. *)

(** One of the two erase loops: every entry that [kill] selects is handed
    to [glDeleteTextures] and erased, the others are kept in order. *)
Fixpoint Decimate_loop (kill : TexCacheEntry -> bool) (c : TexCache)
  : TexCache * list GLCall :=
  match c with
  | [] => ([], [])
  | (k, e) :: c' =>
      let (kept, calls) := Decimate_loop kill c' in
      if kill e then (kept, glDeleteTextures (texture e) :: calls)
      else ((k, e) :: kept, calls)
  end.

Definition Decimate (w : World) : World :=
  let t := tc w in
  let counter := decimationCounter_ t - 1 in
  if counter <=? 0 then
    let t := set_lastBoundTexture (u32 (-1))
               (set_decimationCounter_ TEXCACHE_DECIMATION_INTERVAL t) in
    (* the local [killAge] is computed and never read *)
    let killAge :=
      if lowMemoryMode_ t then TEXTURE_KILL_AGE_LOWMEM else TEXTURE_KILL_AGE in
    let flips := numFlips (gpuStats w) in
    let (c1, del1) :=
      Decimate_loop (fun e => lastFrame e + TEXTURE_KILL_AGE <? flips)
                    (cache t) in
    let (c2, del2) :=
      Decimate_loop (fun e => lowMemoryMode_ t
                              || (lastFrame e + TEXTURE_KILL_AGE <? flips))
                    (secondCache t) in
    set_gl (gl w ++ [glBindTexture 0] ++ del1 ++ del2)
      (set_tc (set_secondCache c2 (set_cache c1 t)) w)
  else
    set_tc (set_decimationCounter_ counter t) w.

(** ** [TextureCache::Invalidate] and [TextureCache::InvalidateAll] *)

Definition LARGEST_TEXTURE_SIZE : Z := 512 * 512 * 4.

Definition is_GPU_INVALIDATE_ALL (type : GPUInvalidationType) : bool :=
  match type with GPU_INVALIDATE_ALL => true | _ => false end.

Definition is_GPU_INVALIDATE_SAFE (type : GPUInvalidationType) : bool :=
  match type with GPU_INVALIDATE_SAFE => true | _ => false end.

(** The overlap test of the loop, on the [u32] locals [texAddr], [texEnd]. *)
Definition Invalidate_hits (addr addr_end : Z) (e : TexCacheEntry) : bool :=
  let texAddr := u32 (Entry.addr e) in
  let texEnd := u32 (Entry.addr e + sizeInRAM e) in
  (texAddr <? addr_end) && (addr <? texEnd).

(** The loop body on one entry; [n] is [gpuStats.numTextureInvalidations]. *)
Definition Invalidate_body `{EntryConsts} (addr addr_end : Z)
    (type : GPUInvalidationType) (e : TexCacheEntry) (n : Z)
  : TexCacheEntry * Z :=
  if Invalidate_hits addr addr_end e then
    let e :=
      if Z.land (status e) STATUS_MASK =? STATUS_RELIABLE
      then set_status (Z.land (status e) (Z.lnot STATUS_MASK)) e
      else e in
    if negb (is_GPU_INVALIDATE_ALL type) then
      let e := set_numFrames (if is_GPU_INVALIDATE_SAFE type then 256 else 0) e in
      (set_framesUntilNextFullHash 0 e, n + 1)
    else
      (set_invalidHint (invalidHint e + 1) e, n)
  else (e, n).

(** [for (iter = lower_bound(startKey), end = upper_bound(endKey);
         iter != end; ++iter)] over the list of pairs.  [idx] is the position
    of the head of [c] in the whole map.  When [iter] reaches [end()]
    without having met [end] the source dereferences [end()]: the loop has
    no defined result, [None]. *)
Fixpoint Invalidate_loop (body : TexCacheEntry -> Z -> TexCacheEntry * Z)
    (c : TexCache) (idx iter end_ : nat) (n : Z) : option (TexCache * Z) :=
  match c with
  | [] => if Nat.eqb iter end_ then Some ([], n) else None
  | (k, e) :: c' =>
      if Nat.ltb idx iter then
        match Invalidate_loop body c' (S idx) iter end_ n with
        | Some (r, n') => Some ((k, e) :: r, n')
        | None => None
        end
      else if Nat.eqb iter end_ then Some ((k, e) :: c', n)
      else
        let (e', n1) := body e n in
        match Invalidate_loop body c' (S idx) (S iter) end_ n1 with
        | Some (r, n') => Some ((k, e') :: r, n')
        | None => None
        end
  end.

Definition Invalidate `{EntryConsts} (addr : Z) (size : Z)
    (type : GPUInvalidationType) (w : World) : option World :=
  let addr := Z.land addr 0x0FFFFFFF in
  let addr_end := u32 (addr + size) in
  let startKey := u64 (u32 (addr - LARGEST_TEXTURE_SIZE)) in
  let endKey := u64 (u32 (addr + size + LARGEST_TEXTURE_SIZE)) in
  let c := cache (tc w) in
  match Invalidate_loop (Invalidate_body addr addr_end type) c O
          (lower_bound startKey c) (upper_bound endKey c)
          (numTextureInvalidations (gpuStats w)) with
  | Some (c', n') =>
      Some (set_gpuStats (set_numTextureInvalidations n' (gpuStats w))
              (set_tc (set_cache c' (tc w)) w))
  | None => None
  end.

Definition InvalidateAll_body `{EntryConsts} (e : TexCacheEntry) : TexCacheEntry :=
  let e :=
    if Z.land (status e) STATUS_MASK =? STATUS_RELIABLE
    then set_status (Z.land (status e) (Z.lnot STATUS_MASK)) e
    else e in
  set_invalidHint (invalidHint e + 1) e.

Definition InvalidateAll `{EntryConsts} (w : World) : World :=
  set_tc (set_cache (map (fun p => (fst p, InvalidateAll_body (snd p)))
                         (cache (tc w))) (tc w)) w.

(** ** Sampler state and framebuffer binding *)

Definition MinFiltGL : list GLvalue :=
  [GL_NEAREST; GL_LINEAR; GL_NEAREST; GL_LINEAR;
   GL_NEAREST_MIPMAP_NEAREST; GL_LINEAR_MIPMAP_NEAREST;
   GL_NEAREST_MIPMAP_LINEAR; GL_LINEAR_MIPMAP_LINEAR].

Definition MagFiltGL : list GLvalue := [GL_NEAREST; GL_LINEAR].

Definition TexFiltering_eqb (a b : TexFiltering) : bool :=
  match a, b with
  | AUTO, AUTO | NEAREST, NEAREST | LINEAR, LINEAR | LINEARFMV, LINEARFMV => true
  | _, _ => false
  end.

Definition is_FB_NON_BUFFERED_MODE (r : RenderingMode) : bool :=
  match r with FB_NON_BUFFERED_MODE => true | _ => false end.

(** [UpdateSamplingParams(entry, force)]: the entry with its sampler cache
    updated, and the GL calls made. *)
Definition UpdateSamplingParams `{Platform} (E : Env) (entry : TexCacheEntry)
    (force : bool) : TexCacheEntry * list GLCall :=
  let g := gstate E in
  let minFilt := Z.land (texfilter g) 0x7 in
  let magFilt := Z.land (Z.shiftr (texfilter g) 8) 1 in
  let sClamp_ := isTexCoordClampedS g in
  let tClamp_ := isTexCoordClampedT g in
  let noMip := (Z.land (texlevel g) 0xFFFFFF =? 0x000001)
               || (Z.land (texlevel g) 0xFFFFFF =? 0x100001) in
  let '(entry, calls, minFilt) :=
    if maxLevel entry =? 0 then (entry, [], Z.land minFilt 1)
    else
      let lodBias_ := 0 in
      if force || negb (lodBias entry =? lodBias_)
      then (set_lodBias lodBias_ entry,
            if USING_GLES2 then []
            else [glTexParameterf GL_TEXTURE_LOD_BIAS lodBias_],
            minFilt)
      else (entry, [], minFilt) in
  let '(magFilt, minFilt) :=
    if (TexFiltering_eqb (iTexFiltering (g_Config E)) LINEAR
        || (TexFiltering_eqb (iTexFiltering (g_Config E)) LINEARFMV
            && negb (g_iNumVideos E =? 0)))
       && negb (isColorTestEnabled g)
    then (Z.lor magFilt 1, Z.lor minFilt 1)
    else (magFilt, minFilt) in
  let '(magFilt, minFilt) :=
    if TexFiltering_eqb (iTexFiltering (g_Config E)) NEAREST
    then (Z.land magFilt (Z.lnot 1), Z.land minFilt (Z.lnot 1))
    else (magFilt, minFilt) in
  let '(magFilt, minFilt) :=
    if negb (bMipMap (g_Config E)) || noMip
    then (Z.land magFilt 1, Z.land minFilt 1)
    else (magFilt, minFilt) in
  let '(entry, calls) :=
    if force || negb (Entry.minFilt entry =? minFilt)
    then (set_minFilt (u8 minFilt) entry,
          calls ++ [glTexParameteri GL_TEXTURE_MIN_FILTER
                      (nth (Z.to_nat minFilt) MinFiltGL GL_NEAREST)])
    else (entry, calls) in
  let '(entry, calls) :=
    if force || negb (Entry.magFilt entry =? magFilt)
    then (set_magFilt (u8 magFilt) entry,
          calls ++ [glTexParameteri GL_TEXTURE_MAG_FILTER
                      (nth (Z.to_nat magFilt) MagFiltGL GL_NEAREST)])
    else (entry, calls) in
  let '(entry, calls) :=
    if force || negb (Bool.eqb (sClamp entry) sClamp_)
    then (set_sClamp sClamp_ entry,
          calls ++ [glTexParameteri GL_TEXTURE_WRAP_S
                      (if sClamp_ then GL_CLAMP_TO_EDGE else GL_REPEAT)])
    else (entry, calls) in
  if force || negb (Bool.eqb (tClamp entry) tClamp_)
  then (set_tClamp tClamp_ entry,
        calls ++ [glTexParameteri GL_TEXTURE_WRAP_T
                    (if tClamp_ then GL_CLAMP_TO_EDGE else GL_REPEAT)])
  else (entry, calls).

(** [fbs[p] = fb]. *)
Definition set_fb (p : Z) (fb : Framebuffer.VirtualFramebuffer)
    (fbs : Z -> Framebuffer.VirtualFramebuffer)
  : Z -> Framebuffer.VirtualFramebuffer :=
  fun q => if q =? p then fb else fbs q.

(** [SetTextureFramebuffer(entry)]: the entry as it leaves the call and the
    state after it. *)
Definition SetTextureFramebuffer `{Platform} (E : Env) (entry : TexCacheEntry)
    (w : World) : TexCacheEntry * World :=
  let p := framebuffer entry in
  let fb := fbs w p in
  let fb := Framebuffer.set_usageFlags
              (Z.lor (Framebuffer.usageFlags fb) FB_USAGE_TEXTURE) fb in
  let useBufferedRendering :=
    negb (is_FB_NON_BUFFERED_MODE (iRenderingMode (g_Config E))) in
  if useBufferedRendering then
    let '(fb, calls, skip) :=
      if negb (Framebuffer.fbo fb =? 0) && negb (invalidHint entry =? -1)
      then (Framebuffer.set_last_frame_used (numFlips (gpuStats w)) fb,
            [fbo_bind_color_as_texture (Framebuffer.fbo fb) 0],
            skipDrawReason (gstate_c w))
      else (fb, [glBindTexture 0],
            Z.lor (skipDrawReason (gstate_c w)) SKIPDRAW_BAD_FB_TEXTURE) in
    let (entry, calls2) := UpdateSamplingParams E entry false in
    let c := set_skipDrawReason skip (gstate_c w) in
    let c := set_curTextureWidth (Framebuffer.width fb) c in
    let c := set_curTextureHeight (Framebuffer.height fb) c in
    let c := set_flipTexture true c in
    let c := set_textureFullAlpha (Framebuffer.format fb =? GE_FORMAT_565) c in
    (entry,
     set_gl (gl w ++ calls ++ calls2)
       (set_gstate_c c (set_fbs (set_fb p fb (fbs w)) w)))
  else
    let fb := if negb (Framebuffer.fbo fb =? 0)
              then Framebuffer.set_fbo 0 fb else fb in
    (entry, set_gl (gl w ++ [glBindTexture 0]) (set_fbs (set_fb p fb (fbs w)) w)).

(** ** [TextureCache::SetTexture], up to the decision to decode

    The function either returns (invalid address, framebuffer alias, cache
    hit) or falls through to the decoding half with the locals it has
    computed; [entry] then points at [cache[cachekey]]. *)

(** [TexCacheEntry entryNew = {0}]. *)
Definition entryNew : TexCacheEntry :=
  mkTexCacheEntry 0 0 0 0 0 0 0 0 0 0 0 0 0 0 0 0 0 0 0 0 false false.

Record SetTextureLocals : Type := mkSetTextureLocals {
  l_texaddr : Z;
  l_format : Z;
  l_cluthash : Z;
  l_cachekey : Z;
  l_w : Z;
  l_h : Z;
  l_bufw : Z;
  l_maxLevel : Z;
  l_texhash : Z;
  l_fullhash : Z;
  l_replaceImages : bool
}.

Inductive SetTextureLookup : Type :=
| Returned (w : World)
| NeedsDecode (w : World) (entry : TexCacheEntry) (locals : SetTextureLocals).

(** The block [if (match) { ... }] that schedules and runs the rehash.  It
    yields the entry, [fullhash] and [hashFail]. *)
Definition SetTexture_rehash `{EntryConsts} `{Platform} (m : Heap)
    (flips : Z) (texaddr bufw w h format dim texhash : Z)
    (entry : TexCacheEntry) (rehash : bool) : TexCacheEntry * Z * bool :=
  let entry :=
    if negb (lastFrame entry =? flips)
    then set_numFrames (numFrames entry + 1) entry else entry in
  let '(entry, rehash) :=
    if framesUntilNextFullHash entry =? 0
    then (set_framesUntilNextFullHash (Z.min 2048 (numFrames entry)) entry, true)
    else (set_framesUntilNextFullHash (framesUntilNextFullHash entry - 1) entry,
          rehash) in
  let '(entry, rehash) :=
    if (180 <? invalidHint entry)
       || ((15 <? invalidHint entry) && (dim <=? 0x909))
    then (set_invalidHint 0 entry, true)
    else (entry, rehash) in
  let fullhash := 0 in
  let hashFail := false in
  let '(fullhash, hashFail, rehash) :=
    if negb (texhash =? hash entry)
    then (QuickTexHash m texaddr bufw w h format, true, false)
    else (fullhash, hashFail, rehash) in
  if rehash && negb (Z.land (status entry) STATUS_MASK =? STATUS_RELIABLE) then
    let fullhash := QuickTexHash m texaddr bufw w h format in
    if negb (fullhash =? Entry.fullhash entry) then (entry, fullhash, true)
    else if (Z.land (status entry) STATUS_MASK =? STATUS_UNRELIABLE)
            && (FRAMES_REGAIN_TRUST <? numFrames entry)
    then (set_status (Z.land (status entry) (Z.lnot STATUS_MASK)) entry,
          fullhash, hashFail)
    else (entry, fullhash, hashFail)
  else (entry, fullhash, hashFail).

(** The block [if (hashFail) { ... }] once the entry is marked unreliable:
    the second-chance lookup.  It yields the primary entry, the second
    cache, [match], [doDelete] and, on a second-cache hit, the key and the
    value of the second-cache entry that [entry] now points at. *)
Definition SetTexture_secondChance (lowMemoryMode : bool)
    (secondCache : TexCache) (fullhash cluthash dim format maxLevel : Z)
    (entry : TexCacheEntry)
  : TexCacheEntry * TexCache * bool * bool * option (Z * TexCacheEntry) :=
  if (2 <? numInvalidated entry) && (numInvalidated entry <? 128)
     && negb lowMemoryMode
  then
    let secondKey := Z.lor fullhash (Z.shiftl cluthash 32) in
    match find secondKey secondCache with
    | Some secondEntry =>
        if Matches secondEntry dim format maxLevel then
          let entry :=
            if 8 <? numInvalidated entry
            then set_numInvalidated (numInvalidated entry - 1) entry
            else entry in
          (entry, secondCache, true, true, Some (secondKey, secondEntry))
        else (entry, secondCache, false, true, None)
    | None =>
        let secondKey :=
          Z.lor (Entry.fullhash entry) (Z.shiftl (Entry.cluthash entry) 32) in
        (entry, assign secondKey entry secondCache, false, false, None)
    end
  else (entry, secondCache, false, true, None).

(** The hit path [if (match) { ... return; }] on the entry that [entry]
    points at. *)
Definition SetTexture_hit `{EntryConsts} `{Platform} (E : Env)
    (entry : TexCacheEntry) (w : World) : TexCacheEntry * World :=
  let entry := set_lastFrame (numFlips (gpuStats w)) entry in
  let w :=
    if negb (texture entry =? lastBoundTexture (tc w)) then
      set_gstate_c (set_textureFullAlpha
                      (Z.land (status entry) STATUS_ALPHA_MASK
                       =? STATUS_ALPHA_FULL) (gstate_c w))
        (set_tc (set_lastBoundTexture (texture entry) (tc w))
           (set_gl (gl w ++ [glBindTexture (texture entry)]) w))
    else w in
  let (entry, calls) := UpdateSamplingParams E entry false in
  (entry, set_gl (gl w ++ calls) w).

(** The miss path [else { entry->numInvalidated++; ... }]. *)
Definition SetTexture_miss `{EntryConsts} (E : Env) (format maxLevel : Z)
    (doDelete : bool) (entry : TexCacheEntry) (w : World)
  : TexCacheEntry * World * bool :=
  let entry := set_numInvalidated (numInvalidated entry + 1) entry in
  let w := set_gpuStats
             (set_numTextureInvalidations
                (numTextureInvalidations (gpuStats w) + 1) (gpuStats w)) w in
  let '(w, replaceImages) :=
    if doDelete then
      if (Entry.maxLevel entry =? maxLevel)
         && (dim entry =? Z.land (texsize (gstate E) 0) 0xF0F)
         && (Entry.format entry =? format)
         && (iTexScalingLevel (g_Config E) <=? 1)
      then (w, true)
      else
        let w :=
          if texture entry =? lastBoundTexture (tc w)
          then set_tc (set_lastBoundTexture (u32 (-1)) (tc w)) w else w in
        (set_gl (gl w ++ [glDeleteTextures (texture entry)]) w, false)
    else (w, false) in
  let entry :=
    if status entry =? STATUS_RELIABLE
    then set_status STATUS_HASHING entry else entry in
  (entry, w, replaceImages).

(** The locals computed before the map is searched, with [fullhash] and
    [replaceImages] at their initial values, and the state at that point:
    the palette refreshed when its format changed, [gstate_c.flipTexture]
    and the bad-framebuffer skip flag cleared. *)
Definition SetTexture_prelude `{Platform} (E : Env) (w : World)
  : World * SetTextureLocals :=
  let g := gstate E in
  let texaddr := level_texaddr g 0 in
  let format := getTextureFormat g in
  let format := if 11 <=? format then GE_TFMT_5650 else format in
  let hasClut := isTextureFormatIndexed g in
  let cachekey := u64 (Z.shiftl texaddr 32) in
  let w :=
    if hasClut && negb (clutLastFormat_ (tc w) =? clutformat g)
    then UpdateCurrentClut E w else w in
  let cluthash :=
    if hasClut then Z.lxor (clutHash_ (tc w)) (clutformat g) else 0 in
  let cachekey := if hasClut then Z.lor cachekey cluthash else cachekey in
  let w_ := getTextureWidth g 0 in
  let h := getTextureHeight g 0 in
  let bufw := GetLevelBufw g 0 texaddr in
  let maxLevel := Z.land (Z.shiftr (texmode g) 16) 0x7 in
  let texhash := MiniHash (heap w) (Memory_GetPointer texaddr) in
  let fullhash := 0 in
  let replaceImages := false in
  let w := set_gstate_c
             (set_skipDrawReason
                (Z.land (skipDrawReason (gstate_c w))
                        (Z.lnot SKIPDRAW_BAD_FB_TEXTURE))
                (set_flipTexture false (gstate_c w))) w in
  (w, mkSetTextureLocals texaddr format cluthash cachekey w_ h bufw maxLevel
        texhash fullhash replaceImages).

Definition with_fullhash (fullhash : Z) (replaceImages : bool)
    (L : SetTextureLocals) : SetTextureLocals :=
  mkSetTextureLocals (l_texaddr L) (l_format L) (l_cluthash L) (l_cachekey L)
    (l_w L) (l_h L) (l_bufw L) (l_maxLevel L) (l_texhash L) fullhash
    replaceImages.

(** [cache[key] = entry] on the state. *)
Definition put_cache (key : Z) (entry : TexCacheEntry) (w : World) : World :=
  set_tc (set_cache (assign key entry (cache (tc w))) (tc w)) w.

Definition put_secondCache (key : Z) (entry : TexCacheEntry) (w : World)
  : World :=
  set_tc (set_secondCache (assign key entry (secondCache (tc w))) (tc w)) w.

Definition SetTexture_lookup `{EntryConsts} `{Platform} (E : Env) (w : World)
  : SetTextureLookup :=
  let g := gstate E in
  if negb (IsValidAddress (level_texaddr g 0)) then
    Returned (set_tc (set_lastBoundTexture (u32 (-1)) (tc w))
                (set_gl (gl w ++ [glBindTexture 0]) w))
  else
  let (w, L) := SetTexture_prelude E w in
  let cachekey := l_cachekey L in
  let format := l_format L in
  let maxLevel := l_maxLevel L in
  match find cachekey (cache (tc w)) with
  | Some entry =>
      if negb (framebuffer entry =? 0) then
        let (entry, w) := SetTextureFramebuffer E entry w in
        let w := set_tc (set_lastBoundTexture (u32 (-1)) (tc w)) w in
        let entry := set_lastFrame (numFlips (gpuStats w)) entry in
        Returned (put_cache cachekey entry w)
      else
      let dim := Z.land (texsize g 0) 0xF0F in
      let match_ := Matches entry dim format maxLevel in
      let rehash := Z.land (status entry) STATUS_MASK =? STATUS_UNRELIABLE in
      let '(entry, fullhash, hashFail) :=
        if match_
        then SetTexture_rehash (heap w) (numFlips (gpuStats w)) (l_texaddr L)
               (l_bufw L) (l_w L) (l_h L) format dim (l_texhash L) entry rehash
        else (entry, l_fullhash L, false) in
      let '(entry, secondCache', match_, doDelete, swapped) :=
        if hashFail then
          let entry := set_status (Z.lor (status entry) STATUS_UNRELIABLE) entry in
          let entry := set_numFrames 0 entry in
          SetTexture_secondChance (lowMemoryMode_ (tc w)) (secondCache (tc w))
            fullhash (l_cluthash L) dim format maxLevel entry
        else (entry, secondCache (tc w), match_, true, None) in
      let w := set_tc (set_secondCache secondCache' (tc w)) w in
      let w := put_cache cachekey entry w in
      if match_ then
        match swapped with
        | Some (secondKey, secondEntry) =>
            let (secondEntry, w) := SetTexture_hit E secondEntry w in
            Returned (put_secondCache secondKey secondEntry w)
        | None =>
            let (entry, w) := SetTexture_hit E entry w in
            Returned (put_cache cachekey entry w)
        end
      else
        let '(entry, w, replaceImages) :=
          SetTexture_miss E format maxLevel doDelete entry w in
        NeedsDecode (put_cache cachekey entry w) entry
          (with_fullhash fullhash replaceImages L)
  | None =>
      let entry := set_status STATUS_HASHING entryNew in
      NeedsDecode (put_cache cachekey entry w) entry L
  end.

(** ** [RoundUpToPowerOf2] *)

Definition RoundUpToPowerOf2 (v : Z) : Z :=
  let v := u32 (v - 1) in
  let v := Z.lor v (Z.shiftr v 1) in
  let v := Z.lor v (Z.shiftr v 2) in
  let v := Z.lor v (Z.shiftr v 4) in
  let v := Z.lor v (Z.shiftr v 8) in
  let v := Z.lor v (Z.shiftr v 16) in
  u32 (v + 1).

(** ** [TextureCache::Clear], [ClearNextFrame] and [StartFrame] *)

(** [for (iter = c.begin(); iter != c.end(); ++iter)
       glDeleteTextures(1, &iter->second.texture);] *)
Fixpoint Clear_loop (c : TexCache) : list GLCall :=
  match c with
  | [] => []
  | (_, e) :: c' => glDeleteTextures (texture e) :: Clear_loop c'
  end.

Definition Clear (delete_them : bool) (w : World) : World :=
  let w := set_gl (gl w ++ [glBindTexture 0]) w in
  let t := set_lastBoundTexture (u32 (-1)) (tc w) in
  let w :=
    if delete_them
    then set_gl (gl w ++ Clear_loop (cache t) ++ Clear_loop (secondCache t)) w
    else w in
  let t :=
    if negb (Z.of_nat (length (cache t)) + Z.of_nat (length (secondCache t))
             =? 0)
    then set_secondCache [] (set_cache [] t)
    else t in
  set_tc t w.

Definition ClearNextFrame (w : World) : World :=
  set_tc (set_clearCacheNextFrame_ true (tc w)) w.

Definition StartFrame (w : World) : World :=
  let w := set_tc (set_lastBoundTexture (u32 (-1)) (tc w)) w in
  if clearCacheNextFrame_ (tc w) then
    let w := Clear true w in
    set_tc (set_clearCacheNextFrame_ false (tc w)) w
  else Decimate w.

(** ** Render-to-texture: attaching framebuffers to entries *)

Definition set_framebuffer (v : Z) (x : TexCacheEntry) : TexCacheEntry :=
  mkTexCacheEntry (status x) (Entry.addr x) (hash x) v (sizeInRAM x)
    (Entry.format x) (dim x) (bufw x) (texture x) (invalidHint x)
    (fullhash x) (cluthash x) (maxLevel x) (lodBias x) (numFrames x)
    (lastFrame x) (numInvalidated x) (framesUntilNextFullHash x) (magFilt x)
    (minFilt x) (sClamp x) (tClamp x).

Definition set_fbCache_ (v : list Z) (x : TextureCache) : TextureCache :=
  mkTextureCache (cache x) (secondCache x) v (clearCacheNextFrame_ x)
    (lowMemoryMode_ x) (decimationCounter_ x) (lastBoundTexture x)
    (clutBuf_ x) (clutLastFormat_ x) (clutTotalBytes_ x) (clutHash_ x)
    (clutAlphaLinear_ x) (clutAlphaLinearColor_ x).

(** [GE_FORMAT_8888] of [enum GEBufferFormat] (GPU/ge_constants.h). *)
Class BufferFormats : Type := {
  GE_FORMAT_8888 : Z
}.

(** [enum FramebufferNotification] (GPU/GLES/TextureCache.h), with the
    three values the file switches on. *)
Inductive FramebufferNotification : Type :=
| NOTIFY_FB_CREATED
| NOTIFY_FB_UPDATED
| NOTIFY_FB_DESTROYED.

(** [framebuffer] is the address of the framebuffer object, [fbs] the
    objects by address. *)
Definition AttachFramebufferValid (fbs : Z -> Framebuffer.VirtualFramebuffer)
    (entry : TexCacheEntry) (framebuffer : Z) : TexCacheEntry :=
  let hasInvalidFramebuffer :=
    (Entry.framebuffer entry =? 0) || (invalidHint entry =? -1) in
  let hasOlderFramebuffer :=
    negb (Entry.framebuffer entry =? 0)
    && (Framebuffer.last_frame_render (fbs (Entry.framebuffer entry))
        <? Framebuffer.last_frame_render (fbs framebuffer)) in
  if hasInvalidFramebuffer || hasOlderFramebuffer
  then set_invalidHint 0 (set_framebuffer framebuffer entry)
  else entry.

Definition AttachFramebufferInvalid (entry : TexCacheEntry) (framebuffer : Z)
  : TexCacheEntry :=
  if (Entry.framebuffer entry =? 0) || (Entry.framebuffer entry =? framebuffer)
  then set_invalidHint (-1) (set_framebuffer framebuffer entry)
  else entry.

Definition is_FB_BUFFERED_MODE (r : RenderingMode) : bool :=
  match r with FB_BUFFERED_MODE => true | _ => false end.

(** [AttachFramebuffer(entry, address, framebuffer, exactMatch)].  The
    sub-area test divides by [entry->bufw]; with [bufw == 0] the division
    has no defined result, [None]. *)
Definition AttachFramebuffer `{BufferFormats} (E : Env)
    (fbs : Z -> Framebuffer.VirtualFramebuffer) (entry : TexCacheEntry)
    (address framebuffer : Z) (exactMatch : bool) : option TexCacheEntry :=
  let fb := fbs framebuffer in
  if exactMatch then
    if Entry.framebuffer entry =? 0 then
      if negb (Entry.format entry =? Framebuffer.format fb)
      then Some (AttachFramebufferInvalid entry framebuffer)
      else Some (AttachFramebufferValid fbs entry framebuffer)
    else Some entry
  else if is_FB_NON_BUFFERED_MODE (iRenderingMode (g_Config E))
          || is_FB_BUFFERED_MODE (iRenderingMode (g_Config E)) then
    let compatFormat :=
      (Framebuffer.format fb =? Entry.format entry)
      || ((Framebuffer.format fb =? GE_FORMAT_8888)
          && (Entry.format entry =? GE_TFMT_CLUT32))
      || (negb (Framebuffer.format fb =? GE_FORMAT_8888)
          && (Entry.format entry =? GE_TFMT_CLUT16)) in
    if (Framebuffer.fb_stride fb =? bufw entry) && compatFormat then
      if negb (Framebuffer.format fb =? Entry.format entry)
      then Some (AttachFramebufferValid fbs entry framebuffer)
      else if bufw entry =? 0 then None
      else if u32 (Entry.addr entry - address) / bufw entry
              <? Framebuffer.height fb
      then Some (AttachFramebufferValid fbs entry framebuffer)
      else Some entry
    else Some entry
  else Some entry.

Definition DetachFramebuffer (entry : TexCacheEntry) (address framebuffer : Z)
  : TexCacheEntry :=
  if Entry.framebuffer entry =? framebuffer
  then set_framebuffer 0 entry
  else entry.

(** [for (it = lower_bound(cacheKey), end = upper_bound(cacheKeyEnd);
         it != end; ++it) body(it->first, it->second);] with the positions
    of [Invalidate_loop]; [None] also when the body has no result. *)
Fixpoint NotifyFramebuffer_loop (body : Z -> TexCacheEntry -> option TexCacheEntry)
    (c : TexCache) (idx iter end_ : nat) : option TexCache :=
  match c with
  | [] => if Nat.eqb iter end_ then Some [] else None
  | (k, e) :: c' =>
      if Nat.ltb idx iter then
        match NotifyFramebuffer_loop body c' (S idx) iter end_ with
        | Some r => Some ((k, e) :: r)
        | None => None
        end
      else if Nat.eqb iter end_ then Some ((k, e) :: c')
      else
        match body k e with
        | Some e' =>
            match NotifyFramebuffer_loop body c' (S idx) (S iter) end_ with
            | Some r => Some ((k, e') :: r)
            | None => None
            end
        | None => None
        end
  end.

Definition MAX_SUBAREA_Y_OFFSET : Z := 32.

(** [std::find(fbCache_.begin(), fbCache_.end(), framebuffer) != end()] *)
Definition fbCache_has (framebuffer : Z) (l : list Z) : bool :=
  existsb (fun p => p =? framebuffer) l.

(** [fbCache_.erase(std::remove(begin, end, framebuffer), end)] *)
Definition fbCache_remove (framebuffer : Z) (l : list Z) : list Z :=
  filter (fun p => negb (p =? framebuffer)) l.

Definition NotifyFramebuffer `{BufferFormats} (E : Env) (address framebuffer : Z)
    (msg : FramebufferNotification) (w : World) : option World :=
  let cacheKey := u64 (Z.shiftl (Z.lor address 0x04000000) 32) in
  let cacheKeyEnd :=
    u64 (cacheKey
         + u64 (Z.shiftl
                  (u32 (Framebuffer.fb_stride (fbs w framebuffer)
                        * MAX_SUBAREA_Y_OFFSET)) 32)) in
  let c := cache (tc w) in
  let walk body := NotifyFramebuffer_loop body c O (lower_bound cacheKey c)
                     (upper_bound cacheKeyEnd c) in
  match msg with
  | NOTIFY_FB_CREATED | NOTIFY_FB_UPDATED =>
      let l := fbCache_ (tc w) in
      let l := if negb (fbCache_has framebuffer l)
               then l ++ [framebuffer] else l in
      match walk (fun k e =>
                    AttachFramebuffer E (fbs w) e (Z.lor address 0x04000000)
                      framebuffer (k =? cacheKey)) with
      | Some c' => Some (set_tc (set_cache c' (set_fbCache_ l (tc w))) w)
      | None => None
      end
  | NOTIFY_FB_DESTROYED =>
      let l := fbCache_remove framebuffer (fbCache_ (tc w)) in
      match walk (fun k e =>
                    Some (DetachFramebuffer e (Z.lor address 0x04000000)
                            framebuffer)) with
      | Some c' => Some (set_tc (set_cache c' (set_fbCache_ l (tc w))) w)
      | None => None
      end
  end.

(** ** The general de-indexer [DeIndexTexture]

    [IndexT] is the index type the template is instantiated at. *)

Inductive IndexT : Type :=
| IndexT_u8
| IndexT_u16
| IndexT_u32.

Definition sizeofI (I : IndexT) : Z :=
  match I with IndexT_u8 => 1 | IndexT_u16 => 2 | IndexT_u32 => 4 end.

Definition loadI (I : IndexT) (m : Heap) (p : Ptr) : Z :=
  match I with
  | IndexT_u8 => load8 m p
  | IndexT_u16 => load16 m p
  | IndexT_u32 => load32 m p
  end.

(** [for (int i = 0; i < length; ++i)] storing [clut[f(index)]] through
    [dest++] for the index read through [indexed++], with [n] iterations
    left; [f] is the identity, [& 0xFF] or
    [gstate.transformClutIndex]. *)
Fixpoint DeIndexTexture_loop (I : IndexT) (T : ClutT) (f : Z -> Z) (m : Heap)
    (dest indexed clut : Ptr) (n : nat) : Heap :=
  match n with
  | O => m
  | S n' =>
      let m := storeT T m dest (loadT T m (atT T clut (f (loadI I m indexed)))) in
      DeIndexTexture_loop I T f m (padd dest (sizeofT T))
        (padd indexed (sizeofI I)) clut n'
  end.

Definition DeIndexTexture (I : IndexT) (T : ClutT) (g : GPUgstate) (m : Heap)
    (dest indexed : Ptr) (length : Z) (clut : Ptr) : Heap :=
  let nakedIndex := isClutIndexSimple g in
  if nakedIndex then
    match I with
    | IndexT_u8 =>
        DeIndexTexture_loop I T (fun index => index) m dest indexed clut
          (Z.to_nat length)
    | _ =>
        DeIndexTexture_loop I T (fun index => Z.land index 0xFF) m dest
          indexed clut (Z.to_nat length)
    end
  else
    DeIndexTexture_loop I T (transformClutIndex g) m dest indexed clut
      (Z.to_nat length).

(** ** DXT3 blocks

    [struct DXT3Block { DXT1Block color; u16 alphaLines[4]; }]: the colour
    block at offset 0 and the four alpha lines at offsets 8, 10, 12, 14. *)

Definition DXT3Block_color (src : Ptr) : Ptr := src.
Definition DXT3Block_alphaLines (src : Ptr) (y : Z) : Ptr :=
  padd src (8 + 2 * y).

(** [for (int x = 0; x < 4; x++) { const u8 a4 = line & 0xF;
       dst[x] = (dst[x] & 0xFFFFFF) | (a4 << 24) | (a4 << 28); line >>= 4; }]
    with [n] iterations left. *)
Fixpoint decodeDXT3Block_row (m : Heap) (dst : Ptr) (line : Z) (n : nat)
    (x : Z) : Heap :=
  match n with
  | O => m
  | S n' =>
      let a4 := u8 (Z.land line 0xF) in
      let m := store32 m (padd dst (4 * x))
                 (Z.lor (Z.lor (Z.land (load32 m (padd dst (4 * x))) 0xFFFFFF)
                               (Z.shiftl a4 24))
                        (Z.shiftl a4 28)) in
      decodeDXT3Block_row m dst (Z.shiftr line 4) n' (x + 1)
  end.

(** [for (int y = 0; y < 4; y++) { u32 line = src->alphaLines[y]; ...;
       dst += pitch; }] with [n] iterations left. *)
Fixpoint decodeDXT3Block_rows (m : Heap) (dst src : Ptr) (pitch : Z)
    (n : nat) (y : Z) : Heap :=
  match n with
  | O => m
  | S n' =>
      let line := load16 m (DXT3Block_alphaLines src y) in
      let m := decodeDXT3Block_row m dst line 4 0 in
      decodeDXT3Block_rows m (padd dst (4 * pitch)) src pitch n' (y + 1)
  end.

Definition decodeDXT3Block `{Platform} (m : Heap) (dst src : Ptr) (pitch : Z)
  : Heap :=
  let m := decodeDXT1Block m dst (DXT3Block_color src) pitch true in
  decodeDXT3Block_rows m dst src pitch 4 0.

(** * Concrete instances

    Values for the parameters and small states, used to run the definitions
    on explicit inputs. *)

(** A status enumeration with the trust states 0, 1, 2 under the mask 3 and
    the alpha states 4, 0, 8 under the mask 12. *)
Definition example_consts : EntryConsts :=
  Build_EntryConsts 0 1 2 3 4 0 8 12 1000.

(** A platform on which RAM is [0x08000000, 0x0A000000), the host view of
    guest memory is the identity, [XXH32] is constant, the 5- and 6-bit
    channels widen by bit replication, resizing keeps contents and the
    scaler changes nothing. *)
Definition example_platform (sse : bool) : Platform :=
  {| M_SSE := sse;
     USING_GLES2 := false;
     IsValidAddress := fun a => (0x08000000 <=? a) && (a <? 0x0A000000);
     GetPointer := fun a => a;
     PSP_GetUserMemoryBase := 0x08800000;
     intptr := fun p => ofs p;
     XXH32 := fun _ _ _ _ => 0;
     Convert5To8 := fun v => Z.lor (Z.shiftl v 3) (Z.shiftr v 2);
     Convert6To8 := fun v => Z.lor (Z.shiftl v 2) (Z.shiftr v 4);
     resize := fun _ _ m => m;
     Memory_Memcpy := fun m dst a n => memcpy m dst (mkPtr HostMem a) n;
     Scale := fun m p f w h _ => (m, p, f, w, h);
     GE_FORMAT_565 := 0;
     FB_USAGE_TEXTURE := 2;
     SKIPDRAW_BAD_FB_TEXTURE := 4 |}.

Definition zero_heap : Heap := fun _ _ => 0.

Definition zero_fb : Framebuffer.VirtualFramebuffer :=
  Framebuffer.mkVirtualFramebuffer 0 0 0 0 0 0 0 0 0.

Definition zero_gstate : GPUgstate :=
  mkGPUgstate (fun _ => 0) (fun _ => 0) (fun _ => 0) 0 0 0 0
    (fun _ => 1) (fun _ => 1) 0 false false GE_CMODE_16BIT_BGR5650 0 true
    (fun i => i) false false false.

Definition example_config : Config :=
  mkConfig FB_BUFFERED_MODE AUTO true 0 1.

(** A state with the given maps, low-memory flag, decimation counter, frame
    counter and memory; nothing bound, no GL call made yet. *)
Definition example_world (c c2 : TexCache) (lowmem : bool)
    (counter flips : Z) (m : Heap) : World :=
  mkWorld
    (mkTextureCache c c2 [] false lowmem counter (u32 (-1)) None 0 0 0 false 0)
    (mkGPUStatistics flips 0 0)
    (mkGPUStateCache false 0 false 0 0)
    (fun _ => zero_fb) m [].

(** An entry for a 32-bit texture at [a] with status [st], declared size
    [sz], last used in frame [lf], invalidated [ni] times, GL name [tex]. *)
Definition example_entry (a sz st lf ni tex : Z) : TexCacheEntry :=
  mkTexCacheEntry st a 0 0 sz GE_TFMT_8888 0 0 tex 0 0 0 0 0 0 lf ni 0 0 0
    false false.

(** * Vocabulary of the statements *)

(** The fields [addr] and [sizeInRAM] are [u32]: an entry read from the map
    holds values of that type. *)
Definition entry_wf (e : TexCacheEntry) : Prop :=
  0 <= Entry.addr e < 4294967296 /\ 0 <= sizeInRAM e < 4294967296.


(** The two keys of the range walk of [Invalidate]. *)
Definition Invalidate_startKey (addr : Z) : Z :=
  u64 (u32 (Z.land addr 0x0FFFFFFF - LARGEST_TEXTURE_SIZE)).

Definition Invalidate_endKey (addr size : Z) : Z :=
  u64 (u32 (Z.land addr 0x0FFFFFFF + size + LARGEST_TEXTURE_SIZE)).

(** The walk is well formed: [lower_bound(startKey)] is not past
    [upper_bound(endKey)]. *)
Definition Invalidate_range_ok (addr size : Z) (c : TexCache) : Prop :=
  (lower_bound (Invalidate_startKey addr) c
   <= upper_bound (Invalidate_endKey addr size) c)%nat.

(** A reliable 4 KiB texture at 0x08000000 under the key that [SetTexture]
    gives it, [(u64)texaddr << 32]. *)
Definition reliable_entry : TexCacheEntry :=
  example_entry 0x08000000 0x1000 1 0 0 7.

Definition reliable_key : Z := Z.shiftl 0x08000000 32.

Definition reliable_world : World :=
  example_world [(reliable_key, reliable_entry)] [] false 13 0 zero_heap.

(** A map whose keys are bare addresses, so that the walk of [Invalidate]
    reaches them: a reliable texture at 0x00200000 and a hashing one at
    0x00300000. *)
Definition low_key_world : World :=
  example_world
    [(0x00200000, example_entry 0x00200000 0x1000 1 0 0 7);
     (0x00300000, example_entry 0x00300000 0x1000 0 0 0 8)]
    [] false 13 0 zero_heap.

(** Low-memory mode, the decimation counter about to expire, frame 100 and
    one primary entry last used in frame 0. *)
Definition lowmem_entry : TexCacheEntry :=
  example_entry 0x08000000 0x1000 0 0 0 7.

Definition lowmem_world : World :=
  example_world [(reliable_key, lowmem_entry)] [] true 1 100 zero_heap.

(** A guest state whose level-0 texture address is 0, which the example
    platform does not map. *)
Definition unmapped_env : Env := mkEnv zero_gstate example_config 0.

(** A linear 64x64 GE_TFMT_8888 texture at 0x08900000 with [bufw] 64: the
    low 24 bits of the address are in [texaddr], bits 24..27 in bits 16..19
    of [texbufwidth]. *)
Definition linear8888_gstate : GPUgstate :=
  mkGPUgstate (fun _ => 0x900000) (fun _ => 0x080040) (fun _ => 0x606) 0 0 0 0
    (fun _ => 64) (fun _ => 64) GE_TFMT_8888 false false
    GE_CMODE_16BIT_BGR5650 0 true (fun i => i) false false false.

(** Memory in which every byte is [0x5A], and memory in which every byte
    is [0]. *)
Definition patterned_heap : Heap := fun _ _ => 0x5A.

(** The circumstances of the second-chance hit in [SetTexture]: the address
    is valid, the primary map holds [entry] under the key of the lookup,
    [entry] is no framebuffer alias and matches the geometry, the rehash
    block ends in a hash failure with digest [fullhash], low-memory mode is
    off, and the second-chance map holds [secondEntry], of matching
    geometry, under [(fullhash, cluthash)]. *)
Definition second_chance_hit `{K : EntryConsts} `{P : Platform} (E : Env)
    (w w1 : World) (L : SetTextureLocals) (entry entry1 : TexCacheEntry)
    (fullhash : Z) (secondEntry : TexCacheEntry) : Prop :=
  let dim := Z.land (texsize (gstate E) 0) 0xF0F in
  IsValidAddress (level_texaddr (gstate E) 0) = true
  /\ SetTexture_prelude E w = (w1, L)
  /\ find (l_cachekey L) (cache (tc w1)) = Some entry
  /\ framebuffer entry = 0
  /\ Matches entry dim (l_format L) (l_maxLevel L) = true
  /\ SetTexture_rehash (heap w1) (numFlips (gpuStats w1)) (l_texaddr L)
       (l_bufw L) (l_w L) (l_h L) (l_format L) dim (l_texhash L) entry
       (Z.land (status entry) STATUS_MASK =? STATUS_UNRELIABLE)
     = (entry1, fullhash, true)
  /\ lowMemoryMode_ (tc w1) = false
  /\ find (Z.lor fullhash (Z.shiftl (l_cluthash L) 32)) (secondCache (tc w1))
     = Some secondEntry
  /\ Matches secondEntry dim (l_format L) (l_maxLevel L) = true.

(** The second-chance sentence as the specification has it: in those
    circumstances, for an entry invalidated between 2 and 128 times, the
    lookup ends as a hit and the invalidation count of the primary entry is
    one less than before. *)
Definition second_chance_always_refunds : Prop :=
  forall (K : EntryConsts) (P : Platform) (E : Env) (w w1 : World)
         (L : SetTextureLocals) (entry entry1 : TexCacheEntry) (fullhash : Z)
         (secondEntry : TexCacheEntry),
    second_chance_hit E w w1 L entry entry1 fullhash secondEntry ->
    2 < numInvalidated entry < 128 ->
    exists w' e',
      SetTexture_lookup E w = Returned w'
      /\ find (l_cachekey L) (cache (tc w')) = Some e'
      /\ numInvalidated e' = numInvalidated entry - 1.

(** A texture at 0x08900000 whose first word no longer equals the stored
    [hash], invalidated [n] times, with a second-chance entry of the same
    geometry under the digest of the (all-zero) memory. *)
Definition thrash_env : Env := mkEnv linear8888_gstate example_config 0.

Definition thrash_key : Z := Z.shiftl 0x08900000 32.

Definition thrash_entry (n : Z) : TexCacheEntry :=
  mkTexCacheEntry 0 0x08900000 1 0 0x2000 GE_TFMT_8888 0x606 64 7 0 5 0 0 0
    3 0 n 0 0 0 false false.

Definition thrash_second : TexCacheEntry :=
  mkTexCacheEntry 0 0x08900000 0 0 0x2000 GE_TFMT_8888 0x606 64 9 0 0 0 0 0
    0 0 0 0 0 0 false false.

Definition thrash_world (n : Z) : World :=
  example_world [(thrash_key, thrash_entry n)] [(0, thrash_second)] false 13 1
    zero_heap.

(** The entry as the rehash block leaves it: one more frame counted and the
    next full hash scheduled. *)
Definition thrash_rehashed (n : Z) : TexCacheEntry :=
  set_framesUntilNextFullHash 4 (set_numFrames 4 (thrash_entry n)).

Definition thrash_prelude (n : Z) : World * SetTextureLocals :=
  @SetTexture_prelude (example_platform false) thrash_env (thrash_world n).

(** Two memories hold the same [n] bytes from [p] on. *)
Definition same_bytes (m1 m2 : Heap) (p : Ptr) (n : Z) : Prop :=
  forall i, 0 <= i < n -> load8 m1 (padd p i) = load8 m2 (padd p i).

(** The hasher sentence as the specification has it: on every region that
    the aligned path accepts, the SIMD and the scalar implementation of
    each hasher return the same digest. *)
Definition hash_paths_agree : Prop :=
  (forall (m : Heap) (checkp : Ptr) (sizeInRAM : Z),
      0 <= sizeInRAM -> Z.land sizeInRAM 0x1f = 0 ->
      QuickTexHash_sse m checkp sizeInRAM
      = QuickTexHash_scalar m checkp sizeInRAM)
  /\ (forall (m : Heap) (clut : Ptr) (bytes : Z),
         0 <= bytes -> Z.land bytes 31 = 0 ->
         QuickClutHash_sse m clut bytes = QuickClutHash_scalar m clut bytes).

(** Host memory whose first two 32-bit words are 1 and whose other bytes
    are 0. *)
Definition two_ones_heap : Heap :=
  fun _ o => if (o =? 0) || (o =? 4) then 1 else 0.

(** Host memory whose second 32-bit word is 1 and whose other bytes are 0. *)
Definition second_one_heap : Heap :=
  fun _ o => if o =? 4 then 1 else 0.

(** [two_ones_heap] with the byte at offset 5 of every block changed. *)
Definition two_ones_heap' : Heap :=
  fun b o => if o =? 5 then 9 else two_ones_heap b o.

(** The 4-bit index of pixel [i] among the index bytes at [indexed]: two
    pixels to a byte, the low nibble first. *)
Definition nibble (m : Heap) (indexed : Ptr) (i : Z) : Z :=
  Z.land (Z.shiftr (load8 m (padd indexed (i / 2))) (4 * (i mod 2))) 0xf.

(** Pixel [i] of the 16-bit image at [dest]. *)
Definition pixel16 (m : Heap) (dest : Ptr) (i : Z) : Z :=
  load16 m (padd dest (2 * i)).

(** The two CLUT4 decodes of [length] pixels into [tmpTexBuf16] in the
    state [w] that [UpdateCurrentClut] left: the fast one with
    [clutAlphaLinearColor_], the slow one with the converted palette. *)
Definition clut4_fast (w : World) (indexed : Ptr) (length : Z) : Heap :=
  DeIndexTexture4Optimal ClutT_u16 (heap w) tmpTexBuf16_data indexed length
    (clutAlphaLinearColor_ (tc w)).

Definition clut4_slow (g : GPUgstate) (w : World) (indexed : Ptr)
    (length : Z) : Heap :=
  DeIndexTexture4 ClutT_u16 g (heap w) tmpTexBuf16_data indexed length
    clutBufConverted_.

(** The CLUT4 sentence as the specification has it: whenever
    [UpdateCurrentClut] has detected the alpha-linear palette, the fast and
    the slow decode of an even number of pixels agree on every pixel.  The
    index bytes are in guest memory or in [tmpTexBuf32]. *)
Definition clut4_fast_equals_slow : Prop :=
  forall (P : Platform) (E : Env) (w0 : World) (indexed : Ptr)
         (length i : Z),
    let w := UpdateCurrentClut E w0 in
    clutAlphaLinear_ (tc w) = true ->
    blk indexed = HostMem \/ blk indexed = TmpTexBuf32 ->
    length mod 2 = 0 -> 0 <= i < length ->
    pixel16 (clut4_fast w indexed length) tmpTexBuf16_data i
    = pixel16 (clut4_slow (gstate E) w indexed length) tmpTexBuf16_data i.

(** A font palette: 16 ABGR4444 entries of 32 bytes in the raw palette
    buffer, entry [i] being [i << 12 | 0xFFF] for [i > 0] (white with alpha
    [i]) and entry 0 being [0x0321]; every byte of guest memory is [0xA0],
    so that even pixels have index 0 and odd pixels index 10. *)
Definition font_clut_heap : Heap :=
  fun b o =>
    match b with
    | ClutBufRaw =>
        if (0 <=? o) && (o <? 32) then
          let i := o / 2 in
          let v := if i =? 0 then 0x0321 else i * 4096 + 0xFFF in
          if o mod 2 =? 0 then v mod 256 else v / 256
        else 0
    | HostMem => 0xA0
    | _ => 0
    end.

Definition font_gstate : GPUgstate :=
  mkGPUgstate (fun _ => 0x900000) (fun _ => 0x080040) (fun _ => 0x606) 0 0 0 2
    (fun _ => 64) (fun _ => 64) GE_TFMT_CLUT4 true false
    GE_CMODE_16BIT_ABGR4444 0 true (fun i => i) false false false.

Definition font_env : Env := mkEnv font_gstate example_config 0.

(** The state before the palette is refreshed: 32 palette bytes loaded. *)
Definition font_world : World :=
  mkWorld
    (mkTextureCache [] [] [] false false 13 (u32 (-1)) None 0xFFFFFFFF 32 0
       false 0)
    (mkGPUStatistics 0 0 0)
    (mkGPUStateCache false 0 false 0 0)
    (fun _ => zero_fb) font_clut_heap [].

(** The channels of a pixel laid out as [makecol] does: red in bits 16..23,
    green in 8..15, blue in 0..7, alpha in 24..31. *)
Definition channels (px : Z) : Z * Z * Z * Z :=
  ((px / 65536) mod 256, (px / 256) mod 256, px mod 256, px / 16777216).

(** The 8-bit components of a 16-bit DXT colour. *)
Definition components `{Platform} (c : Z) : Z * Z * Z :=
  (Convert5To8 (c mod 32), Convert6To8 ((c / 32) mod 64),
   Convert5To8 ((c / 2048) mod 32)).

(** The interpolants of the specification, on one component; [/] is the
    division that rounds down. *)
Definition dxt1_c3 (c1 c2 : Z) : Z := c1 + ((c2 - c1) / 2 - (c2 - c1) / 8).
Definition dxt1_c4 (c1 c2 : Z) : Z := c2 - ((c2 - c1) / 2 - (c2 - c1) / 8).
Definition dxt1_average (c1 c2 : Z) : Z := (c1 + c2 + 1) / 2.

(** The four colours of a DXT1 block as the specification gives them, as
    (red, green, blue, alpha). *)
Definition dxt1_palette `{Platform} (c1 c2 : Z) : list (Z * Z * Z * Z) :=
  let '(r1, g1, b1) := components c1 in
  let '(r2, g2, b2) := components c2 in
  if c2 <? c1 then
    [(r1, g1, b1, 255); (r2, g2, b2, 255);
     (dxt1_c3 r1 r2, dxt1_c3 g1 g2, dxt1_c3 b1 b2, 255);
     (dxt1_c4 r1 r2, dxt1_c4 g1 g2, dxt1_c4 b1 b2, 255)]
  else
    [(r1, g1, b1, 255); (r2, g2, b2, 255);
     (dxt1_average r1 r2, dxt1_average g1 g2, dxt1_average b1 b2, 255);
     (r2, g2, b2, 0)].

(** The 2-bit index of texel [x] in the index byte [line] of its row. *)
Definition texel_index (line x : Z) : Z := (line / 4 ^ x) mod 4.

(** A DXT1 block at host address 0: index bytes [0xE4] (texels 0, 1, 2, 3
    in every row), [color1 = 0xF800] and [color2 = 0x001F]. *)
Definition dxt1_heap : Heap :=
  fun b o =>
    match b with
    | HostMem =>
        if (0 <=? o) && (o <? 4) then 0xE4
        else if o =? 5 then 0xF8
        else if o =? 6 then 0x1F
        else 0
    | _ => 0
    end.

(** The bits of [y] above [k] are clear and the [m] bits from [k] down are
    set. *)
Definition smeared (m y k : Z) : Prop :=
  (forall i, k < i -> Z.testbit y i = false)
  /\ (forall i, 0 <= i <= k -> k - m < i -> Z.testbit y i = true).

(** The [glDeleteTextures] calls for the entries of a map, in key order. *)
Definition deletions (c : TexCache) : list GLCall :=
  map (fun p => glDeleteTextures (texture (snd p))) c.

(** The age test of both loops of [Decimate]. *)
Definition too_old (flips : Z) (p : Z * TexCacheEntry) : bool :=
  lastFrame (snd p) + TEXTURE_KILL_AGE <? flips.

(** The [int] addition of the age test does not overflow on any entry of
    the map. *)
Definition age_sum_fits (c : TexCache) : Prop :=
  forall k e, In (k, e) c -> lastFrame e + TEXTURE_KILL_AGE <= 2147483647.

(** A state in which a full clear has been requested, with two primary
    entries and one second-chance entry. *)
Definition busy_world : World :=
  example_world
    [(0x0800000000000000, example_entry 0x08000000 0x1000 1 0 0 7);
     (0x0900000000000000, example_entry 0x09000000 0x1000 0 150 0 8)]
    [(5, example_entry 0x08000000 0x1000 0 150 3 9)]
    false 1 300 zero_heap.

(** The two keys of the range walk of [NotifyFramebuffer]. *)
Definition NotifyFramebuffer_cacheKey (address : Z) : Z :=
  u64 (Z.shiftl (Z.lor address 0x04000000) 32).

Definition NotifyFramebuffer_cacheKeyEnd (address fb_stride : Z) : Z :=
  u64 (NotifyFramebuffer_cacheKey address
       + u64 (Z.shiftl (u32 (fb_stride * MAX_SUBAREA_Y_OFFSET)) 32)).


Definition example_formats : BufferFormats := {| GE_FORMAT_8888 := 3 |}.

Definition example_env : Env := mkEnv zero_gstate example_config 0.

(** A 512-pixel-wide 8888 framebuffer object at address [0x1000] (of the
    host) that renders to VRAM offset 0, and a state whose primary map
    holds a 8888 texture keyed at that VRAM address, already attached to
    the framebuffer, and one texture in RAM. *)
Definition vram_fb : Framebuffer.VirtualFramebuffer :=
  Framebuffer.mkVirtualFramebuffer 0 512 480 272 3 0 0 0 5.

Definition vram_key : Z := Z.shiftl 0x04000000 32.

Definition vram_entry (fb : Z) : TexCacheEntry :=
  set_framebuffer fb (example_entry 0x04000000 0x1000 0 0 0 7).

Definition fb_world (fb : Z) (l : list Z) : World :=
  set_fbs (fun p => if p =? 0x1000 then vram_fb else zero_fb)
    (set_tc (set_fbCache_ l
               (tc (example_world
                      [(vram_key, vram_entry fb);
                       (reliable_key, reliable_entry)] [] false 13 0
                      zero_heap)))
       (example_world [] [] false 13 0 zero_heap)).

(** The per-word rotation that [ConvertColors] applies for a 16-bit
    destination format. *)
Definition ConvertColors_word (dstFmt : GLenum) (c : Z) : Z :=
  match dstFmt with
  | GL_UNSIGNED_SHORT_4_4_4_4 => convert4444 c
  | GL_UNSIGNED_SHORT_5_5_5_1 => convert5551 c
  | GL_UNSIGNED_SHORT_5_6_5 => convert565 c
  | _ => c
  end.

Definition is_16bit (dstFmt : GLenum) : Prop :=
  dstFmt = GL_UNSIGNED_SHORT_4_4_4_4 \/ dstFmt = GL_UNSIGNED_SHORT_5_5_5_1
  \/ dstFmt = GL_UNSIGNED_SHORT_5_6_5.

(** Where the 5551 rotation puts bit [n] of a word: in each 16-bit pixel
    the alpha bit 15 goes to bit 0, bits 10..14 to 1..5, bits 5..9 to 6..10
    and bits 0..4 to 11..15. *)
Definition bit5551 (n : Z) : Z :=
  let b := n mod 16 in
  n / 16 * 16
  + (if b =? 15 then 0
     else if 10 <=? b then b - 9
     else if 5 <=? b then b + 1
     else b + 11).

(** Memory whose bytes at [HostMem] offset [o] hold [o mod 251]. *)
Definition ramp_heap : Heap := fun _ o => o mod 251.

(** The alpha bits that [CheckAlpha] looks at in a word of pixel data, the
    number of words it scans, and the values of those bits at which the
    4444 and 8888 scans stop with [hitSomeAlpha]: an alpha that is neither
    zero nor full in one of the pixels of the word. *)
Definition alpha_mask (dstFmt : GLenum) : Z :=
  match dstFmt with
  | GL_UNSIGNED_SHORT_4_4_4_4 => 0x000F000F
  | GL_UNSIGNED_SHORT_5_5_5_1 => 0x00010001
  | GL_UNSIGNED_SHORT_5_6_5 => 0
  | _ => 0xFF000000
  end.

Definition alpha_words (dstFmt : GLenum) (w h : Z) : Z :=
  match dstFmt with
  | GL_UNSIGNED_SHORT_4_4_4_4 | GL_UNSIGNED_SHORT_5_5_5_1 => (w * h + 1) / 2
  | GL_UNSIGNED_SHORT_5_6_5 => 0
  | _ => w * h
  end.

Definition word_alpha (dstFmt : GLenum) (m : Heap) (p : Ptr) (i : Z) : Z :=
  Z.land (load32 m (padd p (4 * i))) (alpha_mask dstFmt).

Definition alpha_partial (dstFmt : GLenum) (a : Z) : bool :=
  match dstFmt with
  | GL_UNSIGNED_SHORT_4_4_4_4 =>
      negb (a =? 0x000F000F) && negb (a =? 0x0000000F)
      && negb (a =? 0x000F0000) && negb (a =? 0)
  | GL_UNSIGNED_SHORT_5_5_5_1 | GL_UNSIGNED_SHORT_5_6_5 => false
  | _ => negb (a =? 0xFF000000) && negb (a =? 0)
  end.

(** The common shape of the three scanning loops. *)
Fixpoint alpha_scan (mask : Z) (partial : Z -> bool) (m : Heap) (p : Ptr)
    (n : nat) (i : Z) (hitZeroAlpha : Z) : Z * Z :=
  match n with
  | O => (hitZeroAlpha, 0)
  | S n' =>
      let a := Z.land (load32 m (padd p (4 * i))) mask in
      let hitZeroAlpha := Z.lor hitZeroAlpha (Z.lxor a mask) in
      if partial a then (hitZeroAlpha, 1)
      else alpha_scan mask partial m p n' (i + 1) hitZeroAlpha
  end.

(** Four 8888 pixels at [HostMem] offset 0 with alpha 0xFF, 0xFF, 0x00 and
    0xFF. *)
Definition cutout_heap : Heap :=
  fun _ o => if o =? 3 then 0xFF else if o =? 7 then 0xFF
             else if o =? 15 then 0xFF else if o =? 11 then 0 else 0x40.

(** The pair [(magFilt, minFilt)] that [UpdateSamplingParams] arrives at for
    an entry with the given [maxLevel], before it compares them with the
    entry's cached values. *)
Definition sampler_filters (E : Env) (maxLevel : Z) : Z * Z :=
  let g := gstate E in
  let minFilt := Z.land (texfilter g) 0x7 in
  let magFilt := Z.land (Z.shiftr (texfilter g) 8) 1 in
  let noMip := (Z.land (texlevel g) 0xFFFFFF =? 0x000001)
               || (Z.land (texlevel g) 0xFFFFFF =? 0x100001) in
  let minFilt := if maxLevel =? 0 then Z.land minFilt 1 else minFilt in
  let linear :=
    (TexFiltering_eqb (iTexFiltering (g_Config E)) LINEAR
     || (TexFiltering_eqb (iTexFiltering (g_Config E)) LINEARFMV
         && negb (g_iNumVideos E =? 0)))
    && negb (isColorTestEnabled g) in
  let magFilt := if linear then Z.lor magFilt 1 else magFilt in
  let minFilt := if linear then Z.lor minFilt 1 else minFilt in
  let nearest := TexFiltering_eqb (iTexFiltering (g_Config E)) NEAREST in
  let magFilt := if nearest then Z.land magFilt (Z.lnot 1) else magFilt in
  let minFilt := if nearest then Z.land minFilt (Z.lnot 1) else minFilt in
  let flat := negb (bMipMap (g_Config E)) || noMip in
  (if flat then Z.land magFilt 1 else magFilt,
   if flat then Z.land minFilt 1 else minFilt).

(** A GE state with trilinear filtering requested on a clamped texture. *)
Definition trilinear_gstate : GPUgstate :=
  mkGPUgstate (fun _ => 0) (fun _ => 0) (fun _ => 0) 0 0x0107 0 0
    (fun _ => 1) (fun _ => 1) 0 false false GE_CMODE_16BIT_BGR5650 0 true
    (fun i => i) true false false.

Definition trilinear_env : Env := mkEnv trilinear_gstate example_config 0.

(** [UpdateSamplingParams] as five dirty checks in a row: the entry after
    each check and the GL calls.  [lod], [mn], [mg], [s], [t] say whether
    the check found the cached value stale (or was forced). *)
Definition sampler_checks `{Platform} (E : Env) (entry : TexCacheEntry)
    (force : bool) : TexCacheEntry * list GLCall :=
  let mg := fst (sampler_filters E (maxLevel entry)) in
  let mn := snd (sampler_filters E (maxLevel entry)) in
  let sC := isTexCoordClampedS (gstate E) in
  let tC := isTexCoordClampedT (gstate E) in
  let lod := negb (maxLevel entry =? 0)
             && (force || negb (lodBias entry =? 0)) in
  let e0 := if lod then set_lodBias 0 entry else entry in
  let mnc := force || negb (Entry.minFilt e0 =? mn) in
  let e1 := if mnc then set_minFilt (u8 mn) e0 else e0 in
  let mgc := force || negb (Entry.magFilt e1 =? mg) in
  let e2 := if mgc then set_magFilt (u8 mg) e1 else e1 in
  let sc := force || negb (Bool.eqb (sClamp e2) sC) in
  let e3 := if sc then set_sClamp sC e2 else e2 in
  let tc_ := force || negb (Bool.eqb (tClamp e3) tC) in
  let e4 := if tc_ then set_tClamp tC e3 else e3 in
  (e4,
   ((((if lod && negb USING_GLES2
       then [glTexParameterf GL_TEXTURE_LOD_BIAS 0] else [])
      ++ (if mnc
          then [glTexParameteri GL_TEXTURE_MIN_FILTER
                  (nth (Z.to_nat mn) MinFiltGL GL_NEAREST)] else []))
     ++ (if mgc
         then [glTexParameteri GL_TEXTURE_MAG_FILTER
                 (nth (Z.to_nat mg) MagFiltGL GL_NEAREST)] else []))
    ++ (if sc
        then [glTexParameteri GL_TEXTURE_WRAP_S
                (if sC then GL_CLAMP_TO_EDGE else GL_REPEAT)] else []))
   ++ (if tc_
       then [glTexParameteri GL_TEXTURE_WRAP_T
               (if tC then GL_CLAMP_TO_EDGE else GL_REPEAT)] else [])).

(** The state in which a run of the lookup half of [SetTexture] ends. *)
Definition world_of (r : SetTextureLookup) : World :=
  match r with
  | Returned w => w
  | NeedsDecode w _ _ => w
  end.

(** Every key of the two maps of [w] is still a key in [w']. *)
Definition keeps_keys (w w' : World) : Prop :=
  (forall k, find k (cache (tc w)) <> None ->
             find k (cache (tc w')) <> None)
  /\ (forall k, find k (secondCache (tc w)) <> None ->
                find k (secondCache (tc w')) <> None).

(** The sum of the [n] 32-bit words at [p]. *)
Fixpoint word_sum (m : Heap) (p : Ptr) (n : nat) : Z :=
  match n with
  | O => 0
  | S n' => load32 m p + word_sum m (padd p 4) n'
  end.

(** Two memories hold the same words 0 and 2 in each of the first [n]
    16-byte groups at [p]. *)
Definition same_even_words (m1 m2 : Heap) (p : Ptr) (n : Z) : Prop :=
  forall i, 0 <= i < n ->
    load32 m1 (padd p (16 * i)) = load32 m2 (padd p (16 * i))
    /\ load32 m1 (padd p (16 * i + 8)) = load32 m2 (padd p (16 * i + 8)).

(** Two 32-byte palettes that differ in the second word only. *)
Definition odd_word_heap (v : Z) : Heap :=
  fun _ o => if o =? 4 then v else o mod 251.

(** The size of a pixel in the buffer that [DecodeTextureLevel] returns. *)
Definition pixelSize_of (dstFmt : GLenum) : Z :=
  match dstFmt with
  | GL_UNSIGNED_SHORT_4_4_4_4 | GL_UNSIGNED_SHORT_5_5_5_1
  | GL_UNSIGNED_SHORT_5_6_5 => 2
  | _ => 4
  end.

(** The 4-bit alpha of texel [x] in an alpha line of a DXT3 block. *)
Definition alpha_nibble (line x : Z) : Z := (line / 16 ^ x) mod 16.

(** What the alpha pass of [decodeDXT3Block] makes of a decoded colour
    [d]: the low 24 bits are kept and the alpha byte is the nibble [a]
    twice. *)
Definition with_alpha4 (d a : Z) : Z := d mod 16777216 + 17 * a * 16777216.

(** A DXT3 block at host address 0: the colour block of [dxt1_heap] and
    alpha lines [0x3210]. *)
Definition dxt3_heap : Heap :=
  fun b o =>
    match b with
    | HostMem =>
        if (8 <=? o) && (o <? 16)
        then (if o mod 2 =? 0 then 0x10 else 0x32)
        else dxt1_heap b o
    | _ => 0
    end.

(** The palette index that [DeIndexTexture] derives from a stored index:
    the index itself for naked 8-bit indices, its low byte for naked 16- and
    32-bit indices, and [gstate.transformClutIndex] otherwise. *)
Definition clut_index (I : IndexT) (g : GPUgstate) (index : Z) : Z :=
  if isClutIndexSimple g then
    match I with
    | IndexT_u8 => index
    | _ => Z.land index 0xFF
    end
  else transformClutIndex g index.

(** A palette of 16-bit colours [0x1000 + i] in the raw palette buffer and
    16-bit indices [0x0100 + i] in guest memory. *)
Definition index16_heap : Heap :=
  fun b o =>
    match b with
    | ClutBufRaw => if o mod 2 =? 0 then o / 2 else 0x10
    | HostMem => if o mod 2 =? 0 then o / 2 else 0x01
    | _ => 0
    end.

(** A state whose primary map holds, under the key of the texture that
    [thrash_env] selects, an entry attached to the framebuffer object at
    [0x1000]. *)
Definition fb_entry_world : World :=
  set_fbs (fun p => if p =? 0x1000 then vram_fb else zero_fb)
    (example_world
       [(thrash_key, set_framebuffer 0x1000 (thrash_entry 0))] [] false 13 7
       zero_heap).

(** The row width in bytes and the number of 8-row block rows that
    [UnswizzleFromMem] computes from its arguments. *)
Definition Unswizzle_rowWidth (bufw bytesPerPixel : Z) : Z :=
  if 0 <? bytesPerPixel then u32 (bufw * bytesPerPixel) else bufw / 2.

Definition Unswizzle_byc (g : GPUgstate) (level : Z) : Z :=
  let byc := Z.quot (getTextureHeight g level + 7) 8 in
  if byc =? 0 then 1 else byc.
(** [m'] differs from [m] by [rows] rows of [W] bytes stored in
    [tmpTexBuf32] from word [ydest] on, row [y] being the first [W] bytes
    of the 16-byte chunk [y] at [src]; the words before [ydest] and all
    other memory are as in [m]. *)
Definition unswizzled_rows (W rows : Z) (m m' : Heap) (src : Ptr) (ydest : Z)
  : Prop :=
  (forall q, blk q <> TmpTexBuf32 \/ ofs q < 4 * ydest ->
             load8 m' q = load8 m q)
  /\ (forall y j, 0 <= y < rows -> 0 <= j < W ->
        load8 m' (padd tmpTexBuf32_data (4 * ydest + W * y + j))
        = load8 m (padd src (16 * y + j))).

(** A swizzled texture of 2 bytes per row and 8 rows. *)
Definition narrow_gstate : GPUgstate :=
  mkGPUgstate (fun _ => 0x900000) (fun _ => 0x080004) (fun _ => 0x302) 0 0 0 0
    (fun _ => 4) (fun _ => 8) GE_TFMT_CLUT4 true true
    GE_CMODE_16BIT_BGR5650 0 true (fun i => i) false false false.

(** The value of [dstFmt] after the scaling step of [LoadTextureLevel]. *)
Definition LoadTextureLevel_scale_format `{Platform} (E : Env)
    (entry : TexCacheEntry) (m : Heap) (finalBuf : Ptr) (dstFmt : GLenum)
    (w h : Z) : GLenum :=
  let '(_, _, f, _, _) := LoadTextureLevel_scale E entry m finalBuf dstFmt w h in
  f.

(** A platform whose scaler works on 32-bit pixels: whatever format it is
    given, it hands back GL_UNSIGNED_BYTE data of [factor] times the width
    and height.  A configuration that asks for 2x scaling. *)
Definition scaling_platform : Platform :=
  {| M_SSE := false;
     USING_GLES2 := false;
     IsValidAddress := fun a => (0x08000000 <=? a) && (a <? 0x0A000000);
     GetPointer := fun a => a;
     PSP_GetUserMemoryBase := 0x08800000;
     intptr := fun p => ofs p;
     XXH32 := fun _ _ _ _ => 0;
     Convert5To8 := fun v => Z.lor (Z.shiftl v 3) (Z.shiftr v 2);
     Convert6To8 := fun v => Z.lor (Z.shiftl v 2) (Z.shiftr v 4);
     resize := fun _ _ m => m;
     Memory_Memcpy := fun m dst a n => memcpy m dst (mkPtr HostMem a) n;
     Scale := fun m p _ w h factor =>
                (m, p, GL_UNSIGNED_BYTE, w * factor, h * factor);
     GE_FORMAT_565 := 0;
     FB_USAGE_TEXTURE := 2;
     SKIPDRAW_BAD_FB_TEXTURE := 4 |}.

Definition scaling_env : Env :=
  mkEnv zero_gstate (mkConfig FB_BUFFERED_MODE AUTO true 0 2) 0.







(** * Properties *)

(** ** Machine integers *)

Lemma u8_range (z : Z) : 0 <= u8 z < 256.
Proof. unfold u8. apply Z.mod_pos_bound. lia. Qed.

Lemma u8_u8 (z : Z) : u8 (u8 z) = u8 z.
Proof. unfold u8. apply Z.mod_mod. lia. Qed.

Lemma u32_small (z : Z) : 0 <= z < 4294967296 -> u32 z = z.
Proof. intros H. unfold u32. now apply Z.mod_small. Qed.

Lemma u32_range (z : Z) : 0 <= u32 z < 4294967296.
Proof. unfold u32. apply Z.mod_pos_bound. lia. Qed.

Lemma u32_le (z : Z) : 0 <= z -> u32 z <= z.
Proof. intros H. unfold u32. apply Z.mod_le; lia. Qed.

Lemma land_28_range (a : Z) : 0 <= Z.land a 0x0FFFFFFF < 268435456.
Proof.
  change 0x0FFFFFFF with (Z.ones 28).
  rewrite Z.land_ones by lia.
  apply Z.mod_pos_bound. reflexivity.
Qed.

Lemma u64_u32 (z : Z) : u64 (u32 z) = u32 z.
Proof.
  unfold u64. apply Z.mod_small.
  pose proof (u32_range z). lia.
Qed.

(** ** Memory *)

Lemma Block_eqb_refl (b : Block) : Block_eqb b b = true.
Proof. destruct b; reflexivity. Qed.

Lemma Ptr_eqb_refl (p : Ptr) : Ptr_eqb p p = true.
Proof. unfold Ptr_eqb. now rewrite Block_eqb_refl, Z.eqb_refl. Qed.

Lemma Block_eqb_eq (a b : Block) : Block_eqb a b = true <-> a = b.
Proof. destruct a, b; simpl; split; intros H; congruence. Qed.

Lemma Block_eqb_neq (a b : Block) : a <> b -> Block_eqb a b = false.
Proof.
  intros H. destruct (Block_eqb a b) eqn:E; [|reflexivity].
  apply Block_eqb_eq in E. contradiction.
Qed.

Lemma load8_range (m : Heap) (p : Ptr) : 0 <= load8 m p < 256.
Proof. apply u8_range. Qed.

Lemma load16_range (m : Heap) (p : Ptr) : 0 <= load16 m p < 65536.
Proof.
  unfold load16.
  pose proof (load8_range m p). pose proof (load8_range m (padd p 1)). lia.
Qed.

Lemma load8_store8_same (m : Heap) (p : Ptr) (v : Z) :
  load8 (store8 m p v) p = u8 v.
Proof.
  unfold load8, store8.
  rewrite Block_eqb_refl, Z.eqb_refl. simpl. apply u8_u8.
Qed.

Lemma load8_store8_other (m : Heap) (p q : Ptr) (v : Z) :
  blk q <> blk p \/ ofs q <> ofs p ->
  load8 (store8 m p v) q = load8 m q.
Proof.
  intros H. unfold load8, store8.
  destruct H as [H|H].
  - now rewrite Block_eqb_neq.
  - replace (ofs q =? ofs p) with false by (symmetry; apply Z.eqb_neq; auto).
    now rewrite andb_false_r.
Qed.

Lemma load8_store16_other (m : Heap) (p q : Ptr) (v : Z) :
  blk q <> blk p \/ ofs q < ofs p \/ ofs p + 2 <= ofs q ->
  load8 (store16 m p v) q = load8 m q.
Proof.
  intros H. unfold store16.
  rewrite !load8_store8_other; auto; simpl; destruct H as [H|H]; auto; right; lia.
Qed.

Lemma load8_store32_other (m : Heap) (p q : Ptr) (v : Z) :
  blk q <> blk p \/ ofs q < ofs p \/ ofs p + 4 <= ofs q ->
  load8 (store32 m p v) q = load8 m q.
Proof.
  intros H. unfold store32.
  rewrite !load8_store16_other; auto; simpl; destruct H as [H|H]; auto; right; lia.
Qed.

Lemma load16_store16_other (m : Heap) (p q : Ptr) (v : Z) :
  blk q <> blk p \/ ofs q + 2 <= ofs p \/ ofs p + 2 <= ofs q ->
  load16 (store16 m p v) q = load16 m q.
Proof.
  intros H. unfold load16.
  rewrite !load8_store16_other; auto; simpl; destruct H as [H|H]; auto; right; lia.
Qed.

Lemma load16_store32_other (m : Heap) (p q : Ptr) (v : Z) :
  blk q <> blk p \/ ofs q + 2 <= ofs p \/ ofs p + 4 <= ofs q ->
  load16 (store32 m p v) q = load16 m q.
Proof.
  intros H. unfold load16.
  rewrite !load8_store32_other; auto; simpl; destruct H as [H|H]; auto; right; lia.
Qed.

Lemma bytes_of_u16 (v : Z) : u8 v + 256 * u8 (v / 256) = u16 v.
Proof.
  unfold u8, u16.
  change 65536 with (256 * 256).
  rewrite Z.rem_mul_r by lia. reflexivity.
Qed.

Lemma load16_store16_same (m : Heap) (p : Ptr) (v : Z) :
  load16 (store16 m p v) p = u16 v.
Proof.
  unfold load16, store16.
  rewrite load8_store8_other by (right; simpl; lia).
  rewrite !load8_store8_same.
  apply bytes_of_u16.
Qed.

Lemma load16_store32_low (m : Heap) (p : Ptr) (v : Z) :
  load16 (store32 m p v) p = u16 v.
Proof.
  unfold store32.
  rewrite load16_store16_other by (right; simpl; lia).
  apply load16_store16_same.
Qed.

Lemma load16_store32_high (m : Heap) (p : Ptr) (v : Z) :
  load16 (store32 m p v) (padd p 2) = u16 (v / 65536).
Proof.
  unfold store32. apply load16_store16_same.
Qed.

Lemma padd_padd (p : Ptr) (a b : Z) : padd (padd p a) b = padd p (a + b).
Proof. unfold padd. simpl. f_equal. lia. Qed.

Lemma padd_0 (p : Ptr) : padd p 0 = p.
Proof. destruct p. unfold padd. simpl. f_equal. lia. Qed.

Lemma u32_u16_pair (v : Z) : u16 v + 65536 * u16 (v / 65536) = u32 v.
Proof.
  unfold u16, u32.
  change 4294967296 with (65536 * 65536).
  rewrite Z.rem_mul_r by lia. reflexivity.
Qed.

Lemma load32_store32_same (m : Heap) (p : Ptr) (v : Z) :
  load32 (store32 m p v) p = u32 v.
Proof.
  unfold load32.
  rewrite load16_store32_low, load16_store32_high.
  apply u32_u16_pair.
Qed.

Lemma load32_store32_other (m : Heap) (p q : Ptr) (v : Z) :
  blk q <> blk p \/ ofs q + 4 <= ofs p \/ ofs p + 4 <= ofs q ->
  load32 (store32 m p v) q = load32 m q.
Proof.
  intros H. unfold load32.
  rewrite !load16_store32_other; auto; cbn [blk ofs padd];
    destruct H as [H|H]; auto; right; lia.
Qed.

(** ** Bit fields as quotients and remainders *)

Lemma testbit_hi_lo (a b k n : Z) :
  0 <= k -> 0 <= b < 2 ^ k -> 0 <= n ->
  Z.testbit (a * 2 ^ k + b) n
  = if n <? k then Z.testbit b n else Z.testbit a (n - k).
Proof.
  intros Hk Hb Hn.
  assert (Hpos : 0 < 2 ^ k) by (apply Z.pow_pos_nonneg; lia).
  destruct (Z.ltb_spec n k).
  - rewrite <- (Z.mod_pow2_bits_low (a * 2 ^ k + b) k n) by lia.
    rewrite Z.add_comm, Z.mod_add by lia.
    now rewrite Z.mod_small.
  - replace n with ((n - k) + k) at 1 by lia.
    rewrite <- Z.div_pow2_bits by lia.
    rewrite Z.add_comm, Z.div_add by lia.
    rewrite Z.div_small by lia. reflexivity.
Qed.

Lemma log2_lt_pow2_0 (b k : Z) : 0 < k -> 0 <= b < 2 ^ k -> Z.log2 b < k.
Proof.
  intros Hk Hb.
  destruct (Z.eq_dec b 0) as [->|Hne]; [simpl; lia|].
  apply Z.log2_lt_pow2; lia.
Qed.

Lemma lor_range (b c k : Z) :
  0 <= k -> 0 <= b < 2 ^ k -> 0 <= c < 2 ^ k -> 0 <= Z.lor b c < 2 ^ k.
Proof.
  intros Hk Hb Hc.
  destruct (Z.eq_dec k 0) as [->|Hk0].
  - assert (b = 0) by (simpl in Hb; lia). assert (c = 0) by (simpl in Hc; lia).
    subst. simpl. lia.
  - assert (H0 : 0 <= Z.lor b c) by (apply Z.lor_nonneg; lia).
    split; [exact H0|].
    destruct (Z.eq_dec (Z.lor b c) 0) as [->|Hne].
    + apply Z.pow_pos_nonneg; lia.
    + apply Z.log2_lt_pow2; [lia|].
      rewrite Z.log2_lor by lia.
      apply Z.max_lub_lt; apply log2_lt_pow2_0; lia.
Qed.

Lemma land_range (b c k : Z) :
  0 <= k -> 0 <= b < 2 ^ k -> 0 <= c -> 0 <= Z.land b c < 2 ^ k.
Proof.
  intros Hk Hb Hc.
  destruct (Z.eq_dec k 0) as [->|Hk0].
  - assert (b = 0) by (simpl in Hb; lia). subst. rewrite Z.land_0_l. simpl. lia.
  - assert (H0 : 0 <= Z.land b c) by (apply Z.land_nonneg; lia).
    split; [exact H0|].
    destruct (Z.eq_dec (Z.land b c) 0) as [->|Hne].
    + apply Z.pow_pos_nonneg; lia.
    + apply Z.log2_lt_pow2; [lia|].
      eapply Z.le_lt_trans; [apply Z.log2_land; lia|].
      apply Z.min_lt_iff. left. apply log2_lt_pow2_0; lia.
Qed.

(** [lor] and [land] act separately on the parts above and below bit
    [k]. *)
Lemma lor_split (a b d c k : Z) :
  0 <= k -> 0 <= b < 2 ^ k -> 0 <= c < 2 ^ k ->
  Z.lor (a * 2 ^ k + b) (d * 2 ^ k + c) = Z.lor a d * 2 ^ k + Z.lor b c.
Proof.
  intros Hk Hb Hc.
  apply Z.bits_inj'. intros n Hn.
  rewrite Z.lor_spec.
  rewrite !testbit_hi_lo by (auto using lor_range).
  destruct (n <? k); now rewrite Z.lor_spec.
Qed.

Lemma land_split (a b d c k : Z) :
  0 <= k -> 0 <= b < 2 ^ k -> 0 <= c < 2 ^ k ->
  Z.land (a * 2 ^ k + b) (d * 2 ^ k + c) = Z.land a d * 2 ^ k + Z.land b c.
Proof.
  intros Hk Hb Hc.
  apply Z.bits_inj'. intros n Hn.
  rewrite Z.land_spec.
  rewrite !testbit_hi_lo by (auto; apply land_range; lia).
  destruct (n <? k); now rewrite Z.land_spec.
Qed.

Lemma land_split_at (k x d c : Z) :
  0 <= k -> 0 <= c < 2 ^ k ->
  Z.land x (d * 2 ^ k + c)
  = Z.land (x / 2 ^ k) d * 2 ^ k + Z.land (x mod 2 ^ k) c.
Proof.
  intros Hk Hc.
  assert (Hpos : 0 < 2 ^ k) by (apply Z.pow_pos_nonneg; lia).
  rewrite (Z.div_mod x (2 ^ k)) at 1 by lia.
  rewrite (Z.mul_comm (2 ^ k)).
  apply land_split; auto.
  apply Z.mod_pos_bound; lia.
Qed.

Lemma land_0xf (x : Z) : Z.land x 0xf = x mod 16.
Proof. change 0xf with (Z.ones 4). now rewrite Z.land_ones by lia. Qed.

Lemma land_0xf0 (x : Z) : Z.land x 0xf0 = (x / 16) mod 16 * 16.
Proof.
  change 0xf0 with (15 * 2 ^ 4 + 0).
  rewrite land_split_at by lia.
  rewrite Z.land_0_r, land_0xf. change (2 ^ 4) with 16. lia.
Qed.

Lemma land_0x0f00 (x : Z) : Z.land x 0x0f00 = (x / 256) mod 16 * 256.
Proof.
  change 0x0f00 with (15 * 2 ^ 8 + 0).
  rewrite land_split_at by lia.
  rewrite Z.land_0_r, land_0xf. change (2 ^ 8) with 256. lia.
Qed.

Lemma land_0xf000 (x : Z) : Z.land x 0xf000 = (x / 4096) mod 16 * 4096.
Proof.
  change 0xf000 with (15 * 2 ^ 12 + 0).
  rewrite land_split_at by lia.
  rewrite Z.land_0_r, land_0xf. change (2 ^ 12) with 4096. lia.
Qed.

Lemma land_0xFFF0 (x : Z) :
  0 <= x < 65536 -> Z.land x 0xFFF0 = x / 16 * 16.
Proof.
  intros Hx.
  change 0xFFF0 with (Z.ones 12 * 2 ^ 4 + 0).
  rewrite land_split_at by lia.
  rewrite Z.land_0_r, Z.land_ones by lia.
  change (2 ^ 4) with 16. change (2 ^ 12) with 4096.
  rewrite (Z.mod_small (x / 16)); [lia|].
  split; [apply Z.div_pos; lia|].
  apply Z.div_lt_upper_bound; lia.
Qed.

Lemma lor_hi_lo (k a c : Z) :
  0 <= k -> 0 <= c < 2 ^ k -> Z.lor (a * 2 ^ k) c = a * 2 ^ k + c.
Proof.
  intros Hk Hc.
  assert (Hpos : 0 < 2 ^ k) by (apply Z.pow_pos_nonneg; lia).
  pose proof (lor_split a 0 0 c k Hk) as H.
  rewrite Z.add_0_r, Z.lor_0_r, Z.lor_0_l in H.
  change (0 * 2 ^ k + c) with c in H.
  apply H; lia.
Qed.

Lemma lor_hi_hi (k a b d : Z) :
  0 <= k -> 0 <= b < 2 ^ k ->
  Z.lor (a * 2 ^ k + b) (d * 2 ^ k) = Z.lor a d * 2 ^ k + b.
Proof.
  intros Hk Hb.
  assert (Hpos : 0 < 2 ^ k) by (apply Z.pow_pos_nonneg; lia).
  pose proof (lor_split a b d 0 k Hk) as H.
  rewrite Z.add_0_r, Z.lor_0_r in H.
  apply H; lia.
Qed.

Lemma lor_lo_lo (k a b c : Z) :
  0 <= k -> 0 <= b < 2 ^ k -> 0 <= c < 2 ^ k ->
  Z.lor (a * 2 ^ k + b) c = a * 2 ^ k + Z.lor b c.
Proof.
  intros Hk Hb Hc.
  pose proof (lor_split a b 0 c k Hk) as H.
  rewrite Z.lor_0_r in H.
  change (0 * 2 ^ k + c) with c in H.
  apply H; lia.
Qed.

(** A 16-bit palette entry is its upper twelve bits or-ed with its low
    nibble. *)
Lemma clut_entry_split (c : Z) :
  0 <= c < 65536 -> c = Z.lor (Z.land c 0xFFF0) (Z.land c 0xf).
Proof.
  intros Hc.
  rewrite land_0xFFF0, land_0xf by lia.
  rewrite (lor_hi_lo 4) by (try apply Z.mod_pos_bound; lia).
  change (2 ^ 4) with 16.
  pose proof (Z.div_mod c 16). lia.
Qed.

(** The 32-bit word the fast path stores for the nibbles [l] (first pixel)
    and [h] (second pixel): its halves are the two pixels. *)
Lemma optimal_word (color h l : Z) :
  0 <= color < 65536 -> 0 <= h < 16 -> 0 <= l < 16 ->
  let W := Z.lor (Z.lor (u32 (Z.lor (Z.shiftl color 16) color)) (h * 65536)) l in
  u16 W = Z.lor color l /\ u16 (W / 65536) = Z.lor color h.
Proof.
  intros Hc Hh Hl W.
  assert (Hcl : 0 <= Z.lor color l < 65536)
    by (apply (lor_range color l 16); lia).
  assert (Hch : 0 <= Z.lor color h < 65536)
    by (apply (lor_range color h 16); lia).
  assert (HW : W = Z.lor color h * 65536 + Z.lor color l).
  { unfold W.
    rewrite Z.shiftl_mul_pow2 by lia.
    rewrite (lor_hi_lo 16) by lia.
    rewrite u32_small by (change (2 ^ 16) with 65536; lia).
    change 65536 with (2 ^ 16).
    rewrite (lor_hi_hi 16) by lia.
    rewrite (lor_lo_lo 16) by lia.
    reflexivity. }
  rewrite HW. unfold u16. split.
  - rewrite Z.add_comm, Z.mod_add by lia. now apply Z.mod_small.
  - rewrite Z.add_comm, Z.div_add by lia.
    rewrite (Z.div_small (Z.lor color l)) by lia.
    now apply Z.mod_small.
Qed.

(** ** The maps *)

Lemma find_assign_same (k : Z) (e : TexCacheEntry) (c : TexCache) :
  find k (assign k e c) = Some e.
Proof.
  induction c as [|[k' e'] c IH]; simpl.
  - now rewrite Z.eqb_refl.
  - destruct (k <? k') eqn:Hlt; simpl.
    + now rewrite Z.eqb_refl.
    + destruct (k =? k') eqn:Heq; simpl.
      * now rewrite Z.eqb_refl.
      * rewrite Z.eqb_sym, Heq. exact IH.
Qed.

Lemma find_assign_other (k k0 : Z) (e : TexCacheEntry) (c : TexCache) :
  k0 <> k -> find k0 (assign k e c) = find k0 c.
Proof.
  intros Hne.
  induction c as [|[k' e'] c IH]; simpl.
  - destruct (k =? k0) eqn:H; [apply Z.eqb_eq in H; congruence|reflexivity].
  - destruct (k <? k') eqn:Hlt; simpl.
    + destruct (k =? k0) eqn:H; [apply Z.eqb_eq in H; congruence|reflexivity].
    + destruct (k =? k') eqn:Heq; simpl.
      * apply Z.eqb_eq in Heq. subst k'.
        destruct (k =? k0) eqn:H; [apply Z.eqb_eq in H; congruence|reflexivity].
      * destruct (k' =? k0); [reflexivity|exact IH].
Qed.

(** [c[k] = e] keeps the keys in ascending order. *)
Lemma assign_sorted (k : Z) (e : TexCacheEntry) (c : TexCache) :
  sorted_keys c -> sorted_keys (assign k e c).
Proof.
  induction c as [|[k' e'] c IH]; intros Hs; [exact I|].
  cbn [assign].
  destruct (k <? k') eqn:Hlt.
  - apply Z.ltb_lt in Hlt. split; [exact Hlt|exact Hs].
  - apply Z.ltb_ge in Hlt.
    destruct (k =? k') eqn:Heq.
    + apply Z.eqb_eq in Heq. subst k'. exact Hs.
    + apply Z.eqb_neq in Heq.
      destruct c as [|[k2 e2] c2].
      * cbn. split; [lia|exact I].
      * destruct Hs as [H12 Hs]. specialize (IH Hs).
        cbn [assign] in *.
        destruct (k <? k2); [|destruct (k =? k2)];
          (split; [lia|exact IH]).
Qed.

Lemma lower_le_upper (k k' : Z) (c : TexCache) :
  k <= k' -> (lower_bound k c <= upper_bound k' c)%nat.
Proof.
  intros Hle.
  induction c as [|[k0 e0] c IH]; simpl; [lia|].
  destruct (k0 <? k) eqn:H1; [|lia].
  apply Z.ltb_lt in H1.
  destruct (k0 <=? k') eqn:H2; [lia|].
  apply Z.leb_gt in H2. lia.
Qed.

Lemma upper_bound_le_length (k : Z) (c : TexCache) :
  (upper_bound k c <= length c)%nat.
Proof.
  induction c as [|[k0 e0] c IH]; simpl; [lia|].
  destruct (k0 <=? k); simpl; lia.
Qed.

(** ** The range walk of [Invalidate] *)

Lemma Invalidate_loop_frame (P : TexCacheEntry -> Prop)
    (body : TexCacheEntry -> Z -> TexCacheEntry * Z) :
  (forall e n, P e -> fst (body e n) = e) ->
  forall c idx iter end_ n c' n',
    Invalidate_loop body c idx iter end_ n = Some (c', n') ->
    forall i k e, nth_error c i = Some (k, e) -> P e ->
                  nth_error c' i = Some (k, e).
Proof.
  intros Hbody c.
  induction c as [|[k0 e0] c IH]; intros idx iter end_ n c' n' Hrun i k e Hi HP.
  - destruct i; discriminate.
  - simpl in Hrun.
    destruct (Nat.ltb idx iter).
    + destruct (Invalidate_loop body c (S idx) iter end_ n) as [[r n1]|] eqn:Hrec;
        [|discriminate].
      injection Hrun as <- <-.
      destruct i as [|i]; simpl in *; [exact Hi|].
      eapply IH; eauto.
    + destruct (Nat.eqb iter end_).
      * injection Hrun as <- <-. exact Hi.
      * destruct (body e0 n) as [e1 n1] eqn:Hb.
        destruct (Invalidate_loop body c (S idx) (S iter) end_ n1)
          as [[r n2]|] eqn:Hrec; [|discriminate].
        injection Hrun as <- <-.
        destruct i as [|i]; simpl in *.
        -- injection Hi as -> ->.
           specialize (Hbody e n HP). rewrite Hb in Hbody. simpl in Hbody.
           now subst.
        -- eapply IH; eauto.
Qed.

(** The walk has a result whenever the begin iterator is not past the end
    iterator. *)
Lemma Invalidate_loop_defined (body : TexCacheEntry -> Z -> TexCacheEntry * Z) :
  forall c idx iter end_ n,
    (idx <= iter)%nat -> (iter <= end_)%nat -> (end_ <= idx + length c)%nat ->
    exists c' n', Invalidate_loop body c idx iter end_ n = Some (c', n').
Proof.
  induction c as [|[k0 e0] c IH]; intros idx iter end_ n H1 H2 H3; simpl in *.
  - replace (Nat.eqb iter end_) with true by (symmetry; apply Nat.eqb_eq; lia).
    eauto.
  - destruct (Nat.ltb idx iter) eqn:Hlt.
    + apply Nat.ltb_lt in Hlt.
      destruct (IH (S idx) iter end_ n) as (c' & n' & ->); try lia. eauto.
    + apply Nat.ltb_ge in Hlt.
      destruct (Nat.eqb iter end_) eqn:Heq; [eauto|].
      apply Nat.eqb_neq in Heq.
      destruct (body e0 n) as [e1 n1].
      destruct (IH (S idx) (S iter) end_ n1) as (c' & n' & ->); try lia. eauto.
Qed.

(** An empty range leaves the map and the counter as they were. *)
Lemma Invalidate_loop_empty (body : TexCacheEntry -> Z -> TexCacheEntry * Z)
    (c : TexCache) (n : Z) :
  Invalidate_loop body c 0 0 0 n = Some (c, n).
Proof. destruct c as [|[k e] c]; reflexivity. Qed.

Lemma Invalidate_body_miss `{K : EntryConsts} (addr addr_end : Z)
    (type : GPUInvalidationType) (e : TexCacheEntry) (n : Z) :
  Invalidate_hits addr addr_end e = false ->
  Invalidate_body addr addr_end type e n = (e, n).
Proof. intros H. unfold Invalidate_body. now rewrite H. Qed.

(** ** [Invalidate] *)

Lemma Invalidate_hits_disjoint (a size : Z) (e : TexCacheEntry) :
  0 <= a < 268435456 -> 0 <= size < 2147483648 -> entry_wf e ->
  a + size <= Entry.addr e \/ Entry.addr e + sizeInRAM e <= a ->
  Invalidate_hits a (u32 (a + size)) e = false.
Proof.
  intros Ha Hs [Haddr Hsz] Hdis.
  unfold Invalidate_hits.
  rewrite (u32_small (Entry.addr e)) by lia.
  rewrite (u32_small (a + size)) by lia.
  apply andb_false_iff.
  destruct Hdis as [H|H].
  - left. apply Z.ltb_ge. lia.
  - right. apply Z.ltb_ge.
    pose proof (u32_le (Entry.addr e + sizeInRAM e)). lia.
Qed.

(** Every key that [SetTexture] creates has a non-zero address half and so
    lies above both bounds of the walk: on such a map [Invalidate] visits
    nothing. *)
Lemma Invalidate_noop_above_32 `{K : EntryConsts} (addr size : Z)
    (type : GPUInvalidationType) (w : World) (k : Z) (e : TexCacheEntry)
    (c : TexCache) :
  cache (tc w) = (k, e) :: c -> 4294967296 <= k ->
  Invalidate addr size type w = Some w.
Proof.
  intros Hc Hk.
  unfold Invalidate. rewrite Hc.
  rewrite !u64_u32.
  assert (Hlb : forall z, lower_bound (u32 z) ((k, e) :: c) = O).
  { intros z. simpl. pose proof (u32_range z) as Hz.
    destruct (k <? u32 z) eqn:Hlt; [apply Z.ltb_lt in Hlt; lia|reflexivity]. }
  assert (Hub : forall z, upper_bound (u32 z) ((k, e) :: c) = O).
  { intros z. simpl. pose proof (u32_range z) as Hz.
    destruct (k <=? u32 z) eqn:Hle; [apply Z.leb_le in Hle; lia|reflexivity]. }
  rewrite Hlb, Hub, Invalidate_loop_empty.
  destruct w as [t s gc f h g]. destruct t. destruct s.
  simpl in *. now subst.
Qed.

(** C8.  Invalidation with [addr + size <= entry.addr] or
    [addr >= entry.addr + entry.sizeInRAM] does not modify the entry: for
    every call [Invalidate(addr, size, type)] whose range walk is well
    formed, the call has a result, and every primary entry whose declared
    byte range does not meet [[addr, addr + size)] is found afterwards at
    the same place of the map, under the same key, with every field
    unchanged.  [addr] is the address after the masking to 28 bits that the
    function starts with, and [size] is a byte count. *)
Theorem Invalidate_frame `{K : EntryConsts} (addr size : Z)
    (type : GPUInvalidationType) (w : World) :
  0 <= size < 2147483648 ->
  Invalidate_range_ok addr size (cache (tc w)) ->
  exists w',
    Invalidate addr size type w = Some w' /\
    forall i k e,
      nth_error (cache (tc w)) i = Some (k, e) ->
      entry_wf e ->
      Z.land addr 0x0FFFFFFF + size <= Entry.addr e
      \/ Entry.addr e + sizeInRAM e <= Z.land addr 0x0FFFFFFF ->
      nth_error (cache (tc w')) i = Some (k, e).
Proof.
  intros Hsize Hrange.
  unfold Invalidate_range_ok, Invalidate_startKey, Invalidate_endKey in Hrange.
  unfold Invalidate.
  set (a := Z.land addr 0x0FFFFFFF) in *.
  set (body := Invalidate_body a (u32 (a + size)) type).
  destruct (Invalidate_loop_defined body (cache (tc w)) 0
              (lower_bound (u64 (u32 (a - LARGEST_TEXTURE_SIZE))) (cache (tc w)))
              (upper_bound (u64 (u32 (a + size + LARGEST_TEXTURE_SIZE)))
                 (cache (tc w)))
              (numTextureInvalidations (gpuStats w)))
    as (c' & n' & Hrun).
  - lia.
  - exact Hrange.
  - apply upper_bound_le_length.
  - rewrite Hrun. eexists. split; [reflexivity|].
    intros i k e Hi Hwf Hdis. simpl.
    eapply (Invalidate_loop_frame
              (fun e => Invalidate_hits a (u32 (a + size)) e = false) body);
      eauto.
    + intros e0 n0 H0. unfold body. now rewrite Invalidate_body_miss.
    + apply Invalidate_hits_disjoint; auto.
      apply land_28_range.
Qed.

(** ** [Decimate] *)

Lemma Decimate_loop_keeps (kill : TexCacheEntry -> bool) (c : TexCache)
    (k : Z) (e : TexCacheEntry) :
  In (k, e) (fst (Decimate_loop kill c)) <-> In (k, e) c /\ kill e = false.
Proof.
  induction c as [|[k0 e0] c IH]; simpl.
  - tauto.
  - destruct (Decimate_loop kill c) as [kept calls] eqn:Hrec. simpl in IH.
    destruct (kill e0) eqn:Hk; simpl; rewrite IH.
    + split.
      * tauto.
      * intros [[Heq|Hin] Hf]; [|tauto].
        injection Heq as <- <-. congruence.
    + split.
      * intros [Heq|[Hin Hf]]; [|tauto].
        injection Heq as <- <-. tauto.
      * tauto.
Qed.

(** When a pass runs, a primary entry is erased exactly when
    [lastFrame + TEXTURE_KILL_AGE < numFlips], in low-memory mode or not
    (the [int] sum not overflowing). *)
Lemma Decimate_primary_rule (w : World) (k : Z) (e : TexCacheEntry) :
  decimationCounter_ (tc w) - 1 <= 0 ->
  lastFrame e + TEXTURE_KILL_AGE <= 2147483647 ->
  (In (k, e) (cache (tc (Decimate w)))
   <-> In (k, e) (cache (tc w))
       /\ ~ lastFrame e + TEXTURE_KILL_AGE < numFlips (gpuStats w)).
Proof.
  intros Hc _. unfold Decimate.
  apply Z.leb_le in Hc. rewrite Hc.
  destruct (Decimate_loop _ (cache _)) as [c1 d1] eqn:H1.
  destruct (Decimate_loop _ (secondCache _)) as [c2 d2] eqn:H2.
  simpl in *.
  pose proof (Decimate_loop_keeps
    (fun e => lastFrame e + TEXTURE_KILL_AGE <? numFlips (gpuStats w))
    (cache (tc w)) k e) as Hk.
  rewrite H1 in Hk. simpl in Hk. rewrite Hk.
  rewrite Z.ltb_ge. split; intros [? ?]; split; auto; lia.
Qed.

(** C2.  In low-memory mode, with a primary entry last used in frame 0 and
    the frame counter at 100, [0 + TEXTURE_KILL_AGE_LOWMEM < 100] holds and
    a decimation pass runs (it unbinds the texture), yet the pass deletes
    nothing and the entry is still in the primary map. *)
Theorem Decimate_lowmem_keeps_entry_older_than_lowmem_age :
  lowMemoryMode_ (tc lowmem_world) = true
  /\ find reliable_key (cache (tc lowmem_world)) = Some lowmem_entry
  /\ lastFrame lowmem_entry + TEXTURE_KILL_AGE_LOWMEM
     < numFlips (gpuStats lowmem_world)
  /\ gl (Decimate lowmem_world) = [glBindTexture 0]
  /\ find reliable_key (cache (tc (Decimate lowmem_world))) = Some lowmem_entry.
Proof.
  split; [reflexivity|].
  split; [reflexivity|].
  split; [vm_compute; reflexivity|].
  split; reflexivity.
Qed.

Lemma Invalidate_frame_witness :
  0 <= 0x100 < 2147483648
  /\ Invalidate_range_ok 0x00200000 0x100 (cache (tc low_key_world))
  /\ exists w',
       @Invalidate example_consts 0x00200000 0x100 GPU_INVALIDATE_HINT
         low_key_world = Some w' /\
       forall i k e,
         nth_error (cache (tc low_key_world)) i = Some (k, e) ->
         entry_wf e ->
         Z.land 0x00200000 0x0FFFFFFF + 0x100 <= Entry.addr e
         \/ Entry.addr e + sizeInRAM e <= Z.land 0x00200000 0x0FFFFFFF ->
         nth_error (cache (tc w')) i = Some (k, e).
Proof.
  assert (H1 : 0 <= 0x100 < 2147483648) by lia.
  assert (H2 : Invalidate_range_ok 0x00200000 0x100 (cache (tc low_key_world)))
    by (unfold Invalidate_range_ok; vm_compute; lia).
  split; [exact H1|]. split; [exact H2|].
  exact (@Invalidate_frame example_consts 0x00200000 0x100
           GPU_INVALIDATE_HINT low_key_world H1 H2).
Defined.

(** On [low_key_world] the walk does reach both entries: the overlapping
    one is demoted and rescheduled, the other one is left alone. *)
Example Invalidate_low_key_world :
  exists w',
    @Invalidate example_consts 0x00200000 0x100 GPU_INVALIDATE_HINT
      low_key_world = Some w'
    /\ option_map status (find 0x00200000 (cache (tc w'))) = Some 0
    /\ find 0x00300000 (cache (tc w'))
       = find 0x00300000 (cache (tc low_key_world))
    /\ numTextureInvalidations (gpuStats w') = 1.
Proof. eexists. repeat split. Qed.

(** ** [SetTexture]: invalid texture address *)

(** C7.  When the level-0 texture address is not a valid guest address,
    [SetTexture] makes the single call [glBindTexture(GL_TEXTURE_2D, 0)],
    resets [lastBoundTexture] and returns: both maps with all their entries,
    the statistics, the framebuffers and memory are as before the call. *)
Theorem SetTexture_invalid_address `{K : EntryConsts} `{P : Platform}
    (E : Env) (w : World) :
  IsValidAddress (level_texaddr (gstate E) 0) = false ->
  exists w',
    SetTexture_lookup E w = Returned w'
    /\ gl w' = gl w ++ [glBindTexture 0]
    /\ lastBoundTexture (tc w') = u32 (-1)
    /\ cache (tc w') = cache (tc w)
    /\ secondCache (tc w') = secondCache (tc w)
    /\ gpuStats w' = gpuStats w
    /\ gstate_c w' = gstate_c w
    /\ fbs w' = fbs w
    /\ heap w' = heap w.
Proof.
  intros Hbad. unfold SetTexture_lookup. rewrite Hbad. simpl.
  eexists. split; [reflexivity|]. simpl. repeat split.
Qed.

Lemma SetTexture_invalid_address_witness :
  @IsValidAddress (example_platform true)
    (level_texaddr (gstate unmapped_env) 0) = false
  /\ exists w',
       @SetTexture_lookup example_consts (example_platform true) unmapped_env
         reliable_world = Returned w'
       /\ gl w' = gl reliable_world ++ [glBindTexture 0]
       /\ lastBoundTexture (tc w') = u32 (-1)
       /\ cache (tc w') = cache (tc reliable_world)
       /\ secondCache (tc w') = secondCache (tc reliable_world)
       /\ gpuStats w' = gpuStats reliable_world
       /\ gstate_c w' = gstate_c reliable_world
       /\ fbs w' = fbs reliable_world
       /\ heap w' = heap reliable_world.
Proof.
  assert (H1 : @IsValidAddress (example_platform true)
                 (level_texaddr (gstate unmapped_env) 0) = false)
    by reflexivity.
  split; [exact H1|].
  exact (@SetTexture_invalid_address example_consts (example_platform true)
           unmapped_env reliable_world H1).
Defined.

(** ** The zero-copy path of the 8888 decode *)

(** C9.  For a non-swizzled GE_TFMT_8888 level whose [bufw] is at least 4
    and equal to the width, [DecodeTextureLevel] returns the pointer
    [Memory::GetPointer(texaddr)] itself with format GL_UNSIGNED_BYTE, and
    memory is exactly as it was: nothing is copied, converted or
    rearranged. *)
Theorem DecodeTextureLevel_8888_zero_copy `{P : Platform} (g : GPUgstate)
    (m : Heap) (level : Z) :
  isTextureSwizzled g = false ->
  4 <= GetLevelBufw g level (level_texaddr g level) ->
  getTextureWidth g level = GetLevelBufw g level (level_texaddr g level) ->
  DecodeTextureLevel_8888 g m level
  = (m, Memory_GetPointer (level_texaddr g level), GL_UNSIGNED_BYTE).
Proof.
  intros Hsw Hbufw Hw.
  unfold DecodeTextureLevel_8888.
  rewrite Hsw, Hw. simpl negb. cbv iota.
  set (bufw := GetLevelBufw g level (level_texaddr g level)) in *.
  replace (bufw <? 4) with false by (symmetry; apply Z.ltb_ge; lia).
  rewrite Z.eqb_refl.
  unfold ConvertColors. rewrite Ptr_eqb_refl. simpl negb. cbv iota.
  unfold DecodeTextureLevel_tail. rewrite Z.eqb_refl. reflexivity.
Qed.

Lemma DecodeTextureLevel_8888_zero_copy_witness :
  isTextureSwizzled linear8888_gstate = false
  /\ 4 <= @GetLevelBufw (example_platform true) linear8888_gstate 0
            (level_texaddr linear8888_gstate 0)
  /\ getTextureWidth linear8888_gstate 0
     = @GetLevelBufw (example_platform true) linear8888_gstate 0
         (level_texaddr linear8888_gstate 0)
  /\ @DecodeTextureLevel_8888 (example_platform true) linear8888_gstate
       patterned_heap 0
     = (patterned_heap,
        @Memory_GetPointer (example_platform true)
          (level_texaddr linear8888_gstate 0),
        GL_UNSIGNED_BYTE).
Proof.
  assert (H1 : isTextureSwizzled linear8888_gstate = false) by reflexivity.
  assert (H2 : 4 <= @GetLevelBufw (example_platform true) linear8888_gstate 0
                      (level_texaddr linear8888_gstate 0))
    by (vm_compute; discriminate).
  assert (H3 : getTextureWidth linear8888_gstate 0
               = @GetLevelBufw (example_platform true) linear8888_gstate 0
                   (level_texaddr linear8888_gstate 0))
    by reflexivity.
  split; [exact H1|]. split; [exact H2|]. split; [exact H3|].
  exact (@DecodeTextureLevel_8888_zero_copy (example_platform true)
           linear8888_gstate patterned_heap 0 H1 H2 H3).
Defined.

(** ** The alpha scan on RGB565 data *)

Lemma alpha_field_after_clear (s mask full : Z) :
  Z.land full mask = full ->
  Z.land (Z.lor (Z.land s (Z.lnot mask)) full) mask = full.
Proof.
  intros Hfull.
  rewrite Z.land_lor_distr_l, <- Z.land_assoc.
  rewrite (Z.land_comm (Z.lnot mask) mask), Z.land_lnot_diag, Z.land_0_r.
  now rewrite Z.lor_0_l.
Qed.

(** Once the format that reaches the scan is GL_UNSIGNED_SHORT_5_6_5, the
    scan of a never-invalidated entry reads no pixel. *)
Lemma LoadTextureLevel_alpha_565 `{K : EntryConsts} (entry : TexCacheEntry)
    (m1 m2 : Heap) (p1 p2 : Ptr) (w1 h1 w2 h2 : Z) :
  Z.land STATUS_ALPHA_FULL STATUS_ALPHA_MASK = STATUS_ALPHA_FULL ->
  numInvalidated entry = 0 ->
  let scan m p w h :=
    LoadTextureLevel_alpha (SetTexture_clearAlpha entry) m p
      GL_UNSIGNED_SHORT_5_6_5 w h in
  scan m1 p1 w1 h1 = scan m2 p2 w2 h2
  /\ Z.land (status (scan m1 p1 w1 h1)) STATUS_ALPHA_MASK = STATUS_ALPHA_FULL
  /\ textureFullAlpha_of (scan m1 p1 w1 h1) = true.
Proof.
  intros Hfull Hni scan.
  assert (Hscan : forall m p w h,
             scan m p w h
             = set_status
                 (Z.lor (Z.land (status entry) (Z.lnot STATUS_ALPHA_MASK))
                        STATUS_ALPHA_FULL)
                 (SetTexture_clearAlpha entry)).
  { intros m p w h. unfold scan, LoadTextureLevel_alpha.
    replace (numInvalidated (SetTexture_clearAlpha entry)) with 0
      by (destruct entry; simpl in *; congruence).
    reflexivity. }
  rewrite !Hscan.
  split; [reflexivity|].
  assert (Hfield :
    Z.land (Z.lor (Z.land (status entry) (Z.lnot STATUS_ALPHA_MASK))
                  STATUS_ALPHA_FULL) STATUS_ALPHA_MASK = STATUS_ALPHA_FULL)
    by (apply alpha_field_after_clear; exact Hfull).
  split.
  - destruct entry; simpl in *. exact Hfield.
  - unfold textureFullAlpha_of. apply Z.eqb_eq.
    destruct entry; simpl in *. exact Hfield.
Qed.

Lemma LoadTextureLevel_scale_skipped `{P : Platform} (E : Env)
    (entry : TexCacheEntry) (m : Heap) (finalBuf : Ptr) (dstFmt : GLenum)
    (w h : Z) :
  iTexScalingLevel (g_Config E) <= 1
  \/ 0x05000000 < Entry.addr entry < 0x08800000 ->
  LoadTextureLevel_scale E entry m finalBuf dstFmt w h
  = (m, finalBuf, dstFmt, w, h).
Proof.
  intros Hoff. unfold LoadTextureLevel_scale. cbv zeta.
  destruct ((0x05000000 <? Entry.addr entry)
            && (Entry.addr entry <? 0x08800000)) eqn:Hppge.
  - reflexivity.
  - destruct Hoff as [Hlvl|[H1 H2]].
    + replace (1 <? iTexScalingLevel (g_Config E)) with false
        by (symmetry; apply Z.ltb_ge; exact Hlvl).
      reflexivity.
    + apply Z.ltb_lt in H1. apply Z.ltb_lt in H2.
      rewrite H1, H2 in Hppge. discriminate.
Qed.

Lemma SetTexture_clearAlpha_fields `{K : EntryConsts} (entry : TexCacheEntry) :
  numInvalidated (SetTexture_clearAlpha entry) = numInvalidated entry
  /\ Entry.addr (SetTexture_clearAlpha entry) = Entry.addr entry.
Proof. destruct entry; split; reflexivity. Qed.

(** C10 as the specification states it fails: at a decode to RGB565 of a
    never-invalidated texture, with 2x scaling configured and a scaler that
    returns 32-bit pixels, the scan runs on the scaler's output in the 8888
    format and reads it.  Over memory whose bytes are [0x5A] the entry ends
    as STATUS_ALPHA_UNKNOWN and [textureFullAlpha] is false; over memory of
    zero bytes the same decode ends differently. *)
Lemma scaled_565_decode_is_scanned :
  let entry := example_entry 0x08900000 0x2000 0 0 0 7 in
  let scan m :=
    @LoadTextureLevel_scan example_consts scaling_platform scaling_env
      (@SetTexture_clearAlpha example_consts entry) m tmpTexBuf16_data
      GL_UNSIGNED_SHORT_5_6_5 2 2 in
  numInvalidated entry = 0
  /\ Z.land (status (scan patterned_heap)) (@STATUS_ALPHA_MASK example_consts)
     = @STATUS_ALPHA_UNKNOWN example_consts
  /\ @STATUS_ALPHA_UNKNOWN example_consts <> @STATUS_ALPHA_FULL example_consts
  /\ @textureFullAlpha_of example_consts (scan patterned_heap) = false
  /\ scan patterned_heap <> scan zero_heap.
Proof.
  cbv zeta. split; [reflexivity|]. split; [reflexivity|].
  split; [discriminate|]. split; [reflexivity|].
  intros H. apply (f_equal status) in H. vm_compute in H. discriminate.
Qed.

(** C10, amended.  For an entry that was never invalidated, the scaling
    step of [LoadTextureLevel] is skipped when the configured factor is at
    most 1 or the texture lies in the PPGe range, and then leaves the
    decoded buffer, its format and its size as they are.  Whenever the
    format that
    reaches the scan - after the scaling step, skipped or not - is
    GL_UNSIGNED_SHORT_5_6_5, the scan does not depend on the pixel data (any
    two memories, buffers and sizes give the same entry), it leaves the
    alpha field of the status, cleared by [SetTexture] before the decode, at
    STATUS_ALPHA_FULL, and the value given to [textureFullAlpha] is true.
    The hypothesis on the enumeration says that STATUS_ALPHA_FULL is a
    value of the field that STATUS_ALPHA_MASK selects. *)
Theorem LoadTextureLevel_565_is_full `{K : EntryConsts} `{P : Platform}
    (E : Env) (entry : TexCacheEntry) (m1 m2 : Heap) (p1 p2 : Ptr)
    (f1 f2 : GLenum) (w1 h1 w2 h2 : Z) :
  Z.land STATUS_ALPHA_FULL STATUS_ALPHA_MASK = STATUS_ALPHA_FULL ->
  numInvalidated entry = 0 ->
  let e := SetTexture_clearAlpha entry in
  (iTexScalingLevel (g_Config E) <= 1
   \/ 0x05000000 < Entry.addr entry < 0x08800000 ->
   LoadTextureLevel_scale E e m1 p1 f1 w1 h1 = (m1, p1, f1, w1, h1))
  /\ (LoadTextureLevel_scale_format E e m1 p1 f1 w1 h1
      = GL_UNSIGNED_SHORT_5_6_5 ->
      LoadTextureLevel_scale_format E e m2 p2 f2 w2 h2
      = GL_UNSIGNED_SHORT_5_6_5 ->
      LoadTextureLevel_scan E e m1 p1 f1 w1 h1
      = LoadTextureLevel_scan E e m2 p2 f2 w2 h2
      /\ Z.land (status (LoadTextureLevel_scan E e m1 p1 f1 w1 h1))
           STATUS_ALPHA_MASK = STATUS_ALPHA_FULL
      /\ textureFullAlpha_of (LoadTextureLevel_scan E e m1 p1 f1 w1 h1)
         = true).
Proof.
  intros Hfull Hni. cbv zeta.
  destruct (SetTexture_clearAlpha_fields entry) as [Hn Ha].
  split.
  - intros Hoff. apply LoadTextureLevel_scale_skipped.
    rewrite Ha. exact Hoff.
  - unfold LoadTextureLevel_scale_format, LoadTextureLevel_scan.
    destruct (LoadTextureLevel_scale E (SetTexture_clearAlpha entry)
                m1 p1 f1 w1 h1) as [[[[m1' p1'] f1'] w1'] h1'].
    destruct (LoadTextureLevel_scale E (SetTexture_clearAlpha entry)
                m2 p2 f2 w2 h2) as [[[[m2' p2'] f2'] w2'] h2'].
    intros -> ->.
    exact (LoadTextureLevel_alpha_565 entry m1' m2' p1' p2' w1' h1' w2' h2'
             Hfull Hni).
Qed.

Lemma LoadTextureLevel_565_is_full_witness :
  let entry := example_entry 0x08900000 0x2000 8 0 0 7 in
  let e := @SetTexture_clearAlpha example_consts entry in
  let scan m p w h :=
    @LoadTextureLevel_scan example_consts (example_platform false)
      thrash_env e m p GL_UNSIGNED_SHORT_5_6_5 w h in
  Z.land (@STATUS_ALPHA_FULL example_consts) (@STATUS_ALPHA_MASK example_consts)
  = @STATUS_ALPHA_FULL example_consts
  /\ numInvalidated entry = 0
  /\ iTexScalingLevel (g_Config thrash_env) <= 1
  /\ scan zero_heap tmpTexBuf16_data 64 64
     = scan patterned_heap tmpTexBuf32_data 8 8
  /\ Z.land (status (scan zero_heap tmpTexBuf16_data 64 64))
       (@STATUS_ALPHA_MASK example_consts)
     = @STATUS_ALPHA_FULL example_consts
  /\ @textureFullAlpha_of example_consts
       (scan zero_heap tmpTexBuf16_data 64 64) = true.
Proof.
  intros entry e scan.
  assert (H1 : Z.land (@STATUS_ALPHA_FULL example_consts)
                 (@STATUS_ALPHA_MASK example_consts)
               = @STATUS_ALPHA_FULL example_consts) by reflexivity.
  assert (H2 : numInvalidated entry = 0) by reflexivity.
  assert (H3 : iTexScalingLevel (g_Config thrash_env) <= 1) by (cbn; lia).
  split; [exact H1|]. split; [exact H2|]. split; [exact H3|].
  destruct (@LoadTextureLevel_565_is_full example_consts
              (example_platform false) thrash_env entry zero_heap
              patterned_heap tmpTexBuf16_data tmpTexBuf32_data
              GL_UNSIGNED_SHORT_5_6_5 GL_UNSIGNED_SHORT_5_6_5 64 64 8 8 H1 H2)
    as [_ Hscan].
  apply Hscan; reflexivity.
Defined.

(** ** [SetTexture]: the second-chance hit *)

Lemma SetTexture_rehash_numInvalidated `{K : EntryConsts} `{P : Platform}
    (m : Heap) (flips texaddr bufw w h format dim texhash : Z)
    (entry : TexCacheEntry) (rehash : bool) :
  numInvalidated
    (fst (fst (SetTexture_rehash m flips texaddr bufw w h format dim texhash
                 entry rehash)))
  = numInvalidated entry.
Proof.
  unfold SetTexture_rehash.
  repeat match goal with
         | |- context [if ?c then _ else _] => destruct c
         end; reflexivity.
Qed.

Lemma UpdateSamplingParams_keeps `{P : Platform} (E : Env)
    (entry : TexCacheEntry) (force : bool) :
  let e' := fst (UpdateSamplingParams E entry force) in
  texture e' = texture entry /\ lastFrame e' = lastFrame entry
  /\ numInvalidated e' = numInvalidated entry /\ status e' = status entry.
Proof.
  unfold UpdateSamplingParams.
  repeat match goal with
         | |- context [if ?c then _ else _] => destruct c
         end; simpl; repeat split.
Qed.

Lemma SetTexture_hit_effect `{K : EntryConsts} `{P : Platform} (E : Env)
    (entry : TexCacheEntry) (w : World) :
  let r := SetTexture_hit E entry w in
  fst r = fst (UpdateSamplingParams E
                 (set_lastFrame (numFlips (gpuStats w)) entry) false)
  /\ cache (tc (snd r)) = cache (tc w)
  /\ secondCache (tc (snd r)) = secondCache (tc w)
  /\ lastBoundTexture (tc (snd r)) = texture entry
  /\ (texture entry <> lastBoundTexture (tc w) ->
      In (glBindTexture (texture entry)) (gl (snd r))).
Proof.
  unfold SetTexture_hit.
  destruct (UpdateSamplingParams E
              (set_lastFrame (numFlips (gpuStats w)) entry) false)
    as [e' calls] eqn:Hu.
  replace (texture (set_lastFrame (numFlips (gpuStats w)) entry))
    with (texture entry) by (destruct entry; reflexivity).
  replace (status (set_lastFrame (numFlips (gpuStats w)) entry))
    with (status entry) by (destruct entry; reflexivity).
  destruct (texture entry =? lastBoundTexture (tc w)) eqn:Hb; simpl.
  - apply Z.eqb_eq in Hb. repeat split; auto. intros Hne. congruence.
  - repeat split; auto. intros _.
    apply in_or_app. left. apply in_or_app. right. now left.
Qed.

(** C3, amended.  In [SetTexture], when a hash failure occurs on an entry
    that has been invalidated more than 2 and fewer than 128 times, with
    low-memory mode off, and the second-chance map holds an entry of
    matching geometry under [(fullhash, cluthash)], the call returns as a
    hit on that second-chance entry: its [lastFrame] becomes the current
    frame and its texture is the bound one.  The invalidation count of the
    primary entry is decremented by one when it exceeds 8 and is left
    unchanged otherwise. *)
Theorem SetTexture_second_chance_refund `{K : EntryConsts} `{P : Platform}
    (E : Env) (w w1 : World) (L : SetTextureLocals)
    (entry entry1 : TexCacheEntry) (fullhash : Z)
    (secondEntry : TexCacheEntry) :
  second_chance_hit E w w1 L entry entry1 fullhash secondEntry ->
  2 < numInvalidated entry < 128 ->
  exists w' e' s',
    SetTexture_lookup E w = Returned w'
    /\ find (l_cachekey L) (cache (tc w')) = Some e'
    /\ numInvalidated e'
       = (if 8 <? numInvalidated entry
          then numInvalidated entry - 1 else numInvalidated entry)
    /\ find (Z.lor fullhash (Z.shiftl (l_cluthash L) 32))
         (secondCache (tc w')) = Some s'
    /\ texture s' = texture secondEntry
    /\ lastFrame s' = numFlips (gpuStats w1)
    /\ lastBoundTexture (tc w') = texture secondEntry
    /\ (texture secondEntry <> lastBoundTexture (tc w1) ->
        In (glBindTexture (texture secondEntry)) (gl w')).
Proof.
  intros (Hvalid & Hpre & Hfind & Hfb & Hmatch & Hrehash & Hlow & Hsecond
          & Hmatch2) Hn.
  pose proof (SetTexture_rehash_numInvalidated (heap w1)
                (numFlips (gpuStats w1)) (l_texaddr L) (l_bufw L) (l_w L)
                (l_h L) (l_format L) (Z.land (texsize (gstate E) 0) 0xF0F)
                (l_texhash L) entry
                (Z.land (status entry) STATUS_MASK =? STATUS_UNRELIABLE))
    as Hni.
  rewrite Hrehash in Hni. simpl in Hni.
  unfold SetTexture_lookup.
  rewrite Hvalid, Hpre. cbv beta iota zeta. simpl negb. cbv iota.
  rewrite Hfind, Hfb. simpl negb. cbv iota.
  rewrite Hmatch, Hrehash. cbv beta iota zeta.
  unfold SetTexture_secondChance.
  replace (numInvalidated
             (set_numFrames 0
                (set_status (Z.lor (status entry1) STATUS_UNRELIABLE) entry1)))
    with (numInvalidated entry)
    by (rewrite <- Hni; destruct entry1; reflexivity).
  replace (2 <? numInvalidated entry) with true
    by (symmetry; apply Z.ltb_lt; lia).
  replace (numInvalidated entry <? 128) with true
    by (symmetry; apply Z.ltb_lt; lia).
  rewrite Hlow. simpl andb. cbv iota.
  rewrite Hsecond, Hmatch2. cbv beta iota zeta.
  match goal with
  | |- context [SetTexture_hit E secondEntry ?w0] =>
      pose proof (SetTexture_hit_effect E secondEntry w0) as Hhit;
      destruct (SetTexture_hit E secondEntry w0) as [s' w2] eqn:Hh
  end.
  cbv zeta in Hhit. simpl fst in Hhit. simpl snd in Hhit.
  destruct Hhit as (Hs' & Hc & Hsc & Hlb & Hgl).
  destruct (UpdateSamplingParams_keeps E
              (set_lastFrame (numFlips (gpuStats w1)) secondEntry) false)
    as (Ht & Hlf & _ & _).
  eexists. eexists. exists s'.
  split; [reflexivity|].
  unfold put_secondCache, put_cache in *. simpl in *.
  rewrite Hc, Hsc.
  split; [apply find_assign_same|].
  split.
  { destruct (8 <? numInvalidated entry); destruct entry1; simpl in *; lia. }
  split; [apply find_assign_same|].
  subst s'.
  split; [rewrite Ht; destruct secondEntry; reflexivity|].
  split; [rewrite Hlf; destruct secondEntry; reflexivity|].
  split; [exact Hlb|].
  exact Hgl.
Qed.

Lemma SetTexture_second_chance_refund_witness :
  second_chance_hit (K := example_consts) (P := example_platform false)
    thrash_env (thrash_world 9) (fst (thrash_prelude 9))
    (snd (thrash_prelude 9)) (thrash_entry 9) (thrash_rehashed 9) 0
    thrash_second
  /\ 2 < numInvalidated (thrash_entry 9) < 128
  /\ exists w' e' s',
       @SetTexture_lookup example_consts (example_platform false) thrash_env
         (thrash_world 9) = Returned w'
       /\ find (l_cachekey (snd (thrash_prelude 9))) (cache (tc w')) = Some e'
       /\ numInvalidated e'
          = (if 8 <? numInvalidated (thrash_entry 9)
             then numInvalidated (thrash_entry 9) - 1
             else numInvalidated (thrash_entry 9))
       /\ find (Z.lor 0 (Z.shiftl (l_cluthash (snd (thrash_prelude 9))) 32))
            (secondCache (tc w')) = Some s'
       /\ texture s' = texture thrash_second
       /\ lastFrame s' = numFlips (gpuStats (fst (thrash_prelude 9)))
       /\ lastBoundTexture (tc w') = texture thrash_second
       /\ (texture thrash_second
           <> lastBoundTexture (tc (fst (thrash_prelude 9))) ->
           In (glBindTexture (texture thrash_second)) (gl w')).
Proof.
  assert (Hhit : second_chance_hit (K := example_consts)
                   (P := example_platform false)
                   thrash_env (thrash_world 9) (fst (thrash_prelude 9))
                   (snd (thrash_prelude 9)) (thrash_entry 9)
                   (thrash_rehashed 9) 0 thrash_second)
    by (unfold second_chance_hit; repeat split).
  assert (Hn : 2 < numInvalidated (thrash_entry 9) < 128)
    by (simpl; lia).
  split; [exact Hhit|].
  split; [exact Hn|].
  exact (@SetTexture_second_chance_refund example_consts
           (example_platform false) thrash_env (thrash_world 9)
           (fst (thrash_prelude 9)) (snd (thrash_prelude 9)) (thrash_entry 9)
           (thrash_rehashed 9) 0 thrash_second Hhit Hn).
Defined.

(** C3 as the specification states it fails: with five invalidations the
    second-chance hit leaves the count at five. *)
Lemma second_chance_no_refund_below_9 : ~ second_chance_always_refunds.
Proof.
  intros H.
  destruct (H example_consts (example_platform false) thrash_env
              (thrash_world 5) (fst (thrash_prelude 5))
              (snd (thrash_prelude 5)) (thrash_entry 5) (thrash_rehashed 5)
              0 thrash_second)
    as (w' & e' & Hrun & Hfind & Hni).
  - unfold second_chance_hit. repeat split.
  - simpl. lia.
  - vm_compute in Hrun. injection Hrun as <-.
    vm_compute in Hfind. injection Hfind as <-.
    vm_compute in Hni. discriminate.
Qed.

(** ** The quick hashers *)

Example QuickTexHash_paths_differ :
  QuickTexHash_sse two_ones_heap (mkPtr HostMem 0) 32 = 2
  /\ QuickTexHash_scalar two_ones_heap (mkPtr HostMem 0) 32 = 0.
Proof. split; vm_compute; reflexivity. Qed.

Example QuickClutHash_paths_differ :
  QuickClutHash_sse second_one_heap (mkPtr HostMem 0) 32 = 0
  /\ QuickClutHash_scalar second_one_heap (mkPtr HostMem 0) 32 = prime.
Proof. split; vm_compute; reflexivity. Qed.

(** C4 as the specification states it fails: over 32 bytes whose first two
    words are 1, the aligned path of [QuickTexHash] adds the two words in
    separate lanes and returns 2, the scalar path adds the first and
    exclusive-ors the second and returns 0. *)
Lemma hash_paths_disagree : ~ hash_paths_agree.
Proof.
  intros [Htex _].
  specialize (Htex two_ones_heap (mkPtr HostMem 0) 32).
  vm_compute in Htex.
  assert (H : 2 = 0) by (apply Htex; [discriminate | reflexivity]).
  discriminate.
Qed.

Lemma same_bytes_load32 (m1 m2 : Heap) (p : Ptr) (n k : Z) :
  same_bytes m1 m2 p n -> 0 <= k -> k + 4 <= n ->
  load32 m1 (padd p k) = load32 m2 (padd p k).
Proof.
  intros Hs Hk Hn.
  unfold load32, load16.
  rewrite !padd_padd.
  rewrite (Hs k), (Hs (k + 1)), (Hs (k + 2)), (Hs (k + 2 + 1)) by lia.
  reflexivity.
Qed.

Lemma same_bytes_shift (m1 m2 : Heap) (p : Ptr) (n d : Z) :
  same_bytes m1 m2 p n -> 0 <= d -> same_bytes m1 m2 (padd p d) (n - d).
Proof.
  intros Hs Hd i Hi. rewrite !padd_padd. apply Hs. lia.
Qed.

Lemma same_bytes_load_si128 (m1 m2 : Heap) (p : Ptr) (n k : Z) :
  same_bytes m1 m2 p n -> 0 <= k -> k + 16 <= n ->
  _mm_load_si128 m1 (padd p k) = _mm_load_si128 m2 (padd p k).
Proof.
  intros Hs Hk Hn. unfold _mm_load_si128.
  rewrite !padd_padd.
  rewrite (same_bytes_load32 m1 m2 p n k),
          (same_bytes_load32 m1 m2 p n (k + 4)),
          (same_bytes_load32 m1 m2 p n (k + 8)),
          (same_bytes_load32 m1 m2 p n (k + 12)) by (auto; lia).
  reflexivity.
Qed.

Lemma QuickTexHash_scalar_loop_ext (m1 m2 : Heap) :
  forall (n : nat) (p : Ptr) (check : Z),
    same_bytes m1 m2 p (8 * Z.of_nat n) ->
    QuickTexHash_scalar_loop m1 p n check
    = QuickTexHash_scalar_loop m2 p n check.
Proof.
  induction n as [|n IH]; intros p check Hs; [reflexivity|].
  cbn [QuickTexHash_scalar_loop].
  pose proof (same_bytes_load32 m1 m2 p _ 0 Hs) as H0.
  pose proof (same_bytes_load32 m1 m2 p _ 4 Hs) as H4.
  rewrite padd_0 in H0.
  rewrite H0, H4 by lia.
  apply IH.
  replace (8 * Z.of_nat n) with (8 * Z.of_nat (S n) - 8) by lia.
  apply same_bytes_shift; [exact Hs|lia].
Qed.

Lemma QuickTexHash_sse_loop_ext (m1 m2 : Heap) (p : Ptr) :
  forall (n : nat) (i : Z) (cursor : m128i),
    0 <= i ->
    same_bytes m1 m2 p (16 * (i + 2 * Z.of_nat n)) ->
    QuickTexHash_sse_loop m1 p n i cursor
    = QuickTexHash_sse_loop m2 p n i cursor.
Proof.
  induction n as [|n IH]; intros i cursor Hi Hs; [reflexivity|].
  cbn [QuickTexHash_sse_loop].
  rewrite (same_bytes_load_si128 m1 m2 p _ (16 * i) Hs),
          (same_bytes_load_si128 m1 m2 p _ (16 * (i + 1)) Hs) by lia.
  apply IH; [lia|].
  replace (16 * (i + 2 + 2 * Z.of_nat n))
    with (16 * (i + 2 * Z.of_nat (S n))) by lia.
  exact Hs.
Qed.

Lemma QuickClutHash_scalar_loop_ext (m1 m2 : Heap) :
  forall (n : nat) (p : Ptr) (hash : Z),
    same_bytes m1 m2 p (4 * Z.of_nat n) ->
    QuickClutHash_scalar_loop m1 p n hash
    = QuickClutHash_scalar_loop m2 p n hash.
Proof.
  induction n as [|n IH]; intros p hash Hs; [reflexivity|].
  cbn [QuickClutHash_scalar_loop].
  pose proof (same_bytes_load32 m1 m2 p _ 0 Hs) as H0.
  rewrite padd_0 in H0. rewrite H0 by lia.
  apply IH.
  replace (4 * Z.of_nat n) with (4 * Z.of_nat (S n) - 4) by lia.
  apply same_bytes_shift; [exact Hs|lia].
Qed.

Lemma QuickClutHash_sse_loop_ext (m1 m2 : Heap) (p : Ptr) :
  forall (n : nat) (i : Z) (cursor : m128i),
    0 <= i ->
    same_bytes m1 m2 p (16 * (i + Z.of_nat n)) ->
    QuickClutHash_sse_loop m1 p n i cursor
    = QuickClutHash_sse_loop m2 p n i cursor.
Proof.
  induction n as [|n IH]; intros i cursor Hi Hs; [reflexivity|].
  cbn [QuickClutHash_sse_loop].
  rewrite (same_bytes_load_si128 m1 m2 p _ (16 * i) Hs) by lia.
  apply IH; [lia|].
  replace (16 * (i + 1 + Z.of_nat n))
    with (16 * (i + Z.of_nat (S n))) by lia.
  exact Hs.
Qed.

Lemma same_bytes_weaken (m1 m2 : Heap) (p : Ptr) (n n' : Z) :
  same_bytes m1 m2 p n -> n' <= n -> same_bytes m1 m2 p n'.
Proof. intros Hs Hle i Hi. apply Hs. lia. Qed.

Lemma land_lor_mask_0 (a s k : Z) :
  Z.land (Z.lor a s) k = 0 -> Z.land s k = 0.
Proof.
  rewrite Z.land_lor_distr_l. intros H.
  apply Z.lor_eq_0_iff in H. tauto.
Qed.

Lemma land_31_mod (s : Z) : Z.land s 0x1f = 0 -> s mod 32 = 0.
Proof.
  change 0x1f with (Z.ones 5). rewrite Z.land_ones by lia. auto.
Qed.

(** C4, amended.  The digest of either hasher is determined by the bytes
    of the hashed region: for one address, size and build, two memories
    that hold the same bytes in the region give the same [QuickTexHash],
    and for one palette pointer and a byte count that is a multiple of 32,
    the same [QuickClutHash].  Which implementation runs depends only on
    the build and on the alignment of the pointer and the size, so the
    digest of a region does not change between calls. *)
Theorem quick_hashes_depend_on_region_only `{P : Platform} (m1 m2 : Heap)
    (addr bufw w h format : Z) (clut : Ptr) (bytes : Z) :
  same_bytes m1 m2 (Memory_GetPointer addr)
    (u32 (Z.quot (bitsPerPixel_at format * bufw * h) 8)) ->
  0 <= bytes -> Z.land bytes 31 = 0 ->
  same_bytes m1 m2 clut bytes ->
  QuickTexHash m1 addr bufw w h format = QuickTexHash m2 addr bufw w h format
  /\ QuickClutHash m1 clut bytes = QuickClutHash m2 clut bytes.
Proof.
  intros Htex Hb Hb32 Hclut.
  split.
  - unfold QuickTexHash.
    set (size := u32 (Z.quot (bitsPerPixel_at format * bufw * h) 8)) in *.
    assert (Hsize : 0 <= size) by (apply u32_range).
    destruct (M_SSE && _) eqn:Hpath.
    + apply andb_true_iff in Hpath. destruct Hpath as [_ Hal].
      apply Z.eqb_eq in Hal. apply land_lor_mask_0, land_31_mod in Hal.
      unfold QuickTexHash_sse.
      rewrite (QuickTexHash_sse_loop_ext m1 m2 (Memory_GetPointer addr)
                 (Z.to_nat ((size / 16 + 1) / 2)) 0); [reflexivity|lia|].
      eapply same_bytes_weaken; [exact Htex|].
      rewrite Z2Nat.id by (apply Z.div_pos; [|lia];
                           pose proof (Z.div_pos size 16); lia).
      apply Z.mod_divide in Hal; [|lia].
      destruct Hal as [q ->].
      replace (q * 32 / 16) with (2 * q)
        by (replace (q * 32) with (2 * q * 16) by lia;
            now rewrite Z.div_mul).
      replace ((2 * q + 1) / 2) with q
        by (apply Z.div_unique with (r := 1); lia).
      lia.
    + unfold QuickTexHash_scalar.
      apply QuickTexHash_scalar_loop_ext.
      eapply same_bytes_weaken; [exact Htex|].
      rewrite Z2Nat.id by (apply Z.div_pos; lia).
      pose proof (Z.mul_div_le size 8). lia.
  - apply land_31_mod in Hb32.
    apply Z.mod_divide in Hb32; [|lia]. destruct Hb32 as [q ->].
    assert (Hq : 0 <= q) by lia.
    unfold QuickClutHash.
    destruct (M_SSE && _).
    + unfold QuickClutHash_sse.
      rewrite (QuickClutHash_sse_loop_ext m1 m2 clut
                 (Z.to_nat (q * 32 / 16)) 0); [reflexivity|lia|].
      eapply same_bytes_weaken; [exact Hclut|].
      replace (q * 32 / 16) with (2 * q)
        by (replace (q * 32) with (2 * q * 16) by lia;
            now rewrite Z.div_mul).
      rewrite Z2Nat.id by lia. lia.
    + unfold QuickClutHash_scalar.
      apply QuickClutHash_scalar_loop_ext.
      eapply same_bytes_weaken; [exact Hclut|].
      replace ((q * 32 + 3) / 4) with (8 * q)
        by (apply Z.div_unique with (r := 3); lia).
      rewrite Z2Nat.id by lia. lia.
Qed.

Lemma quick_hashes_depend_on_region_only_witness :
  same_bytes two_ones_heap two_ones_heap'
    (@Memory_GetPointer (example_platform true) 0x08900000)
    (u32 (Z.quot (bitsPerPixel_at GE_TFMT_8888 * 2 * 4) 8))
  /\ 0 <= 64
  /\ Z.land 64 31 = 0
  /\ same_bytes two_ones_heap two_ones_heap' (mkPtr ClutBufRaw 64) 64
  /\ @QuickTexHash (example_platform true) two_ones_heap 0x08900000 2 2 4
       GE_TFMT_8888
     = @QuickTexHash (example_platform true) two_ones_heap' 0x08900000 2 2 4
         GE_TFMT_8888
  /\ @QuickClutHash (example_platform true) two_ones_heap
       (mkPtr ClutBufRaw 64) 64
     = @QuickClutHash (example_platform true) two_ones_heap'
         (mkPtr ClutBufRaw 64) 64.
Proof.
  assert (H1 : same_bytes two_ones_heap two_ones_heap'
                 (@Memory_GetPointer (example_platform true) 0x08900000)
                 (u32 (Z.quot (bitsPerPixel_at GE_TFMT_8888 * 2 * 4) 8))).
  { intros i Hi. change (u32 _) with 32 in Hi.
    unfold load8, two_ones_heap', padd, Memory_GetPointer.
    cbn [blk ofs GetPointer example_platform].
    destruct (Z.eqb_spec (143654912 + i) 5); [lia|reflexivity]. }
  assert (H2 : 0 <= 64) by lia.
  assert (H3 : Z.land 64 31 = 0) by reflexivity.
  assert (H4 : same_bytes two_ones_heap two_ones_heap' (mkPtr ClutBufRaw 64) 64).
  { intros i Hi. unfold load8, two_ones_heap', padd.
    cbn [blk ofs].
    destruct (Z.eqb_spec (64 + i) 5); [lia|reflexivity]. }
  split; [exact H1|]. split; [exact H2|]. split; [exact H3|].
  split; [exact H4|].
  exact (@quick_hashes_depend_on_region_only (example_platform true)
           two_ones_heap two_ones_heap' 0x08900000 2 2 4 GE_TFMT_8888
           (mkPtr ClutBufRaw 64) 64 H1 H2 H3 H4).
Defined.

(** ** CLUT4: the palette scan and the two de-indexing loops *)

Lemma clutAlphaLinear_scan_true (m : Heap) (clut : Ptr) (color : Z) :
  forall (n : nat) (i0 : Z),
    clutAlphaLinear_scan m clut color n i0 = true ->
    forall i, i0 <= i < i0 + Z.of_nat n ->
      Z.land (load16 m (padd clut (2 * i))) 0xf = i
      /\ (i <> 0 -> Z.land (load16 m (padd clut (2 * i))) 0xFFF0 = color).
Proof.
  induction n as [|n IH]; intros i0 Hscan i Hi; [lia|].
  cbn [clutAlphaLinear_scan] in Hscan.
  destruct (Z.land (load16 m (padd clut (2 * i0))) 0xf =? i0) eqn:Hlow;
    [|discriminate].
  cbn [negb] in Hscan.
  destruct (negb (i0 =? 0)
            && negb (Z.land (load16 m (padd clut (2 * i0))) 0xFFF0 =? color))
    eqn:Hhigh; [discriminate|].
  destruct (Z.eq_dec i i0) as [->|Hne].
  - apply Z.eqb_eq in Hlow. split; [exact Hlow|].
    intros Hnz.
    apply andb_false_iff in Hhigh. destruct Hhigh as [H|H].
    + apply negb_false_iff, Z.eqb_eq in H. contradiction.
    + now apply negb_false_iff, Z.eqb_eq in H.
  - apply (IH (i0 + 1)); [exact Hscan|lia].
Qed.

Lemma nibble_shift (m m' : Heap) (indexed : Ptr) (k : Z) :
  (forall q, blk q = blk indexed -> load8 m' q = load8 m q) ->
  nibble m' (padd indexed 1) k = nibble m indexed (k + 2).
Proof.
  intros Hsame. unfold nibble.
  rewrite padd_padd.
  replace ((k + 2) / 2) with (1 + k / 2) by (Z.div_mod_to_equations; lia).
  replace ((k + 2) mod 2) with (k mod 2) by (Z.div_mod_to_equations; lia).
  now rewrite Hsame.
Qed.

(** The slow loop on 16-bit colours: memory outside the destination block
    is untouched, pixels outside the written range keep their value, and
    written pixel [j] is the palette entry of its transformed nibble. *)
Lemma DeIndexTexture4_loop_u16 (f : Z -> Z) (dest clut : Ptr) :
  blk dest <> blk clut ->
  forall (n : nat) (m0 : Heap) (indexed : Ptr) (i : Z),
    blk dest <> blk indexed ->
    let m' := DeIndexTexture4_loop ClutT_u16 f m0 dest indexed clut n i in
    (forall q, blk q <> blk dest -> load8 m' q = load8 m0 q)
    /\ (forall j, j < i \/ i + 2 * Z.of_nat n <= j ->
                  pixel16 m' dest j = pixel16 m0 dest j)
    /\ (forall j, i <= j < i + 2 * Z.of_nat n ->
                  pixel16 m' dest j
                  = load16 m0 (padd clut (2 * f (nibble m0 indexed (j - i))))).
Proof.
  intros Hclut.
  induction n as [|n IH]; intros m0 indexed i Hidx m'.
  - subst m'. cbn [DeIndexTexture4_loop].
    repeat split; auto. intros j Hj. lia.
  - subst m'. cbn [DeIndexTexture4_loop storeT loadT atT sizeofT].
    set (index := load8 m0 indexed).
    set (v0 := load16 m0 (padd clut (2 * f (Z.land (Z.shiftr index 0) 0xf)))).
    set (m1 := store16 m0 (padd dest (2 * (i + 0))) v0).
    set (v1 := load16 m1 (padd clut (2 * f (Z.land (Z.shiftr index 4) 0xf)))).
    set (m2 := store16 m1 (padd dest (2 * (i + 1))) v1).
    assert (Hframe : forall q, blk q <> blk dest -> load8 m2 q = load8 m0 q).
    { intros q Hq. unfold m2, m1.
      rewrite !load8_store16_other by (left; exact Hq). reflexivity. }
    assert (Hv1 : v1 = load16 m0
                         (padd clut (2 * f (Z.land (Z.shiftr index 4) 0xf)))).
    { unfold v1, m1. apply load16_store16_other. left. cbn [blk padd]. auto. }
    assert (Hv0r : 0 <= v0 < 65536) by apply load16_range.
    assert (Hv1r : 0 <= v1 < 65536) by apply load16_range.
    destruct (IH m2 (padd indexed 1) (i + 2)) as (IHa & IHb & IHc);
      [exact Hidx|].
    split; [|split].
    + intros q Hq. rewrite IHa by exact Hq. apply Hframe, Hq.
    + intros j Hj. rewrite IHb by lia.
      unfold pixel16, m2, m1.
      rewrite !load16_store16_other; [reflexivity| |];
        right; cbn [ofs padd]; lia.
    + intros j Hj.
      destruct (Z.eq_dec j i) as [->|Hne0];
        [|destruct (Z.eq_dec j (i + 1)) as [->|Hne1]].
      * rewrite IHb by lia. unfold pixel16, m2.
        rewrite load16_store16_other by (right; cbn [ofs padd]; lia).
        unfold m1. replace (2 * (i + 0)) with (2 * i) by lia.
        rewrite load16_store16_same.
        unfold u16. rewrite Z.mod_small by exact Hv0r.
        unfold v0, nibble, index.
        replace (i - i) with 0 by lia.
        change (0 / 2) with 0. change (0 mod 2) with 0.
        now rewrite padd_0.
      * rewrite IHb by lia. unfold pixel16, m2.
        rewrite load16_store16_same.
        unfold u16. rewrite Z.mod_small by exact Hv1r.
        rewrite Hv1. unfold nibble, index.
        replace (i + 1 - i) with 1 by lia.
        change (1 / 2) with 0. change (1 mod 2) with 1.
        now rewrite padd_0.
      * rewrite IHc by lia.
        rewrite (nibble_shift m0 m2 indexed (j - (i + 2))).
        2:{ intros q Hq. apply Hframe. congruence. }
        replace (j - (i + 2) + 2) with (j - i) by lia.
        unfold load16.
        rewrite !Hframe by (cbn [blk padd]; auto). reflexivity.
Qed.

Lemma nibble_shift2 (m m' : Heap) (indexed : Ptr) (k : Z) :
  (forall q, blk q = blk indexed -> load8 m' q = load8 m q) ->
  nibble m' (padd indexed 2) k = nibble m indexed (k + 4).
Proof.
  intros Hsame. unfold nibble.
  rewrite padd_padd.
  replace ((k + 4) / 2) with (2 + k / 2) by (Z.div_mod_to_equations; lia).
  replace ((k + 4) mod 2) with (k mod 2) by (Z.div_mod_to_equations; lia).
  now rewrite Hsame.
Qed.

(** The four nibbles of the 16-bit index word read by the fast path are
    the nibbles of its two bytes. *)
Lemma index16_nibbles (m : Heap) (indexed : Ptr) :
  let index := load16 m indexed in
  index mod 16 = nibble m indexed 0
  /\ (index / 16) mod 16 = nibble m indexed 1
  /\ (index / 256) mod 16 = nibble m indexed 2
  /\ (index / 4096) mod 16 = nibble m indexed 3.
Proof.
  unfold nibble, load16.
  change (0 / 2) with 0. change (1 / 2) with 0.
  change (2 / 2) with 1. change (3 / 2) with 1.
  change (0 mod 2) with 0. change (1 mod 2) with 1.
  change (2 mod 2) with 0. change (3 mod 2) with 1.
  rewrite padd_0.
  pose proof (load8_range m indexed) as H0.
  pose proof (load8_range m (padd indexed 1)) as H1.
  set (b0 := load8 m indexed) in *. set (b1 := load8 m (padd indexed 1)) in *.
  rewrite !land_0xf, !Z.shiftr_div_pow2 by lia.
  change (2 ^ (4 * 0)) with 1. change (2 ^ (4 * 1)) with 16.
  rewrite !Z.div_1_r.
  repeat split; Z.div_mod_to_equations; lia.
Qed.

Lemma nibble_range (m : Heap) (indexed : Ptr) (k : Z) :
  0 <= nibble m indexed k < 16.
Proof.
  unfold nibble. rewrite land_0xf. apply Z.mod_pos_bound. lia.
Qed.

(** The two words the fast path stores for one index word. *)
Lemma optimal_words (m : Heap) (indexed : Ptr) (color : Z) :
  0 <= color < 65536 ->
  let index := load16 m indexed in
  let color32 := u32 (Z.lor (Z.shiftl color 16) color) in
  let W0 := Z.lor (Z.lor color32 (Z.shiftl (Z.land index 0x00f0) 12))
                  (Z.shiftr (Z.land index 0x000f) 0) in
  let W1 := Z.lor (Z.lor color32 (Z.shiftl (Z.land index 0xf000) 4))
                  (Z.shiftr (Z.land index 0x0f00) 8) in
  u16 W0 = Z.lor color (nibble m indexed 0)
  /\ u16 (W0 / 65536) = Z.lor color (nibble m indexed 1)
  /\ u16 W1 = Z.lor color (nibble m indexed 2)
  /\ u16 (W1 / 65536) = Z.lor color (nibble m indexed 3).
Proof.
  intros Hc index color32 W0 W1.
  destruct (index16_nibbles m indexed) as (N0 & N1 & N2 & N3).
  fold index in N0, N1, N2, N3.
  pose proof (nibble_range m indexed 0). pose proof (nibble_range m indexed 1).
  pose proof (nibble_range m indexed 2). pose proof (nibble_range m indexed 3).
  assert (E0 : W0 = Z.lor (Z.lor color32 (nibble m indexed 1 * 65536))
                          (nibble m indexed 0)).
  { unfold W0. rewrite land_0xf0, land_0xf, Z.shiftr_0_r.
    rewrite Z.shiftl_mul_pow2 by lia. change (2 ^ 12) with 4096.
    rewrite N0, N1. f_equal. f_equal. lia. }
  assert (E1 : W1 = Z.lor (Z.lor color32 (nibble m indexed 3 * 65536))
                          (nibble m indexed 2)).
  { unfold W1. rewrite land_0xf000, land_0x0f00.
    rewrite Z.shiftl_mul_pow2, Z.shiftr_div_pow2 by lia.
    change (2 ^ 4) with 16. change (2 ^ 8) with 256.
    rewrite Z.div_mul by lia.
    rewrite N2, N3. f_equal. f_equal. lia. }
  rewrite E0, E1.
  destruct (optimal_word color (nibble m indexed 1) (nibble m indexed 0))
    as [A0 A1]; auto.
  destruct (optimal_word color (nibble m indexed 3) (nibble m indexed 2))
    as [A2 A3]; auto.
Qed.

(** The fast loop of the [u16] specialisation: memory outside the
    destination block is untouched, pixels outside the written range keep
    their value, and written pixel [j] is [color | nibble]. *)
Lemma DeIndexTexture4Optimal_u16_loop_spec (color : Z) (dest : Ptr) :
  0 <= color < 65536 ->
  forall (n : nat) (m0 : Heap) (indexed16 : Ptr) (i : Z),
    blk dest <> blk indexed16 ->
    let color32 := u32 (Z.lor (Z.shiftl color 16) color) in
    let m' := DeIndexTexture4Optimal_u16_loop m0 dest indexed16 color32 n i in
    (forall q, blk q <> blk dest -> load8 m' q = load8 m0 q)
    /\ (forall j, j < 2 * i \/ 2 * i + 4 * Z.of_nat n <= j ->
                  pixel16 m' dest j = pixel16 m0 dest j)
    /\ (forall j, 2 * i <= j < 2 * i + 4 * Z.of_nat n ->
                  pixel16 m' dest j
                  = Z.lor color (nibble m0 indexed16 (j - 2 * i))).
Proof.
  intros Hc.
  induction n as [|n IH]; intros m0 indexed16 i Hidx color32 m'.
  - subst m'. cbn [DeIndexTexture4Optimal_u16_loop].
    repeat split; auto. intros j Hj. lia.
  - subst m'. cbn [DeIndexTexture4Optimal_u16_loop].
    destruct (optimal_words m0 indexed16 color Hc) as (A0 & A1 & A2 & A3).
    fold color32 in A0, A1, A2, A3.
    set (index := load16 m0 indexed16) in *.
    set (W0 := Z.lor (Z.lor color32 (Z.shiftl (Z.land index 0x00f0) 12))
                     (Z.shiftr (Z.land index 0x000f) 0)) in *.
    set (W1 := Z.lor (Z.lor color32 (Z.shiftl (Z.land index 0xf000) 4))
                     (Z.shiftr (Z.land index 0x0f00) 8)) in *.
    set (m1 := store32 m0 (padd dest (4 * (i + 0))) W0).
    set (m2 := store32 m1 (padd dest (4 * (i + 1))) W1).
    assert (Hframe : forall q, blk q <> blk dest -> load8 m2 q = load8 m0 q).
    { intros q Hq. unfold m2, m1.
      rewrite !load8_store32_other by (left; exact Hq). reflexivity. }
    destruct (IH m2 (padd indexed16 2) (i + 2)) as (IHa & IHb & IHc);
      [exact Hidx|].
    fold color32 in IHa, IHb, IHc.
    split; [|split].
    + intros q Hq. rewrite IHa by exact Hq. apply Hframe, Hq.
    + intros j Hj. rewrite IHb by lia.
      unfold pixel16, m2, m1.
      rewrite !load16_store32_other; [reflexivity| |];
        right; cbn [ofs padd]; lia.
    + intros j Hj.
      assert (Hcase : j = 2 * i \/ j = 2 * i + 1 \/ j = 2 * i + 2
                      \/ j = 2 * i + 3 \/ 2 * i + 4 <= j) by lia.
      destruct Hcase as [->|[->|[->|[->|Hge]]]].
      * rewrite IHb by lia. unfold pixel16, m2.
        rewrite load16_store32_other by (right; cbn [ofs padd]; lia).
        unfold m1. replace (2 * (2 * i)) with (4 * (i + 0)) by lia.
        rewrite load16_store32_low, A0.
        now replace (2 * i - 2 * i) with 0 by lia.
      * rewrite IHb by lia. unfold pixel16, m2.
        rewrite load16_store32_other by (right; cbn [ofs padd]; lia).
        unfold m1.
        replace (padd dest (2 * (2 * i + 1)))
          with (padd (padd dest (4 * (i + 0))) 2)
          by (rewrite padd_padd; f_equal; lia).
        rewrite load16_store32_high, A1.
        now replace (2 * i + 1 - 2 * i) with 1 by lia.
      * rewrite IHb by lia. unfold pixel16, m2.
        replace (2 * (2 * i + 2)) with (4 * (i + 1)) by lia.
        rewrite load16_store32_low, A2.
        now replace (2 * i + 2 - 2 * i) with 2 by lia.
      * rewrite IHb by lia. unfold pixel16, m2.
        replace (padd dest (2 * (2 * i + 3)))
          with (padd (padd dest (4 * (i + 1))) 2)
          by (rewrite padd_padd; f_equal; lia).
        rewrite load16_store32_high, A3.
        now replace (2 * i + 3 - 2 * i) with 3 by lia.
      * rewrite IHc by lia.
        rewrite (nibble_shift2 m0 m2 indexed16 (j - 2 * (i + 2))).
        2:{ intros q Hq. apply Hframe. congruence. }
        now replace (j - 2 * (i + 2) + 4) with (j - 2 * i) by lia.
Qed.

(** What [UpdateCurrentClut] has established when it leaves
    [clutAlphaLinear_] set. *)
Lemma UpdateCurrentClut_detected `{P : Platform} (E : Env) (w0 : World) :
  let w := UpdateCurrentClut E w0 in
  clutAlphaLinear_ (tc w) = true ->
  isClutIndexSimple (gstate E) = true
  /\ clutAlphaLinearColor_ (tc w)
     = Z.land (load16 (heap w) (padd clutBufConverted_ (2 * 15))) 0xFFF0
  /\ clutAlphaLinear_scan (heap w) clutBufConverted_
       (clutAlphaLinearColor_ (tc w)) 16 0 = true.
Proof.
  unfold UpdateCurrentClut.
  destruct (getClutPaletteFormat (gstate E)) eqn:Hfmt;
    destruct (isClutIndexSimple (gstate E)) eqn:Hsimple;
    cbn [GEPaletteFormat_eqb negb andb tc heap set_heap set_tc
         clutAlphaLinear_ clutAlphaLinearColor_ set_clutLastFormat_
         set_clutAlphaLinear_ set_clutAlphaLinearColor_ set_clutBuf_
         set_clutHash_];
    intros Hflag; try discriminate.
  repeat split. exact Hflag.
Qed.

(** C5, amended.  When [UpdateCurrentClut] has detected the alpha-linear
    palette, the fast CLUT4 decode of an even number of pixels writes
    [clutAlphaLinearColor_ | nibble] at every pixel and the slow decode
    writes [clut[nibble]].  The two are equal at every pixel whose index
    nibble is not 0, and they have the same alpha nibble at every pixel;
    at a pixel of index 0 the colour bits of the slow decode are those of
    [clut[0]], which the detection does not compare. *)
Theorem clut4_fast_path_pixels `{P : Platform} (E : Env) (w0 : World)
    (indexed : Ptr) (length i : Z) :
  let w := UpdateCurrentClut E w0 in
  clutAlphaLinear_ (tc w) = true ->
  blk indexed = HostMem \/ blk indexed = TmpTexBuf32 ->
  length mod 2 = 0 -> 0 <= i < length ->
  let n := nibble (heap w) indexed i in
  let fast := pixel16 (clut4_fast w indexed length) tmpTexBuf16_data i in
  let slow :=
    pixel16 (clut4_slow (gstate E) w indexed length) tmpTexBuf16_data i in
  fast = Z.lor (clutAlphaLinearColor_ (tc w)) n
  /\ slow = load16 (heap w) (padd clutBufConverted_ (2 * n))
  /\ (n <> 0 -> fast = slow)
  /\ Z.land fast 0xf = Z.land slow 0xf.
Proof.
  intros w Hflag Hblk Heven Hi n fast slow.
  destruct (UpdateCurrentClut_detected E w0 Hflag) as (Hsimple & Hcolor & Hscan).
  fold w in Hcolor, Hscan.
  set (color := clutAlphaLinearColor_ (tc w)) in *.
  set (m := heap w) in *.
  pose proof (load16_range m (padd clutBufConverted_ (2 * 15))) as Hc15.
  assert (Hcr : 0 <= color < 65536).
  { rewrite Hcolor, land_0xFFF0 by exact Hc15.
    Z.div_mod_to_equations. lia. }
  assert (Hc16 : color = color / 16 * 2 ^ 4).
  { rewrite Hcolor at 1. rewrite Hcolor at 1.
    rewrite land_0xFFF0 by exact Hc15. change (2 ^ 4) with 16.
    rewrite Z.div_mul by lia. reflexivity. }
  assert (Hdest : blk tmpTexBuf16_data <> blk indexed)
    by (destruct Hblk as [-> | ->]; discriminate).
  assert (Hn : 0 <= n < 16) by apply nibble_range.
  (* the fast decode *)
  assert (Hfast : fast = Z.lor color n).
  { unfold fast, clut4_fast, DeIndexTexture4Optimal. fold color m.
    unfold u16. rewrite Z.mod_small by exact Hcr.
    destruct (DeIndexTexture4Optimal_u16_loop_spec color tmpTexBuf16_data Hcr
                (steps2 (Z.quot length 2)) m indexed 0 Hdest) as (_ & _ & Hc).
    rewrite Hc.
    - unfold n. now replace (i - 2 * 0) with i by lia.
    - unfold steps2. rewrite Z2Nat.id.
      + rewrite Z.quot_div_nonneg by lia. Z.div_mod_to_equations. lia.
      + rewrite Z.quot_div_nonneg by lia. Z.div_mod_to_equations. lia. }
  (* the slow decode *)
  assert (Hslow : slow = load16 m (padd clutBufConverted_ (2 * n))).
  { unfold slow, clut4_slow, DeIndexTexture4. fold m. rewrite Hsimple.
    destruct (DeIndexTexture4_loop_u16 (fun index => index) tmpTexBuf16_data
                clutBufConverted_ ltac:(discriminate) (steps2 length) m
                indexed 0 Hdest) as (_ & _ & Hc).
    rewrite Hc.
    - cbv beta. unfold n. now replace (i - 0) with i by lia.
    - unfold steps2. rewrite Z2Nat.id; Z.div_mod_to_equations; lia. }
  destruct (clutAlphaLinear_scan_true m clutBufConverted_ color 16 0 Hscan n)
    as [Hlow Hhigh]; [lia|].
  pose proof (load16_range m (padd clutBufConverted_ (2 * n))) as Hcn.
  split; [exact Hfast|]. split; [exact Hslow|]. split.
  - intros Hnz. rewrite Hfast, Hslow.
    rewrite (clut_entry_split _ Hcn) at 1.
    now rewrite Hhigh, Hlow.
  - rewrite Hfast, Hslow, Hlow.
    rewrite Hc16, (lor_hi_lo 4) by lia.
    rewrite land_0xf. change (2 ^ 4) with 16.
    rewrite Z.add_comm, Z.mod_add by lia. apply Z.mod_small. lia.
Qed.

Lemma clut4_fast_path_pixels_witness :
  let w := @UpdateCurrentClut (example_platform false) font_env font_world in
  let indexed := mkPtr HostMem 0x08900000 in
  clutAlphaLinear_ (tc w) = true
  /\ (blk indexed = HostMem \/ blk indexed = TmpTexBuf32)
  /\ 4 mod 2 = 0
  /\ 0 <= 1 < 4
  /\ let n := nibble (heap w) indexed 1 in
     let fast := pixel16 (clut4_fast w indexed 4) tmpTexBuf16_data 1 in
     let slow :=
       pixel16 (clut4_slow (gstate font_env) w indexed 4) tmpTexBuf16_data 1 in
     fast = Z.lor (clutAlphaLinearColor_ (tc w)) n
     /\ slow = load16 (heap w) (padd clutBufConverted_ (2 * n))
     /\ (n <> 0 -> fast = slow)
     /\ Z.land fast 0xf = Z.land slow 0xf.
Proof.
  intros w indexed.
  assert (H1 : clutAlphaLinear_ (tc w) = true) by (vm_compute; reflexivity).
  assert (H2 : blk indexed = HostMem \/ blk indexed = TmpTexBuf32)
    by (left; reflexivity).
  assert (H3 : 4 mod 2 = 0) by reflexivity.
  assert (H4 : 0 <= 1 < 4) by lia.
  split; [exact H1|]. split; [exact H2|]. split; [exact H3|].
  split; [exact H4|].
  exact (@clut4_fast_path_pixels (example_platform false) font_env font_world
           indexed 4 1 H1 H2 H3 H4).
Defined.

(** C5 as the specification states it fails: with the font palette, whose
    entry 0 is [0x1230] after conversion, pixel 0 (index 0) decodes to
    [0xFFF0] on the fast path and to [0x1230] on the slow path. *)
Lemma clut4_fast_differs_at_index_0 : ~ clut4_fast_equals_slow.
Proof.
  intros H.
  specialize (H (example_platform false) font_env font_world
                (mkPtr HostMem 0x08900000) 4 0).
  cbv zeta in H.
  assert (Hpix : 0xFFF0 = 0x1230).
  { apply H.
    - vm_compute. reflexivity.
    - left. reflexivity.
    - reflexivity.
    - lia. }
  discriminate.
Qed.

Example clut4_font_pixels :
  let w := @UpdateCurrentClut (example_platform false) font_env font_world in
  let indexed := mkPtr HostMem 0x08900000 in
  map (pixel16 (clut4_fast w indexed 4) tmpTexBuf16_data) [0; 1; 2; 3]
  = [0xFFF0; 0xFFFA; 0xFFF0; 0xFFFA]
  /\ map (pixel16 (clut4_slow font_gstate w indexed 4) tmpTexBuf16_data)
       [0; 1; 2; 3]
     = [0x1230; 0xFFFA; 0x1230; 0xFFFA].
Proof. vm_compute. split; reflexivity. Qed.

(** ** DXT1 blocks *)

(** [makecol] packs four bytes; [channels] recovers them. *)
Lemma makecol_value (r g b a : Z) :
  0 <= r <= 255 -> 0 <= g <= 255 -> 0 <= b <= 255 -> 0 <= a <= 255 ->
  makecol r g b a = ((a * 256 + r) * 256 + g) * 256 + b.
Proof.
  intros Hr Hg Hb Ha. unfold makecol.
  replace (Z.shiftl a 24) with (Z.shiftl (Z.shiftl (Z.shiftl a 8) 8) 8)
    by (rewrite !Z.shiftl_shiftl by lia; reflexivity).
  replace (Z.shiftl r 16) with (Z.shiftl (Z.shiftl r 8) 8)
    by (rewrite !Z.shiftl_shiftl by lia; reflexivity).
  rewrite <- !Z.shiftl_lor.
  rewrite !Z.shiftl_mul_pow2 by lia.
  rewrite (lor_hi_lo 8 a r) by lia.
  rewrite (lor_hi_lo 8 _ g) by lia.
  rewrite (lor_hi_lo 8 _ b) by lia.
  change (2 ^ 8) with 256.
  apply u32_small. lia.
Qed.

Lemma channels_makecol (r g b a : Z) :
  0 <= r <= 255 -> 0 <= g <= 255 -> 0 <= b <= 255 -> 0 <= a <= 255 ->
  channels (makecol r g b a) = (r, g, b, a).
Proof.
  intros Hr Hg Hb Ha.
  rewrite makecol_value by assumption.
  unfold channels.
  repeat f_equal; Z.div_mod_to_equations; lia.
Qed.

Lemma dxt1_c3_range (c1 c2 : Z) :
  0 <= c1 <= 255 -> 0 <= c2 <= 255 -> 0 <= dxt1_c3 c1 c2 <= 255.
Proof. intros H1 H2. unfold dxt1_c3. Z.div_mod_to_equations. lia. Qed.

Lemma dxt1_c4_range (c1 c2 : Z) :
  0 <= c1 <= 255 -> 0 <= c2 <= 255 -> 0 <= dxt1_c4 c1 c2 <= 255.
Proof. intros H1 H2. unfold dxt1_c4. Z.div_mod_to_equations. lia. Qed.

Lemma dxt1_average_range (c1 c2 : Z) :
  0 <= c1 <= 255 -> 0 <= c2 <= 255 -> 0 <= dxt1_average c1 c2 <= 255.
Proof. intros H1 H2. unfold dxt1_average. Z.div_mod_to_equations. lia. Qed.

(** The [colors[]] array of the decoder holds the palette of the
    specification. *)
Lemma decodeDXT1Block_colors_spec `{P : Platform} (c1 c2 : Z) :
  (forall v, 0 <= v < 32 -> 0 <= Convert5To8 v <= 255) ->
  (forall v, 0 <= v < 64 -> 0 <= Convert6To8 v <= 255) ->
  map channels (decodeDXT1Block_colors c1 c2 false) = dxt1_palette c1 c2.
Proof.
  intros H5 H6.
  unfold decodeDXT1Block_colors, dxt1_palette, components.
  change 0x1F with (Z.ones 5). change 0x3F with (Z.ones 6).
  rewrite !Z.land_ones, !Z.shiftr_div_pow2 by lia.
  change (2 ^ 5) with 32. change (2 ^ 6) with 64. change (2 ^ 11) with 2048.
  change (2 ^ 1) with 2. change (2 ^ 3) with 8.
  set (r1 := Convert5To8 (c1 mod 32)). set (r2 := Convert5To8 (c2 mod 32)).
  set (g1 := Convert6To8 (c1 / 32 mod 64)).
  set (g2 := Convert6To8 (c2 / 32 mod 64)).
  set (b1 := Convert5To8 (c1 / 2048 mod 32)).
  set (b2 := Convert5To8 (c2 / 2048 mod 32)).
  assert (Hr1 : 0 <= r1 <= 255) by (apply H5, Z.mod_pos_bound; lia).
  assert (Hr2 : 0 <= r2 <= 255) by (apply H5, Z.mod_pos_bound; lia).
  assert (Hg1 : 0 <= g1 <= 255) by (apply H6, Z.mod_pos_bound; lia).
  assert (Hg2 : 0 <= g2 <= 255) by (apply H6, Z.mod_pos_bound; lia).
  assert (Hb1 : 0 <= b1 <= 255) by (apply H5, Z.mod_pos_bound; lia).
  assert (Hb2 : 0 <= b2 <= 255) by (apply H5, Z.mod_pos_bound; lia).
  rewrite orb_false_r.
  destruct (c2 <? c1); cbn [map].
  - fold (dxt1_c3 r1 r2) (dxt1_c3 g1 g2) (dxt1_c3 b1 b2).
    replace (r2 - ((r2 - r1) / 2 - (r2 - r1) / 8)) with (dxt1_c4 r1 r2)
      by reflexivity.
    replace (g2 - ((g2 - g1) / 2 - (g2 - g1) / 8)) with (dxt1_c4 g1 g2)
      by reflexivity.
    replace (b2 - ((b2 - b1) / 2 - (b2 - b1) / 8)) with (dxt1_c4 b1 b2)
      by reflexivity.
    rewrite !channels_makecol;
      auto using dxt1_c3_range, dxt1_c4_range; lia.
  - rewrite !Z.quot_div_nonneg by lia.
    fold (dxt1_average r1 r2) (dxt1_average g1 g2) (dxt1_average b1 b2).
    rewrite !channels_makecol; auto using dxt1_average_range; lia.
Qed.

Lemma land_3 (x : Z) : Z.land x 3 = x mod 4.
Proof. change 3 with (Z.ones 2). now rewrite Z.land_ones by lia. Qed.

Lemma shiftr_texel_index (line x : Z) :
  0 <= x -> Z.land (Z.shiftr line (2 * x)) 3 = texel_index line x.
Proof.
  intros Hx. unfold texel_index.
  rewrite land_3, Z.shiftr_div_pow2 by lia.
  now rewrite Z.pow_mul_r by lia.
Qed.

(** One row of the block: four stores at [dst[0..3]]. *)
Lemma decodeDXT1Block_row_spec (colors : list Z) (m : Heap) (dst : Ptr)
    (val : Z) :
  let m' := decodeDXT1Block_row colors m dst val 4 0 in
  (forall q, blk q <> blk dst -> load8 m' q = load8 m q)
  /\ (forall q, ofs q + 4 <= ofs dst \/ ofs dst + 16 <= ofs q ->
                load32 m' q = load32 m q)
  /\ (forall x, 0 <= x < 4 ->
                load32 m' (padd dst (4 * x))
                = u32 (nth (Z.to_nat (texel_index val x)) colors 0)).
Proof.
  cbn [decodeDXT1Block_row].
  rewrite !Z.shiftr_shiftr by lia.
  split; [|split].
  - intros q Hq.
    rewrite !load8_store32_other by (left; cbn [blk padd]; exact Hq).
    reflexivity.
  - intros q Hq.
    rewrite !load32_store32_other by (right; cbn [ofs padd]; lia).
    reflexivity.
  - intros x Hx.
    assert (Hcase : x = 0 \/ x = 1 \/ x = 2 \/ x = 3) by lia.
    destruct Hcase as [-> | [-> | [-> | ->]]];
      rewrite <- shiftr_texel_index by lia;
      change (0 + 1) with 1; change (1 + 1) with 2; change (2 + 1) with 3;
      change (2 + 2) with 4; change (4 + 2) with 6;
      change (2 * 0) with 0; change (2 * 1) with 2; change (2 * 2) with 4;
      change (2 * 3) with 6; rewrite ?Z.shiftr_0_r;
      repeat (rewrite load32_store32_other by (right; cbn [ofs padd]; lia));
      apply load32_store32_same.
Qed.

(** The rows of the block, [pitch] words apart. *)
Lemma decodeDXT1Block_rows_spec (colors : list Z) (src : Ptr) (pitch : Z) :
  4 <= pitch ->
  forall (n : nat) (m : Heap) (dst : Ptr) (y0 : Z),
    blk dst <> blk src ->
    let m' := decodeDXT1Block_rows colors m dst src pitch n y0 in
    (forall q, blk q <> blk dst -> load8 m' q = load8 m q)
    /\ (forall q, ofs q + 4 <= ofs dst -> load32 m' q = load32 m q)
    /\ (forall k x, 0 <= k < Z.of_nat n -> 0 <= x < 4 ->
          load32 m' (padd dst (4 * (k * pitch + x)))
          = u32 (nth (Z.to_nat
                        (texel_index (load8 m (DXT1Block_lines src (y0 + k))) x))
                     colors 0)).
Proof.
  intros Hpitch.
  induction n as [|n IH]; intros m dst y0 Hblk m'.
  - subst m'. cbn [decodeDXT1Block_rows]. repeat split; auto.
    intros k x Hk. lia.
  - subst m'. cbn [decodeDXT1Block_rows].
    set (val := load8 m (DXT1Block_lines src y0)).
    destruct (decodeDXT1Block_row_spec colors m dst val) as (Ra & Rb & Rc).
    set (m1 := decodeDXT1Block_row colors m dst val 4 0) in *.
    destruct (IH m1 (padd dst (4 * pitch)) (y0 + 1)) as (IHa & IHb & IHc);
      [exact Hblk|].
    split; [|split].
    + intros q Hq. rewrite IHa by exact Hq. now apply Ra.
    + intros q Hq. rewrite IHb by (cbn [ofs padd]; lia).
      apply Rb. lia.
    + intros k x Hk Hx.
      destruct (Z.eq_dec k 0) as [->|Hk0].
      * rewrite IHb by (cbn [ofs padd]; lia).
        replace (4 * (0 * pitch + x)) with (4 * x) by lia.
        rewrite Rc by exact Hx.
        unfold val. now rewrite Z.add_0_r.
      * replace (padd dst (4 * (k * pitch + x)))
          with (padd (padd dst (4 * pitch)) (4 * ((k - 1) * pitch + x)))
          by (rewrite padd_padd; f_equal; lia).
        rewrite IHc by lia.
        unfold DXT1Block_lines.
        rewrite Ra by (cbn [blk padd]; auto).
        replace (y0 + 1 + (k - 1)) with (y0 + k) by lia. reflexivity.
Qed.

Lemma decodeDXT1Block_colors_range `{P : Platform} (c1 c2 : Z) (b : bool)
    (k : nat) :
  0 <= nth k (decodeDXT1Block_colors c1 c2 b) 0 < 4294967296.
Proof.
  unfold decodeDXT1Block_colors.
  destruct ((c2 <? c1) || b);
    do 4 (destruct k as [|k]; [apply u32_range|]);
    destruct k; simpl; lia.
Qed.

(** C6.  For every DXT1 block whose destination rows are at least four
    pixels apart and lie outside the block's own memory, texel [(x, y)] of
    the decoded block is entry [texel_index lines[y] x] of the palette of
    the specification: with [c1 > c2] the entries are [c1], [c2],
    [c1 + ((c2 - c1)/2 - (c2 - c1)/8)] and [c2 - ((c2 - c1)/2 - (c2 - c1)/8)]
    componentwise, all with alpha 255; otherwise [c1], [c2],
    [(c1 + c2 + 1)/2] componentwise with alpha 255, and [c2] with alpha 0.
    The divisions round down, as the arithmetic shifts of the source do. *)
Theorem decodeDXT1Block_texels `{P : Platform} (m : Heap) (dst src : Ptr)
    (pitch x y : Z) :
  (forall v, 0 <= v < 32 -> 0 <= Convert5To8 v <= 255) ->
  (forall v, 0 <= v < 64 -> 0 <= Convert6To8 v <= 255) ->
  blk dst <> blk src -> 4 <= pitch ->
  0 <= x < 4 -> 0 <= y < 4 ->
  let c1 := load16 m (DXT1Block_color1 src) in
  let c2 := load16 m (DXT1Block_color2 src) in
  let line := load8 m (DXT1Block_lines src y) in
  channels (load32 (decodeDXT1Block m dst src pitch false)
              (padd dst (4 * (y * pitch + x))))
  = nth (Z.to_nat (texel_index line x)) (dxt1_palette c1 c2) (0, 0, 0, 0).
Proof.
  intros H5 H6 Hblk Hpitch Hx Hy c1 c2 line.
  unfold decodeDXT1Block. fold c1 c2.
  destruct (decodeDXT1Block_rows_spec (decodeDXT1Block_colors c1 c2 false)
              src pitch Hpitch 4 m dst 0 Hblk) as (_ & _ & Hrows).
  rewrite Hrows by (simpl; lia).
  rewrite Z.add_0_l. fold line.
  rewrite u32_small by apply decodeDXT1Block_colors_range.
  rewrite <- (decodeDXT1Block_colors_spec c1 c2 H5 H6).
  change (0, 0, 0, 0) with (channels 0).
  now rewrite map_nth.
Qed.

Lemma example_Convert5To8_range (v : Z) :
  0 <= v < 32 -> 0 <= @Convert5To8 (example_platform false) v <= 255.
Proof.
  intros Hv. cbn [Convert5To8 example_platform].
  rewrite Z.shiftl_mul_pow2, Z.shiftr_div_pow2 by lia.
  change (2 ^ 3) with 8. change (2 ^ 2) with 4.
  assert (H : 0 <= Z.lor (v * 8) (v / 4) < 2 ^ 8).
  { apply lor_range; [lia| |]; change (2 ^ 8) with 256;
      Z.div_mod_to_equations; lia. }
  change (2 ^ 8) with 256 in H. lia.
Qed.

Lemma example_Convert6To8_range (v : Z) :
  0 <= v < 64 -> 0 <= @Convert6To8 (example_platform false) v <= 255.
Proof.
  intros Hv. cbn [Convert6To8 example_platform].
  rewrite Z.shiftl_mul_pow2, Z.shiftr_div_pow2 by lia.
  change (2 ^ 2) with 4. change (2 ^ 4) with 16.
  assert (H : 0 <= Z.lor (v * 4) (v / 16) < 2 ^ 8).
  { apply lor_range; [lia| |]; change (2 ^ 8) with 256;
      Z.div_mod_to_equations; lia. }
  change (2 ^ 8) with 256 in H. lia.
Qed.

Lemma decodeDXT1Block_texels_witness :
  (forall v, 0 <= v < 32 ->
             0 <= @Convert5To8 (example_platform false) v <= 255)
  /\ (forall v, 0 <= v < 64 ->
                0 <= @Convert6To8 (example_platform false) v <= 255)
  /\ blk tmpTexBuf32_data <> blk (mkPtr HostMem 0)
  /\ 4 <= 64 /\ 0 <= 2 < 4 /\ 0 <= 1 < 4
  /\ channels
       (load32 (@decodeDXT1Block (example_platform false) dxt1_heap
                  tmpTexBuf32_data (mkPtr HostMem 0) 64 false)
          (padd tmpTexBuf32_data (4 * (1 * 64 + 2))))
     = nth (Z.to_nat
              (texel_index
                 (load8 dxt1_heap (DXT1Block_lines (mkPtr HostMem 0) 1)) 2))
         (@dxt1_palette (example_platform false)
            (load16 dxt1_heap (DXT1Block_color1 (mkPtr HostMem 0)))
            (load16 dxt1_heap (DXT1Block_color2 (mkPtr HostMem 0))))
         (0, 0, 0, 0).
Proof.
  assert (H1 : blk tmpTexBuf32_data <> blk (mkPtr HostMem 0)) by discriminate.
  assert (H2 : 4 <= 64) by lia.
  assert (H3 : 0 <= 2 < 4) by lia.
  assert (H4 : 0 <= 1 < 4) by lia.
  split; [exact example_Convert5To8_range|].
  split; [exact example_Convert6To8_range|].
  split; [exact H1|]. split; [exact H2|]. split; [exact H3|].
  split; [exact H4|].
  exact (@decodeDXT1Block_texels (example_platform false) dxt1_heap
           tmpTexBuf32_data (mkPtr HostMem 0) 64 2 1
           example_Convert5To8_range example_Convert6To8_range H1 H2 H3 H4).
Defined.

(** The block of [dxt1_heap] has [color1 = 0xF800 > color2 = 0x001F]: its
    first row decodes to the four palette entries in order. *)
Example decodeDXT1Block_first_row :
  let m' := @decodeDXT1Block (example_platform false) dxt1_heap
              tmpTexBuf32_data (mkPtr HostMem 0) 4 false in
  map (fun x => channels (load32 m' (padd tmpTexBuf32_data (4 * x))))
      [0; 1; 2; 3]
  = [(0, 0, 255, 255); (255, 0, 0, 255); (96, 0, 159, 255); (159, 0, 96, 255)].
Proof. vm_compute. reflexivity. Qed.

(** ** [RoundUpToPowerOf2] *)

Lemma smeared_step (m y k : Z) :
  0 < m -> smeared m y k -> smeared (2 * m) (Z.lor y (Z.shiftr y m)) k.
Proof.
  intros Hm [Hhi Hlo]. split.
  - intros i Hi. rewrite Z.lor_spec.
    destruct (Z.ltb_spec i 0) as [Hneg|Hpos].
    + now rewrite !Z.testbit_neg_r.
    + rewrite Z.shiftr_spec by lia.
      rewrite (Hhi i) by lia. rewrite (Hhi (i + m)) by lia. reflexivity.
  - intros i Hi Hk. rewrite Z.lor_spec, Z.shiftr_spec by lia.
    destruct (Z.ltb_spec (k - m) i) as [Hnear|Hfar].
    + rewrite (Hlo i) by lia. reflexivity.
    + rewrite (Hlo (i + m)) by lia. apply orb_true_r.
Qed.

Lemma smeared_ones (m y k : Z) :
  0 <= k < m -> smeared m y k -> y = Z.ones (k + 1).
Proof.
  intros Hk [Hhi Hlo]. apply Z.bits_inj'. intros i Hi.
  destruct (Z.ltb_spec k i) as [Habove|Hbelow].
  - rewrite Hhi by lia. rewrite Z.ones_spec_high by lia. reflexivity.
  - rewrite Hlo by lia. rewrite Z.ones_spec_low by lia. reflexivity.
Qed.

Lemma smear_log2 (x : Z) :
  0 < x < 4294967296 ->
  let v := x in
  let v := Z.lor v (Z.shiftr v 1) in
  let v := Z.lor v (Z.shiftr v 2) in
  let v := Z.lor v (Z.shiftr v 4) in
  let v := Z.lor v (Z.shiftr v 8) in
  let v := Z.lor v (Z.shiftr v 16) in
  v = 2 ^ (Z.log2 x + 1) - 1.
Proof.
  intros Hx. cbv zeta.
  assert (Hlog : 0 <= Z.log2 x < 32).
  { split; [apply Z.log2_nonneg|].
    apply Z.log2_lt_pow2; [lia|]. change (2 ^ 32) with 4294967296. lia. }
  assert (H1 : smeared 1 x (Z.log2 x)).
  { split.
    - intros i Hi. apply Z.bits_above_log2; lia.
    - intros i Hi Hk. replace i with (Z.log2 x) by lia.
      apply Z.bit_log2. lia. }
  apply smeared_step in H1; [|lia].
  apply smeared_step in H1; [|lia].
  apply smeared_step in H1; [|lia].
  apply smeared_step in H1; [|lia].
  apply smeared_step in H1; [|lia].
  apply smeared_ones in H1; [|lia].
  rewrite Z.ones_equiv in H1. cbn [Z.mul Pos.mul] in H1.
  rewrite H1. lia.
Qed.

(** X1.  For [1 <= v <= 2^31], [RoundUpToPowerOf2(v)] is the least power
    of two that is not below [v]: it is [2^k] with [2^k / 2 < v <= 2^k]. *)
Theorem RoundUpToPowerOf2_least (v : Z) :
  1 <= v <= 2147483648 ->
  exists k, 0 <= k <= 31
    /\ RoundUpToPowerOf2 v = 2 ^ k /\ v <= 2 ^ k /\ 2 ^ k < 2 * v.
Proof.
  intros Hv. unfold RoundUpToPowerOf2.
  rewrite (u32_small (v - 1)) by lia.
  destruct (Z.eq_dec v 1) as [->|Hne].
  - exists 0. cbn. repeat split; lia.
  - pose proof (smear_log2 (v - 1)) as Hs. cbv zeta in Hs.
    rewrite Hs by lia. clear Hs.
    assert (Hlog : 0 <= Z.log2 (v - 1) < 31).
    { split; [apply Z.log2_nonneg|].
      apply Z.log2_lt_pow2; [lia|]. change (2 ^ 31) with 2147483648. lia. }
    pose proof (Z.log2_spec (v - 1) ltac:(lia)) as [Hlo Hhi].
    rewrite <- Z.add_1_r in Hhi.
    assert (Hpow : 2 ^ (Z.log2 (v - 1) + 1) <= 2 ^ 31)
      by (apply Z.pow_le_mono_r; lia).
    change (2 ^ 31) with 2147483648 in Hpow.
    exists (Z.log2 (v - 1) + 1).
    replace (2 ^ (Z.log2 (v - 1) + 1) - 1 + 1)
      with (2 ^ (Z.log2 (v - 1) + 1)) by lia.
    rewrite u32_small by lia.
    rewrite Z.pow_add_r in * by lia. change (2 ^ 1) with 2 in *.
    repeat split; lia.
Qed.

Lemma RoundUpToPowerOf2_least_witness :
  1 <= 640 <= 2147483648
  /\ exists k, 0 <= k <= 31
       /\ RoundUpToPowerOf2 640 = 2 ^ k /\ 640 <= 2 ^ k /\ 2 ^ k < 2 * 640.
Proof.
  assert (H : 1 <= 640 <= 2147483648) by lia.
  split; [exact H|]. exact (RoundUpToPowerOf2_least 640 H).
Defined.

(** X2.  Outside that range the 32-bit arithmetic wraps: for [v = 0] and
    for [2^31 < v < 2^32] the result is [0]. *)
Theorem RoundUpToPowerOf2_wraps_to_zero (v : Z) :
  v = 0 \/ 2147483648 < v < 4294967296 ->
  RoundUpToPowerOf2 v = 0.
Proof.
  intros [->|Hv]; [reflexivity|].
  unfold RoundUpToPowerOf2.
  rewrite (u32_small (v - 1)) by lia.
  pose proof (smear_log2 (v - 1)) as Hs. cbv zeta in Hs.
  rewrite Hs by lia. clear Hs.
  assert (Hlog : Z.log2 (v - 1) = 31).
  { apply Z.log2_unique; [lia|]. change (2 ^ 31) with 2147483648.
    change (2 ^ (31 + 1)) with 4294967296. lia. }
  rewrite Hlog. reflexivity.
Qed.

Lemma RoundUpToPowerOf2_wraps_to_zero_witness :
  (3000000000 = 0 \/ 2147483648 < 3000000000 < 4294967296)
  /\ RoundUpToPowerOf2 3000000000 = 0.
Proof.
  assert (H : 3000000000 = 0 \/ 2147483648 < 3000000000 < 4294967296)
    by (right; lia).
  split; [exact H|]. exact (RoundUpToPowerOf2_wraps_to_zero 3000000000 H).
Defined.

(** ** [Clear], [StartFrame] and the decimation schedule *)

Lemma Clear_loop_deletions (c : TexCache) : Clear_loop c = deletions c.
Proof.
  induction c as [|[k e] c IH]; simpl; [reflexivity|].
  now rewrite IH.
Qed.

Lemma length_sum_zero (A : Type) (c1 c2 : list A) :
  (Z.of_nat (length c1) + Z.of_nat (length c2) =? 0) = true ->
  c1 = [] /\ c2 = [].
Proof.
  intros H. apply Z.eqb_eq in H.
  destruct c1, c2; simpl in H; try lia. split; reflexivity.
Qed.

(** X3.  [Clear] always leaves both maps empty, unbinds the texture and
    touches nothing but the maps, [lastBoundTexture] and the GL stream.
    With [delete_them] the stream gets [glBindTexture(0)] followed by one
    [glDeleteTextures] per entry, the primary map first, each map in key
    order; without it no texture is deleted although the entries are
    dropped. *)
Theorem Clear_effect (delete_them : bool) (w : World) :
  let w' := Clear delete_them w in
  cache (tc w') = [] /\ secondCache (tc w') = []
  /\ lastBoundTexture (tc w') = u32 (-1)
  /\ gl w' = gl w ++ glBindTexture 0
                :: (if delete_them
                    then deletions (cache (tc w))
                         ++ deletions (secondCache (tc w))
                    else [])
  /\ fbCache_ (tc w') = fbCache_ (tc w)
  /\ decimationCounter_ (tc w') = decimationCounter_ (tc w)
  /\ clearCacheNextFrame_ (tc w') = clearCacheNextFrame_ (tc w)
  /\ gpuStats w' = gpuStats w /\ heap w' = heap w /\ fbs w' = fbs w.
Proof.
  unfold Clear. cbn zeta.
  destruct delete_them; cbn;
    destruct (Z.of_nat (length (cache (tc w)))
              + Z.of_nat (length (secondCache (tc w))) =? 0) eqn:Hsz; cbn;
    try (apply length_sum_zero in Hsz; destruct Hsz as [H1 H2];
         rewrite ?H1, ?H2);
    rewrite ?Clear_loop_deletions; cbn; rewrite <- ?app_assoc;
    repeat split; reflexivity.
Qed.

Lemma StartFrame_no_request (w : World) :
  clearCacheNextFrame_ (tc w) = false ->
  lastBoundTexture (tc w) = u32 (-1) ->
  StartFrame w = Decimate w.
Proof.
  intros Hflag Hbound.
  assert (Hw : set_tc (set_lastBoundTexture (u32 (-1)) (tc w)) w = w).
  { destruct w as [t s c f m g]. destruct t. cbn in Hbound. subst.
    reflexivity. }
  unfold StartFrame. cbv zeta. rewrite Hw, Hflag. reflexivity.
Qed.

(** X4.  A clear requested with [ClearNextFrame] is carried out by the next
    [StartFrame], once: that call empties both maps, deletes every texture
    and resets the request, so the following [StartFrame] is an ordinary
    decimation step. *)
Theorem StartFrame_after_ClearNextFrame (w : World) :
  let w1 := StartFrame (ClearNextFrame w) in
  cache (tc w1) = [] /\ secondCache (tc w1) = []
  /\ clearCacheNextFrame_ (tc w1) = false
  /\ gl w1 = gl w ++ glBindTexture 0
               :: deletions (cache (tc w)) ++ deletions (secondCache (tc w))
  /\ StartFrame w1 = Decimate w1.
Proof.
  cbv zeta.
  assert (Hstep : StartFrame (ClearNextFrame w)
                  = set_tc (set_clearCacheNextFrame_ false
                              (tc (Clear true (ClearNextFrame w))))
                      (Clear true (ClearNextFrame w))).
  { unfold StartFrame, ClearNextFrame. cbn. reflexivity. }
  rewrite Hstep.
  assert (Hclear : cache (tc (Clear true (ClearNextFrame w))) = []
                   /\ secondCache (tc (Clear true (ClearNextFrame w))) = []
                   /\ lastBoundTexture (tc (Clear true (ClearNextFrame w)))
                      = u32 (-1)
                   /\ gl (Clear true (ClearNextFrame w))
                      = gl w ++ glBindTexture 0
                          :: deletions (cache (tc w))
                             ++ deletions (secondCache (tc w))).
  { unfold Clear, ClearNextFrame. cbn.
    destruct (Z.of_nat (length (cache (tc w)))
              + Z.of_nat (length (secondCache (tc w))) =? 0) eqn:Hsz; cbn;
      try (apply length_sum_zero in Hsz; destruct Hsz as [H1 H2];
           rewrite ?H1, ?H2);
      rewrite ?Clear_loop_deletions; cbn; rewrite <- ?app_assoc;
      repeat split; reflexivity. }
  destruct Hclear as (H1 & H2 & H3 & H4).
  split; [exact H1|]. split; [exact H2|]. split; [reflexivity|].
  split; [exact H4|].
  apply StartFrame_no_request; [reflexivity|exact H3].
Qed.

Lemma Decimate_loop_filter (kill : TexCacheEntry -> bool) (c : TexCache) :
  Decimate_loop kill c
  = (filter (fun p => negb (kill (snd p))) c,
     deletions (filter (fun p => kill (snd p)) c)).
Proof.
  induction c as [|[k e] c IH]; simpl; [reflexivity|].
  rewrite IH. destruct (kill e); reflexivity.
Qed.

Lemma filter_all (A : Type) (l : list A) : filter (fun _ => true) l = l.
Proof. induction l as [|a l IH]; simpl; [reflexivity|now rewrite IH]. Qed.

Lemma filter_none (A : Type) (l : list A) : filter (fun _ => false) l = [].
Proof. induction l as [|a l IH]; simpl; [reflexivity|exact IH]. Qed.

(** X5.  When its counter has run down, [Decimate] makes a pass: it resets
    the counter to the interval and unbinds the texture, erases from the
    primary map exactly the entries with
    [lastFrame + TEXTURE_KILL_AGE < numFlips] and keeps the others in order,
    and hands every erased texture to [glDeleteTextures] once, primary
    entries first.  From the second-chance map it erases the entries of the
    same age, and in low-memory mode all of them.  The counter is above
    [INT_MIN] and the sums of the age test do not overflow: on the entries
    of the primary map and, outside low-memory mode (where the test is
    short-circuited), on those of the second-chance map. *)
Theorem Decimate_pass (w : World) :
  -2147483648 < decimationCounter_ (tc w) <= 1 ->
  age_sum_fits (cache (tc w)) ->
  (lowMemoryMode_ (tc w) = false -> age_sum_fits (secondCache (tc w))) ->
  let flips := numFlips (gpuStats w) in
  let w' := Decimate w in
  let killed2 :=
    if lowMemoryMode_ (tc w) then secondCache (tc w)
    else filter (too_old flips) (secondCache (tc w)) in
  decimationCounter_ (tc w') = TEXCACHE_DECIMATION_INTERVAL
  /\ lastBoundTexture (tc w') = u32 (-1)
  /\ cache (tc w') = filter (fun p => negb (too_old flips p)) (cache (tc w))
  /\ secondCache (tc w')
     = (if lowMemoryMode_ (tc w) then []
        else filter (fun p => negb (too_old flips p)) (secondCache (tc w)))
  /\ gl w' = gl w ++ glBindTexture 0
                :: deletions (filter (too_old flips) (cache (tc w)))
                   ++ deletions killed2.
Proof.
  intros Hc _ _. cbv zeta. unfold Decimate.
  assert (Hle : (decimationCounter_ (tc w) - 1 <=? 0) = true)
    by (apply Z.leb_le; lia).
  rewrite Hle. cbv zeta. rewrite !Decimate_loop_filter. cbn.
  repeat split; try reflexivity.
  - destruct (lowMemoryMode_ (tc w)); cbn; [apply filter_none|reflexivity].
  - unfold too_old. destruct (lowMemoryMode_ (tc w)); cbn;
      [rewrite filter_all|]; reflexivity.
Qed.

Lemma Decimate_pass_witness :
  -2147483648 < decimationCounter_ (tc busy_world) <= 1
  /\ age_sum_fits (cache (tc busy_world))
  /\ (lowMemoryMode_ (tc busy_world) = false ->
      age_sum_fits (secondCache (tc busy_world)))
  /\ cache (tc (Decimate busy_world))
     = filter (fun p => negb (too_old 300 p)) (cache (tc busy_world))
  /\ gl (Decimate busy_world) = [glBindTexture 0; glDeleteTextures 7].
Proof.
  assert (H : -2147483648 < decimationCounter_ (tc busy_world) <= 1)
    by (cbn; lia).
  assert (H1 : age_sum_fits (cache (tc busy_world))).
  { intros k e [Hin|[Hin|[]]]; injection Hin as _ <-;
      unfold TEXTURE_KILL_AGE; cbn; lia. }
  assert (H2 : lowMemoryMode_ (tc busy_world) = false ->
               age_sum_fits (secondCache (tc busy_world))).
  { intros _ k e [Hin|[]]. injection Hin as _ <-.
    unfold TEXTURE_KILL_AGE; cbn; lia. }
  split; [exact H|]. split; [exact H1|]. split; [exact H2|].
  pose proof (Decimate_pass busy_world H H1 H2) as (_ & _ & Hc & _ & Hg).
  split; [exact Hc|]. rewrite Hg. reflexivity.
Defined.

Lemma Decimate_idle (w : World) :
  1 < decimationCounter_ (tc w) ->
  Decimate w
  = set_tc (set_decimationCounter_ (decimationCounter_ (tc w) - 1) (tc w)) w.
Proof.
  intros Hc. unfold Decimate.
  assert (Hgt : (decimationCounter_ (tc w) - 1 <=? 0) = false)
    by (apply Z.leb_gt; lia).
  rewrite Hgt. reflexivity.
Qed.

Lemma Decimate_idle_iter (n : nat) (w : World) :
  Z.of_nat n < decimationCounter_ (tc w) ->
  Nat.iter n Decimate w
  = set_tc (set_decimationCounter_
              (decimationCounter_ (tc w) - Z.of_nat n) (tc w)) w.
Proof.
  induction n as [|n IH]; intros Hn.
  - change (Nat.iter 0 Decimate w) with w. change (Z.of_nat 0) with 0.
    rewrite Z.sub_0_r.
    destruct w as [t s c f m g]. destruct t. reflexivity.
  - rewrite Nat.iter_succ, IH by lia.
    rewrite Decimate_idle by (cbn; lia). cbn.
    replace (decimationCounter_ (tc w) - Z.of_nat n - 1)
      with (decimationCounter_ (tc w) - Z.of_nat (S n)) by lia.
    reflexivity.
Qed.

(** X6.  Decimation is on a schedule: with the counter at [c >= 1], each of
    the next [c - 1] calls only counts down (maps, GL stream and every other
    component stay as they are), and call number [c] is a pass, after which
    the counter is back at the interval of 13. *)
Theorem Decimate_schedule (w : World) (n : nat) :
  1 <= decimationCounter_ (tc w) ->
  Z.of_nat n = decimationCounter_ (tc w) - 1 ->
  Nat.iter n Decimate w = set_tc (set_decimationCounter_ 1 (tc w)) w
  /\ decimationCounter_ (tc (Nat.iter (S n) Decimate w))
     = TEXCACHE_DECIMATION_INTERVAL
  /\ exists calls,
       gl (Nat.iter (S n) Decimate w) = gl w ++ glBindTexture 0 :: calls.
Proof.
  intros Hc Hn.
  assert (Hidle : Nat.iter n Decimate w
                  = set_tc (set_decimationCounter_ 1 (tc w)) w).
  { rewrite Decimate_idle_iter by lia. do 2 f_equal. lia. }
  split; [exact Hidle|].
  rewrite Nat.iter_succ, Hidle.
  unfold Decimate. cbn.
  rewrite !Decimate_loop_filter. cbn.
  split; [reflexivity|]. eexists. reflexivity.
Qed.

Lemma Decimate_schedule_witness :
  let w := example_world [] [] false 13 0 zero_heap in
  1 <= decimationCounter_ (tc w)
  /\ Z.of_nat 12 = decimationCounter_ (tc w) - 1
  /\ Nat.iter 12 Decimate w = set_tc (set_decimationCounter_ 1 (tc w)) w
  /\ decimationCounter_ (tc (Nat.iter 13 Decimate w))
     = TEXCACHE_DECIMATION_INTERVAL.
Proof.
  cbv zeta.
  assert (H1 : 1 <= decimationCounter_
                      (tc (example_world [] [] false 13 0 zero_heap)))
    by (cbn; lia).
  assert (H2 : Z.of_nat 12
               = decimationCounter_
                   (tc (example_world [] [] false 13 0 zero_heap)) - 1)
    by reflexivity.
  split; [exact H1|]. split; [exact H2|].
  pose proof (Decimate_schedule _ 12 H1 H2) as (Ha & Hb & _).
  split; [exact Ha|exact Hb].
Defined.

(** ** [InvalidateAll] and the structure of [Invalidate] *)

Lemma land_lnot_mask (s mask : Z) : Z.land (Z.land s (Z.lnot mask)) mask = 0.
Proof.
  rewrite <- Z.land_assoc, (Z.land_comm (Z.lnot mask)), Z.land_lnot_diag.
  apply Z.land_0_r.
Qed.

Lemma InvalidateAll_body_spec `{K : EntryConsts} (e : TexCacheEntry) :
  STATUS_RELIABLE <> 0 ->
  let e' := InvalidateAll_body e in
  invalidHint e' = invalidHint e + 1
  /\ Z.land (status e') STATUS_MASK <> STATUS_RELIABLE
  /\ (Z.land (status e) STATUS_MASK <> STATUS_RELIABLE -> status e' = status e)
  /\ (Z.land (status e) STATUS_MASK = STATUS_RELIABLE ->
      status e' = Z.land (status e) (Z.lnot STATUS_MASK))
  /\ e' = set_invalidHint (invalidHint e + 1) (set_status (status e') e).
Proof.
  intros Hrel. cbv zeta. unfold InvalidateAll_body.
  destruct (Z.land (status e) STATUS_MASK =? STATUS_RELIABLE) eqn:Hs.
  - apply Z.eqb_eq in Hs. cbn.
    rewrite land_lnot_mask.
    repeat split; try reflexivity; congruence.
  - apply Z.eqb_neq in Hs. cbn.
    repeat split; try reflexivity; congruence.
Qed.

(** X7.  [InvalidateAll] keeps the keys of the primary map and their order;
    at every position it raises [invalidHint] by one, clears the trust
    field of an entry that was RELIABLE and leaves the status of any other
    entry alone, and changes no other field.  When [STATUS_RELIABLE] is not
    the zero value of the field, no entry is RELIABLE afterwards.  Nothing
    but the primary map changes. *)
Theorem InvalidateAll_effect `{K : EntryConsts} (w : World) :
  STATUS_RELIABLE <> 0 ->
  let w' := InvalidateAll w in
  map fst (cache (tc w')) = map fst (cache (tc w))
  /\ (forall i k e, nth_error (cache (tc w)) i = Some (k, e) ->
        exists e',
          nth_error (cache (tc w')) i = Some (k, e')
          /\ invalidHint e' = invalidHint e + 1
          /\ Z.land (status e') STATUS_MASK <> STATUS_RELIABLE
          /\ (Z.land (status e) STATUS_MASK <> STATUS_RELIABLE ->
              status e' = status e)
          /\ (Z.land (status e) STATUS_MASK = STATUS_RELIABLE ->
              status e' = Z.land (status e) (Z.lnot STATUS_MASK))
          /\ e' = set_invalidHint (invalidHint e + 1)
                    (set_status (status e') e))
  /\ secondCache (tc w') = secondCache (tc w)
  /\ gl w' = gl w /\ gpuStats w' = gpuStats w /\ heap w' = heap w.
Proof.
  intros Hrel. cbv zeta. unfold InvalidateAll. cbn.
  split; [|split; [|repeat split]].
  - rewrite map_map. reflexivity.
  - intros i k e Hi.
    exists (InvalidateAll_body e).
    split.
    + rewrite nth_error_map, Hi. reflexivity.
    + apply (InvalidateAll_body_spec e Hrel).
Qed.

Lemma InvalidateAll_effect_witness :
  @STATUS_RELIABLE example_consts <> 0
  /\ map fst (cache (tc (@InvalidateAll example_consts reliable_world)))
     = [reliable_key]
  /\ exists e',
       nth_error (cache (tc (@InvalidateAll example_consts reliable_world))) 0
       = Some (reliable_key, e')
       /\ invalidHint e' = 1
       /\ status e' = 0.
Proof.
  assert (H : @STATUS_RELIABLE example_consts <> 0) by (cbn; lia).
  split; [exact H|].
  pose proof (@InvalidateAll_effect example_consts reliable_world H)
    as (Hk & He & _).
  split; [exact Hk|].
  destruct (He O reliable_key reliable_entry eq_refl)
    as (e' & Hn & Hh & _ & _ & Hs & _).
  exists e'. split; [exact Hn|]. split; [exact Hh|].
  rewrite Hs; reflexivity.
Defined.

Lemma Invalidate_body_counter `{K : EntryConsts} (addr addr_end : Z)
    (type : GPUInvalidationType) (e : TexCacheEntry) (n : Z) :
  n <= snd (Invalidate_body addr addr_end type e n).
Proof.
  unfold Invalidate_body.
  destruct (Invalidate_hits addr addr_end e); [|cbn; lia].
  destruct (negb (is_GPU_INVALIDATE_ALL type)); cbn; lia.
Qed.

Lemma Invalidate_loop_keys (body : TexCacheEntry -> Z -> TexCacheEntry * Z) :
  (forall e n, n <= snd (body e n)) ->
  forall c idx iter end_ n c' n',
    Invalidate_loop body c idx iter end_ n = Some (c', n') ->
    map fst c' = map fst c /\ n <= n'.
Proof.
  intros Hbody c.
  induction c as [|[k0 e0] c IH]; intros idx iter end_ n c' n' Hrun;
    simpl in Hrun.
  - destruct (Nat.eqb iter end_); [|discriminate].
    injection Hrun as <- <-. split; [reflexivity|lia].
  - destruct (Nat.ltb idx iter).
    + destruct (Invalidate_loop body c (S idx) iter end_ n)
        as [[r n1]|] eqn:Hrec; [|discriminate].
      injection Hrun as <- <-.
      destruct (IH _ _ _ _ _ _ Hrec) as [Hk Hn].
      split; [simpl; now rewrite Hk|exact Hn].
    + destruct (Nat.eqb iter end_).
      * injection Hrun as <- <-. split; [reflexivity|lia].
      * destruct (body e0 n) as [e1 n1] eqn:Hb.
        destruct (Invalidate_loop body c (S idx) (S iter) end_ n1)
          as [[r n2]|] eqn:Hrec; [|discriminate].
        injection Hrun as <- <-.
        destruct (IH _ _ _ _ _ _ Hrec) as [Hk Hn].
        pose proof (Hbody e0 n) as Hm. rewrite Hb in Hm. cbn in Hm.
        split; [simpl; now rewrite Hk|lia].
Qed.

(** X8.  Whatever [Invalidate] does to the entries it visits, it never
    adds, removes or reorders a key of the primary map, never touches the
    second-chance map, the framebuffer list, memory or the frame counter,
    never makes a GL call, and never lowers
    [gpuStats.numTextureInvalidations]. *)
Theorem Invalidate_structure `{K : EntryConsts} (addr size : Z)
    (type : GPUInvalidationType) (w w' : World) :
  Invalidate addr size type w = Some w' ->
  map fst (cache (tc w')) = map fst (cache (tc w))
  /\ secondCache (tc w') = secondCache (tc w)
  /\ fbCache_ (tc w') = fbCache_ (tc w)
  /\ lastBoundTexture (tc w') = lastBoundTexture (tc w)
  /\ gl w' = gl w /\ heap w' = heap w
  /\ numFlips (gpuStats w') = numFlips (gpuStats w)
  /\ numTextureInvalidations (gpuStats w)
     <= numTextureInvalidations (gpuStats w').
Proof.
  unfold Invalidate. intros Hrun.
  destruct (Invalidate_loop _ _ _ _ _ _) as [[c' n']|] eqn:Hloop;
    [|discriminate].
  injection Hrun as <-. cbn.
  apply Invalidate_loop_keys in Hloop;
    [|intros e n; apply Invalidate_body_counter].
  destruct Hloop as [Hk Hn]. repeat split; try reflexivity; assumption.
Qed.

Lemma Invalidate_structure_witness :
  exists w',
    @Invalidate example_consts 0x00200800 0x100 GPU_INVALIDATE_HINT
      low_key_world = Some w'
    /\ map fst (cache (tc w')) = [0x00200000; 0x00300000]
    /\ gl w' = []
    /\ numTextureInvalidations (gpuStats w') = 1.
Proof.
  eexists. split; [vm_compute; reflexivity|].
  pose proof (@Invalidate_structure example_consts 0x00200800 0x100
                GPU_INVALIDATE_HINT low_key_world _ eq_refl)
    as (Hk & _ & _ & _ & Hg & _).
  split; [exact Hk|]. split; [exact Hg|]. reflexivity.
Defined.

(** X9.  The bounds of the walk of [Invalidate] are 32-bit addresses, the
    keys of the map carry the address in their upper half: on a map all of
    whose keys are at least [2^32] - every key [SetTexture] makes for a
    texture address other than 0 - the call visits no entry and returns the
    state as it was, for every address, size and type. *)
Theorem Invalidate_visits_no_shifted_key `{K : EntryConsts} (addr size : Z)
    (type : GPUInvalidationType) (w : World) :
  Forall (fun p => 4294967296 <= fst p) (cache (tc w)) ->
  Invalidate addr size type w = Some w.
Proof.
  intros Hall.
  destruct (cache (tc w)) as [|[k e] c] eqn:Hc.
  - unfold Invalidate. rewrite Hc. cbn.
    destruct w as [t s gc f h g]. destruct t. destruct s.
    cbn in *. now subst.
  - apply (Invalidate_noop_above_32 addr size type w k e c Hc).
    inversion Hall; subst. assumption.
Qed.

Lemma Invalidate_visits_no_shifted_key_witness :
  Forall (fun p => 4294967296 <= fst p) (cache (tc busy_world))
  /\ @Invalidate example_consts 0x09000000 0x1000 GPU_INVALIDATE_SAFE
       busy_world = Some busy_world.
Proof.
  assert (H : Forall (fun p => 4294967296 <= fst p) (cache (tc busy_world))).
  { repeat constructor; cbn; lia. }
  split; [exact H|].
  exact (@Invalidate_visits_no_shifted_key example_consts 0x09000000 0x1000
           GPU_INVALIDATE_SAFE busy_world H).
Defined.

(** ** Render-to-texture notifications *)

Lemma sorted_keys_cons (k : Z) (e : TexCacheEntry) (c : TexCache) :
  sorted_keys ((k, e) :: c) ->
  sorted_keys c /\ forall i k' e', nth_error c i = Some (k', e') -> k < k'.
Proof.
  revert k e. induction c as [|[k1 e1] c IH]; intros k e Hs.
  - split; [exact I|]. intros [|i] k' e' Hi; discriminate.
  - destruct Hs as [Hlt Hs]. split; [exact Hs|].
    intros [|i] k' e' Hi.
    + injection Hi as <- <-. exact Hlt.
    + destruct (IH k1 e1 Hs) as [_ Hall]. cbn in Hi.
      specialize (Hall i k' e' Hi). lia.
Qed.

(** On a map in key order, the positions from [lower_bound lo] up to
    [upper_bound hi] are those of the keys in [[lo, hi]]. *)
Lemma walk_positions (lo hi : Z) (c : TexCache) :
  sorted_keys c ->
  forall i k e, nth_error c i = Some (k, e) ->
    ((lower_bound lo c <= i)%nat <-> lo <= k)
    /\ ((i < upper_bound hi c)%nat <-> k <= hi).
Proof.
  induction c as [|[k0 e0] c IH]; intros Hs i k e Hi.
  - destruct i; discriminate.
  - apply sorted_keys_cons in Hs. destruct Hs as [Hs Hall].
    destruct i as [|i]; cbn in Hi.
    + injection Hi as <- <-. cbn.
      destruct (Z.ltb_spec k0 lo); destruct (Z.leb_spec k0 hi);
        split; split; intros; lia.
    + specialize (IH Hs i k e Hi). specialize (Hall i k e Hi). cbn.
      destruct IH as [IH1 IH2].
      destruct (Z.ltb_spec k0 lo); destruct (Z.leb_spec k0 hi);
        split; split; intros; try lia;
        try (apply IH1; lia); try (apply IH2; lia);
        try (apply -> Nat.succ_le_mono; apply IH1; lia);
        try (apply -> Nat.succ_lt_mono; apply IH2; lia).
Qed.

Lemma NotifyFramebuffer_loop_past_end
    (body : Z -> TexCacheEntry -> option TexCacheEntry) (c : TexCache) :
  forall idx iter end_,
    (idx <= iter)%nat -> (end_ < iter)%nat ->
    NotifyFramebuffer_loop body c idx iter end_ = None.
Proof.
  induction c as [|[k0 e0] c IH]; intros idx iter end_ H1 H2;
    cbn [NotifyFramebuffer_loop].
  - replace (Nat.eqb iter end_) with false
      by (symmetry; apply Nat.eqb_neq; lia).
    reflexivity.
  - destruct (Nat.ltb idx iter) eqn:Hlt.
    + apply Nat.ltb_lt in Hlt. rewrite IH by lia. reflexivity.
    + apply Nat.ltb_ge in Hlt.
      replace (Nat.eqb iter end_) with false
        by (symmetry; apply Nat.eqb_neq; lia).
      destruct (body k0 e0); [|reflexivity].
      rewrite IH by lia. reflexivity.
Qed.

(** The walk keeps every key in place, hands the entries at the positions
    from [iter] up to [end_] to the body and leaves the others alone. *)
Lemma NotifyFramebuffer_loop_spec
    (body : Z -> TexCacheEntry -> option TexCacheEntry) (c : TexCache) :
  forall idx iter end_ c',
    (idx <= iter)%nat ->
    NotifyFramebuffer_loop body c idx iter end_ = Some c' ->
    forall i k e, nth_error c i = Some (k, e) ->
      exists e', nth_error c' i = Some (k, e')
        /\ ((iter <= idx + i < end_)%nat -> body k e = Some e')
        /\ (~ (iter <= idx + i < end_)%nat -> e' = e).
Proof.
  induction c as [|[k0 e0] c IH]; intros idx iter end_ c' Hidx Hrun i k e Hi.
  - destruct i; discriminate.
  - cbn [NotifyFramebuffer_loop] in Hrun.
    destruct (Nat.ltb idx iter) eqn:Hlt.
    + apply Nat.ltb_lt in Hlt.
      destruct (NotifyFramebuffer_loop body c (S idx) iter end_)
        as [r|] eqn:Hrec; [|discriminate].
      injection Hrun as <-.
      destruct i as [|i]; cbn in Hi |- *.
      * injection Hi as <- <-. exists e0.
        split; [reflexivity|]. split; [lia|reflexivity].
      * destruct (IH (S idx) iter end_ r ltac:(lia) Hrec i k e Hi)
          as (e' & Hn & Hin & Hout).
        exists e'. split; [exact Hn|].
        split; intros Hr; [apply Hin|apply Hout]; lia.
    + apply Nat.ltb_ge in Hlt.
      destruct (Nat.eqb iter end_) eqn:Heq.
      * apply Nat.eqb_eq in Heq. injection Hrun as <-.
        exists e. split; [exact Hi|]. split; [lia|reflexivity].
      * apply Nat.eqb_neq in Heq.
        destruct (body k0 e0) as [e1|] eqn:Hb; [|discriminate].
        destruct (NotifyFramebuffer_loop body c (S idx) (S iter) end_)
          as [r|] eqn:Hrec; [|discriminate].
        injection Hrun as <-.
        assert (Hend : (iter < end_)%nat).
        { destruct (Nat.lt_ge_cases iter end_) as [Hl|Hg]; [exact Hl|].
          rewrite NotifyFramebuffer_loop_past_end in Hrec by lia.
          discriminate. }
        destruct i as [|i]; cbn in Hi |- *.
        -- injection Hi as <- <-. exists e1.
           split; [reflexivity|]. split; [intros _; exact Hb|lia].
        -- destruct (IH (S idx) (S iter) end_ r ltac:(lia) Hrec i k e Hi)
             as (e' & Hn & Hin & Hout).
           exists e'. split; [exact Hn|].
           split; intros Hr; [apply Hin|apply Hout]; lia.
Qed.

Lemma NotifyFramebuffer_loop_defined
    (body : Z -> TexCacheEntry -> option TexCacheEntry) :
  (forall k e, exists e', body k e = Some e') ->
  forall c idx iter end_,
    (idx <= iter)%nat -> (iter <= end_)%nat -> (end_ <= idx + length c)%nat ->
    exists c', NotifyFramebuffer_loop body c idx iter end_ = Some c'.
Proof.
  intros Hbody.
  induction c as [|[k0 e0] c IH]; intros idx iter end_ H1 H2 H3;
    cbn [NotifyFramebuffer_loop length] in *.
  - replace (Nat.eqb iter end_) with true by (symmetry; apply Nat.eqb_eq; lia).
    eauto.
  - destruct (Nat.ltb idx iter) eqn:Hlt.
    + apply Nat.ltb_lt in Hlt.
      destruct (IH (S idx) iter end_) as (c' & ->); try lia. eauto.
    + apply Nat.ltb_ge in Hlt.
      destruct (Nat.eqb iter end_) eqn:Heq; [eauto|].
      apply Nat.eqb_neq in Heq.
      destruct (Hbody k0 e0) as (e1 & ->).
      destruct (IH (S idx) (S iter) end_) as (c' & ->); try lia. eauto.
Qed.

Lemma nth_error_keys (c c' : TexCache) :
  (forall i k e, nth_error c i = Some (k, e) ->
     exists e', nth_error c' i = Some (k, e')) ->
  length c' = length c ->
  map fst c' = map fst c.
Proof.
  revert c'. induction c as [|[k e] c IH]; intros c' Hn Hlen.
  - destruct c'; [reflexivity|discriminate].
  - destruct c' as [|[k' e'] c']; [discriminate|].
    destruct (Hn O k e eq_refl) as (e0 & H0). injection H0 as -> ->.
    cbn. f_equal. apply IH.
    + intros i k1 e1 Hi. exact (Hn (S i) k1 e1 Hi).
    + cbn in Hlen. lia.
Qed.

Lemma NotifyFramebuffer_loop_length
    (body : Z -> TexCacheEntry -> option TexCacheEntry) (c : TexCache) :
  forall idx iter end_ c',
    NotifyFramebuffer_loop body c idx iter end_ = Some c' ->
    length c' = length c.
Proof.
  induction c as [|[k0 e0] c IH]; intros idx iter end_ c' Hrun;
    cbn [NotifyFramebuffer_loop] in Hrun.
  - destruct (Nat.eqb iter end_); [|discriminate]. now injection Hrun as <-.
  - destruct (Nat.ltb idx iter).
    + destruct (NotifyFramebuffer_loop body c (S idx) iter end_)
        as [r|] eqn:Hrec; [|discriminate].
      injection Hrun as <-. cbn. f_equal. eapply IH; eauto.
    + destruct (Nat.eqb iter end_); [now injection Hrun as <-|].
      destruct (body k0 e0); [|discriminate].
      destruct (NotifyFramebuffer_loop body c (S idx) (S iter) end_)
        as [r|] eqn:Hrec; [|discriminate].
      injection Hrun as <-. cbn. f_equal. eapply IH; eauto.
Qed.

Lemma NotifyFramebuffer_keys_ordered (address fb_stride : Z) :
  0 <= address < 2147483648 -> 0 <= fb_stride < 67108864 ->
  NotifyFramebuffer_cacheKey address
  <= NotifyFramebuffer_cacheKeyEnd address fb_stride.
Proof.
  intros Ha Hs.
  unfold NotifyFramebuffer_cacheKeyEnd, NotifyFramebuffer_cacheKey,
    MAX_SUBAREA_Y_OFFSET.
  assert (Hor : 0 <= Z.lor address 0x04000000 < 2 ^ 31)
    by (apply lor_range; [lia| |]; change (2 ^ 31) with 2147483648; lia).
  change (2 ^ 31) with 2147483648 in Hor.
  rewrite (u32_small (fb_stride * 32)) by lia.
  rewrite !Z.shiftl_mul_pow2 by lia. change (2 ^ 32) with 4294967296.
  unfold u64.
  rewrite (Z.mod_small (Z.lor address 67108864 * 4294967296)) by lia.
  rewrite (Z.mod_small (fb_stride * 32 * 4294967296)) by lia.
  rewrite Z.mod_small by lia. lia.
Qed.

Lemma NotifyFramebuffer_unfold `{F : BufferFormats} (E : Env)
    (address fb : Z) (msg : FramebufferNotification) (w : World) :
  NotifyFramebuffer E address fb msg w
  = let lo := NotifyFramebuffer_cacheKey address in
    let hi := NotifyFramebuffer_cacheKeyEnd address
                (Framebuffer.fb_stride (fbs w fb)) in
    let c := cache (tc w) in
    let walk body := NotifyFramebuffer_loop body c O (lower_bound lo c)
                       (upper_bound hi c) in
    match msg with
    | NOTIFY_FB_DESTROYED =>
        match walk (fun k e =>
                      Some (DetachFramebuffer e (Z.lor address 0x04000000) fb))
        with
        | Some c' =>
            Some (set_tc (set_cache c'
                            (set_fbCache_
                               (fbCache_remove fb (fbCache_ (tc w))) (tc w)))
                    w)
        | None => None
        end
    | _ =>
        match walk (fun k e =>
                      AttachFramebuffer E (fbs w) e (Z.lor address 0x04000000)
                        fb (k =? lo)) with
        | Some c' =>
            Some (set_tc (set_cache c'
                            (set_fbCache_
                               (if negb (fbCache_has fb (fbCache_ (tc w)))
                                then fbCache_ (tc w) ++ [fb]
                                else fbCache_ (tc w)) (tc w))) w)
        | None => None
        end
    end.
Proof. destruct msg; reflexivity. Qed.

Lemma DetachFramebuffer_spec (e : TexCacheEntry) (address fb : Z) :
  fb <> 0 ->
  let e' := DetachFramebuffer e address fb in
  framebuffer e' <> fb
  /\ (framebuffer e <> fb -> e' = e)
  /\ (framebuffer e = fb -> e' = set_framebuffer 0 e).
Proof.
  intros Hfb. cbv zeta. unfold DetachFramebuffer.
  destruct (Z.eqb_spec (framebuffer e) fb) as [Heq|Hne].
  - split; [cbn; congruence|]. split; [congruence|reflexivity].
  - split; [exact Hne|]. split; [reflexivity|congruence].
Qed.

Lemma fbCache_remove_spec (fb : Z) (l : list Z) (p : Z) :
  In p (fbCache_remove fb l) <-> In p l /\ p <> fb.
Proof.
  unfold fbCache_remove. rewrite filter_In.
  destruct (Z.eqb_spec p fb); cbn; split; intros [? ?]; split;
    congruence || auto.
Qed.

(** X10.  [NotifyFramebuffer(address, framebuffer, NOTIFY_FB_DESTROYED)]
    forgets the framebuffer: it is no longer in [fbCache_] (the other
    registered framebuffers stay), and every entry whose key lies in the
    range [[cacheKey, cacheKeyEnd]] of the framebuffer no longer points at
    it - an entry that did has its [framebuffer] reset to null and no other
    field changed.  Entries with keys outside the range are not visited and
    keep what they have, keys and their order are kept, and nothing else in
    the state changes.  The map is in key order, [address] is below [2^31]
    and the stride below [2^26], so that the range does not wrap. *)
Theorem NotifyFramebuffer_destroyed `{F : BufferFormats} (E : Env)
    (address fb : Z) (w : World) :
  sorted_keys (cache (tc w)) ->
  0 <= address < 2147483648 ->
  0 <= Framebuffer.fb_stride (fbs w fb) < 67108864 ->
  fb <> 0 ->
  let lo := NotifyFramebuffer_cacheKey address in
  let hi := NotifyFramebuffer_cacheKeyEnd address
              (Framebuffer.fb_stride (fbs w fb)) in
  exists w',
    NotifyFramebuffer E address fb NOTIFY_FB_DESTROYED w = Some w'
    /\ ~ In fb (fbCache_ (tc w'))
    /\ (forall p, p <> fb ->
          (In p (fbCache_ (tc w')) <-> In p (fbCache_ (tc w))))
    /\ map fst (cache (tc w')) = map fst (cache (tc w))
    /\ (forall i k e, nth_error (cache (tc w)) i = Some (k, e) ->
          exists e',
            nth_error (cache (tc w')) i = Some (k, e')
            /\ (lo <= k <= hi ->
                framebuffer e' <> fb
                /\ (framebuffer e <> fb -> e' = e)
                /\ (framebuffer e = fb -> e' = set_framebuffer 0 e))
            /\ (~ lo <= k <= hi -> e' = e))
    /\ secondCache (tc w') = secondCache (tc w)
    /\ gl w' = gl w /\ heap w' = heap w /\ fbs w' = fbs w.
Proof.
  intros Hsorted Ha Hs Hfb. cbv zeta.
  rewrite NotifyFramebuffer_unfold. cbv zeta.
  set (lo := NotifyFramebuffer_cacheKey address).
  set (hi := NotifyFramebuffer_cacheKeyEnd address _).
  set (body := fun (k : Z) (e : TexCacheEntry) =>
                 Some (DetachFramebuffer e (Z.lor address 67108864) fb)).
  assert (Hord : lo <= hi) by (apply NotifyFramebuffer_keys_ordered; lia).
  destruct (NotifyFramebuffer_loop_defined body
              ltac:(intros k e; eexists; reflexivity)
              (cache (tc w)) O (lower_bound lo (cache (tc w)))
              (upper_bound hi (cache (tc w))))
    as (c' & Hrun).
  { lia. }
  { apply lower_le_upper. exact Hord. }
  { apply upper_bound_le_length. }
  rewrite Hrun. eexists. split; [reflexivity|]. cbn.
  assert (Hspec := NotifyFramebuffer_loop_spec body (cache (tc w)) O _ _ c'
                     ltac:(lia) Hrun).
  split; [|split; [|split; [|split]]].
  - rewrite fbCache_remove_spec. tauto.
  - intros p Hp. rewrite fbCache_remove_spec. tauto.
  - apply nth_error_keys.
    + intros i k e Hi. destruct (Hspec i k e Hi) as (e' & Hn & _). eauto.
    + eapply NotifyFramebuffer_loop_length; eauto.
  - intros i k e Hi.
    destruct (Hspec i k e Hi) as (e' & Hn & Hin & Hout).
    destruct (walk_positions lo hi _ Hsorted i k e Hi) as [Hlo Hhi].
    exists e'. split; [exact Hn|]. split.
    + intros Hk.
      assert (He : Some (DetachFramebuffer e (Z.lor address 67108864) fb)
                   = Some e').
      { apply Hin. cbn. split; [apply Hlo|apply Hhi]; lia. }
      injection He as <-.
      apply DetachFramebuffer_spec. exact Hfb.
    + intros Hk. apply Hout. cbn. intros [H1 H2].
      apply Hk. split; [apply Hlo|apply Hhi]; assumption.
  - repeat split.
Qed.

Lemma NotifyFramebuffer_destroyed_witness :
  let w := fb_world 0x1000 [0x1000; 0x2000] in
  sorted_keys (cache (tc w))
  /\ 0 <= 0 < 2147483648
  /\ 0 <= Framebuffer.fb_stride (fbs w 0x1000) < 67108864
  /\ 0x1000 <> 0
  /\ exists w',
       @NotifyFramebuffer example_formats example_env 0 0x1000
         NOTIFY_FB_DESTROYED w = Some w'
       /\ ~ In 0x1000 (fbCache_ (tc w'))
       /\ map fst (cache (tc w')) = [vram_key; reliable_key].
Proof.
  cbv zeta.
  assert (H1 : sorted_keys (cache (tc (fb_world 0x1000 [0x1000; 0x2000]))))
    by (cbn; lia).
  assert (H2 : 0 <= 0 < 2147483648) by lia.
  assert (H3 : 0 <= Framebuffer.fb_stride
                      (fbs (fb_world 0x1000 [0x1000; 0x2000]) 0x1000)
               < 67108864) by (cbn; lia).
  assert (H4 : 0x1000 <> 0) by lia.
  split; [exact H1|]. split; [exact H2|]. split; [exact H3|].
  split; [exact H4|].
  destruct (@NotifyFramebuffer_destroyed example_formats example_env 0 0x1000
              _ H1 H2 H3 H4) as (w' & Hrun & Hnot & _ & Hkeys & _).
  exists w'. split; [exact Hrun|]. split; [exact Hnot|exact Hkeys].
Defined.













(** ** [ConvertColors] *)

Lemma testbit_u32_high (c n : Z) :
  0 <= c < 4294967296 -> 32 <= n -> Z.testbit c n = false.
Proof.
  intros Hc Hn.
  destruct (Z.eq_dec c 0) as [->|Hne]; [apply Z.bits_0|].
  apply Z.bits_above_log2; [lia|].
  assert (Z.log2 c < 32); [|lia].
  apply Z.log2_lt_pow2; [lia|]. change (2 ^ 32) with 4294967296. lia.
Qed.

(** One round of bit evaluation at a known position: the outermost [lor]
    and [land] are split, the bits of the constant masks computed, and the
    remaining shift moved into the position. *)
Ltac bits_step :=
  rewrite ?Z.lor_spec, ?Z.land_spec;
  repeat match goal with
         | |- context [Z.testbit (Zpos ?p) ?n] =>
             let v := eval vm_compute in (Z.testbit (Zpos p) n) in
             change (Z.testbit (Zpos p) n) with v
         end;
  rewrite ?andb_false_r, ?andb_true_r, ?orb_false_r, ?orb_false_l;
  rewrite ?Z.shiftr_spec, ?Z.shiftl_spec by lia;
  repeat match goal with
         | |- context [Z.testbit _ (?x + ?y)] =>
             let v := eval vm_compute in (x + y) in change (x + y) with v
         | |- context [Z.testbit _ (?x - ?y)] =>
             let v := eval vm_compute in (x - y) in change (x - y) with v
         end.

(** Splits a goal about bit [n], [0 <= n < 32], into the 32 goals for the
    positions 0 .. 31. *)
Ltac split_position i k :=
  lazymatch k with
  | O => exfalso; lia
  | S ?k' =>
      destruct i as [|i];
      [repeat match goal with
              | |- context [Z.of_nat ?j] =>
                  let v := eval vm_compute in (Z.of_nat j) in
                  change (Z.of_nat j) with v
              end
      |split_position i k']
  end.

Ltac bits_32 n Hn :=
  let i := fresh "i" in
  let Hi := fresh "Hi" in
  assert (Hi : exists i, (i < 32)%nat /\ n = Z.of_nat i)
    by (exists (Z.to_nat n); lia);
  destruct Hi as (i & Hi & ->); clear Hn;
  split_position i 32%nat.

Lemma convert4444_range (c : Z) :
  0 <= c < 4294967296 -> 0 <= convert4444 c < 4294967296.
Proof.
  intros Hc. unfold convert4444.
  change 4294967296 with (2 ^ 32).
  repeat apply lor_range; try lia;
    rewrite Z.land_comm; apply land_range; try lia;
    first [apply Z.shiftr_nonneg | apply Z.shiftl_nonneg]; lia.
Qed.

Lemma convert4444_involutive (c : Z) :
  0 <= c < 4294967296 -> convert4444 (convert4444 c) = c.
Proof.
  intros Hc. apply Z.bits_inj'. intros n Hn.
  destruct (Z.ltb_spec n 32) as [Hlt|Hge].
  - assert (Hr : 0 <= n < 32) by lia. clear Hn Hlt.
    unfold convert4444.
    bits_32 n Hr; repeat bits_step; reflexivity.
  - rewrite (testbit_u32_high c n Hc Hge).
    apply testbit_u32_high; [|exact Hge].
    apply convert4444_range, convert4444_range, Hc.
Qed.

Lemma convert565_range (c : Z) :
  0 <= c < 4294967296 -> 0 <= convert565 c < 4294967296.
Proof.
  intros Hc. unfold convert565.
  change 4294967296 with (2 ^ 32).
  repeat apply lor_range; try lia;
    rewrite Z.land_comm; apply land_range; try lia;
    first [apply Z.shiftr_nonneg | apply Z.shiftl_nonneg]; lia.
Qed.

Lemma convert5551_range (c : Z) :
  0 <= c < 4294967296 -> 0 <= convert5551 c < 4294967296.
Proof.
  intros Hc. unfold convert5551.
  change 4294967296 with (2 ^ 32).
  repeat apply lor_range; try lia;
    rewrite Z.land_comm; apply land_range; try lia;
    first [apply Z.shiftr_nonneg | apply Z.shiftl_nonneg]; lia.
Qed.

Lemma convert565_involutive (c : Z) :
  0 <= c < 4294967296 -> convert565 (convert565 c) = c.
Proof.
  intros Hc. apply Z.bits_inj'. intros n Hn.
  destruct (Z.ltb_spec n 32) as [Hlt|Hge].
  - assert (Hr : 0 <= n < 32) by lia. clear Hn Hlt.
    unfold convert565.
    bits_32 n Hr; repeat bits_step; reflexivity.
  - rewrite (testbit_u32_high c n Hc Hge).
    apply testbit_u32_high; [|exact Hge].
    apply convert565_range, convert565_range, Hc.
Qed.

Lemma convert5551_bit (c n : Z) :
  0 <= n < 32 ->
  Z.testbit (convert5551 c) (bit5551 n) = Z.testbit c n.
Proof.
  intros Hr. unfold convert5551.
  bits_32 n Hr;
    match goal with
    | |- context [bit5551 ?k] =>
        let v := eval vm_compute in (bit5551 k) in change (bit5551 k) with v
    end;
    repeat bits_step; reflexivity.
Qed.

Lemma ConvertColors_word_range (dstFmt : GLenum) (c : Z) :
  0 <= c < 4294967296 -> 0 <= ConvertColors_word dstFmt c < 4294967296.
Proof.
  intros Hc.
  destruct dstFmt; cbn;
    auto using convert4444_range, convert5551_range, convert565_range.
Qed.

Lemma load32_range (m : Heap) (p : Ptr) : 0 <= load32 m p < 4294967296.
Proof.
  unfold load32.
  pose proof (load16_range m p). pose proof (load16_range m (padd p 2)). lia.
Qed.

(** An in-place run of the conversion loop from word [i0]: the [n] words it
    visits are rotated, every other word and every other byte is as
    before. *)
Lemma ConvertColors_loop_in_place (f : Z -> Z) (p : Ptr) :
  (forall c, 0 <= c < 4294967296 -> 0 <= f c < 4294967296) ->
  forall n m i0,
    (forall j, load32 (ConvertColors_loop f m p p n i0) (padd p (4 * j))
               = if (i0 <=? j) && (j <? i0 + Z.of_nat n)
                 then f (load32 m (padd p (4 * j)))
                 else load32 m (padd p (4 * j)))
    /\ (forall q, blk q <> blk p \/ ofs q < ofs p + 4 * i0
                  \/ ofs p + 4 * (i0 + Z.of_nat n) <= ofs q ->
                  load8 (ConvertColors_loop f m p p n i0) q = load8 m q).
Proof.
  intros Hf. induction n as [|n IH]; intros m i0.
  - split.
    + intros j. cbn [ConvertColors_loop].
      destruct (Z.leb_spec i0 j); destruct (Z.ltb_spec j (i0 + Z.of_nat 0));
        cbn; reflexivity || lia.
    + intros q _. reflexivity.
  - cbn [ConvertColors_loop].
    set (m1 := store32 m (padd p (4 * i0)) (f (load32 m (padd p (4 * i0))))).
    destruct (IH m1 (i0 + 1)) as [IHw IHb]. split.
    + intros j. rewrite IHw.
      destruct (Z.eq_dec j i0) as [->|Hne].
      * replace ((i0 + 1 <=? i0) && (i0 <? i0 + 1 + Z.of_nat n)) with false
          by (symmetry; apply andb_false_iff; left; apply Z.leb_gt; lia).
        replace ((i0 <=? i0) && (i0 <? i0 + Z.of_nat (S n))) with true
          by (symmetry; apply andb_true_iff; split;
              [apply Z.leb_le|apply Z.ltb_lt]; lia).
        unfold m1. rewrite load32_store32_same.
        apply u32_small, Hf, load32_range.
      * assert (Hother : load32 m1 (padd p (4 * j))
                         = load32 m (padd p (4 * j))).
        { unfold m1. apply load32_store32_other. cbn [padd blk ofs]. lia. }
        rewrite Hother.
        replace ((i0 + 1 <=? j) && (j <? i0 + 1 + Z.of_nat n))
          with ((i0 <=? j) && (j <? i0 + Z.of_nat (S n))); [reflexivity|].
        destruct (Z.leb_spec i0 j); destruct (Z.leb_spec (i0 + 1) j);
          destruct (Z.ltb_spec j (i0 + Z.of_nat (S n)));
          destruct (Z.ltb_spec j (i0 + 1 + Z.of_nat n)); cbn;
          reflexivity || lia.
    + intros q Hq. rewrite IHb by (destruct Hq as [H|[H|H]]; auto; right; lia).
      unfold m1. apply load8_store32_other. cbn [padd blk ofs].
      destruct Hq as [H|[H|H]]; auto; right; lia.
Qed.

Lemma ConvertColors_16bit_loop (m : Heap) (dst src : Ptr) (dstFmt : GLenum)
    (numPixels : Z) :
  is_16bit dstFmt -> 0 <= numPixels ->
  ConvertColors m dst src dstFmt numPixels
  = ConvertColors_loop (ConvertColors_word dstFmt) m dst src
      (Z.to_nat ((numPixels + 1) / 2)) 0.
Proof.
  intros Hfmt Hn.
  assert (Hq : Z.quot (numPixels + 1) 2 = (numPixels + 1) / 2)
    by (apply Z.quot_div_nonneg; lia).
  unfold ConvertColors. rewrite Hq.
  destruct Hfmt as [-> | [-> | ->]]; reflexivity.
Qed.

Lemma ConvertColors_in_place_word (m : Heap) (buf : Ptr) (dstFmt : GLenum)
    (numPixels j : Z) :
  is_16bit dstFmt -> 0 <= numPixels -> 0 <= j < (numPixels + 1) / 2 ->
  load32 (ConvertColors m buf buf dstFmt numPixels) (padd buf (4 * j))
  = ConvertColors_word dstFmt (load32 m (padd buf (4 * j))).
Proof.
  intros Hfmt Hn Hj.
  rewrite ConvertColors_16bit_loop by assumption.
  destruct (ConvertColors_loop_in_place (ConvertColors_word dstFmt) buf
              (ConvertColors_word_range dstFmt)
              (Z.to_nat ((numPixels + 1) / 2)) m 0) as [Hwd _].
  rewrite Z2Nat.id in Hwd by lia. rewrite Hwd.
  replace ((0 <=? j) && (j <? 0 + (numPixels + 1) / 2)) with true;
    [reflexivity|].
  symmetry. apply andb_true_iff. split; [apply Z.leb_le|apply Z.ltb_lt]; lia.
Qed.

(** X13.  [ConvertColors(buf, buf, dstFmt, numPixels)] with a 16-bit
    destination format works on whole 32-bit words: it rotates the
    [ceil(numPixels / 2)] words at [buf], each on its own, and changes no
    other byte of memory.  With an odd [numPixels] the 16-bit pixel after
    the last one is therefore converted as well, and with [numPixels = 0]
    memory is unchanged. *)
Theorem ConvertColors_in_place (m : Heap) (buf : Ptr) (dstFmt : GLenum)
    (numPixels : Z) :
  is_16bit dstFmt -> 0 <= numPixels ->
  let m' := ConvertColors m buf buf dstFmt numPixels in
  let words := (numPixels + 1) / 2 in
  (forall j, 0 <= j < words ->
     load32 m' (padd buf (4 * j))
     = ConvertColors_word dstFmt (load32 m (padd buf (4 * j))))
  /\ (forall q, blk q <> blk buf \/ ofs q < ofs buf
                \/ ofs buf + 4 * words <= ofs q ->
                load8 m' q = load8 m q).
Proof.
  intros Hfmt Hn. cbv zeta.
  assert (Hw : 0 <= (numPixels + 1) / 2) by (apply Z.div_pos; lia).
  split.
  - intros j Hj. apply ConvertColors_in_place_word; assumption.
  - intros q Hq. rewrite ConvertColors_16bit_loop by assumption.
    destruct (ConvertColors_loop_in_place (ConvertColors_word dstFmt) buf
                (ConvertColors_word_range dstFmt)
                (Z.to_nat ((numPixels + 1) / 2)) m 0) as [_ Hby].
    rewrite Z2Nat.id in Hby by lia.
    apply Hby. destruct Hq as [H|[H|H]]; auto; right; lia.
Qed.

Lemma ConvertColors_in_place_witness :
  is_16bit GL_UNSIGNED_SHORT_5_5_5_1 /\ 0 <= 3
  /\ load32 (ConvertColors ramp_heap (mkPtr HostMem 16) (mkPtr HostMem 16)
               GL_UNSIGNED_SHORT_5_5_5_1 3) (mkPtr HostMem 20)
     = convert5551 (load32 ramp_heap (mkPtr HostMem 20))
  /\ load8 (ConvertColors ramp_heap (mkPtr HostMem 16) (mkPtr HostMem 16)
              GL_UNSIGNED_SHORT_5_5_5_1 3) (mkPtr HostMem 24)
     = load8 ramp_heap (mkPtr HostMem 24).
Proof.
  assert (H1 : is_16bit GL_UNSIGNED_SHORT_5_5_5_1) by (right; left; reflexivity).
  assert (H2 : 0 <= 3) by lia.
  split; [exact H1|]. split; [exact H2|].
  pose proof (ConvertColors_in_place ramp_heap (mkPtr HostMem 16)
                GL_UNSIGNED_SHORT_5_5_5_1 3 H1 H2) as [Hw Hb].
  split.
  - exact (Hw 1 ltac:(cbn; lia)).
  - apply Hb. right. right. cbn. lia.
Defined.

(** X14.  The 4444 and 565 rotations undo themselves: converting a buffer
    in place twice with [GL_UNSIGNED_SHORT_4_4_4_4], or twice with
    [GL_UNSIGNED_SHORT_5_6_5], gives back every word of the buffer. *)
Theorem ConvertColors_in_place_twice (m : Heap) (buf : Ptr) (dstFmt : GLenum)
    (numPixels j : Z) :
  dstFmt = GL_UNSIGNED_SHORT_4_4_4_4 \/ dstFmt = GL_UNSIGNED_SHORT_5_6_5 ->
  0 <= numPixels -> 0 <= j < (numPixels + 1) / 2 ->
  load32 (ConvertColors (ConvertColors m buf buf dstFmt numPixels)
            buf buf dstFmt numPixels) (padd buf (4 * j))
  = load32 m (padd buf (4 * j)).
Proof.
  intros Hfmt Hn Hj.
  assert (H16 : is_16bit dstFmt) by (unfold is_16bit; tauto).
  rewrite !ConvertColors_in_place_word by assumption.
  destruct Hfmt as [-> | ->]; cbn [ConvertColors_word].
  - apply convert4444_involutive, load32_range.
  - apply convert565_involutive, load32_range.
Qed.

Lemma ConvertColors_in_place_twice_witness :
  (GL_UNSIGNED_SHORT_5_6_5 = GL_UNSIGNED_SHORT_4_4_4_4
   \/ GL_UNSIGNED_SHORT_5_6_5 = GL_UNSIGNED_SHORT_5_6_5)
  /\ 0 <= 8 /\ 0 <= 2 < (8 + 1) / 2
  /\ load32 (ConvertColors
               (ConvertColors ramp_heap (mkPtr HostMem 16) (mkPtr HostMem 16)
                  GL_UNSIGNED_SHORT_5_6_5 8)
               (mkPtr HostMem 16) (mkPtr HostMem 16) GL_UNSIGNED_SHORT_5_6_5 8)
            (padd (mkPtr HostMem 16) (4 * 2))
     = load32 ramp_heap (padd (mkPtr HostMem 16) (4 * 2)).
Proof.
  assert (H1 : GL_UNSIGNED_SHORT_5_6_5 = GL_UNSIGNED_SHORT_4_4_4_4
               \/ GL_UNSIGNED_SHORT_5_6_5 = GL_UNSIGNED_SHORT_5_6_5)
    by (right; reflexivity).
  assert (H2 : 0 <= 8) by lia.
  assert (H3 : 0 <= 2 < (8 + 1) / 2) by (cbn; lia).
  split; [exact H1|]. split; [exact H2|]. split; [exact H3|].
  exact (ConvertColors_in_place_twice ramp_heap (mkPtr HostMem 16)
           GL_UNSIGNED_SHORT_5_6_5 8 2 H1 H2 H3).
Defined.

(** X15.  The 5551 rotation is a permutation of the bits of each 16-bit
    pixel - alpha from bit 15 to bit 0, the three colour fields moved up or
    down as [bit5551] says - so it loses nothing: two words with the same
    conversion are equal. *)
Theorem convert5551_lossless (a b : Z) :
  0 <= a < 4294967296 -> 0 <= b < 4294967296 ->
  (forall n, 0 <= n < 32 ->
     Z.testbit (convert5551 a) (bit5551 n) = Z.testbit a n)
  /\ (convert5551 a = convert5551 b -> a = b).
Proof.
  intros Ha Hb. split; [intros n Hn; apply convert5551_bit, Hn|].
  intros Heq. apply Z.bits_inj'. intros n Hn.
  destruct (Z.ltb_spec n 32) as [Hlt|Hge].
  - rewrite <- (convert5551_bit a n), <- (convert5551_bit b n) by lia.
    now rewrite Heq.
  - rewrite !testbit_u32_high by assumption. reflexivity.
Qed.

Lemma convert5551_lossless_witness :
  0 <= 0x80000001 < 4294967296 /\ 0 <= 0x80000001 < 4294967296
  /\ Z.testbit (convert5551 0x80000001) (bit5551 31) = true.
Proof.
  assert (H : 0 <= 0x80000001 < 4294967296) by lia.
  split; [exact H|]. split; [exact H|].
  destruct (convert5551_lossless 0x80000001 0x80000001 H H) as [Hbit _].
  rewrite (Hbit 31) by lia. reflexivity.
Defined.

(** ** The alpha scan *)

Lemma CheckAlpha_4444_scan (m : Heap) (p : Ptr) (n : nat) :
  forall i hz,
    CheckAlpha_4444 m p n i hz
    = alpha_scan 0x000F000F (alpha_partial GL_UNSIGNED_SHORT_4_4_4_4) m p n i hz.
Proof.
  induction n as [|n IH]; intros i hz; cbn [CheckAlpha_4444 alpha_scan];
    [reflexivity|].
  cbn [alpha_partial]. destruct (_ && _); [reflexivity|apply IH].
Qed.

Lemma CheckAlpha_5551_scan (m : Heap) (p : Ptr) (n : nat) :
  forall i hz,
    CheckAlpha_5551 m p n i hz
    = alpha_scan 0x00010001 (alpha_partial GL_UNSIGNED_SHORT_5_5_5_1) m p n i hz.
Proof.
  induction n as [|n IH]; intros i hz; cbn [CheckAlpha_5551 alpha_scan];
    [reflexivity|].
  cbn [alpha_partial]. apply IH.
Qed.

Lemma CheckAlpha_8888_scan (m : Heap) (p : Ptr) (n : nat) :
  forall i hz,
    CheckAlpha_8888 m p n i hz
    = alpha_scan 0xFF000000 (alpha_partial GL_UNSIGNED_BYTE) m p n i hz.
Proof.
  induction n as [|n IH]; intros i hz; cbn [CheckAlpha_8888 alpha_scan];
    [reflexivity|].
  cbn [alpha_partial]. destruct (_ && _); [reflexivity|apply IH].
Qed.

Lemma lor_lxor_zero (hz a mask : Z) :
  Z.lor hz (Z.lxor a mask) = 0 <-> hz = 0 /\ a = mask.
Proof.
  rewrite Z.lor_eq_0_iff. split; intros [H1 H2]; split; auto.
  - apply Z.lxor_eq, H2.
  - subst. apply Z.lxor_nilpotent.
Qed.

Lemma alpha_scan_spec (mask : Z) (partial : Z -> bool) (m : Heap) (p : Ptr) :
  forall n i0 hz,
    let alpha j := Z.land (load32 m (padd p (4 * j))) mask in
    let r := alpha_scan mask partial m p n i0 hz in
    (snd r = 1
     /\ exists j, i0 <= j < i0 + Z.of_nat n /\ partial (alpha j) = true)
    \/ (snd r = 0
        /\ (forall j, i0 <= j < i0 + Z.of_nat n -> partial (alpha j) = false)
        /\ (fst r = 0 <->
            hz = 0 /\ forall j, i0 <= j < i0 + Z.of_nat n -> alpha j = mask)).
Proof.
  induction n as [|n IH]; intros i0 hz; cbv zeta.
  - right. cbn. split; [reflexivity|]. split; [intros; lia|].
    split; [intros ->; split; [reflexivity|intros; lia]|tauto].
  - cbn [alpha_scan].
    destruct (partial (Z.land (load32 m (padd p (4 * i0))) mask)) eqn:Hp.
    + left. split; [reflexivity|]. exists i0. split; [lia|exact Hp].
    + specialize (IH (i0 + 1)
                     (Z.lor hz (Z.lxor
                                  (Z.land (load32 m (padd p (4 * i0))) mask)
                                  mask))).
      cbv zeta in IH.
      destruct IH as [[Hs (j & Hj & Hpj)]|(Hs & Hnone & Hz)].
      * left. split; [exact Hs|]. exists j. split; [lia|exact Hpj].
      * right. split; [exact Hs|]. split.
        -- intros j Hj. destruct (Z.eq_dec j i0) as [->|Hne]; [exact Hp|].
           apply Hnone. lia.
        -- rewrite Hz, lor_lxor_zero. split.
           ++ intros [[H0 Ha] Hall]. split; [exact H0|].
              intros j Hj. destruct (Z.eq_dec j i0) as [->|Hne]; [exact Ha|].
              apply Hall. lia.
           ++ intros [H0 Hall]. split; [split; [exact H0|]|].
              ** apply Hall. lia.
              ** intros j Hj. apply Hall. lia.
Qed.

Lemma CheckAlpha_scan `{K : EntryConsts} (entry : TexCacheEntry) (m : Heap)
    (p : Ptr) (dstFmt : GLenum) (w h : Z) :
  0 <= w * h ->
  CheckAlpha entry m p dstFmt w h
  = let '(hitZeroAlpha, hitSomeAlpha) :=
      alpha_scan (alpha_mask dstFmt) (alpha_partial dstFmt) m p
        (Z.to_nat (alpha_words dstFmt w h)) 0 0 in
    if negb (hitSomeAlpha =? 0)
    then set_status (Z.lor (status entry) STATUS_ALPHA_UNKNOWN) entry
    else if negb (hitZeroAlpha =? 0)
    then set_status (Z.lor (status entry) STATUS_ALPHA_SIMPLE) entry
    else set_status (Z.lor (status entry) STATUS_ALPHA_FULL) entry.
Proof.
  intros Hn. unfold CheckAlpha.
  assert (Hq : Z.quot (w * h + 1) 2 = (w * h + 1) / 2)
    by (apply Z.quot_div_nonneg; lia).
  destruct dstFmt; cbn [alpha_mask alpha_words];
    rewrite ?Hq, ?CheckAlpha_4444_scan, ?CheckAlpha_5551_scan,
      ?CheckAlpha_8888_scan; reflexivity.
Qed.

(** X16.  [CheckAlpha] sorts the decoded pixels into three classes by the
    alpha bits of the words it scans ([ceil(w*h/2)] words of two pixels for
    the 16-bit formats, [w*h] words for 8888).  If some word has an alpha
    that is neither zero nor full ([alpha_partial]; never the case for
    5551) the entry gets [STATUS_ALPHA_UNKNOWN]; otherwise, if some word is
    not fully opaque, [STATUS_ALPHA_SIMPLE]; and if every word is fully
    opaque, [STATUS_ALPHA_FULL].  The flag is or-ed into [status] and no
    other field changes. *)
Theorem CheckAlpha_classifies `{K : EntryConsts} (entry : TexCacheEntry)
    (m : Heap) (p : Ptr) (dstFmt : GLenum) (w h : Z) :
  0 <= w * h ->
  let n := alpha_words dstFmt w h in
  let alpha i := word_alpha dstFmt m p i in
  let result flag := set_status (Z.lor (status entry) flag) entry in
  ((exists i, 0 <= i < n /\ alpha_partial dstFmt (alpha i) = true) ->
   CheckAlpha entry m p dstFmt w h = result STATUS_ALPHA_UNKNOWN)
  /\ ((forall i, 0 <= i < n -> alpha_partial dstFmt (alpha i) = false) ->
      (exists i, 0 <= i < n /\ alpha i <> alpha_mask dstFmt) ->
      CheckAlpha entry m p dstFmt w h = result STATUS_ALPHA_SIMPLE)
  /\ ((forall i, 0 <= i < n -> alpha i = alpha_mask dstFmt) ->
      CheckAlpha entry m p dstFmt w h = result STATUS_ALPHA_FULL).
Proof.
  intros Hn. cbv zeta. rewrite CheckAlpha_scan by exact Hn.
  assert (Hw : 0 <= alpha_words dstFmt w h).
  { destruct dstFmt; cbn; try lia; apply Z.div_pos; lia. }
  pose proof (alpha_scan_spec (alpha_mask dstFmt) (alpha_partial dstFmt) m p
                (Z.to_nat (alpha_words dstFmt w h)) 0 0) as Hspec.
  cbv zeta in Hspec. rewrite Z2Nat.id in Hspec by exact Hw.
  rewrite Z.add_0_l in Hspec.
  destruct (alpha_scan _ _ m p _ 0 0) as [hz hs].
  cbn [fst snd] in Hspec. unfold word_alpha.
  destruct Hspec as [[-> (j & Hj & Hpj)]|(-> & Hnone & Hz)]; cbn [negb Z.eqb].
  - split; [reflexivity|]. split.
    + intros Hall _. rewrite Hall in Hpj by exact Hj. discriminate.
    + intros Hall. rewrite Hall in Hpj by exact Hj.
      destruct dstFmt; discriminate.
  - split; [|split].
    + intros (i & Hi & Hpi). rewrite Hnone in Hpi by exact Hi. discriminate.
    + intros _ (i & Hi & Hne).
      destruct (Z.eqb_spec hz 0) as [H0|H0]; [|reflexivity].
      apply Hz in H0. destruct H0 as [_ Hall].
      elim Hne. apply Hall. exact Hi.
    + intros Hall.
      destruct (Z.eqb_spec hz 0) as [H0|H0]; [reflexivity|].
      elim H0. apply Hz. split; [reflexivity|exact Hall].
Qed.

Lemma CheckAlpha_classifies_witness :
  0 <= 2 * 2
  /\ @CheckAlpha example_consts (example_entry 0 0 0 0 0 1) cutout_heap
       (mkPtr HostMem 0) GL_UNSIGNED_BYTE 2 2
     = set_status (@STATUS_ALPHA_SIMPLE example_consts)
         (example_entry 0 0 0 0 0 1).
Proof.
  assert (H : 0 <= 2 * 2) by lia.
  split; [exact H|].
  destruct (@CheckAlpha_classifies example_consts (example_entry 0 0 0 0 0 1)
              cutout_heap (mkPtr HostMem 0) GL_UNSIGNED_BYTE 2 2 H)
    as (_ & Hsimple & _).
  rewrite Hsimple; [reflexivity| |].
  - intros i Hi. cbn in Hi.
    assert (Hc : i = 0 \/ i = 1 \/ i = 2 \/ i = 3) by lia.
    destruct Hc as [-> | [-> | [-> | ->]]]; reflexivity.
  - exists 2. split; [cbn; lia|]. vm_compute. discriminate.
Defined.

(** ** [UpdateSamplingParams] *)

Lemma land_7_range (x : Z) : 0 <= Z.land x 7 < 8.
Proof.
  change 7 with (Z.ones 3). rewrite Z.land_ones by lia.
  change (2 ^ 3) with 8. apply Z.mod_pos_bound. lia.
Qed.

Lemma land_1_range (x : Z) : 0 <= Z.land x 1 < 2.
Proof.
  pose proof (Z.land_ones x 1 ltac:(lia)) as H.
  change (Z.ones 1) with 1 in H. rewrite H.
  change (2 ^ 1) with 2. apply Z.mod_pos_bound. lia.
Qed.

Lemma lor_1_below_8 (x : Z) : 0 <= x < 8 -> 0 <= Z.lor x 1 < 8.
Proof.
  intros Hx. change 8 with (2 ^ 3). apply lor_range; cbn; lia.
Qed.

Lemma land_even_below_8 (x : Z) : 0 <= x < 8 -> 0 <= Z.land x (Z.lnot 1) < 8.
Proof.
  intros [H0 H8].
  destruct x as [|p|p]; [cbn; lia| |lia].
  destruct p as [[[p|p|]|[p|p|]|]|[[p|p|]|[p|p|]|]|]; cbn; lia.
Qed.

Lemma sampler_filters_range (E : Env) (maxLevel : Z) :
  0 <= fst (sampler_filters E maxLevel) < 8
  /\ 0 <= snd (sampler_filters E maxLevel) < 8.
Proof.
  unfold sampler_filters. cbv zeta. cbn [fst snd].
  pose proof (land_7_range (texfilter (gstate E))) as H7.
  pose proof (land_1_range (Z.shiftr (texfilter (gstate E)) 8)) as H1.
  pose proof (land_1_range (Z.land (texfilter (gstate E)) 7)) as H71.
  split.
  - repeat match goal with
           | |- context [if ?c then _ else _] => destruct c
           end;
      repeat first [apply lor_1_below_8 | apply land_even_below_8
                   | match goal with
                     | |- 0 <= Z.land ?x 1 < 8 =>
                         pose proof (land_1_range x); lia
                     end
                   | lia].
  - repeat match goal with
           | |- context [if ?c then _ else _] => destruct c
           end;
      repeat first [apply lor_1_below_8 | apply land_even_below_8
                   | match goal with
                     | |- 0 <= Z.land ?x 1 < 8 =>
                         pose proof (land_1_range x); lia
                     end
                   | lia].
Qed.

Lemma UpdateSamplingParams_checks `{P : Platform} (E : Env)
    (e : TexCacheEntry) (force : bool) :
  UpdateSamplingParams E e force = sampler_checks E e force.
Proof.
  unfold UpdateSamplingParams, sampler_checks, sampler_filters.
  cbv zeta. cbn [fst snd].
  destruct (maxLevel e =? 0);
    destruct ((TexFiltering_eqb (iTexFiltering (g_Config E)) LINEAR
               || TexFiltering_eqb (iTexFiltering (g_Config E)) LINEARFMV
                  && negb (g_iNumVideos E =? 0))
              && negb (isColorTestEnabled (gstate E)));
    destruct (TexFiltering_eqb (iTexFiltering (g_Config E)) NEAREST);
    destruct (negb (bMipMap (g_Config E))
              || (Z.land (texlevel (gstate E)) 16777215 =? 1)
                 || (Z.land (texlevel (gstate E)) 16777215 =? 1048577));
    cbn [negb andb];
    try destruct (force || negb (lodBias e =? 0));
    cbn [negb andb];
    repeat match goal with
           | |- context [if ?c then (_, _) else (_, _)] => destruct c
           end;
    destruct USING_GLES2; cbn [negb andb app]; rewrite ?app_nil_r;
    reflexivity.
Qed.

Lemma sampler_checks_fields `{P : Platform} (E : Env) (e : TexCacheEntry)
    (force : bool) :
  let e' := fst (sampler_checks E e force) in
  Entry.minFilt e' = snd (sampler_filters E (maxLevel e))
  /\ Entry.magFilt e' = fst (sampler_filters E (maxLevel e))
  /\ sClamp e' = isTexCoordClampedS (gstate E)
  /\ tClamp e' = isTexCoordClampedT (gstate E)
  /\ maxLevel e' = maxLevel e
  /\ (maxLevel e <> 0 -> lodBias e' = 0).
Proof.
  pose proof (sampler_filters_range E (maxLevel e)) as [Hmg Hmn].
  unfold sampler_checks. cbv zeta. cbn [fst].
  set (mg := fst (sampler_filters E (maxLevel e))) in *.
  set (mn := snd (sampler_filters E (maxLevel e))) in *.
  assert (Hu8mn : u8 mn = mn) by (apply Z.mod_small; lia).
  assert (Hu8mg : u8 mg = mg) by (apply Z.mod_small; lia).
  rewrite Hu8mn, Hu8mg. clearbody mg mn.
  destruct (Z.eqb_spec (maxLevel e) 0) as [Hm|Hm]; cbn [negb andb];
    destruct force; cbn [orb];
    try (destruct (lodBias e =? 0) eqn:Hl; cbn);
    try (destruct (Entry.minFilt e =? mn) eqn:H1; cbn);
    try (destruct (Entry.magFilt e =? mg) eqn:H2; cbn);
    try (destruct (Bool.eqb (sClamp e) (isTexCoordClampedS (gstate E)))
           eqn:H3; cbn);
    try (destruct (Bool.eqb (tClamp e) (isTexCoordClampedT (gstate E)))
           eqn:H4; cbn);
    repeat split; try reflexivity; try congruence;
    try (apply Z.eqb_eq; assumption);
    try (apply Bool.eqb_prop; assumption);
    try (intros _; apply Z.eqb_eq; assumption).
Qed.

Lemma sampler_checks_quiet `{P : Platform} (E : Env) (e : TexCacheEntry) :
  Entry.minFilt e = snd (sampler_filters E (maxLevel e)) ->
  Entry.magFilt e = fst (sampler_filters E (maxLevel e)) ->
  sClamp e = isTexCoordClampedS (gstate E) ->
  tClamp e = isTexCoordClampedT (gstate E) ->
  (maxLevel e <> 0 -> lodBias e = 0) ->
  sampler_checks E e false = (e, []).
Proof.
  intros Hmn Hmg Hs Ht Hlod.
  unfold sampler_checks. cbv zeta. cbn [orb].
  assert (Hl : negb (maxLevel e =? 0) && negb (lodBias e =? 0) = false).
  { destruct (Z.eqb_spec (maxLevel e) 0) as [Hm|Hm]; [reflexivity|].
    rewrite (Hlod Hm). reflexivity. }
  rewrite Hl. cbn [andb].
  rewrite <- Hmn, Z.eqb_refl. cbn [negb].
  rewrite <- Hmg, Z.eqb_refl. cbn [negb].
  rewrite <- Hs, Bool.eqb_reflx. cbn [negb].
  rewrite <- Ht, Bool.eqb_reflx. cbn [negb].
  reflexivity.
Qed.

(** X17.  [UpdateSamplingParams] is a dirty check that settles in one
    call: after any call, forced or not, a further unforced call with the
    same GE state and configuration makes no GL call and leaves the entry
    as it is. *)
Theorem UpdateSamplingParams_settles `{P : Platform} (E : Env)
    (entry : TexCacheEntry) (force : bool) :
  UpdateSamplingParams E (fst (UpdateSamplingParams E entry force)) false
  = (fst (UpdateSamplingParams E entry force), []).
Proof.
  rewrite !UpdateSamplingParams_checks.
  destruct (sampler_checks_fields E entry force)
    as (Hmn & Hmg & Hs & Ht & Hml & Hlod).
  apply sampler_checks_quiet; rewrite ?Hml; try assumption.
Qed.

Lemma In_app5 (A : Type) (x : A) (a b c d e : list A) :
  In x ((((a ++ b) ++ c) ++ d) ++ e) ->
  In x a \/ In x b \/ In x c \/ In x d \/ In x e.
Proof. rewrite !in_app_iff. tauto. Qed.

(** X18.  For a texture without mip levels ([maxLevel == 0]), and whenever
    mipmapping is switched off in the configuration, the minification
    filter that [UpdateSamplingParams] programs is [GL_NEAREST] or
    [GL_LINEAR], never one of the mipmap filters, whatever the GE filter
    register asks for; the magnification filter is always one of the
    two. *)
Theorem UpdateSamplingParams_no_mip_filter `{P : Platform} (E : Env)
    (entry : TexCacheEntry) (force : bool) (pname : GLpname) (v : GLvalue) :
  maxLevel entry = 0 \/ bMipMap (g_Config E) = false ->
  pname = GL_TEXTURE_MIN_FILTER \/ pname = GL_TEXTURE_MAG_FILTER ->
  In (glTexParameteri pname v) (snd (UpdateSamplingParams E entry force)) ->
  v = GL_NEAREST \/ v = GL_LINEAR.
Proof.
  intros Hflat Hp Hin.
  rewrite UpdateSamplingParams_checks in Hin.
  assert (Hmn : 0 <= snd (sampler_filters E (maxLevel entry)) < 2).
  { unfold sampler_filters. cbv zeta. cbn [snd].
    destruct Hflat as [-> | ->]; cbn [Z.eqb negb orb].
    - repeat match goal with
             | |- context [if ?c then _ else _] => destruct c
             end;
        match goal with
        | |- 0 <= Z.land ?x 1 < 2 => apply land_1_range
        | |- 0 <= Z.lor (Z.land ?x 1) 1 < 2 =>
            pose proof (land_1_range x) as Hx;
            change 2 with (2 ^ 1); apply lor_range; cbn; lia
        | |- 0 <= Z.land (Z.land ?x 1) (Z.lnot 1) < 2 =>
            pose proof (land_1_range x) as Hx;
            assert (Hc : Z.land x 1 = 0 \/ Z.land x 1 = 1) by lia;
            destruct Hc as [-> | ->]; cbn; lia
        | |- 0 <= Z.land (Z.lor (Z.land ?x 1) 1) (Z.lnot 1) < 2 =>
            pose proof (land_1_range x) as Hx;
            assert (Hc : Z.land x 1 = 0 \/ Z.land x 1 = 1) by lia;
            destruct Hc as [-> | ->]; cbn; lia
        end.
    - apply land_1_range. }
  assert (Hmg : 0 <= fst (sampler_filters E (maxLevel entry)) < 2).
  { unfold sampler_filters. cbv zeta. cbn [fst].
    pose proof (land_1_range (Z.shiftr (texfilter (gstate E)) 8)) as Hx.
    repeat match goal with
           | |- context [if ?c then _ else _] => destruct c
           end;
      try apply land_1_range;
      try (change 2 with (2 ^ 1); apply lor_range; cbn; lia);
      try (assert (Hc : Z.land (Z.shiftr (texfilter (gstate E)) 8) 1 = 0
                        \/ Z.land (Z.shiftr (texfilter (gstate E)) 8) 1 = 1)
             by lia;
           destruct Hc as [-> | ->]; cbn; lia);
      try lia. }
  unfold sampler_checks in Hin. cbv zeta in Hin. cbn [snd] in Hin.
  apply In_app5 in Hin.
  set (mn := snd (sampler_filters E (maxLevel entry))) in *.
  set (mg := fst (sampler_filters E (maxLevel entry))) in *.
  assert (Hnth_mn : nth (Z.to_nat mn) MinFiltGL GL_NEAREST = GL_NEAREST
                    \/ nth (Z.to_nat mn) MinFiltGL GL_NEAREST = GL_LINEAR).
  { assert (Hc : mn = 0 \/ mn = 1) by lia.
    destruct Hc as [-> | ->]; [left|right]; reflexivity. }
  assert (Hnth_mg : nth (Z.to_nat mg) MagFiltGL GL_NEAREST = GL_NEAREST
                    \/ nth (Z.to_nat mg) MagFiltGL GL_NEAREST = GL_LINEAR).
  { assert (Hc : mg = 0 \/ mg = 1) by lia.
    destruct Hc as [-> | ->]; [left|right]; reflexivity. }
  destruct Hin as [Hin|[Hin|[Hin|[Hin|Hin]]]];
    match type of Hin with
    | In _ (if ?c then _ else _) => destruct c
    end;
    try (destruct Hin as [Hin|[]]); try contradiction;
    try discriminate;
    try (injection Hin as <- <-; assumption);
    destruct Hp as [-> | ->]; discriminate.
Qed.

Lemma UpdateSamplingParams_no_mip_filter_witness :
  (maxLevel (example_entry 0 0 0 0 0 1) = 0
   \/ bMipMap (g_Config trilinear_env) = false)
  /\ (GL_TEXTURE_MIN_FILTER = GL_TEXTURE_MIN_FILTER
      \/ GL_TEXTURE_MIN_FILTER = GL_TEXTURE_MAG_FILTER)
  /\ In (glTexParameteri GL_TEXTURE_MIN_FILTER GL_LINEAR)
        (snd (@UpdateSamplingParams (example_platform false) trilinear_env
                (example_entry 0 0 0 0 0 1) true))
  /\ (GL_LINEAR = GL_NEAREST \/ GL_LINEAR = GL_LINEAR).
Proof.
  assert (H1 : maxLevel (example_entry 0 0 0 0 0 1) = 0
               \/ bMipMap (g_Config trilinear_env) = false)
    by (left; reflexivity).
  assert (H2 : GL_TEXTURE_MIN_FILTER = GL_TEXTURE_MIN_FILTER
               \/ GL_TEXTURE_MIN_FILTER = GL_TEXTURE_MAG_FILTER)
    by (left; reflexivity).
  assert (H3 : In (glTexParameteri GL_TEXTURE_MIN_FILTER GL_LINEAR)
                  (snd (@UpdateSamplingParams (example_platform false)
                          trilinear_env (example_entry 0 0 0 0 0 1) true)))
    by (vm_compute; left; reflexivity).
  split; [exact H1|]. split; [exact H2|]. split; [exact H3|].
  exact (@UpdateSamplingParams_no_mip_filter (example_platform false)
           trilinear_env (example_entry 0 0 0 0 0 1) true
           GL_TEXTURE_MIN_FILTER GL_LINEAR H1 H2 H3).
Defined.

(** ** [SetTexture]: keys, hits and what the lookup keeps *)

Lemma land_mask_range (x mask k : Z) :
  0 < k -> 0 <= mask < 2 ^ k -> 0 <= Z.land x mask < 2 ^ k.
Proof.
  intros Hk Hm.
  assert (Heq : Z.land x mask = Z.land (x mod 2 ^ k) mask).
  { apply Z.bits_inj'. intros n Hn. rewrite !Z.land_spec.
    destruct (Z.ltb_spec n k) as [Hlt|Hge].
    - rewrite Z.mod_pow2_bits_low by lia. reflexivity.
    - assert (Hb : Z.testbit mask n = false).
      { destruct (Z.eq_dec mask 0) as [->|Hne]; [apply Z.bits_0|].
        apply Z.bits_above_log2; [lia|].
        pose proof (log2_lt_pow2_0 mask k Hk Hm). lia. }
      rewrite Hb, !andb_false_r. reflexivity. }
  rewrite Heq. apply land_range; try lia.
  apply Z.mod_pos_bound. apply Z.pow_pos_nonneg; lia.
Qed.

Lemma level_texaddr_range (g : GPUgstate) (level : Z) :
  0 <= level_texaddr g level < 268435456
  /\ level_texaddr g level mod 16 = 0.
Proof.
  unfold level_texaddr. split.
  - change 268435456 with (2 ^ 28).
    apply lor_range; [lia| |]; apply land_mask_range; try lia;
      change (2 ^ 28) with 268435456; lia.
  - change 16 with (2 ^ 4). rewrite <- Z.land_ones by lia.
    rewrite Z.land_lor_distr_l, <- !Z.land_assoc.
    change (Z.land 16777200 (Z.ones 4)) with 0.
    change (Z.land 251658240 (Z.ones 4)) with 0.
    rewrite !Z.land_0_r. reflexivity.
Qed.

Lemma lxor_range (a b k : Z) :
  0 < k -> 0 <= a < 2 ^ k -> 0 <= b < 2 ^ k -> 0 <= Z.lxor a b < 2 ^ k.
Proof.
  intros Hk Ha Hb.
  assert (H0 : 0 <= Z.lxor a b) by (apply Z.lxor_nonneg; lia).
  split; [exact H0|].
  destruct (Z.eq_dec (Z.lxor a b) 0) as [->|Hne].
  - apply Z.pow_pos_nonneg; lia.
  - apply Z.log2_lt_pow2; [lia|].
    eapply Z.le_lt_trans; [apply Z.log2_lxor; lia|].
    apply Z.max_lub_lt; apply log2_lt_pow2_0; lia.
Qed.

Lemma UpdateCurrentClut_clutHash `{P : Platform} (E : Env) (w : World) :
  0 <= clutHash_ (tc (UpdateCurrentClut E w)) < 4294967296.
Proof.
  unfold UpdateCurrentClut. cbv zeta.
  destruct (_ && _); cbn; apply u32_range.
Qed.

(** X19.  The key under which [SetTexture] looks a texture up carries the
    texture address in its upper 32 bits and the palette hash in its lower
    32 bits: [cachekey = texaddr * 2^32 + cluthash] with
    [0 <= cluthash < 2^32] ([cluthash] is 0 for a format without palette).
    The address is the 28-bit, 16-byte aligned value assembled from the two
    registers, so the key of a texture at an address other than 0 is at
    least [2^32], and textures at different addresses never share a key. *)
Theorem SetTexture_cachekey_layout `{P : Platform} (E : Env) (w : World) :
  0 <= clutHash_ (tc w) < 4294967296 ->
  0 <= clutformat (gstate E) < 4294967296 ->
  let L := snd (SetTexture_prelude E w) in
  l_texaddr L = level_texaddr (gstate E) 0
  /\ 0 <= l_texaddr L < 268435456 /\ l_texaddr L mod 16 = 0
  /\ 0 <= l_cluthash L < 4294967296
  /\ (isTextureFormatIndexed (gstate E) = false -> l_cluthash L = 0)
  /\ l_cachekey L = l_texaddr L * 4294967296 + l_cluthash L
  /\ l_cachekey L / 4294967296 = l_texaddr L
  /\ (l_texaddr L <> 0 -> 4294967296 <= l_cachekey L).
Proof.
  intros Hh Hf. cbv zeta.
  destruct (level_texaddr_range (gstate E) 0) as [Hr Hal].
  unfold SetTexture_prelude. cbv zeta.
  cbn [snd l_texaddr l_cluthash l_cachekey].
  set (ta := level_texaddr (gstate E) 0) in *.
  assert (Hkey : u64 (Z.shiftl ta 32) = ta * 4294967296).
  { rewrite Z.shiftl_mul_pow2 by lia. change (2 ^ 32) with 4294967296.
    apply Z.mod_small. lia. }
  rewrite Hkey.
  destruct (isTextureFormatIndexed (gstate E)) eqn:Hidx; cbn [andb].
  - set (ch := Z.lxor _ (clutformat (gstate E))).
    assert (Hch : 0 <= ch < 4294967296).
    { unfold ch. change 4294967296 with (2 ^ 32).
      apply lxor_range; [lia| |exact Hf].
      destruct (negb _); [apply UpdateCurrentClut_clutHash|exact Hh]. }
    assert (Hlor : Z.lor (ta * 4294967296) ch = ta * 4294967296 + ch).
    { change 4294967296 with (2 ^ 32). apply lor_hi_lo; [lia|exact Hch]. }
    rewrite Hlor.
    split; [reflexivity|]. split; [exact Hr|]. split; [exact Hal|].
    split; [exact Hch|]. split; [discriminate|]. split; [reflexivity|].
    split; [|lia].
    rewrite Z.div_add_l by lia. rewrite Z.div_small by lia. lia.
  - split; [reflexivity|]. split; [exact Hr|]. split; [exact Hal|].
    split; [lia|]. split; [reflexivity|]. split; [lia|].
    split; [|lia].
    rewrite Z.div_mul by lia. reflexivity.
Qed.

Lemma SetTexture_cachekey_layout_witness :
  let w := example_world [] [] false 13 0 zero_heap in
  0 <= clutHash_ (tc w) < 4294967296
  /\ 0 <= clutformat (gstate thrash_env) < 4294967296
  /\ l_cachekey (snd (@SetTexture_prelude (example_platform false)
                        thrash_env w))
     = 0x08900000 * 4294967296.
Proof.
  cbv zeta.
  assert (H1 : 0 <= clutHash_ (tc (example_world [] [] false 13 0 zero_heap))
               < 4294967296) by (cbn; lia).
  assert (H2 : 0 <= clutformat (gstate thrash_env) < 4294967296)
    by (cbn; lia).
  split; [exact H1|]. split; [exact H2|].
  destruct (@SetTexture_cachekey_layout (example_platform false)
              thrash_env _ H1 H2) as (_ & _ & _ & _ & _ & Hk & _).
  rewrite Hk. reflexivity.
Defined.

Lemma set_lastFrame_same (e : TexCacheEntry) (v : Z) :
  lastFrame e = v -> set_lastFrame v e = e.
Proof. intros <-. destruct e; reflexivity. Qed.

Lemma set_gl_same (w : World) : set_gl (gl w ++ []) w = w.
Proof. rewrite app_nil_r. destruct w; reflexivity. Qed.

(** X20.  Binding the texture that is already bound costs nothing: right
    after the hit path of [SetTexture] has run on an entry, running it
    again on the resulting entry and state (same frame, same GE state)
    makes no GL call at all - neither [glBindTexture] nor a sampler
    parameter - and changes neither the entry nor the state. *)
Theorem SetTexture_hit_again `{K : EntryConsts} `{P : Platform} (E : Env)
    (entry : TexCacheEntry) (w : World) :
  let r := SetTexture_hit E entry w in
  SetTexture_hit E (fst r) (snd r) = r.
Proof.
  cbv zeta.
  destruct (SetTexture_hit_effect E entry w) as (He & _ & _ & Hb & _).
  destruct (SetTexture_hit E entry w) as [e1 w1] eqn:Hr.
  cbn [fst snd] in *.
  assert (Hflips : numFlips (gpuStats w1) = numFlips (gpuStats w)).
  { unfold SetTexture_hit in Hr.
    destruct (UpdateSamplingParams E _ false) as [e' calls].
    injection Hr as _ <-.
    destruct (negb _); reflexivity. }
  destruct (UpdateSamplingParams_keeps E
              (set_lastFrame (numFlips (gpuStats w)) entry) false)
    as (Ht & Hl & _ & _).
  cbv zeta in Ht, Hl. rewrite <- He in Ht, Hl. cbn in Ht, Hl.
  assert (Hquiet : UpdateSamplingParams E e1 false = (e1, [])).
  { rewrite He. rewrite !UpdateSamplingParams_checks.
    destruct (sampler_checks_fields E
                (set_lastFrame (numFlips (gpuStats w)) entry) false)
      as (Hmn & Hmg & Hs & Htc & Hml & Hlod).
    apply sampler_checks_quiet; rewrite ?Hml; assumption. }
  unfold SetTexture_hit.
  rewrite Hflips, (set_lastFrame_same e1) by exact Hl.
  rewrite Hb, Ht, Z.eqb_refl. cbn [negb].
  rewrite Hquiet, set_gl_same. reflexivity.
Qed.

Lemma find_assign_keeps (k k0 : Z) (e : TexCacheEntry) (c : TexCache) :
  find k0 c <> None -> find k0 (assign k e c) <> None.
Proof.
  intros H. destruct (Z.eq_dec k0 k) as [->|Hne].
  - rewrite find_assign_same. discriminate.
  - rewrite find_assign_other by exact Hne. exact H.
Qed.

Lemma UpdateCurrentClut_maps `{P : Platform} (E : Env) (w : World) :
  cache (tc (UpdateCurrentClut E w)) = cache (tc w)
  /\ secondCache (tc (UpdateCurrentClut E w)) = secondCache (tc w).
Proof.
  unfold UpdateCurrentClut. cbv zeta.
  destruct (_ && _); split; reflexivity.
Qed.

Lemma SetTexture_prelude_maps `{P : Platform} (E : Env) (w : World) :
  cache (tc (fst (SetTexture_prelude E w))) = cache (tc w)
  /\ secondCache (tc (fst (SetTexture_prelude E w))) = secondCache (tc w).
Proof.
  unfold SetTexture_prelude. cbv zeta. cbn [fst].
  destruct (_ && _); cbn; [apply UpdateCurrentClut_maps|split; reflexivity].
Qed.

Lemma SetTextureFramebuffer_maps `{P : Platform} (E : Env)
    (entry : TexCacheEntry) (w : World) :
  tc (snd (SetTextureFramebuffer E entry w)) = tc w.
Proof.
  unfold SetTextureFramebuffer. cbv zeta.
  destruct (negb (is_FB_NON_BUFFERED_MODE _)); [|reflexivity].
  destruct (_ && _); destruct (UpdateSamplingParams E entry false);
    reflexivity.
Qed.

Lemma SetTexture_miss_maps `{K : EntryConsts} (E : Env) (format maxLevel : Z)
    (doDelete : bool) (entry : TexCacheEntry) (w : World) :
  cache (tc (snd (fst (SetTexture_miss E format maxLevel doDelete entry w))))
  = cache (tc w)
  /\ secondCache
       (tc (snd (fst (SetTexture_miss E format maxLevel doDelete entry w))))
     = secondCache (tc w).
Proof.
  unfold SetTexture_miss. cbv zeta.
  destruct doDelete; [|split; reflexivity].
  destruct (_ && _); [split; reflexivity|].
  destruct (texture _ =? lastBoundTexture _); split; reflexivity.
Qed.

Lemma SetTexture_secondChance_keeps (lowmem : bool) (second : TexCache)
    (fullhash cluthash dim format maxLevel : Z) (entry : TexCacheEntry)
    (k : Z) :
  find k second <> None ->
  find k (snd (fst (fst (fst (SetTexture_secondChance lowmem second fullhash
                                 cluthash dim format maxLevel entry)))))
  <> None.
Proof.
  intros H. unfold SetTexture_secondChance.
  destruct (_ && _); [|exact H].
  generalize (Z.lor fullhash (Z.shiftl cluthash 32)). intros k2.
  destruct (Z.eq_dec k2 k) as [->|Hne].
  - destruct (find k second) as [se|] eqn:Hf; [|congruence].
    destruct (Matches se dim format maxLevel); cbn; rewrite Hf; discriminate.
  - destruct (find k2 second) as [se|].
    + destruct (Matches se dim format maxLevel); exact H.
    + cbn. apply find_assign_keeps, H.
Qed.

Lemma keeps_keys_same (w w' : World) :
  cache (tc w') = cache (tc w) -> secondCache (tc w') = secondCache (tc w) ->
  keeps_keys w w'.
Proof. intros H1 H2. split; intros k; rewrite ?H1, ?H2; auto. Qed.

Lemma keeps_keys_trans (w1 w2 w3 : World) :
  keeps_keys w1 w2 -> keeps_keys w2 w3 -> keeps_keys w1 w3.
Proof. intros [A1 A2] [B1 B2]. split; intros k H; auto. Qed.

Lemma keeps_keys_put_cache (k : Z) (e : TexCacheEntry) (w : World) :
  keeps_keys w (put_cache k e w).
Proof.
  split; intros k0 H; cbn; [apply find_assign_keeps|]; exact H.
Qed.

Lemma keeps_keys_put_secondCache (k : Z) (e : TexCacheEntry) (w : World) :
  keeps_keys w (put_secondCache k e w).
Proof.
  split; intros k0 H; cbn; [|apply find_assign_keeps]; exact H.
Qed.

Lemma keeps_keys_hit `{K : EntryConsts} `{P : Platform} (E : Env)
    (entry : TexCacheEntry) (w : World) :
  keeps_keys w (snd (SetTexture_hit E entry w)).
Proof.
  destruct (SetTexture_hit_effect E entry w) as (_ & H1 & H2 & _).
  apply keeps_keys_same; assumption.
Qed.

(** X21.  The lookup half of [SetTexture] never drops an entry: whichever
    way it ends - invalid address, framebuffer, hit, second-chance hit, or
    the decision to decode - every key that was in the primary map is still
    in it, and every key that was in the second-chance map is still in
    it. *)
Theorem SetTexture_lookup_keeps_keys `{K : EntryConsts} `{P : Platform}
    (E : Env) (w : World) :
  keeps_keys w (world_of (SetTexture_lookup E w)).
Proof.
  unfold SetTexture_lookup. cbv zeta.
  destruct (negb (IsValidAddress _)).
  { apply keeps_keys_same; reflexivity. }
  destruct (SetTexture_prelude_maps E w) as [Hp1 Hp2].
  destruct (SetTexture_prelude E w) as [w0 L]. cbn [fst] in Hp1, Hp2.
  apply (keeps_keys_trans w w0); [apply keeps_keys_same; assumption|].
  clear Hp1 Hp2.
  destruct (find (l_cachekey L) (cache (tc w0))) as [entry|];
    [|apply keeps_keys_put_cache].
  destruct (negb (framebuffer entry =? 0)).
  { pose proof (SetTextureFramebuffer_maps E entry w0) as Hf.
    destruct (SetTextureFramebuffer E entry w0) as [e1 w1]. cbn [snd] in Hf.
    cbn [world_of].
    eapply keeps_keys_trans; [|apply keeps_keys_put_cache].
    apply keeps_keys_same; cbn; rewrite Hf; reflexivity. }
  destruct (if Matches entry _ _ _ then _ else _) as [[e1 fullhash] hashFail].
  set (sc := if hashFail then _ else _).
  assert (Hsc : forall k, find k (secondCache (tc w0)) <> None ->
                          find k (snd (fst (fst (fst sc)))) <> None).
  { intros k Hk. unfold sc. destruct hashFail; [|exact Hk].
    apply SetTexture_secondChance_keeps, Hk. }
  destruct sc as [[[[e2 second'] match_] doDelete] swapped].
  cbn [fst snd] in Hsc.
  set (w1 := put_cache (l_cachekey L) e2
               (set_tc (set_secondCache second' (tc w0)) w0)).
  assert (H01 : keeps_keys w0 w1).
  { split; intros k Hk; cbn; [apply find_assign_keeps, Hk|apply Hsc, Hk]. }
  apply (keeps_keys_trans w0 w1); [exact H01|].
  destruct match_.
  - destruct swapped as [[secondKey secondEntry]|].
    + pose proof (keeps_keys_hit E secondEntry w1) as Hh.
      destruct (SetTexture_hit E secondEntry w1) as [e3 w2].
      cbn [snd] in Hh. cbn [world_of].
      eapply keeps_keys_trans; [exact Hh|apply keeps_keys_put_secondCache].
    + pose proof (keeps_keys_hit E e2 w1) as Hh.
      destruct (SetTexture_hit E e2 w1) as [e3 w2].
      cbn [snd] in Hh. cbn [world_of].
      eapply keeps_keys_trans; [exact Hh|apply keeps_keys_put_cache].
  - pose proof (SetTexture_miss_maps E (l_format L) (l_maxLevel L) doDelete
                  e2 w1) as [Hm1 Hm2].
    destruct (SetTexture_miss E (l_format L) (l_maxLevel L) doDelete e2 w1)
      as [[e3 w2] replaceImages].
    cbn [fst snd] in Hm1, Hm2. cbn [world_of].
    eapply keeps_keys_trans; [|apply keeps_keys_put_cache].
    apply keeps_keys_same; assumption.
Qed.

(** ** [QuickClutHash] *)

Lemma u32_add_l (a b : Z) : u32 (u32 a + b) = u32 (a + b).
Proof. unfold u32. apply Z.add_mod_idemp_l. lia. Qed.

Lemma u32_add_r (a b : Z) : u32 (a + u32 b) = u32 (a + b).
Proof. unfold u32. apply Z.add_mod_idemp_r. lia. Qed.

Lemma QuickClutHash_scalar_loop_sum (m : Heap) :
  forall (n : nat) (p : Ptr) (hash : Z),
    QuickClutHash_scalar_loop m p n hash
    = match n with
      | O => hash
      | S _ => u32 (hash + prime * word_sum m p n)
      end.
Proof.
  induction n as [|n IH]; intros p hash; [reflexivity|].
  cbn [QuickClutHash_scalar_loop]. rewrite IH.
  destruct n as [|n].
  - cbn [word_sum]. rewrite u32_add_r. f_equal. lia.
  - change (word_sum m p (S (S n)))
      with (load32 m p + word_sum m (padd p 4) (S n)).
    rewrite u32_add_l, <- Z.add_assoc, (Z.add_comm (u32 _)), Z.add_assoc,
      u32_add_r.
    f_equal. lia.
Qed.

(** X22.  The scalar [QuickClutHash] is the sum of the palette's 32-bit
    words times the constant [2246822519], modulo [2^32]: it is 0 for an
    empty palette, and two palettes of the same size whose words have the
    same sum - the same entries in another order, say - have the same
    hash. *)
Theorem QuickClutHash_scalar_is_word_sum (m : Heap) (clut : Ptr) (bytes : Z) :
  QuickClutHash_scalar m clut bytes
  = u32 (prime * word_sum m clut (Z.to_nat ((bytes + 3) / 4))).
Proof.
  unfold QuickClutHash_scalar. rewrite QuickClutHash_scalar_loop_sum.
  destruct (Z.to_nat ((bytes + 3) / 4)); [reflexivity|].
  rewrite Z.add_0_l. reflexivity.
Qed.

Lemma QuickClutHash_sse_loop_even (m1 m2 : Heap) (p : Ptr) :
  forall (n : nat) (i : Z) (cursor : m128i),
    0 <= i ->
    same_even_words m1 m2 p (i + Z.of_nat n) ->
    QuickClutHash_sse_loop m1 p n i cursor
    = QuickClutHash_sse_loop m2 p n i cursor.
Proof.
  induction n as [|n IH]; intros i cursor Hi Hs; [reflexivity|].
  cbn [QuickClutHash_sse_loop].
  assert (Hmul : _mm_mul_epu32 (_mm_load_si128 m1 (padd p (16 * i)))
                   (_mm_set1_epi32 prime)
                 = _mm_mul_epu32 (_mm_load_si128 m2 (padd p (16 * i)))
                     (_mm_set1_epi32 prime)).
  { destruct (Hs i ltac:(lia)) as [H0 H2].
    unfold _mm_mul_epu32, _mm_load_si128. cbn [lane0 lane2].
    rewrite padd_padd, H0, H2. reflexivity. }
  rewrite Hmul. apply IH; [lia|].
  intros j Hj. apply Hs. lia.
Qed.

(** X23.  The aligned (SSE2) [QuickClutHash] reads only every other word:
    [_mm_mul_epu32] multiplies lanes 0 and 2 of each 16-byte group, so two
    palettes that agree in the words 0 and 2 of every group hash alike,
    whatever their words 1 and 3 hold. *)
Theorem QuickClutHash_sse_ignores_odd_words (m1 m2 : Heap) (clut : Ptr)
    (bytes : Z) :
  same_even_words m1 m2 clut (bytes / 16) ->
  QuickClutHash_sse m1 clut bytes = QuickClutHash_sse m2 clut bytes.
Proof.
  intros Hs. unfold QuickClutHash_sse.
  rewrite (QuickClutHash_sse_loop_even m1 m2 clut
             (Z.to_nat (bytes / 16)) 0 (_mm_set1_epi32 0)); [reflexivity|lia|].
  intros i Hi. apply Hs. lia.
Qed.

Lemma QuickClutHash_sse_ignores_odd_words_witness :
  same_even_words (odd_word_heap 1) (odd_word_heap 2) (mkPtr ClutBufRaw 0)
    (32 / 16)
  /\ load32 (odd_word_heap 1) (mkPtr ClutBufRaw 4)
     <> load32 (odd_word_heap 2) (mkPtr ClutBufRaw 4)
  /\ QuickClutHash_sse (odd_word_heap 1) (mkPtr ClutBufRaw 0) 32
     = QuickClutHash_sse (odd_word_heap 2) (mkPtr ClutBufRaw 0) 32.
Proof.
  assert (H : same_even_words (odd_word_heap 1) (odd_word_heap 2)
                (mkPtr ClutBufRaw 0) (32 / 16)).
  { intros i Hi. change (32 / 16) with 2 in Hi.
    assert (Hc : i = 0 \/ i = 1) by lia.
    destruct Hc as [-> | ->]; split; reflexivity. }
  split; [exact H|]. split; [vm_compute; discriminate|].
  exact (QuickClutHash_sse_ignores_odd_words _ _ _ 32 H).
Defined.

(** ** The row packing at the end of [DecodeTextureLevel] *)

Lemma load8_memmove (m : Heap) (dst src q : Ptr) (n : Z) :
  load8 (memmove m dst src n) q
  = if Block_eqb (blk q) (blk dst) && (ofs dst <=? ofs q)
       && (ofs q <? ofs dst + n)
    then load8 m (padd src (ofs q - ofs dst))
    else load8 m q.
Proof.
  unfold load8, memmove. cbn [blk ofs padd].
  destruct (_ && _ && _); reflexivity.
Qed.

Lemma rearrange_rows_frame (inRowBytes outRowBytes : Z) :
  0 <= outRowBytes ->
  forall (n : nat) (m : Heap) (write read q : Ptr),
    blk q <> blk write \/ ofs q < ofs write ->
    load8 (rearrange_rows m write read inRowBytes outRowBytes n) q
    = load8 m q.
Proof.
  intros Hout. induction n as [|n IH]; intros m write read q Hq;
    [reflexivity|].
  cbn [rearrange_rows].
  rewrite IH
    by (destruct Hq as [Hq|Hq]; [left; exact Hq|right; cbn [ofs padd]; lia]).
  rewrite load8_memmove.
  destruct Hq as [Hq|Hq].
  - rewrite Block_eqb_neq by exact Hq. reflexivity.
  - replace (ofs write <=? ofs q) with false
      by (symmetry; apply Z.leb_gt; exact Hq).
    rewrite andb_false_r. reflexivity.
Qed.

Lemma rearrange_rows_spec (inRowBytes outRowBytes : Z) :
  0 <= outRowBytes <= inRowBytes \/ 0 <= outRowBytes /\ 0 <= inRowBytes ->
  forall (n : nat) (m : Heap) (write read : Ptr),
    blk write <> blk read
    \/ (ofs write <= ofs read /\ outRowBytes <= inRowBytes) ->
    forall y j, 0 <= y < Z.of_nat n -> 0 <= j < outRowBytes ->
      load8 (rearrange_rows m write read inRowBytes outRowBytes n)
        (padd write (y * outRowBytes + j))
      = load8 m (padd read (y * inRowBytes + j)).
Proof.
  intros Hsz.
  assert (Hout : 0 <= outRowBytes) by lia.
  assert (Hin : 0 <= inRowBytes) by lia.
  induction n as [|n IH]; intros m write read Hpos y j Hy Hj; [lia|].
  cbn [rearrange_rows].
  destruct (Z.eq_dec y 0) as [->|Hy0].
  - rewrite rearrange_rows_frame by (exact Hout || (cbn [blk ofs padd]; lia)).
    rewrite load8_memmove. cbn [blk ofs padd].
    rewrite Block_eqb_refl.
    replace (ofs write <=? ofs write + (0 * outRowBytes + j)) with true
      by (symmetry; apply Z.leb_le; lia).
    replace (ofs write + (0 * outRowBytes + j) <? ofs write + outRowBytes)
      with true by (symmetry; apply Z.ltb_lt; lia).
    cbn [andb]. f_equal. f_equal. lia.
  - replace (padd write (y * outRowBytes + j))
      with (padd (padd write outRowBytes) ((y - 1) * outRowBytes + j))
      by (rewrite padd_padd; f_equal; lia).
    rewrite IH; try lia.
    + rewrite (padd_padd read).
      replace (inRowBytes + ((y - 1) * inRowBytes + j))
        with (y * inRowBytes + j) by lia.
      rewrite load8_memmove. cbn [blk ofs padd].
      destruct Hpos as [Hblk|[Hle Hio]].
      * rewrite Block_eqb_neq by congruence. reflexivity.
      * assert (Hmono : (y - 1) * outRowBytes <= (y - 1) * inRowBytes)
          by (apply Z.mul_le_mono_nonneg_l; lia).
        replace (ofs read + (y * inRowBytes + j) <? ofs write + outRowBytes)
          with false by (symmetry; apply Z.ltb_ge; nia).
        rewrite andb_false_r. reflexivity.
    + cbn [blk ofs padd]. destruct Hpos as [Hblk|[Hle Hio]]; [left|right];
        [exact Hblk|lia].
Qed.

(** X24.  When the texture width differs from the buffer width, the code
    after the switch of [DecodeTextureLevel] packs the rows: row [y] of the
    returned buffer, [w] pixels long, holds the bytes that started row [y]
    of the decoded buffer, whose rows are [bufw] pixels apart.  For
    [w < bufw] this is done in place and the same buffer is returned; for
    [w > bufw] the rows are copied into [tmpTexBufRearrange], which is
    returned, and each row then runs over into the decoded bytes that
    follow it. *)
Theorem DecodeTextureLevel_tail_packs_rows (m : Heap) (finalBuf : Ptr)
    (dstFmt : GLenum) (w bufw h y j : Z) :
  0 <= w -> 0 <= bufw -> w <> bufw ->
  blk finalBuf <> TmpTexBufRearrange ->
  0 <= y < h -> 0 <= j < w * pixelSize_of dstFmt ->
  let r := DecodeTextureLevel_tail m finalBuf dstFmt w bufw h in
  snd r = (if bufw <? w then tmpTexBufRearrange_data else finalBuf)
  /\ load8 (fst r) (padd (snd r) (y * (w * pixelSize_of dstFmt) + j))
     = load8 m (padd finalBuf (y * (bufw * pixelSize_of dstFmt) + j)).
Proof.
  intros Hw Hb Hne Hblk Hy Hj. cbv zeta. unfold DecodeTextureLevel_tail.
  replace (w =? bufw) with false by (symmetry; apply Z.eqb_neq; exact Hne).
  cbn [negb]. fold (pixelSize_of dstFmt).
  assert (Hps : 0 < pixelSize_of dstFmt) by (destruct dstFmt; cbn; lia).
  destruct (Z.ltb_spec bufw w) as [Hlt|Hge]; cbn [fst snd];
    (split; [reflexivity|]).
  - apply rearrange_rows_spec.
    + right. split; nia.
    + left. cbn [blk tmpTexBufRearrange_data]. congruence.
    + rewrite Z2Nat.id by lia. exact Hy.
    + exact Hj.
  - apply rearrange_rows_spec.
    + left. split; nia.
    + right. split; [lia|nia].
    + rewrite Z2Nat.id by lia. exact Hy.
    + exact Hj.
Qed.

Lemma DecodeTextureLevel_tail_packs_rows_witness :
  0 <= 2 /\ 0 <= 4 /\ 2 <> 4
  /\ blk tmpTexBuf32_data <> TmpTexBufRearrange
  /\ 0 <= 1 < 2 /\ 0 <= 3 < 2 * pixelSize_of GL_UNSIGNED_BYTE
  /\ load8 (fst (DecodeTextureLevel_tail ramp_heap tmpTexBuf32_data
                   GL_UNSIGNED_BYTE 2 4 2))
       (mkPtr TmpTexBuf32 11)
     = load8 ramp_heap (mkPtr TmpTexBuf32 19).
Proof.
  assert (H1 : 0 <= 2) by lia. assert (H2 : 0 <= 4) by lia.
  assert (H3 : 2 <> 4) by lia.
  assert (H4 : blk tmpTexBuf32_data <> TmpTexBufRearrange) by discriminate.
  assert (H5 : 0 <= 1 < 2) by lia.
  assert (H6 : 0 <= 3 < 2 * pixelSize_of GL_UNSIGNED_BYTE) by (cbn; lia).
  repeat (split; [assumption|]).
  destruct (DecodeTextureLevel_tail_packs_rows ramp_heap tmpTexBuf32_data
              GL_UNSIGNED_BYTE 2 4 2 1 3 H1 H2 H3 H4 H5 H6) as [Hbuf Hrow].
  rewrite Hbuf in Hrow. exact Hrow.
Defined.

(** ** DXT3 blocks *)

Lemma alpha_word (d a : Z) :
  0 <= d -> 0 <= a < 16 ->
  u32 (Z.lor (Z.lor (Z.land d 0xFFFFFF) (Z.shiftl a 24)) (Z.shiftl a 28))
  = with_alpha4 d a.
Proof.
  intros Hd Ha. unfold with_alpha4.
  change 0xFFFFFF with (Z.ones 24). rewrite Z.land_ones by lia.
  rewrite !Z.shiftl_mul_pow2 by lia.
  change (2 ^ 24) with 16777216. change (2 ^ 28) with 268435456.
  pose proof (Z.mod_pos_bound d 16777216 ltac:(lia)) as Hm.
  rewrite <- Z.lor_assoc.
  assert (H1 : Z.lor (a * 16777216) (a * 268435456) = 17 * a * 16777216).
  { rewrite Z.lor_comm.
    change 268435456 with (2 ^ 28). rewrite lor_hi_lo by (cbn; lia).
    change (2 ^ 28) with 268435456. lia. }
  rewrite H1, Z.lor_comm.
  change 16777216 with (2 ^ 24) at 1. rewrite lor_hi_lo by (cbn; lia).
  change (2 ^ 24) with 16777216.
  rewrite u32_small by lia. lia.
Qed.

Lemma alpha_nibble_shift (line x : Z) :
  0 <= x ->
  u8 (Z.land (Z.shiftr line (4 * x)) 0xF) = alpha_nibble line x.
Proof.
  intros Hx. unfold alpha_nibble.
  rewrite land_0xf, Z.shiftr_div_pow2 by lia.
  replace (2 ^ (4 * x)) with (16 ^ x)
    by (change 16 with (2 ^ 4); rewrite <- Z.pow_mul_r by lia; reflexivity).
  apply Z.mod_small.
  pose proof (Z.mod_pos_bound (line / 16 ^ x) 16 ltac:(lia)). lia.
Qed.

Lemma u8_land_0xf_range (z : Z) : 0 <= u8 (Z.land z 0xF) < 16.
Proof.
  rewrite land_0xf.
  pose proof (Z.mod_pos_bound z 16 ltac:(lia)) as H.
  unfold u8. rewrite Z.mod_small by lia. exact H.
Qed.

(** One row of the alpha pass: four read-modify-write steps at
    [dst[0..3]]. *)
Lemma decodeDXT3Block_row_spec (m : Heap) (dst : Ptr) (line : Z) :
  let m' := decodeDXT3Block_row m dst line 4 0 in
  (forall q, blk q <> blk dst -> load8 m' q = load8 m q)
  /\ (forall q, ofs q + 4 <= ofs dst \/ ofs dst + 16 <= ofs q ->
                load32 m' q = load32 m q)
  /\ (forall x, 0 <= x < 4 ->
                load32 m' (padd dst (4 * x))
                = with_alpha4 (load32 m (padd dst (4 * x)))
                    (alpha_nibble line x)).
Proof.
  cbn [decodeDXT3Block_row].
  rewrite !Z.shiftr_shiftr by lia.
  split; [|split].
  - intros q Hq.
    rewrite !load8_store32_other by (left; cbn [blk padd]; exact Hq).
    reflexivity.
  - intros q Hq.
    rewrite !load32_store32_other by (right; cbn [ofs padd]; lia).
    reflexivity.
  - intros x Hx.
    assert (Hcase : x = 0 \/ x = 1 \/ x = 2 \/ x = 3) by lia.
    destruct Hcase as [-> | [-> | [-> | ->]]];
      rewrite <- alpha_nibble_shift by lia;
      change (0 + 1) with 1; change (1 + 1) with 2; change (2 + 1) with 3;
      change (4 + 4) with 8; change (8 + 4) with 12;
      change (4 * 0) with 0; change (4 * 1) with 4; change (4 * 2) with 8;
      change (4 * 3) with 12; rewrite ?Z.shiftr_0_r;
      repeat (rewrite load32_store32_other by (right; cbn [ofs padd]; lia));
      rewrite load32_store32_same;
      repeat (rewrite load32_store32_other by (right; cbn [ofs padd]; lia));
      (apply alpha_word; [apply load32_range|apply u8_land_0xf_range]).
Qed.

Lemma load16_frame (m m' : Heap) (q : Ptr) :
  (forall p, blk p = blk q -> load8 m' p = load8 m p) ->
  load16 m' q = load16 m q.
Proof.
  intros H. unfold load16. rewrite !H by reflexivity. reflexivity.
Qed.

(** The rows of the alpha pass, [pitch] words apart. *)
Lemma decodeDXT3Block_rows_spec (src : Ptr) (pitch : Z) :
  4 <= pitch ->
  forall (n : nat) (m : Heap) (dst : Ptr) (y0 : Z),
    blk dst <> blk src ->
    let m' := decodeDXT3Block_rows m dst src pitch n y0 in
    (forall q, blk q <> blk dst -> load8 m' q = load8 m q)
    /\ (forall q, ofs q + 4 <= ofs dst -> load32 m' q = load32 m q)
    /\ (forall k x, 0 <= k < Z.of_nat n -> 0 <= x < 4 ->
          load32 m' (padd dst (4 * (k * pitch + x)))
          = with_alpha4 (load32 m (padd dst (4 * (k * pitch + x))))
              (alpha_nibble (load16 m (DXT3Block_alphaLines src (y0 + k))) x)).
Proof.
  intros Hpitch.
  induction n as [|n IH]; intros m dst y0 Hblk m'.
  - subst m'. cbn [decodeDXT3Block_rows]. repeat split; auto.
    intros k x Hk. lia.
  - subst m'. cbn [decodeDXT3Block_rows].
    set (line := load16 m (DXT3Block_alphaLines src y0)).
    destruct (decodeDXT3Block_row_spec m dst line) as (Ra & Rb & Rc).
    set (m1 := decodeDXT3Block_row m dst line 4 0) in *.
    destruct (IH m1 (padd dst (4 * pitch)) (y0 + 1)) as (IHa & IHb & IHc);
      [exact Hblk|].
    split; [|split].
    + intros q Hq. rewrite IHa by exact Hq. now apply Ra.
    + intros q Hq. rewrite IHb by (cbn [ofs padd]; lia).
      apply Rb. lia.
    + intros k x Hk Hx.
      destruct (Z.eq_dec k 0) as [->|Hk0].
      * rewrite IHb by (cbn [ofs padd]; lia).
        replace (4 * (0 * pitch + x)) with (4 * x) by lia.
        rewrite Rc by exact Hx.
        unfold line. now rewrite Z.add_0_r.
      * replace (padd dst (4 * (k * pitch + x)))
          with (padd (padd dst (4 * pitch)) (4 * ((k - 1) * pitch + x)))
          by (rewrite padd_padd; f_equal; lia).
        rewrite IHc by lia.
        rewrite (Rb (padd (padd dst (4 * pitch)) (4 * ((k - 1) * pitch + x))))
          by (right; cbn [ofs padd]; nia).
        rewrite (load16_frame m m1)
          by (intros p Hp; apply Ra; unfold DXT3Block_alphaLines in Hp;
              cbn [blk padd] in Hp; congruence).
        replace (y0 + 1 + (k - 1)) with (y0 + k) by lia. reflexivity.
Qed.

(** X25.  [decodeDXT3Block] gives texel [(x, y)] the colour that the DXT1
    decoder gives it in its four-colour mode - which it uses for every
    block, whether [color1 > color2] or not - and replaces the alpha byte
    by the texel's 4-bit alpha from [alphaLines[y]] repeated in both
    nibbles, that is 17 times the nibble.  The destination rows are at
    least four pixels apart and outside the block's memory. *)
Theorem decodeDXT3Block_texels `{P : Platform} (m : Heap) (dst src : Ptr)
    (pitch x y : Z) :
  blk dst <> blk src -> 4 <= pitch -> 0 <= x < 4 -> 0 <= y < 4 ->
  let c1 := load16 m (DXT1Block_color1 src) in
  let c2 := load16 m (DXT1Block_color2 src) in
  let line := load8 m (DXT1Block_lines src y) in
  let alphaLine := load16 m (DXT3Block_alphaLines src y) in
  load32 (decodeDXT3Block m dst src pitch) (padd dst (4 * (y * pitch + x)))
  = with_alpha4
      (nth (Z.to_nat (texel_index line x))
         (decodeDXT1Block_colors c1 c2 true) 0)
      (alpha_nibble alphaLine x).
Proof.
  intros Hblk Hpitch Hx Hy. cbv zeta.
  unfold decodeDXT3Block, DXT3Block_color, decodeDXT1Block. cbv zeta.
  set (colors := decodeDXT1Block_colors _ _ true).
  destruct (decodeDXT1Block_rows_spec colors src pitch Hpitch 4 m dst 0 Hblk)
    as (Da & _ & Dc).
  set (m1 := decodeDXT1Block_rows colors m dst src pitch 4 0) in *.
  destruct (decodeDXT3Block_rows_spec src pitch Hpitch 4 m1 dst 0 Hblk)
    as (_ & _ & Ac).
  rewrite Ac by (cbn; lia).
  rewrite Dc by (cbn; lia).
  rewrite !Z.add_0_l.
  rewrite (load16_frame m m1)
    by (intros p Hp; apply Da; unfold DXT3Block_alphaLines in Hp;
        cbn [blk padd] in Hp; congruence).
  rewrite u32_small by apply decodeDXT1Block_colors_range.
  reflexivity.
Qed.

Lemma decodeDXT3Block_texels_witness :
  let dst := mkPtr TmpTexBuf32 0 in
  let src := mkPtr HostMem 0 in
  blk dst <> blk src /\ 4 <= 4 /\ 0 <= 2 < 4 /\ 0 <= 1 < 4
  /\ load32 (@decodeDXT3Block (example_platform false) dxt3_heap dst src 4)
       (padd dst (4 * (1 * 4 + 2)))
     = 0x22000000 + nth 2 (@decodeDXT1Block_colors (example_platform false)
                             0xF800 0x001F true) 0 mod 16777216.
Proof.
  cbv zeta.
  assert (H1 : blk (mkPtr TmpTexBuf32 0) <> blk (mkPtr HostMem 0))
    by discriminate.
  assert (H2 : 4 <= 4) by lia.
  assert (H3 : 0 <= 2 < 4) by lia.
  assert (H4 : 0 <= 1 < 4) by lia.
  split; [exact H1|]. split; [exact H2|]. split; [exact H3|].
  split; [exact H4|].
  rewrite (@decodeDXT3Block_texels (example_platform false) dxt3_heap
             (mkPtr TmpTexBuf32 0) (mkPtr HostMem 0) 4 2 1 H1 H2 H3 H4).
  vm_compute. reflexivity.
Defined.

(** ** The general de-indexer *)

Lemma load16_ext (m m' : Heap) (q : Ptr) :
  (forall k, 0 <= k < 2 -> load8 m' (padd q k) = load8 m (padd q k)) ->
  load16 m' q = load16 m q.
Proof.
  intros H. unfold load16.
  rewrite <- (padd_0 q) at 1 3. rewrite !H by lia. reflexivity.
Qed.

Lemma load32_ext (m m' : Heap) (q : Ptr) :
  (forall k, 0 <= k < 4 -> load8 m' (padd q k) = load8 m (padd q k)) ->
  load32 m' q = load32 m q.
Proof.
  intros H. unfold load32.
  rewrite (load16_ext m m' q) by (intros k Hk; apply H; lia).
  rewrite (load16_ext m m' (padd q 2))
    by (intros k Hk; rewrite !padd_padd; apply H; lia).
  reflexivity.
Qed.

Lemma loadT_ext (T : ClutT) (m m' : Heap) (q : Ptr) :
  (forall k, 0 <= k < sizeofT T -> load8 m' (padd q k) = load8 m (padd q k)) ->
  loadT T m' q = loadT T m q.
Proof. destruct T; [apply load16_ext|apply load32_ext]. Qed.

Lemma loadI_ext (I : IndexT) (m m' : Heap) (q : Ptr) :
  (forall k, 0 <= k < sizeofI I -> load8 m' (padd q k) = load8 m (padd q k)) ->
  loadI I m' q = loadI I m q.
Proof.
  destruct I; [|apply load16_ext|apply load32_ext].
  intros H. cbn. rewrite <- (padd_0 q). apply H. cbn. lia.
Qed.

Lemma load8_storeT_other (T : ClutT) (m : Heap) (p q : Ptr) (v : Z) :
  blk q <> blk p \/ ofs q < ofs p \/ ofs p + sizeofT T <= ofs q ->
  load8 (storeT T m p v) q = load8 m q.
Proof.
  destruct T; cbn [storeT sizeofT];
    [apply load8_store16_other|apply load8_store32_other].
Qed.

Lemma loadT_storeT_value (T : ClutT) (m m0 : Heap) (p q : Ptr) :
  loadT T (storeT T m p (loadT T m0 q)) p = loadT T m0 q.
Proof.
  destruct T; cbn [loadT storeT].
  - rewrite load16_store16_same. apply Z.mod_small, load16_range.
  - rewrite load32_store32_same. apply u32_small, load32_range.
Qed.

Lemma DeIndexTexture_loop_spec (I : IndexT) (T : ClutT) (f : Z -> Z)
    (clut : Ptr) :
  forall (n : nat) (m : Heap) (dest indexed : Ptr),
    blk dest <> blk indexed -> blk dest <> blk clut ->
    let m' := DeIndexTexture_loop I T f m dest indexed clut n in
    (forall q, blk q <> blk dest \/ ofs q < ofs dest
               \/ ofs dest + sizeofT T * Z.of_nat n <= ofs q ->
               load8 m' q = load8 m q)
    /\ (forall i, 0 <= i < Z.of_nat n ->
          loadT T m' (atT T dest i)
          = loadT T m
              (atT T clut (f (loadI I m (padd indexed (sizeofI I * i)))))).
Proof.
  assert (HsT : 0 < sizeofT T) by (destruct T; cbn; lia).
  induction n as [|n IH]; intros m dest indexed Hdi Hdc; cbv zeta.
  - split; [reflexivity|intros i Hi; lia].
  - cbn [DeIndexTexture_loop].
    set (v := loadT T m (atT T clut (f (loadI I m indexed)))).
    set (m1 := storeT T m dest v).
    destruct (IH m1 (padd dest (sizeofT T)) (padd indexed (sizeofI I))
                Hdi Hdc) as [IHf IHv].
    assert (Hm1 : forall q, blk q <> blk dest -> load8 m1 q = load8 m q).
    { intros q Hq. apply load8_storeT_other. left. exact Hq. }
    split.
    + intros q Hq.
      rewrite IHf
        by (cbn [blk ofs padd];
            destruct Hq as [Hq|[Hq|Hq]]; [left; exact Hq|right; left; lia
                                         |right; right; lia]).
      apply load8_storeT_other.
      destruct Hq as [Hq|[Hq|Hq]]; [left; exact Hq|right; left; lia
                                   |right; right; lia].
    + intros i Hi. destruct (Z.eq_dec i 0) as [->|Hi0].
      * rewrite (loadT_ext T m1)
          by (intros k Hk; apply IHf; right; left;
              unfold atT; cbn [blk ofs padd]; lia).
        unfold atT. rewrite !Z.mul_0_r, !padd_0.
        unfold m1, v. apply loadT_storeT_value.
      * replace (atT T dest i)
          with (atT T (padd dest (sizeofT T)) (i - 1))
          by (unfold atT; rewrite padd_padd; f_equal; lia).
        rewrite IHv by lia.
        rewrite padd_padd.
        replace (sizeofI I + sizeofI I * (i - 1)) with (sizeofI I * i) by lia.
        rewrite (loadI_ext I m m1)
          by (intros k Hk; apply Hm1; cbn [blk padd]; congruence).
        apply loadT_ext. intros k Hk. apply Hm1.
        unfold atT. cbn [blk padd]. congruence.
Qed.

Lemma DeIndexTexture_as_loop (I : IndexT) (T : ClutT) (g : GPUgstate)
    (m : Heap) (dest indexed : Ptr) (length : Z) (clut : Ptr) :
  DeIndexTexture I T g m dest indexed length clut
  = DeIndexTexture_loop I T (clut_index I g) m dest indexed clut
      (Z.to_nat length).
Proof.
  unfold DeIndexTexture, clut_index.
  destruct (isClutIndexSimple g); [destruct I|]; reflexivity.
Qed.

(** X26.  [DeIndexTexture] writes [length] palette colours to [dest]: pixel
    [i] is the palette entry selected by index [i] of the input, where a
    naked 8-bit index is used as it is, a naked 16- or 32-bit index through
    its low byte only, and any other index through
    [gstate.transformClutIndex].  Nothing outside the [length] pixels at
    [dest] is written.  [dest] is a buffer apart from the indices and the
    palette. *)
Theorem DeIndexTexture_pixels (I : IndexT) (T : ClutT) (g : GPUgstate)
    (m : Heap) (dest indexed : Ptr) (length : Z) (clut : Ptr) :
  blk dest <> blk indexed -> blk dest <> blk clut -> 0 <= length ->
  let m' := DeIndexTexture I T g m dest indexed length clut in
  (forall i, 0 <= i < length ->
     loadT T m' (atT T dest i)
     = loadT T m
         (atT T clut
            (clut_index I g (loadI I m (padd indexed (sizeofI I * i))))))
  /\ (forall q, blk q <> blk dest \/ ofs q < ofs dest
                \/ ofs dest + sizeofT T * length <= ofs q ->
                load8 m' q = load8 m q).
Proof.
  intros Hdi Hdc Hlen. cbv zeta. rewrite DeIndexTexture_as_loop.
  destruct (DeIndexTexture_loop_spec I T (clut_index I g) clut
              (Z.to_nat length) m dest indexed Hdi Hdc) as [Hf Hv].
  rewrite Z2Nat.id in Hf, Hv by exact Hlen.
  split; [exact Hv|exact Hf].
Qed.

Lemma DeIndexTexture_pixels_witness :
  let dest := tmpTexBuf16_data in
  let indexed := mkPtr HostMem 0 in
  let clut := mkPtr ClutBufRaw 0 in
  blk dest <> blk indexed /\ blk dest <> blk clut /\ 0 <= 8
  /\ loadT ClutT_u16
       (DeIndexTexture IndexT_u16 ClutT_u16 zero_gstate index16_heap dest
          indexed 8 clut) (atT ClutT_u16 dest 5)
     = 0x1005.
Proof.
  cbv zeta.
  assert (H1 : blk tmpTexBuf16_data <> blk (mkPtr HostMem 0)) by discriminate.
  assert (H2 : blk tmpTexBuf16_data <> blk (mkPtr ClutBufRaw 0))
    by discriminate.
  assert (H3 : 0 <= 8) by lia.
  split; [exact H1|]. split; [exact H2|]. split; [exact H3|].
  destruct (DeIndexTexture_pixels IndexT_u16 ClutT_u16 zero_gstate
              index16_heap tmpTexBuf16_data (mkPtr HostMem 0) 8
              (mkPtr ClutBufRaw 0) H1 H2 H3) as [Hv _].
  rewrite (Hv 5) by lia. vm_compute. reflexivity.
Defined.

(** ** [SetTexture]: trusted entries and framebuffer entries *)

(** X27.  A RELIABLE entry is checked by its first word only: when the
    geometry matches and the word at the texture address equals the stored
    [hash], [SetTexture] computes no full hash ([fullhash] stays 0) and
    finds no hash failure - whatever the rest of the texture memory holds,
    and however long ago the last full hash was.  The trust state is left
    as it is. *)
Theorem SetTexture_rehash_trusts_reliable `{K : EntryConsts} `{P : Platform}
    (m : Heap) (flips texaddr bufw w h format dim texhash : Z)
    (entry : TexCacheEntry) (rehash : bool) :
  Z.land (status entry) STATUS_MASK = STATUS_RELIABLE ->
  texhash = hash entry ->
  let r := SetTexture_rehash m flips texaddr bufw w h format dim texhash
             entry rehash in
  snd (fst r) = 0 /\ snd r = false /\ status (fst (fst r)) = status entry.
Proof.
  intros Hrel Hhash. cbv zeta. unfold SetTexture_rehash. cbv zeta.
  set (e1 := if negb (lastFrame entry =? flips) then _ else entry).
  assert (H1 : status e1 = status entry /\ hash e1 = hash entry).
  { unfold e1. destruct (negb _); split; reflexivity. }
  destruct H1 as [Hs1 Hh1].
  destruct (framesUntilNextFullHash e1 =? 0);
    match goal with
    | |- context [if ?c then (set_invalidHint 0 ?e, true) else _] =>
        destruct c
    end;
    cbn [hash status set_invalidHint set_framesUntilNextFullHash];
    rewrite ?Hh1, ?Hs1, Hhash, Z.eqb_refl; cbn [negb];
    rewrite Hrel, Z.eqb_refl; cbn [negb andb];
    rewrite ?andb_false_r; repeat split; exact Hs1 || reflexivity.
Qed.

Lemma SetTexture_rehash_trusts_reliable_witness :
  let entry := example_entry 0x08900000 0x1000 1 0 0 7 in
  Z.land (status entry) (@STATUS_MASK example_consts)
  = @STATUS_RELIABLE example_consts
  /\ 0 = hash entry
  /\ snd (@SetTexture_rehash example_consts (example_platform false)
            zero_heap 5 0x08900000 64 64 64 GE_TFMT_8888 0 0 entry false)
     = false.
Proof.
  cbv zeta.
  assert (H1 : Z.land (status (example_entry 0x08900000 0x1000 1 0 0 7))
                 (@STATUS_MASK example_consts)
               = @STATUS_RELIABLE example_consts) by reflexivity.
  assert (H2 : 0 = hash (example_entry 0x08900000 0x1000 1 0 0 7))
    by reflexivity.
  split; [exact H1|]. split; [exact H2|].
  destruct (@SetTexture_rehash_trusts_reliable example_consts
              (example_platform false) zero_heap 5 0x08900000 64 64 64
              GE_TFMT_8888 0 0 _ false H1 H2) as (_ & Hf & _).
  exact Hf.
Defined.

Lemma sampler_checks_framebuffer `{P : Platform} (E : Env)
    (e : TexCacheEntry) (force : bool) :
  framebuffer (fst (sampler_checks E e force)) = framebuffer e.
Proof.
  unfold sampler_checks. cbv zeta. cbn [fst].
  repeat match goal with
         | |- context [if ?c then set_tClamp _ _ else _] => destruct c
         | |- context [if ?c then set_sClamp _ _ else _] => destruct c
         | |- context [if ?c then set_magFilt _ _ else _] => destruct c
         | |- context [if ?c then set_minFilt _ _ else _] => destruct c
         | |- context [if ?c then set_lodBias _ _ else _] => destruct c
         end; reflexivity.
Qed.

Lemma land_lor_flag (u flag : Z) : Z.land (Z.lor u flag) flag = flag.
Proof.
  apply Z.bits_inj'. intros n Hn.
  rewrite Z.land_spec, Z.lor_spec.
  destruct (Z.testbit u n), (Z.testbit flag n); reflexivity.
Qed.

Lemma SetTexture_prelude_stats `{P : Platform} (E : Env) (w : World) :
  gpuStats (fst (SetTexture_prelude E w)) = gpuStats w
  /\ gl (fst (SetTexture_prelude E w)) = gl w.
Proof.
  unfold SetTexture_prelude. cbv zeta. cbn [fst].
  destruct (_ && _); cbn; [|split; reflexivity].
  unfold UpdateCurrentClut. cbv zeta. split; reflexivity.
Qed.

Lemma UpdateSamplingParams_identity `{P : Platform} (E : Env)
    (e : TexCacheEntry) (force : bool) :
  let e' := fst (UpdateSamplingParams E e force) in
  framebuffer e' = framebuffer e /\ status e' = status e
  /\ texture e' = texture e /\ lastFrame e' = lastFrame e.
Proof.
  cbv zeta.
  destruct (UpdateSamplingParams_keeps E e force) as (Ht & Hl & _ & Hs).
  cbv zeta in Ht, Hl, Hs.
  rewrite UpdateSamplingParams_checks in *.
  rewrite sampler_checks_framebuffer. auto.
Qed.

Lemma set_fb_same (p : Z) (fb : Framebuffer.VirtualFramebuffer)
    (f : Z -> Framebuffer.VirtualFramebuffer) :
  set_fb p fb f p = fb.
Proof. unfold set_fb. now rewrite Z.eqb_refl. Qed.

(** The GL call with which [SetTextureFramebuffer] binds in buffered
    mode. *)
Lemma SetTextureFramebuffer_effect `{P : Platform} (E : Env)
    (entry : TexCacheEntry) (w : World) :
  let r := SetTextureFramebuffer E entry w in
  let fb := fbs w (framebuffer entry) in
  framebuffer (fst r) = framebuffer entry /\ status (fst r) = status entry
  /\ texture (fst r) = texture entry /\ lastFrame (fst r) = lastFrame entry
  /\ tc (snd r) = tc w /\ gpuStats (snd r) = gpuStats w
  /\ heap (snd r) = heap w
  /\ Z.land (Framebuffer.usageFlags (fbs (snd r) (framebuffer entry)))
        FB_USAGE_TEXTURE = FB_USAGE_TEXTURE
  /\ (iRenderingMode (g_Config E) = FB_NON_BUFFERED_MODE ->
      gl (snd r) = gl w ++ [glBindTexture 0]
      /\ Framebuffer.fbo (fbs (snd r) (framebuffer entry)) = 0
      /\ gstate_c (snd r) = gstate_c w)
  /\ (iRenderingMode (g_Config E) <> FB_NON_BUFFERED_MODE ->
      gl (snd r)
      = gl w
        ++ (if negb (Framebuffer.fbo fb =? 0) && negb (invalidHint entry =? -1)
            then fbo_bind_color_as_texture (Framebuffer.fbo fb) 0
            else glBindTexture 0)
           :: snd (UpdateSamplingParams E entry false)
      /\ flipTexture (gstate_c (snd r)) = true
      /\ (Framebuffer.fbo fb = 0 \/ invalidHint entry = -1 ->
          Z.land (skipDrawReason (gstate_c (snd r))) SKIPDRAW_BAD_FB_TEXTURE
          = SKIPDRAW_BAD_FB_TEXTURE)).
Proof.
  cbv zeta. unfold SetTextureFramebuffer. cbv zeta.
  destruct (UpdateSamplingParams_identity E entry false) as (U1 & U2 & U3 & U4).
  cbv zeta in U1, U2, U3, U4.
  cbn [Framebuffer.fbo Framebuffer.set_usageFlags].
  destruct (iRenderingMode (g_Config E)) eqn:Hmode;
    cbn [is_FB_NON_BUFFERED_MODE negb].
  - cbn [fst snd]. repeat split; try reflexivity; try congruence.
    + cbn [fbs set_gl set_fbs]. rewrite set_fb_same.
      destruct (negb _); cbn; apply land_lor_flag.
    + cbn [fbs set_gl set_fbs]. rewrite set_fb_same.
      destruct (negb _) eqn:Hz; cbn; [reflexivity|].
      apply negb_false_iff, Z.eqb_eq in Hz. exact Hz.
  - destruct (negb (Framebuffer.fbo _ =? 0) && negb (invalidHint entry =? -1))
      eqn:Hbind;
      destruct (UpdateSamplingParams E entry false) as [e1 calls];
      cbn [fst snd] in *; repeat split; try assumption; try reflexivity;
      try congruence;
      try (cbn [fbs set_gl set_fbs set_gstate_c]; rewrite set_fb_same; cbn;
           apply land_lor_flag).
    + intros [Hz|Hh]; rewrite ?Hz, ?Hh in Hbind;
        cbn in Hbind; rewrite ?andb_false_r in Hbind; discriminate.
    + intros _. cbn. apply land_lor_flag.
  - destruct (negb (Framebuffer.fbo _ =? 0) && negb (invalidHint entry =? -1))
      eqn:Hbind;
      destruct (UpdateSamplingParams E entry false) as [e1 calls];
      cbn [fst snd] in *; repeat split; try assumption; try reflexivity;
      try congruence;
      try (cbn [fbs set_gl set_fbs set_gstate_c]; rewrite set_fb_same; cbn;
           apply land_lor_flag).
    + intros [Hz|Hh]; rewrite ?Hz, ?Hh in Hbind;
        cbn in Hbind; rewrite ?andb_false_r in Hbind; discriminate.
    + intros _. cbn. apply land_lor_flag.
Qed.

(** X28.  An entry that is attached to a framebuffer is never hashed or
    decoded: when the address is valid and the primary map holds, under the
    key of the lookup, an entry with a framebuffer, [SetTexture] returns at
    once.  The entry stays in the map with its framebuffer, status and
    texture, its [lastFrame] set to the current frame; [lastBoundTexture]
    is reset to -1; the framebuffer object gets the [FB_USAGE_TEXTURE]
    flag; the second-chance map and the statistics are untouched.  In
    non-buffered mode the only GL call is [glBindTexture(0)] and the [fbo]
    handle of the framebuffer object is cleared; in the other modes the
    calls are the bind - of the framebuffer's colour buffer if it has an
    [fbo] and the entry's [invalidHint] is not -1, of texture 0 otherwise -
    followed by the sampler updates. *)
Theorem SetTexture_lookup_framebuffer `{K : EntryConsts} `{P : Platform}
    (E : Env) (w : World) (entry : TexCacheEntry) :
  IsValidAddress (level_texaddr (gstate E) 0) = true ->
  let w0 := fst (SetTexture_prelude E w) in
  let key := l_cachekey (snd (SetTexture_prelude E w)) in
  let fb := fbs w0 (framebuffer entry) in
  find key (cache (tc w0)) = Some entry ->
  framebuffer entry <> 0 ->
  exists w' e',
    SetTexture_lookup E w = Returned w'
    /\ find key (cache (tc w')) = Some e'
    /\ framebuffer e' = framebuffer entry
    /\ status e' = status entry /\ texture e' = texture entry
    /\ lastFrame e' = numFlips (gpuStats w)
    /\ lastBoundTexture (tc w') = u32 (-1)
    /\ secondCache (tc w') = secondCache (tc w)
    /\ gpuStats w' = gpuStats w
    /\ Z.land (Framebuffer.usageFlags (fbs w' (framebuffer entry)))
         FB_USAGE_TEXTURE = FB_USAGE_TEXTURE
    /\ (iRenderingMode (g_Config E) = FB_NON_BUFFERED_MODE ->
        gl w' = gl w ++ [glBindTexture 0]
        /\ Framebuffer.fbo (fbs w' (framebuffer entry)) = 0)
    /\ (iRenderingMode (g_Config E) <> FB_NON_BUFFERED_MODE ->
        gl w'
        = gl w
          ++ (if negb (Framebuffer.fbo fb =? 0)
                 && negb (invalidHint entry =? -1)
              then fbo_bind_color_as_texture (Framebuffer.fbo fb) 0
              else glBindTexture 0)
             :: snd (UpdateSamplingParams E entry false)).
Proof.
  intros Hvalid. cbv zeta.
  destruct (SetTexture_prelude_stats E w) as [Hstats Hgl].
  destruct (SetTexture_prelude_maps E w) as [_ Hsecond].
  unfold SetTexture_lookup. rewrite Hvalid. cbn [negb]. cbv zeta.
  destruct (SetTexture_prelude E w) as [w0 L]. cbn [fst snd] in *.
  intros Hfind Hfb. rewrite Hfind.
  replace (framebuffer entry =? 0) with false
    by (symmetry; apply Z.eqb_neq; exact Hfb).
  cbn [negb].
  destruct (SetTextureFramebuffer_effect E entry w0)
    as (F1 & F2 & F3 & F4 & F5 & F6 & F7 & F8 & F9 & F10).
  cbv zeta in F1, F2, F3, F4, F5, F6, F7, F8, F9, F10.
  destruct (SetTextureFramebuffer E entry w0) as [e1 w1].
  cbn [fst snd] in *.
  eexists. eexists. split; [reflexivity|].
  cbn [put_cache cache tc set_tc set_cache set_lastBoundTexture
       lastBoundTexture secondCache gpuStats fbs gl].
  rewrite find_assign_same.
  split; [reflexivity|].
  cbn [framebuffer status texture lastFrame set_lastFrame].
  rewrite F5, F6, Hstats, Hsecond, Hgl in *.
  repeat split; try assumption; try reflexivity.
  - match goal with Hm : iRenderingMode _ = _ |- _ =>
      destruct (F9 Hm) as (Hg & _) end.
    rewrite Hg, ?Hgl. reflexivity.
  - match goal with Hm : iRenderingMode _ = _ |- _ =>
      destruct (F9 Hm) as (_ & Hz & _) end.
    exact Hz.
  - intros Hm. destruct (F10 Hm) as (Hg & _). rewrite Hg, ?Hgl. reflexivity.
Qed.

Lemma SetTexture_lookup_framebuffer_witness :
  @IsValidAddress (example_platform false)
    (level_texaddr (gstate thrash_env) 0) = true
  /\ find (l_cachekey (snd (@SetTexture_prelude (example_platform false)
                              thrash_env fb_entry_world)))
       (cache (tc (fst (@SetTexture_prelude (example_platform false)
                          thrash_env fb_entry_world))))
     = Some (set_framebuffer 0x1000 (thrash_entry 0))
  /\ framebuffer (set_framebuffer 0x1000 (thrash_entry 0)) <> 0
  /\ exists w',
       @SetTexture_lookup example_consts (example_platform false) thrash_env
         fb_entry_world = Returned w'
       /\ lastBoundTexture (tc w') = u32 (-1)
       /\ gpuStats w' = gpuStats fb_entry_world.
Proof.
  assert (H1 : @IsValidAddress (example_platform false)
                 (level_texaddr (gstate thrash_env) 0) = true) by reflexivity.
  assert (H2 : find (l_cachekey (snd (@SetTexture_prelude
                                        (example_platform false)
                                        thrash_env fb_entry_world)))
                 (cache (tc (fst (@SetTexture_prelude (example_platform false)
                                    thrash_env fb_entry_world))))
               = Some (set_framebuffer 0x1000 (thrash_entry 0)))
    by reflexivity.
  assert (H3 : framebuffer (set_framebuffer 0x1000 (thrash_entry 0)) <> 0)
    by (cbn; lia).
  split; [exact H1|]. split; [exact H2|]. split; [exact H3|].
  destruct (@SetTexture_lookup_framebuffer example_consts
              (example_platform false) thrash_env fb_entry_world _ H1 H2 H3)
    as (w' & e' & Hrun & _ & _ & _ & _ & _ & Hb & _ & Hs & _).
  exists w'. split; [exact Hrun|]. split; [exact Hb|exact Hs].
Defined.

(** ** [UnswizzleFromMem] *)

Lemma Unswizzle16_n_src (pitch : Z) (n : nat) :
  forall (m : Heap) (dest src : Ptr),
    snd (Unswizzle16_n m dest src pitch n) = padd src (16 * Z.of_nat n).
Proof.
  induction n as [|n IH]; intros m dest src.
  - cbn [Unswizzle16_n snd]. change (16 * Z.of_nat 0) with 0.
    symmetry. apply padd_0.
  - cbn [Unswizzle16_n]. rewrite IH, padd_padd. f_equal. lia.
Qed.

Lemma Unswizzle16_n_frame (pitch : Z) (n : nat) :
  forall (m : Heap) (dest src q : Ptr),
    (blk q = blk dest ->
     forall i, 0 <= i < Z.of_nat n ->
       ~ (ofs dest + 4 * pitch * i <= ofs q < ofs dest + 4 * pitch * i + 16)) ->
    load8 (fst (Unswizzle16_n m dest src pitch n)) q = load8 m q.
Proof.
  induction n as [|n IH]; intros m dest src q Hq; [reflexivity|].
  cbn [Unswizzle16_n]. rewrite IH.
  - unfold memcpy. rewrite load8_memmove.
    destruct (Block_eqb (blk q) (blk dest)) eqn:Eb; [|reflexivity].
    apply Block_eqb_eq in Eb. specialize (Hq Eb 0).
    destruct (Z.leb_spec (ofs dest) (ofs q)); [|reflexivity].
    destruct (Z.ltb_spec (ofs q) (ofs dest + 16)); [|reflexivity].
    exfalso. apply Hq; lia.
  - cbn [blk ofs padd]. intros Eb i Hi. specialize (Hq Eb (i + 1)). lia.
Qed.

Lemma Unswizzle16_n_spec (pitch : Z) :
  16 <= 4 * pitch ->
  forall (n : nat) (m : Heap) (dest src : Ptr),
    blk src <> blk dest ->
    forall i j, 0 <= i < Z.of_nat n -> 0 <= j < 16 ->
      load8 (fst (Unswizzle16_n m dest src pitch n))
        (padd dest (4 * pitch * i + j))
      = load8 m (padd src (16 * i + j)).
Proof.
  intros Hp. induction n as [|n IH]; intros m dest src Hblk i j Hi Hj; [lia|].
  cbn [Unswizzle16_n].
  destruct (Z.eq_dec i 0) as [->|Hi0].
  - rewrite Unswizzle16_n_frame.
    + unfold memcpy. rewrite load8_memmove. cbn [blk ofs padd].
      rewrite Block_eqb_refl.
      replace (ofs dest <=? ofs dest + (4 * pitch * 0 + j)) with true
        by (symmetry; apply Z.leb_le; lia).
      replace (ofs dest + (4 * pitch * 0 + j) <? ofs dest + 16) with true
        by (symmetry; apply Z.ltb_lt; lia).
      cbn [andb]. f_equal. f_equal. lia.
    + cbn [blk ofs padd]. intros _ i' Hi'.
      assert (0 <= 4 * pitch * i') by nia. lia.
  - replace (padd dest (4 * pitch * i + j))
      with (padd (padd dest (4 * pitch)) (4 * pitch * (i - 1) + j))
      by (rewrite padd_padd; f_equal; lia).
    rewrite IH; try lia; [|exact Hblk].
    unfold memcpy. rewrite load8_memmove. cbn [blk ofs padd].
    rewrite Block_eqb_neq by exact Hblk. cbn [andb].
    rewrite padd_padd. f_equal. f_equal. lia.
Qed.

Lemma Unswizzle16_bx_src (pitch : Z) (n : nat) :
  forall (m : Heap) (xdest src : Ptr),
    snd (Unswizzle16_bx m xdest src pitch n) = padd src (128 * Z.of_nat n).
Proof.
  induction n as [|n IH]; intros m xdest src.
  - cbn [Unswizzle16_bx snd]. change (128 * Z.of_nat 0) with 0.
    symmetry. apply padd_0.
  - cbn [Unswizzle16_bx].
    pose proof (Unswizzle16_n_src pitch 8 m xdest src) as Hs.
    destruct (Unswizzle16_n m xdest src pitch 8) as [m1 s1].
    cbn [snd] in Hs. subst s1.
    rewrite IH, padd_padd. f_equal. lia.
Qed.

Lemma Unswizzle16_bx_frame (pitch : Z) (n : nat) :
  forall (m : Heap) (xdest src q : Ptr),
    (blk q = blk xdest ->
     forall c i, 0 <= c < Z.of_nat n -> 0 <= i < 8 ->
       ~ (ofs xdest + 16 * c + 4 * pitch * i <= ofs q
          < ofs xdest + 16 * c + 4 * pitch * i + 16)) ->
    load8 (fst (Unswizzle16_bx m xdest src pitch n)) q = load8 m q.
Proof.
  induction n as [|n IH]; intros m xdest src q Hq; [reflexivity|].
  cbn [Unswizzle16_bx].
  pose proof (Unswizzle16_n_frame pitch 8 m xdest src q) as Hf.
  destruct (Unswizzle16_n m xdest src pitch 8) as [m1 s1].
  cbn [fst] in Hf. rewrite IH.
  - apply Hf. intros Eb i Hi. specialize (Hq Eb 0 i). lia.
  - cbn [blk ofs padd]. intros Eb c i Hc Hi.
    specialize (Hq Eb (c + 1) i). lia.
Qed.

Lemma Unswizzle16_bx_spec (pitch : Z) :
  forall (n : nat) (m : Heap) (xdest src : Ptr),
    16 * Z.of_nat n <= 4 * pitch ->
    blk src <> blk xdest ->
    forall c i j, 0 <= c < Z.of_nat n -> 0 <= i < 8 -> 0 <= j < 16 ->
      load8 (fst (Unswizzle16_bx m xdest src pitch n))
        (padd xdest (16 * c + 4 * pitch * i + j))
      = load8 m (padd src (16 * (8 * c + i) + j)).
Proof.
  induction n as [|n IH]; intros m xdest src Hp Hblk c i j Hc Hi Hj; [lia|].
  cbn [Unswizzle16_bx].
  pose proof (Unswizzle16_n_src pitch 8 m xdest src) as Hs.
  pose proof (fun q => Unswizzle16_n_frame pitch 8 m xdest src q) as Hf.
  pose proof (fun H => Unswizzle16_n_spec pitch H 8 m xdest src Hblk) as Hv.
  destruct (Unswizzle16_n m xdest src pitch 8) as [m1 s1].
  cbn [fst snd] in Hs, Hf, Hv. subst s1.
  destruct (Z.eq_dec c 0) as [->|Hc0].
  - rewrite Unswizzle16_bx_frame.
    + replace (16 * 0 + 4 * pitch * i + j) with (4 * pitch * i + j) by lia.
      rewrite Hv by lia. f_equal; f_equal; lia.
    + cbn [blk ofs padd]. intros _ c' i' Hc' Hi'.
      destruct (Z.lt_trichotomy i i') as [Hlt|[->|Hgt]].
      * assert (4 * pitch * i + 4 * pitch <= 4 * pitch * i') by nia. lia.
      * lia.
      * assert (4 * pitch * i' + 4 * pitch <= 4 * pitch * i) by nia. lia.
  - replace (padd xdest (16 * c + 4 * pitch * i + j))
      with (padd (padd xdest (4 * 4)) (16 * (c - 1) + 4 * pitch * i + j))
      by (rewrite padd_padd; f_equal; lia).
    rewrite IH; try lia; [|exact Hblk].
    rewrite Hf, padd_padd.
    + f_equal. f_equal. lia.
    + cbn [blk ofs padd]. intros Eb. congruence.
Qed.

Lemma Unswizzle16_by_frame (rowWidth pitch : Z) (bxc : nat) (n : nat) :
  forall (m : Heap) (ydestp src q : Ptr),
    (blk q = blk ydestp ->
     forall b c i, 0 <= b < Z.of_nat n -> 0 <= c < Z.of_nat bxc ->
       0 <= i < 8 ->
       ~ (ofs ydestp + 4 * (rowWidth * 8 / 4) * b + 16 * c + 4 * pitch * i
          <= ofs q
          < ofs ydestp + 4 * (rowWidth * 8 / 4) * b + 16 * c + 4 * pitch * i
            + 16)) ->
    load8 (Unswizzle16_by m ydestp src rowWidth pitch bxc n) q = load8 m q.
Proof.
  induction n as [|n IH]; intros m ydestp src q Hq; [reflexivity|].
  cbn [Unswizzle16_by].
  pose proof (Unswizzle16_bx_frame pitch bxc m ydestp src q) as Hf.
  destruct (Unswizzle16_bx m ydestp src pitch bxc) as [m1 s1].
  cbn [fst] in Hf. rewrite IH.
  - apply Hf. intros Eb c i Hc Hi. specialize (Hq Eb 0 c i). lia.
  - cbn [blk ofs padd]. intros Eb b c i Hb Hc Hi.
    specialize (Hq Eb (b + 1) c i). lia.
Qed.

Lemma Unswizzle16_by_spec (rowWidth pitch : Z) (bxc : nat) :
  16 * Z.of_nat bxc <= 4 * pitch ->
  32 * pitch <= 4 * (rowWidth * 8 / 4) ->
  forall (n : nat) (m : Heap) (ydestp src : Ptr),
    blk src <> blk ydestp ->
    forall b c i j, 0 <= b < Z.of_nat n -> 0 <= c < Z.of_nat bxc ->
      0 <= i < 8 -> 0 <= j < 16 ->
      load8 (Unswizzle16_by m ydestp src rowWidth pitch bxc n)
        (padd ydestp (4 * (rowWidth * 8 / 4) * b + 16 * c + 4 * pitch * i + j))
      = load8 m (padd src (16 * (8 * (Z.of_nat bxc * b + c) + i) + j)).
Proof.
  intros Hp Hs. set (S := 4 * (rowWidth * 8 / 4)) in *.
  induction n as [|n IH]; intros m ydestp src Hblk b c i j Hb Hc Hi Hj; [lia|].
  cbn [Unswizzle16_by]. fold S.
  pose proof (Unswizzle16_bx_src pitch bxc m ydestp src) as Hsrc.
  pose proof (fun q => Unswizzle16_bx_frame pitch bxc m ydestp src q) as Hf.
  pose proof (Unswizzle16_bx_spec pitch bxc m ydestp src Hp Hblk) as Hv.
  destruct (Unswizzle16_bx m ydestp src pitch bxc) as [m1 s1].
  cbn [fst snd] in Hsrc, Hf, Hv. subst s1.
  destruct (Z.eq_dec b 0) as [->|Hb0].
  - rewrite Unswizzle16_by_frame.
    + replace (S * 0 + 16 * c + 4 * pitch * i + j)
        with (16 * c + 4 * pitch * i + j) by lia.
      rewrite Hv by lia. f_equal; f_equal; lia.
    + cbn [blk ofs padd]. fold S. intros _ b' c' i' Hb' Hc' Hi'.
      assert (0 <= S * b') by nia.
      assert (0 <= 4 * pitch * i') by nia.
      assert (4 * pitch * i <= 28 * pitch) by nia.
      lia.
  - replace (padd ydestp (S * b + 16 * c + 4 * pitch * i + j))
      with (padd (padd ydestp S) (S * (b - 1) + 16 * c + 4 * pitch * i + j))
      by (rewrite padd_padd; f_equal; lia).
    rewrite IH; try lia; [|exact Hblk].
    rewrite Hf, padd_padd.
    + f_equal. f_equal. lia.
    + cbn [blk ofs padd]. intros Eb. congruence.
Qed.

Lemma UnswizzleFromMem_unfold `{P : Platform} (g : GPUgstate) (m : Heap)
    (texaddr bufw bytesPerPixel level : Z) :
  UnswizzleFromMem g m texaddr bufw bytesPerPixel level
  = let rowWidth := Unswizzle_rowWidth bufw bytesPerPixel in
    let byc := Z.to_nat (Unswizzle_byc g level) in
    let src := Memory_GetPointer texaddr in
    ((if 16 <=? rowWidth then
        Unswizzle16_by m tmpTexBuf32_data src rowWidth (rowWidth / 4)
          (Z.to_nat (rowWidth / 16)) byc
      else if rowWidth =? 8 then Unswizzle_by Unswizzle8_n 8 m src 0 byc
      else if rowWidth =? 4 then Unswizzle_by Unswizzle4_n 8 m src 0 byc
      else if rowWidth =? 2 then Unswizzle_by Unswizzle2_n 4 m src 0 byc
      else if rowWidth =? 1 then Unswizzle_by Unswizzle1_n 2 m src 0 byc
      else m),
     tmpTexBuf32_data).
Proof. reflexivity. Qed.

(** X29.  Rows of 16 bytes or more (and less than 2^29, so that the
    product [rowWidth * 8] of the source does not wrap): the swizzled data
    is a sequence of blocks of 8 chunks of 16 bytes, [rowWidth / 16] blocks
    for each band of 8 rows.  [UnswizzleFromMem] returns [tmpTexBuf32], and
    chunk [n] of block [bx] of band [by] lands there at byte
    [8 * rowWidth * by + 4 * (rowWidth / 4) * n + 16 * bx]: for a row width
    that is a multiple of 4 this is column [16 * bx] of row [8 * by + n] of
    a linear image.  No memory outside [tmpTexBuf32] is written. *)
Theorem UnswizzleFromMem_wide `{P : Platform} (g : GPUgstate) (m : Heap)
    (texaddr bufw bytesPerPixel level by_ bx n j : Z) :
  let rowWidth := Unswizzle_rowWidth bufw bytesPerPixel in
  16 <= rowWidth < 536870912 ->
  0 <= by_ < Unswizzle_byc g level -> 0 <= bx < rowWidth / 16 ->
  0 <= n < 8 -> 0 <= j < 16 ->
  let r := UnswizzleFromMem g m texaddr bufw bytesPerPixel level in
  snd r = tmpTexBuf32_data
  /\ load8 (fst r)
       (padd tmpTexBuf32_data
          (8 * rowWidth * by_ + 4 * (rowWidth / 4) * n + 16 * bx + j))
     = load8 m
         (padd (Memory_GetPointer texaddr)
            (16 * (8 * (rowWidth / 16 * by_ + bx) + n) + j))
  /\ (forall q, blk q <> TmpTexBuf32 -> load8 (fst r) q = load8 m q).
Proof.
  cbv zeta. intros HR Hby Hbx Hn Hj.
  rewrite UnswizzleFromMem_unfold. cbv zeta. cbn [fst snd].
  set (R := Unswizzle_rowWidth bufw bytesPerPixel) in *.
  replace (16 <=? R) with true by (symmetry; apply Z.leb_le; lia).
  split; [reflexivity|].
  assert (HS : 4 * (R * 8 / 4) = 8 * R).
  { replace (R * 8) with (2 * R * 4) by lia. rewrite Z.div_mul by lia. lia. }
  pose proof (Z.div_mod R 16 ltac:(lia)) as H16.
  pose proof (Z.mod_pos_bound R 16 ltac:(lia)) as B16.
  pose proof (Z.div_mod R 4 ltac:(lia)) as H4.
  pose proof (Z.mod_pos_bound R 4 ltac:(lia)) as B4.
  split.
  - replace (8 * R * by_ + 4 * (R / 4) * n + 16 * bx + j)
      with (4 * (R * 8 / 4) * by_ + 16 * bx + 4 * (R / 4) * n + j)
      by (rewrite HS; lia).
    rewrite (Unswizzle16_by_spec R (R / 4) (Z.to_nat (R / 16)));
      rewrite ?Z2Nat.id by lia; try lia; try reflexivity.
    cbn. discriminate.
  - intros q Hq. apply Unswizzle16_by_frame. intros Eb. contradiction.
Qed.

Lemma UnswizzleFromMem_wide_witness :
  16 <= Unswizzle_rowWidth 8 4 < 536870912
  /\ 0 <= 1 < Unswizzle_byc linear8888_gstate 0
  /\ 0 <= 1 < Unswizzle_rowWidth 8 4 / 16
  /\ 0 <= 2 < 8 /\ 0 <= 3 < 16
  /\ load8 (fst (@UnswizzleFromMem (example_platform false)
                   linear8888_gstate ramp_heap 0x08900000 8 4 0))
       (mkPtr TmpTexBuf32 339)
     = load8 ramp_heap (mkPtr HostMem (0x08900000 + 419)).
Proof.
  assert (H1 : 16 <= Unswizzle_rowWidth 8 4 < 536870912) by (cbn; lia).
  assert (H2 : 0 <= 1 < Unswizzle_byc linear8888_gstate 0) by (cbn; lia).
  assert (H3 : 0 <= 1 < Unswizzle_rowWidth 8 4 / 16) by (cbn; lia).
  assert (H4 : 0 <= 2 < 8) by lia. assert (H5 : 0 <= 3 < 16) by lia.
  repeat (split; [assumption|]).
  exact (proj1 (proj2 (@UnswizzleFromMem_wide (example_platform false)
                         linear8888_gstate ramp_heap 0x08900000 8 4 0
                         1 1 2 3 H1 H2 H3 H4 H5))).
Defined.

Lemma load8_store32_at (m : Heap) (p : Ptr) (v k : Z) :
  0 <= k < 4 -> load8 (store32 m p v) (padd p k) = u8 (v / 256 ^ k).
Proof.
  intros Hk. unfold store32, store16.
  assert (Hc : k = 0 \/ k = 1 \/ k = 2 \/ k = 3) by lia.
  destruct Hc as [-> | [-> | [-> | ->]]].
  - rewrite padd_0.
    rewrite !load8_store8_other by (right; cbn [ofs padd]; lia).
    rewrite load8_store8_same. f_equal. symmetry. apply Z.div_1_r.
  - rewrite !load8_store8_other by (right; cbn [ofs padd]; lia).
    rewrite load8_store8_same. reflexivity.
  - rewrite load8_store8_other by (right; cbn [ofs padd]; lia).
    rewrite load8_store8_same. reflexivity.
  - replace (padd p 3) with (padd (padd p 2) 1)
      by (rewrite padd_padd; reflexivity).
    rewrite load8_store8_same. f_equal.
    rewrite Z.div_div by lia. reflexivity.
Qed.

Lemma byte_of_word (b0 b1 b2 b3 k : Z) :
  0 <= b0 < 256 -> 0 <= b1 < 256 -> 0 <= b2 < 256 -> 0 <= b3 < 256 ->
  0 <= k < 4 ->
  u8 ((b0 + 256 * b1 + 65536 * b2 + 16777216 * b3) / 256 ^ k)
  = if k =? 0 then b0 else if k =? 1 then b1 else if k =? 2 then b2 else b3.
Proof.
  intros H0 H1 H2 H3 Hk. unfold u8.
  assert (Hc : k = 0 \/ k = 1 \/ k = 2 \/ k = 3) by lia.
  destruct Hc as [-> | [-> | [-> | ->]]]; cbn [Z.eqb Pos.eqb].
  - rewrite Z.div_1_r.
    replace (b0 + 256 * b1 + 65536 * b2 + 16777216 * b3)
      with (b0 + (b1 + 256 * b2 + 65536 * b3) * 256) by lia.
    rewrite Z.mod_add by lia. apply Z.mod_small; lia.
  - change (256 ^ 1) with 256.
    replace (b0 + 256 * b1 + 65536 * b2 + 16777216 * b3)
      with (b0 + (b1 + 256 * b2 + 65536 * b3) * 256) by lia.
    rewrite Z.div_add by lia. rewrite (Z.div_small b0) by lia.
    replace (0 + (b1 + 256 * b2 + 65536 * b3))
      with (b1 + (b2 + 256 * b3) * 256) by lia.
    rewrite Z.mod_add by lia. apply Z.mod_small; lia.
  - change (256 ^ 2) with 65536.
    replace (b0 + 256 * b1 + 65536 * b2 + 16777216 * b3)
      with (b0 + 256 * b1 + (b2 + 256 * b3) * 65536) by lia.
    rewrite Z.div_add by lia. rewrite (Z.div_small (b0 + 256 * b1)) by lia.
    replace (0 + (b2 + 256 * b3)) with (b2 + b3 * 256) by lia.
    rewrite Z.mod_add by lia. apply Z.mod_small; lia.
  - change (256 ^ 3) with 16777216.
    replace (b0 + 256 * b1 + 65536 * b2 + 16777216 * b3)
      with (b0 + 256 * b1 + 65536 * b2 + b3 * 16777216) by lia.
    rewrite Z.div_add by lia.
    rewrite (Z.div_small (b0 + 256 * b1 + 65536 * b2)) by lia.
    apply Z.mod_small; lia.
Qed.

Lemma load32_bytes (m : Heap) (s : Ptr) :
  load32 m s
  = load8 m s + 256 * load8 m (padd s 1) + 65536 * load8 m (padd s 2)
    + 16777216 * load8 m (padd s 3).
Proof.
  unfold load32, load16. rewrite padd_padd. change (2 + 1) with 3. lia.
Qed.

(** Storing a word built from four bytes puts the bytes at the four
    addresses of the word. *)
Lemma load8_store32_word (m : Heap) (p : Ptr) (b0 b1 b2 b3 k : Z) :
  0 <= b0 < 256 -> 0 <= b1 < 256 -> 0 <= b2 < 256 -> 0 <= b3 < 256 ->
  0 <= k < 4 ->
  load8 (store32 m p (b0 + 256 * b1 + 65536 * b2 + 16777216 * b3)) (padd p k)
  = if k =? 0 then b0 else if k =? 1 then b1 else if k =? 2 then b2 else b3.
Proof.
  intros. rewrite load8_store32_at by assumption.
  apply byte_of_word; assumption.
Qed.

Lemma load8_store32_copy (m m0 : Heap) (p s : Ptr) (k : Z) :
  0 <= k < 4 ->
  load8 (store32 m p (load32 m0 s)) (padd p k) = load8 m0 (padd s k).
Proof.
  intros Hk. rewrite load32_bytes.
  rewrite load8_store32_word by (try apply load8_range; exact Hk).
  assert (Hc : k = 0 \/ k = 1 \/ k = 2 \/ k = 3) by lia.
  destruct Hc as [-> | [-> | [-> | ->]]]; cbn [Z.eqb Pos.eqb];
    rewrite ?padd_0; reflexivity.
Qed.

Lemma unswizzled_rows_nil (W : Z) (m : Heap) (src : Ptr) (ydest : Z) :
  unswizzled_rows W 0 m m src ydest.
Proof. split; [reflexivity|intros; lia]. Qed.

Lemma unswizzled_rows_app (W r1 r2 k : Z) (m m1 m2 : Heap) (src : Ptr)
    (ydest : Z) :
  blk src <> TmpTexBuf32 -> 0 <= W -> 0 <= r1 -> 4 * k = W * r1 ->
  unswizzled_rows W r1 m m1 src ydest ->
  unswizzled_rows W r2 m1 m2 (padd src (16 * r1)) (ydest + k) ->
  unswizzled_rows W (r1 + r2) m m2 src ydest.
Proof.
  intros Hsrc HW Hr1 Hk [F1 C1] [F2 C2]. split.
  - intros q Hq. rewrite F2, F1; [reflexivity|exact Hq|].
    destruct Hq as [Hq|Hq]; [left; exact Hq|right; nia].
  - intros y j Hy Hj.
    destruct (Z.lt_ge_cases y r1) as [Hlt|Hge].
    + rewrite F2 by (right; cbn [ofs padd tmpTexBuf32_data]; nia).
      apply C1; lia.
    + replace (4 * ydest + W * y + j)
        with (4 * (ydest + k) + W * (y - r1) + j) by nia.
      rewrite C2 by lia. rewrite padd_padd.
      rewrite F1 by (left; exact Hsrc).
      f_equal. f_equal. lia.
Qed.

Lemma Unswizzle8_n_spec (n : nat) :
  forall (m : Heap) (src : Ptr) (ydest : Z),
    blk src <> TmpTexBuf32 ->
    let r := Unswizzle8_n m src ydest n in
    snd (fst r) = padd src (16 * Z.of_nat n)
    /\ snd r = ydest + 2 * Z.of_nat n
    /\ unswizzled_rows 8 (Z.of_nat n) m (fst (fst r)) src ydest.
Proof.
  induction n as [|n IH]; intros m src ydest Hsrc; cbv zeta.
  - cbn [Unswizzle8_n fst snd]. change (Z.of_nat 0) with 0.
    rewrite padd_0.
    repeat split; try lia; try apply unswizzled_rows_nil.
  - cbn [Unswizzle8_n].
    set (m1 := store32 m (padd tmpTexBuf32_data (4 * (ydest + 0)))
                 (load32 m src)).
    set (m2 := store32 m1 (padd tmpTexBuf32_data (4 * (ydest + 1)))
                 (load32 m1 (padd src 4))).
    destruct (IH m2 (padd src (4 * 4)) (ydest + 2)) as (Hs & Hy & Hrows);
      [exact Hsrc|].
    cbv zeta in Hs, Hy, Hrows.
    split; [rewrite Hs, padd_padd; f_equal; lia|].
    split; [rewrite Hy; lia|].
    replace (Z.of_nat (S n)) with (1 + Z.of_nat n) by lia.
    apply (unswizzled_rows_app 8 1 (Z.of_nat n) 2 m m2); try lia;
      [exact Hsrc| |exact Hrows].
    assert (Hl : load32 m1 (padd src 4) = load32 m (padd src 4)).
    { apply load32_ext. intros k Hk. unfold m1.
      apply load8_store32_other. left. cbn [blk padd tmpTexBuf32_data].
      exact Hsrc. }
    split.
    + intros q Hq. unfold m2, m1.
      rewrite !load8_store32_other; [reflexivity| |];
        (destruct Hq as [Hq|Hq];
         [left; exact Hq|right; left; cbn [ofs padd tmpTexBuf32_data]; lia]).
    + intros y j Hy' Hj. assert (y = 0) by lia. subst y.
      destruct (Z.lt_ge_cases j 4) as [Hlo|Hhi].
      * unfold m2.
        rewrite load8_store32_other
          by (right; left; cbn [ofs padd tmpTexBuf32_data]; lia).
        unfold m1.
        replace (padd tmpTexBuf32_data (4 * ydest + 8 * 0 + j))
          with (padd (padd tmpTexBuf32_data (4 * (ydest + 0))) j)
          by (rewrite padd_padd; f_equal; lia).
        rewrite load8_store32_copy by lia. f_equal.
      * unfold m2. rewrite Hl.
        replace (padd tmpTexBuf32_data (4 * ydest + 8 * 0 + j))
          with (padd (padd tmpTexBuf32_data (4 * (ydest + 1))) (j - 4))
          by (rewrite padd_padd; f_equal; lia).
        rewrite load8_store32_copy by lia. rewrite padd_padd.
        f_equal. f_equal. lia.
Qed.

Lemma Unswizzle4_n_spec (n : nat) :
  forall (m : Heap) (src : Ptr) (ydest : Z),
    blk src <> TmpTexBuf32 ->
    let r := Unswizzle4_n m src ydest n in
    snd (fst r) = padd src (16 * Z.of_nat n)
    /\ snd r = ydest + Z.of_nat n
    /\ unswizzled_rows 4 (Z.of_nat n) m (fst (fst r)) src ydest.
Proof.
  induction n as [|n IH]; intros m src ydest Hsrc; cbv zeta.
  - cbn [Unswizzle4_n fst snd]. change (Z.of_nat 0) with 0.
    rewrite padd_0.
    repeat split; try lia; try apply unswizzled_rows_nil.
  - cbn [Unswizzle4_n].
    set (m1 := store32 m (padd tmpTexBuf32_data (4 * ydest)) (load32 m src)).
    destruct (IH m1 (padd src (4 * 4)) (ydest + 1)) as (Hs & Hy & Hrows);
      [exact Hsrc|].
    cbv zeta in Hs, Hy, Hrows.
    split; [rewrite Hs, padd_padd; f_equal; lia|].
    split; [rewrite Hy; lia|].
    replace (Z.of_nat (S n)) with (1 + Z.of_nat n) by lia.
    apply (unswizzled_rows_app 4 1 (Z.of_nat n) 1 m m1); try lia;
      [exact Hsrc| |exact Hrows].
    split.
    + intros q Hq. unfold m1. apply load8_store32_other.
      destruct Hq as [Hq|Hq];
        [left; exact Hq|right; left; cbn [ofs padd tmpTexBuf32_data]; lia].
    + intros y j Hy' Hj. assert (y = 0) by lia. subst y. unfold m1.
      replace (padd tmpTexBuf32_data (4 * ydest + 4 * 0 + j))
        with (padd (padd tmpTexBuf32_data (4 * ydest)) j)
        by (rewrite padd_padd; f_equal; lia).
      rewrite load8_store32_copy by lia. f_equal.
Qed.

Lemma lor_shiftl_add (a b k : Z) :
  0 <= k -> 0 <= a < 2 ^ k -> Z.lor a (Z.shiftl b k) = a + b * 2 ^ k.
Proof.
  intros Hk Ha. rewrite Z.shiftl_mul_pow2 by exact Hk.
  rewrite Z.lor_comm, lor_hi_lo by assumption. lia.
Qed.

Lemma Unswizzle2_n_spec (n : nat) :
  forall (m : Heap) (src : Ptr) (ydest : Z),
    blk src <> TmpTexBuf32 ->
    let r := Unswizzle2_n m src ydest n in
    snd (fst r) = padd src (16 * (2 * Z.of_nat n))
    /\ snd r = ydest + Z.of_nat n
    /\ unswizzled_rows 2 (2 * Z.of_nat n) m (fst (fst r)) src ydest.
Proof.
  induction n as [|n IH]; intros m src ydest Hsrc; cbv zeta.
  - cbn [Unswizzle2_n fst snd]. change (Z.of_nat 0) with 0.
    rewrite padd_0.
    repeat split; try lia; try apply unswizzled_rows_nil.
  - cbn [Unswizzle2_n].
    set (m1 := store32 m (padd tmpTexBuf32_data (4 * ydest))
                 (Z.lor (load16 m src)
                    (Z.shiftl (load16 m (padd src (2 * 8))) 16))).
    destruct (IH m1 (padd src (2 * 16)) (ydest + 1)) as (Hs & Hy & Hrows);
      [exact Hsrc|].
    cbv zeta in Hs, Hy, Hrows.
    split; [rewrite Hs, padd_padd; f_equal; lia|].
    split; [rewrite Hy; lia|].
    replace (2 * Z.of_nat (S n)) with (2 + 2 * Z.of_nat n) by lia.
    apply (unswizzled_rows_app 2 2 (2 * Z.of_nat n) 1 m m1); try lia;
      [exact Hsrc| |exact Hrows].
    split.
    + intros q Hq. unfold m1. apply load8_store32_other.
      destruct Hq as [Hq|Hq];
        [left; exact Hq|right; left; cbn [ofs padd tmpTexBuf32_data]; lia].
    + intros y j Hy' Hj. unfold m1.
      rewrite lor_shiftl_add by (try apply load16_range; lia).
      unfold load16. rewrite !padd_padd.
      change (2 ^ 16) with 65536.
      replace (load8 m src + 256 * load8 m (padd src 1)
               + (load8 m (padd src (2 * 8))
                  + 256 * load8 m (padd src (2 * 8 + 1))) * 65536)
        with (load8 m src + 256 * load8 m (padd src 1)
              + 65536 * load8 m (padd src (2 * 8))
              + 16777216 * load8 m (padd src (2 * 8 + 1))) by lia.
      replace (padd tmpTexBuf32_data (4 * ydest + 2 * y + j))
        with (padd (padd tmpTexBuf32_data (4 * ydest)) (2 * y + j))
        by (rewrite padd_padd; f_equal; lia).
      rewrite load8_store32_word by (try apply load8_range; lia).
      assert (Hc : (y = 0 /\ j = 0) \/ (y = 0 /\ j = 1) \/ (y = 1 /\ j = 0)
                   \/ (y = 1 /\ j = 1)) by lia.
      destruct Hc as [[-> ->] | [[-> ->] | [[-> ->] | [-> ->]]]];
        cbn [Z.eqb Pos.eqb Z.mul Z.add Pos.mul Pos.add];
        rewrite ?padd_0; reflexivity.
Qed.

Lemma Unswizzle1_n_spec (n : nat) :
  forall (m : Heap) (src : Ptr) (ydest : Z),
    blk src <> TmpTexBuf32 ->
    let r := Unswizzle1_n m src ydest n in
    snd (fst r) = padd src (16 * (4 * Z.of_nat n))
    /\ snd r = ydest + Z.of_nat n
    /\ unswizzled_rows 1 (4 * Z.of_nat n) m (fst (fst r)) src ydest.
Proof.
  induction n as [|n IH]; intros m src ydest Hsrc; cbv zeta.
  - cbn [Unswizzle1_n fst snd]. change (Z.of_nat 0) with 0.
    rewrite padd_0.
    repeat split; try lia; try apply unswizzled_rows_nil.
  - cbn [Unswizzle1_n].
    pose proof (load8_range m src) as R1.
    pose proof (load8_range m (padd src 16)) as R2.
    pose proof (load8_range m (padd src 32)) as R3.
    pose proof (load8_range m (padd src 48)) as R4.
    set (m1 := store32 m (padd tmpTexBuf32_data (4 * ydest)) _).
    destruct (IH m1 (padd src 64) (ydest + 1)) as (Hs & Hy & Hrows);
      [exact Hsrc|].
    cbv zeta in Hs, Hy, Hrows.
    split; [rewrite Hs, padd_padd; f_equal; lia|].
    split; [rewrite Hy; lia|].
    replace (4 * Z.of_nat (S n)) with (4 + 4 * Z.of_nat n) by lia.
    apply (unswizzled_rows_app 1 4 (4 * Z.of_nat n) 1 m m1); try lia;
      [exact Hsrc| |exact Hrows].
    split.
    + intros q Hq. unfold m1. apply load8_store32_other.
      destruct Hq as [Hq|Hq];
        [left; exact Hq|right; left; cbn [ofs padd tmpTexBuf32_data]; lia].
    + intros y j Hy' Hj. assert (j = 0) by lia. subst j. unfold m1.
      rewrite (lor_shiftl_add (load8 m src)) by lia.
      rewrite (lor_shiftl_add _ _ 16)
        by (change (2 ^ 8) with 256; change (2 ^ 16) with 65536; lia).
      rewrite (lor_shiftl_add _ _ 24)
        by (change (2 ^ 8) with 256; change (2 ^ 16) with 65536;
            change (2 ^ 24) with 16777216; lia).
      change (2 ^ 8) with 256. change (2 ^ 16) with 65536.
      change (2 ^ 24) with 16777216.
      replace (load8 m src + load8 m (padd src 16) * 256
               + load8 m (padd src 32) * 65536
               + load8 m (padd src 48) * 16777216)
        with (load8 m src + 256 * load8 m (padd src 16)
              + 65536 * load8 m (padd src 32)
              + 16777216 * load8 m (padd src 48)) by lia.
      replace (padd tmpTexBuf32_data (4 * ydest + 1 * y + 0))
        with (padd (padd tmpTexBuf32_data (4 * ydest)) y)
        by (rewrite padd_padd; f_equal; lia).
      rewrite load8_store32_word by lia.
      assert (Hc : y = 0 \/ y = 1 \/ y = 2 \/ y = 3) by lia.
      destruct Hc as [-> | [-> | [-> | ->]]];
        cbn [Z.eqb Pos.eqb Z.mul Z.add Pos.mul Pos.add];
        rewrite ?padd_0; reflexivity.
Qed.

(** The block loop shared by the four narrow branches: an inner loop that
    unswizzles 8 rows of [W] bytes into [2 * W] words, run [n] times. *)
Lemma Unswizzle_by_spec
    (inner : Heap -> Ptr -> Z -> nat -> Heap * Ptr * Z) (per : nat) (W : Z) :
  0 <= W ->
  (forall (m : Heap) (src : Ptr) (ydest : Z),
     blk src <> TmpTexBuf32 ->
     snd (fst (inner m src ydest per)) = padd src (16 * 8)
     /\ snd (inner m src ydest per) = ydest + 2 * W
     /\ unswizzled_rows W 8 m (fst (fst (inner m src ydest per))) src ydest) ->
  forall (n : nat) (m : Heap) (src : Ptr) (ydest : Z),
    blk src <> TmpTexBuf32 ->
    unswizzled_rows W (8 * Z.of_nat n) m
      (Unswizzle_by inner per m src ydest n) src ydest.
Proof.
  intros HW Hinner. induction n as [|n IH]; intros m src ydest Hsrc.
  - cbn [Unswizzle_by]. apply unswizzled_rows_nil.
  - cbn [Unswizzle_by].
    destruct (Hinner m src ydest Hsrc) as (Hs & Hy & Hrows).
    destruct (inner m src ydest per) as [[m1 s1] y1].
    cbn [fst snd] in Hs, Hy, Hrows. subst s1 y1.
    replace (8 * Z.of_nat (S n)) with (8 + 8 * Z.of_nat n) by lia.
    apply (unswizzled_rows_app W 8 (8 * Z.of_nat n) (2 * W) m m1); try lia;
      [exact Hsrc|exact Hrows|].
    apply IH. exact Hsrc.
Qed.

(** X30.  Rows of 1, 2, 4, 8 or 16 bytes: the swizzled data holds one row
    in each 16-byte chunk.  [UnswizzleFromMem] returns [tmpTexBuf32] holding
    the rows back to back: byte [j] of row [y] is byte [j] of chunk [y] of
    the data at [texaddr], for every row of the [8 * byc] rows the block
    loop covers.  No memory outside [tmpTexBuf32] is written. *)
Theorem UnswizzleFromMem_narrow `{P : Platform} (g : GPUgstate) (m : Heap)
    (texaddr bufw bytesPerPixel level y j : Z) :
  let rowWidth := Unswizzle_rowWidth bufw bytesPerPixel in
  rowWidth = 1 \/ rowWidth = 2 \/ rowWidth = 4 \/ rowWidth = 8
  \/ rowWidth = 16 ->
  0 <= y < 8 * Unswizzle_byc g level -> 0 <= j < rowWidth ->
  let r := UnswizzleFromMem g m texaddr bufw bytesPerPixel level in
  snd r = tmpTexBuf32_data
  /\ load8 (fst r) (padd tmpTexBuf32_data (rowWidth * y + j))
     = load8 m (padd (Memory_GetPointer texaddr) (16 * y + j))
  /\ (forall q, blk q <> TmpTexBuf32 -> load8 (fst r) q = load8 m q).
Proof.
  cbv zeta. intros HR Hy Hj.
  rewrite UnswizzleFromMem_unfold. cbv zeta. cbn [fst snd].
  set (R := Unswizzle_rowWidth bufw bytesPerPixel) in *.
  set (byc := Unswizzle_byc g level) in *.
  assert (Hsrc : blk (Memory_GetPointer texaddr) <> TmpTexBuf32)
    by (cbn; discriminate).
  assert (Hbyc : 8 * Z.of_nat (Z.to_nat byc) = 8 * byc)
    by (rewrite Z2Nat.id; lia).
  split; [reflexivity|].
  assert (Hnarrow :
    forall inner per, 0 <= R ->
      (forall m0 src ydest, blk src <> TmpTexBuf32 ->
         snd (fst (inner m0 src ydest per)) = padd src (16 * 8)
         /\ snd (inner m0 src ydest per) = ydest + 2 * R
         /\ unswizzled_rows R 8 m0 (fst (fst (inner m0 src ydest per)))
              src ydest) ->
      let m' := Unswizzle_by inner per m (Memory_GetPointer texaddr) 0
                  (Z.to_nat byc) in
      load8 m' (padd tmpTexBuf32_data (R * y + j))
      = load8 m (padd (Memory_GetPointer texaddr) (16 * y + j))
      /\ (forall q, blk q <> TmpTexBuf32 -> load8 m' q = load8 m q)).
  { intros inner per HR0 Hin. cbv zeta.
    destruct (Unswizzle_by_spec inner per R HR0 Hin (Z.to_nat byc) m
                (Memory_GetPointer texaddr) 0 Hsrc) as [F C].
    split.
    - replace (R * y + j) with (4 * 0 + R * y + j) by lia.
      apply C; lia.
    - intros q Hq. apply F. left. exact Hq. }
  destruct HR as [HR | [HR | [HR | [HR | HR]]]]; rewrite HR in *;
    cbn [Z.leb Z.eqb Z.compare Pos.compare Pos.compare_cont Pos.eqb].
  - apply Hnarrow; [lia|]. intros m0 src ydest Hs.
    apply (Unswizzle1_n_spec 2 m0 src ydest Hs).
  - apply Hnarrow; [lia|]. intros m0 src ydest Hs.
    apply (Unswizzle2_n_spec 4 m0 src ydest Hs).
  - apply Hnarrow; [lia|]. intros m0 src ydest Hs.
    apply (Unswizzle4_n_spec 8 m0 src ydest Hs).
  - apply Hnarrow; [lia|]. intros m0 src ydest Hs.
    apply (Unswizzle8_n_spec 8 m0 src ydest Hs).
  - change (16 / 4) with 4. change (16 / 16) with 1.
    split.
    + pose proof (Z.div_mod y 8 ltac:(lia)) as Hd.
      pose proof (Z.mod_pos_bound y 8 ltac:(lia)) as Hb.
      assert (Hq8 : 0 <= y / 8 < Z.of_nat (Z.to_nat byc)).
      { rewrite Z2Nat.id by lia. split; [apply Z.div_pos; lia|].
        apply Z.div_lt_upper_bound; lia. }
      pose proof (Unswizzle16_by_spec 16 4 (Z.to_nat 1)
                    ltac:(apply Z.leb_le; reflexivity)
                    ltac:(apply Z.leb_le; reflexivity) (Z.to_nat byc) m
                    tmpTexBuf32_data (Memory_GetPointer texaddr)
                    ltac:(cbn; discriminate) (y / 8) 0 (y mod 8) j
                    Hq8 ltac:(change (Z.of_nat (Z.to_nat 1)) with 1; lia) Hb Hj)
        as E.
      change (Z.of_nat (Z.to_nat 1)) with 1 in E.
      change (16 * 8 / 4) with 32 in E.
      replace (4 * 32 * (y / 8) + 16 * 0 + 4 * 4 * (y mod 8) + j)
        with (16 * y + j) in E by lia.
      replace (16 * (8 * (1 * (y / 8) + 0) + y mod 8) + j)
        with (16 * y + j) in E by lia.
      exact E.
    + intros q Hq. apply Unswizzle16_by_frame. intros Eb. contradiction.
Qed.

Lemma UnswizzleFromMem_narrow_witness :
  (Unswizzle_rowWidth 4 0 = 1 \/ Unswizzle_rowWidth 4 0 = 2
   \/ Unswizzle_rowWidth 4 0 = 4 \/ Unswizzle_rowWidth 4 0 = 8
   \/ Unswizzle_rowWidth 4 0 = 16)
  /\ 0 <= 5 < 8 * Unswizzle_byc narrow_gstate 0
  /\ 0 <= 1 < Unswizzle_rowWidth 4 0
  /\ load8 (fst (@UnswizzleFromMem (example_platform false)
                   narrow_gstate ramp_heap 0x08900000 4 0 0))
       (mkPtr TmpTexBuf32 11)
     = load8 ramp_heap (mkPtr HostMem (0x08900000 + 81)).
Proof.
  assert (H1 : Unswizzle_rowWidth 4 0 = 1 \/ Unswizzle_rowWidth 4 0 = 2
               \/ Unswizzle_rowWidth 4 0 = 4 \/ Unswizzle_rowWidth 4 0 = 8
               \/ Unswizzle_rowWidth 4 0 = 16)
    by (right; left; reflexivity).
  assert (H2 : 0 <= 5 < 8 * Unswizzle_byc narrow_gstate 0) by (cbn; lia).
  assert (H3 : 0 <= 1 < Unswizzle_rowWidth 4 0) by (cbn; lia).
  repeat (split; [assumption|]).
  exact (proj1 (proj2 (@UnswizzleFromMem_narrow (example_platform false)
                         narrow_gstate ramp_heap 0x08900000 4 0 0
                         5 1 H1 H2 H3))).
Defined.

(** ** No entry is ever RELIABLE

    No statement of the file stores STATUS_RELIABLE: [status] is written by
    clearing the trust bits, by or-ing in STATUS_UNRELIABLE or an alpha
    flag, by clearing the alpha bits and by storing STATUS_HASHING.  Each
    operation therefore keeps both maps free of RELIABLE entries, and they
    start empty. *)















(** [Invalidate] and [InvalidateAll] *)





(** [Clear], [Decimate], [ClearNextFrame] and [StartFrame] *)





(** [NotifyFramebuffer] *)




(** [SetTexture] *)













